(* ===== verification/_CoqProject ===== *)
-Q . S2P
Prelude.v
BTreeMap.v
Bytesrepr.v
Uint.v
Types.v
CLValues.v
Account.v
StoredValue.v
Transform.v
Trie.v
TrieStore.v
TrieSpec.v
TrieWrite.v
TrieKeys.v
GlobalState.v
StoreSim.v
TrackingCopy.v
ByteSize.v
Execution.v
Mint.v
Stakes.v
ProofOfStake.v
PosProgress.v
ApiError.v
ProtocolData.v
ExecutionError.v
RuntimeContext.v
ContextSafety.v
ExtractURefs.v
Runtime.v
HostFunctions.v
RuntimeSafety.v
Confinement.v
ExecutionResult.v
TrackingCopyExt.v
Executor.v
PosContract.v
EngineState.v
InMemoryState.v
LmdbState.v
EngineSafety.v
ContractApi.v
ContractRuns.v
LocalCells.v
URefCells.v
SystemContracts.v
MintRuns.v
Erc20.v
Erc20Contract.v
Erc20Runs.v
Vesting.v
VestingContract.v
VestingRuns.v
Contracts.v
Ipc.v
StateMappings.v
IpcMappings.v
EngineServer.v
Logging.v
Metrics.v
Witnesses.v
EngineWitnesses.v
ContractWitnesses.v
Erc20Witnesses.v
VestingWitnesses.v
ServerWitnesses.v
MintWitnesses.v
MetricsWitnesses.v
LmdbWitnesses.v
