(* ===== verification/Prelude.v ===== *)
(** * The CasperLabs execution engine: data, state, contracts and deploys

    The execution engine (the Rust part of the repository, under
    [src/execution-engine/]) keeps the state of the blockchain in a Merkle trie:
    a root hash denotes a finite map from keys to stored values.  A deploy is
    executed on the map of one root and yields a list of transforms, the
    effects; committing the effects gives a new root, and the old one stays
    readable.  Money is kept in purses by a system contract, the mint; a second
    one, proof of stake, bonds validators and settles payments through it.
    Everything that is stored or crosses a contract boundary is serialized by
    the [bytesrepr] format.

    A contract is a Wasm module.  It runs in a runtime, whose host functions are
    all it can do to the world: they work on the context of the run, which knows
    what the contract may touch, and through it on a tracking copy of the state.
    The engine drives this: it checks who sends a deploy, runs its payment code,
    its session code and the settlement, and combines what they did and cost.
    Contracts written in Rust use a library that serializes values into the
    memory of the module and calls the host functions.  The node talks to the
    engine through a gRPC service that converts requests and results from and to
    messages.  The engine logs structured messages, and a second program reads the
    metrics among them from its output and serves them over HTTP.

    ** Files

    - [Prelude]: results of fallible code ([outcome]: a value, an error, or a
      panic), stateful code ([eff]: state passing with errors, notation
      [let! x := m in k]), bytes, little-endian integers, wrapping to a width,
      equality modulo a power of two, and the tactics and hints of the library.
    - [BTreeMap]: Rust's ordered maps as sorted association lists; a class of
      orders with its laws.
    - [Bytesrepr] ([types/src/bytesrepr.rs]): one pair of functions per
      [ToBytes]/[FromBytes] implementation.  The classes [CodecLaws] (reading
      back what was written), [CodecExact] (one encoding per value) and
      [CodecSafe] (no panic) are the interface on which all later formats are
      built.
    - [Uint] ([types/src/uint.rs]): the 128, 256 and 512 bit integers, as numbers
      with explicit reduction, and the conversions between all numeric types.
    - [Types] ([access_rights.rs], [uref.rs], [key.rs], [contract_ref.rs],
      [account.rs], [block_time.rs], [phase.rs], [semver.rs],
      [protocol_version.rs] of [types/src/]).
    - [CLValues] ([cl_type.rs], [cl_value.rs]): self-describing values.
    - [Account] ([engine-shared/src/account.rs] and [account/]): associated keys,
      action thresholds, authorization; the steps that key management can take
      are a relation, [account_step].
    - [StoredValue] ([engine-shared/src/contract.rs], [stored_value.rs]).
    - [Transform] ([engine-shared/src/transform.rs], [additive_map.rs],
      [engine-core/src/engine_state/op.rs]): effects on stored values, how they
      are applied and how they are summed.
    - [Trie] ([engine-storage/src/trie/mod.rs]): the elements of the trie.
    - [TrieStore] ([engine-storage/src/trie_store/operations/mod.rs],
      [store/mod.rs], [store/store_ext.rs]): the operations, over any store that
      satisfies the class [TransactionLaws].
    - [TrieSpec]: when a root is well formed ([root_wf]) and which map it denotes
      ([value_at]); [TrieWrite]: reading and writing implement lookup and update
      of that map; [TrieKeys]: the enumeration [keys] of a root visits exactly
      the keys of that map, each once.
    - [GlobalState] ([engine-storage/src/global_state/], [transaction_source/]):
      in-memory transactions as an instance of the class, the commit of effects,
      and, in the module [Writers], the interleavings of concurrent writers as a
      transition system.  [StoreSim]: two implementations of transactions that
      hold the same bytes cannot be told apart by the trie nor by a commit.
    - [TrackingCopy] ([engine-core/src/tracking_copy/mod.rs]): the view of the
      state one execution works on: a bounded cache of reads, the writes and
      additions made so far, the recorded effects, and path queries.
    - [ByteSize] ([tracking_copy/byte_size.rs], [meter.rs]): the sizes of cached
      values, an instance of the meter of the cache.
    - [Execution]: the tracking copy and the commit together.  The tracking copy
      is verified over any reader of which [reader_ok] holds, and the view of a
      well-formed root is such a reader.
    - [Mint] ([mint/src/], [contracts/system/mint-token/src/]): the operations
      over the class [StorageProvider], what they rely on ([StorageLaws]), and,
      in the module [ContractStorage], the storage of the deployed contract as an
      instance.
    - [Stakes] ([proof-of-stake/src/queue.rs], [stakes.rs]) and [ProofOfStake]
      ([proof-of-stake/src/lib.rs]): queues, stakes and the contract's entries
      over the class [PosProviders] with the laws [PosLaws].
    - [PosProgress]: a step of proof of stake serves what is due.
    - [ApiError] ([types/src/api_error.rs], [system_contract_type.rs],
      [transfer_result.rs]): the errors contracts see and their codes.
    - [ProtocolData] ([engine-storage/src/protocol_data.rs],
      [engine-wasm-prep/src/wasm_costs.rs], [engine-shared/src/gas.rs],
      [motes.rs]) and [ExecutionError] ([engine-core/src/execution/error.rs],
      [engine_state/error.rs]).
    - [RuntimeContext] ([engine-core/src/runtime_context/mod.rs],
      [execution/address_generator.rs]): the operations of a run on the state and
      their checks of rights; [ContextSafety]: sequences of these operations as a
      relation, [context_step], and what they cannot do.
    - [ExtractURefs] ([extract_urefs] and [extract_access_rights_from_*] of
      [engine-core/src/execution/runtime/mod.rs]): the references a value hands
      over.  The nested matches of the source on pairs of types are one lookup of
      the listed types ([leaf_of]) here.
    - [Runtime] ([execution/runtime/mod.rs],
      [engine_state/system_contract_cache.rs], [contract/src/args_parser.rs]):
      every host function, and calls between contracts.  [HostFunctions]
      ([runtime/externals.rs], [runtime/args.rs], [resolvers/]): their names,
      signatures, arguments and dispatch.  [RuntimeSafety]: runs of a module as
      sequences of computations and host calls, [host_step], and the class
      [HostRelation] of what every host function keeps.  [Confinement]: what such
      a run did, seen from its context ([contract_run]), with the changes that
      transfers and calls of other contracts make, and what a commit of it can
      change.
    - [ExecutionResult] ([engine_state/execution_result.rs],
      [execution_effect.rs]): results of the parts of a deploy and their
      combination; [TrackingCopyExt] ([tracking_copy/ext.rs]): lookups of
      accounts, contracts and balances; [Executor] ([execution/executor.rs],
      [engine-wasm-prep/src/lib.rs]): preparing a module and running it.
    - [PosContract] ([contracts/system/pos/src/], [engine_state/utils.rs]): the
      stakes and queues of the deployed proof-of-stake contract.
    - [EngineState] ([engine_state/mod.rs] and the requests and results beside
      it): queries, deploys, commits, upgrades and genesis over the class
      [StateProvider]; [InMemoryState]: the in-memory global state as an instance
      with its laws; [LmdbState] ([lmdb.rs] of [engine-storage/src/global_state/],
      [transaction_source/], [trie_store/], [protocol_data_store/]): the state on
      disk as another one, over the class [Lmdb]; [EngineSafety]: what the engine
      guarantees.
    - [ContractApi] ([contract/src/contract_api/], [unwrap_or_revert.rs],
      [ext_ffi.rs] under [contract/src/]): every function a contract can call,
      down to the imported host function with its pointers and lengths.
      [ContractRuns]: these functions over the host functions of [Runtime] and the
      dispatch of [HostFunctions], with the blocks of memory they use;
      [LocalCells]: groups of typed cells in a contract's local storage;
      [URefCells]: values behind references, with the rights the host checks.
    - [SystemContracts] ([contracts/system/mint-token/src/],
      [contracts/system/pos/src/]): the deployed mint and proof of stake, whose
      providers are instances of the classes of [Mint] and [ProofOfStake] over
      [ContractApi]; a [Machine] keeps the reason when the host ends a run.
      [MintRuns]: the deployed mint over the host functions.
    - [Erc20] ([contracts/examples/erc20-logic/src/lib.rs]): the logic of the
      example token over any storage (the class [ERC20Trait] with the laws
      [TokenLaws]) and the abstract token ([spec_call]); [Erc20Contract]
      ([contracts/examples/erc20-smart-contract/src/]): the deployed contract;
      [Erc20Runs]: its storage is an instance of the class.
    - [Vesting] ([contracts/examples/vesting-logic/src/lib.rs]),
      [VestingContract] ([contracts/examples/vesting-smart-contract/src/]) and
      [VestingRuns]: likewise for an amount that is released over time, with the
      classes [VestingTrait] and [VestingLaws].
    - [Contracts] ([contracts/client/], [contracts/explorer/faucet],
      [contracts/examples/], [contracts/system/mint-install],
      [contracts/system/pos-install]): the entries of these contracts.
    - [Ipc] ([src/protobuf/io/casperlabs/], [state.proto], [transforms.proto],
      [ipc.proto]): the messages, a record or a sum each.  [StateMappings] and
      [IpcMappings] ([engine-grpc-server/src/engine_server/mappings/]): the
      conversions, with the class [Mapping] of those that lose nothing;
      [EngineServer] ([engine_server/mod.rs]): the handlers of the service.
    - [Logging] ([engine-shared/src/logging/], [utils.rs]): levels, settings,
      messages from templates, the terminal and the buffered logger and the
      functions the engine logs with; its module [Settings] has the threads that
      set and read the settings as a transition system, in which the reference to
      the provider is written and read a word at a time.  [Metrics]
      ([engine-metrics-scraper/src/]): the accumulator with interleaved pushes and
      drains (module [Accumulator]), the sink and the server over the traits
      [Pusher] and [Drainer] with the laws [Queue].
    - [Witnesses], [EngineWitnesses], [ContractWitnesses], [Erc20Witnesses],
      [VestingWitnesses], [ServerWitnesses], [MintWitnesses], [MetricsWitnesses]
      and [LmdbWitnesses]: concrete instances of every parameter (a hash function, a hexadecimal codec, a host with a ledger of
      purses, a memory with an allocator, modules, a small chain, a token with two
      holders, a vault) and an input at which the hypotheses of each theorem hold.

    ** How the code is modelled

    Functions that can fail return an [outcome]; [Err] carries the error value of
    the source and [Panic] stands for a panic, an [unwrap] of an error, an index
    out of range or an overflow of a checked operator.  A codec works on lists of
    bytes, and a reader returns the rest of its input.  Integers are numbers in
    [Z] with reduction to their width written out wherever the code can exceed
    it.  A method that changes its receiver returns the new one.  Code that calls
    the host is a function of the host's state.

    Parameters stand for code outside the repository: the blake2b hash
    ([Hasher]; relied on: digests have 32 bytes), the hexadecimal codec
    ([HexLaws]), the allocator ([Allocator]), the text of debug output
    ([DebugText]), the host's generator of addresses ([AddressGenerator]; relied
    on: it does not repeat itself), the linked hash map under the cache
    ([LinkedHashMap]; relied on: an inserted or refreshed key comes last), the
    heap-size meter ([Meter]; relied on: sizes are not negative), the text of
    query errors and of mismatches ([QueryText], [MismatchText]), the random
    number generator under the addresses of a deploy ([Rng]), the Wasm libraries
    ([Platform], [WasmPrep], [WasmValues]; relied on: an argument that is there is
    read as the unsigned integer with its bits), their errors ([ForeignErrors]),
    the sizes that the readers of vectors reserve ([Layout]), the base16 and
    decimal text of stakes ([StakeText]; relied on: digits read back), the sizes
    of types in memory ([Sizes]; relied on: they are not negative), the allocator
    of a contract ([Heap]; relied on: a block it gives out lies in the memory,
    apart from the blocks in use), the result of an imported function
    ([WasmResults]) and which imports a module was linked with ([Imports]), the
    conversion of a [U256] to bytes in the uint crate ([U256Bytes]), the decimal
    text of wide integers ([UintText]; relied on: what is printed is parsed), the
    texts of errors ([Debug], [Display]), the LMDB database ([Lmdb]; relied on: a
    transaction sees its writes over a snapshot, and a commit publishes them), the
    JSON text of log messages ([Json]; relied on: it is read back and is one line)
    and the clock and hash they carry ([LogSystem]).  A run of a
    module is the parameter [invoke_call]; the theorem on what a session costs
    asks that a run is a sequence of computations and host calls ([sandboxed]).
    The computation of a module between host calls can change its memory only.
    No theorem assumes that the hash is
    injective: those on writes and commits ask that the elements about to be
    stored do not collide with stored ones, a computable test
    ([no_collision_b], [commit_no_collision]).

    ** Fuel

    [read] and [scan] walk from the root towards a leaf.  Each step but
    the last consumes at least one byte of the key's path, so a walk visits at
    most one element more than the key has bytes; [trie_read_correct] and
    [trie_write_outcome] show that fuel above the length of the serialized key
    always suffices.  A serialized [Key] has at most 35 bytes, and the global
    state uses 36 ([KEY_FUEL]).  The parser of type descriptors recurses on the
    input that is left, and its fuel is the length of the input
    ([cl_type_from_bytes_spec]: it never runs out).  [keys] is an iterator with a
    stack; its fuel counts the rounds of its loop, and [trie_keys_correct] shows
    that some fuel suffices and that more changes nothing.  The eviction loop of
    the cache removes an entry per round, so its fuel is the number of entries.
    A contract's blocks of memory are not given back, so a run needs room: the
    theorems on token and vault ask for a bound on the memory that is free at the
    start, 256 bytes per access to storage and as many accesses as the longest
    command makes ([serving]; the cells of these contracts hold at most 100 bytes),
    and the theorem on local storage in general asks for the serialized sizes.

    ** What the theorems show

    - The trie implements a persistent map: [trie_read_correct],
      [trie_write_read], [trie_write_outcome].  A commit applies each effect to
      the value before it, all or nothing, in whatever order the effects come:
      [commit_correct], [commit_order_irrelevant].  [keys] enumerates the map:
      [trie_keys_correct].  Writers exclude each other
      but are not serializable: [Writers.writers_exclusive],
      [Writers.writers_lose_update].  The state on disk answers every sequence of
      requests like the one in memory: [lmdb_indistinguishable].
    - An execution reads its own writes through the tracking copy
      ([tracking_copy_spec], [tc_query_spec]), the reads it keeps stay within
      the size of the cache ([tracking_copy_cache]), and committing the recorded
      effects produces the state the execution saw, except at keys whose additions
      were summed in a type too small for them ([execution_commit]; [tc_run]
      collects these keys).
    - Money: transfers conserve the total supply and only the system mints
      ([mint_transfer_spec], [mint_creates], [mint_balance_spec]); proof of stake
      stays solvent, unless a validator bonds from the bonding purse itself
      ([pos_surplus]); payments are settled by the system alone
      ([pos_finalize_spec], [pos_purses_spec]); queues and stakes
      ([queue_spec], [stakes_unbond_spec]); every request that is due is served
      by the next step ([requests_served]); stakes survive their encoding as
      names ([contract_stakes_roundtrip]).
    - Contracts: by itself a contract cannot forge a reference
      ([context_authority]), and what it changes is its own, what it has or is
      given rights for, an account it creates by a transfer, or what a contract it
      calls changes ([context_confined], over whole runs and down to the committed
      root); the rights handed
      over with arguments and results are those of the references in them
      ([extract_urefs_exact], [access_rights_extracted]), but a caller trusts
      what a callee returns ([returned_references_trusted]).  Host functions have
      the types they are exported with ([host_calls_typed]), gas stays within its
      limit ([gas_metered]), and values pass through the host buffer unharmed
      ([host_buffer_spec]).
    - Contracts over the host functions: a value written to local storage is read
      back and nothing else changes, through memory, argument parsing, tracking
      copy and host buffer ([contract_local_storage]).  The deployed token and the
      deployed vesting contract do what their abstract versions promise, or revert
      with the error of the failure ([erc20_contract_refines],
      [erc20_contract_init], [vesting_contract_refines]; the statements say where
      they do otherwise: a payment to oneself, sums that cannot be represented, and
      withdrawals after the administrator took back the rest), and so does the deployed
      mint for transfers and balances ([mint_contract_transfers],
      [mint_contract_balances]); the balances of the token
      add up to the supply ([erc20_supply]; except after a transfer to oneself,
      [erc20_self_transfer]), nothing vests early ([vesting_never_early]; but more
      than the total can be withdrawn, [vesting_exceeds_total]), and only the
      administrator and the recipient get past the checks
      ([vesting_contract_guarded]).
    - The service: what the node commits is what was executed
      ([executed_effects_commit], from the deploys of a request to the commit of
      their results), queries are answered with the value a path leads to in the
      map that a root denotes ([query_answered]), messages that are accepted are well formed
      ([accepted_entries_formed]) and values cross unchanged
      ([messages_roundtrip]).
    - The log: settings that are in place stay ([Settings.settings_set_once];
      a reader that came before may get a mixed reference,
      [Settings.settings_torn_read]),
      messages are their templates filled in ([formatted_message_spec]), the buffer
      hands out what it is asked for ([drain_spec], [extract_correlated_spec]).
      Metrics keep their order through the accumulator
      ([Accumulator.accumulator_order]), and those the engine logs are the ones
      that are served ([metrics_served]).
    - Deploys: only an entitled account's deploy has an effect
      ([deploy_authorized]); what is run is paid for ([session_affordable]); the
      parts are combined as specified ([build_spec]), and a payment that fails is
      charged ([forced_payment_spec]).  Upgrades without an installer
      ([upgrade_without_installer]).
    - Accounts cannot lock themselves out, and the saturating weight arithmetic
      decides like the exact one: [account_never_locked], [key_changes_exact].
    - Summing transforms agrees with applying them in turn, except where the sum
      is cut to 32 bits or mixes two widths: [transform_add_apply],
      [transform_add_truncates], [transform_add_mixed_widths].
    - Formats round-trip and readers of untrusted bytes do not panic:
      [btreemap_codec_spec], [uint_codec_spec], [key_codec_exact],
      [cl_type_from_bytes_spec], [cl_value_roundtrip], [stored_value_roundtrip],
      [associated_keys_decode], [mint_error_codes]; text forms:
      [parse_hash_encode], [uref_as_string_inj]; conversions: [as_spec];
      versions: [check_next_version_spec].

    ** What is not modelled

    The Wasm interpreter and the rewriting of modules belong to libraries.  The
    process around the gRPC service and the one around the scraper (command lines,
    sockets, opening the files of a database), the durations the engine measures
    for its log, the test support and the contracts of the test suites are input
    and output or tests.  Of a module only its exported functions and the sequence
    of its host calls matter here; the allocator and the panic handler of contracts
    are left out, and so is the output of [Display] and [Debug] that no code reads.
    The methods of the deployed mint that create purses, those of the deployed
    proof of stake, the key manager and the installers are modelled down to the
    functions they call, but only transfers, balances, stakes, the token and the
    vesting contract are followed through the memory of a run. *)

From Stdlib Require Export ZArith Lia List Sorted.
From Stdlib Require Export Strings.Byte.
From Stdlib Require Strings.String.
Export Strings.String.StringSyntax.
From stdpp Require Export base decidable countable list option relations.

#[global] Set Default Goal Selector "!".
#[global] Open Scope Z_scope.
#[global] Open Scope list_scope.

(** * Outcome of a Rust call

    A call of type [Result<A, E>] returns [Ok], returns [Err], or panics
    (an [unwrap] on an error, a failed [assert!], an out-of-range index,
    an overflowing [U512] operation). *)

Inductive outcome (E A : Type) : Type :=
| Ok (a : A)
| Err (e : E)
| Panic.

Arguments Ok {E A} a.
Arguments Err {E A} e.
Arguments Panic {E A}.

Definition obind {E A B} (m : outcome E A) (f : A -> outcome E B) : outcome E B :=
  match m with
  | Ok a => f a
  | Err e => Err e
  | Panic => Panic
  end.

Definition outcome_map {E A B} (f : A -> B) (m : outcome E A) : outcome E B :=
  obind m (fun a => Ok (f a)).

(** [Result::map_err]. *)
Definition omap_err {E F A} (f : E -> F) (m : outcome E A) : outcome F A :=
  match m with
  | Ok a => Ok a
  | Err e => Err (f e)
  | Panic => Panic
  end.

(** [Option::ok_or]. *)
Definition ok_or {E A} (o : option A) (e : E) : outcome E A :=
  match o with
  | Some a => Ok a
  | None => Err e
  end.

(** [assert!] and [debug_assert!]. *)
Definition oassert {E} (b : bool) : outcome E unit :=
  if b then Ok tt else Panic.

(** Early [return Err(e)] when the guard holds. *)
Definition oguard {E} (b : bool) (e : E) : outcome E unit :=
  if b then Err e else Ok tt.

Declare Scope outcome_scope.
Delimit Scope outcome_scope with outcome.

Notation "'let?' x := m 'in' k" := (obind m (fun x => k))
  (at level 10, x name, m at level 100, k at level 200)
  : outcome_scope.
Notation "'let?' ' p := m 'in' k" := (obind m (fun x => match x with p => k end))
  (at level 10, p pattern, m at level 100, k at level 200)
  : outcome_scope.

#[global] Open Scope outcome_scope.

(** * Stateful code

    An operation of a contract on a state [S]: its outcome, and the state it
    leaves behind, also when it returns an error. *)

Definition eff (S E A : Type) : Type := S -> outcome E A * S.

Definition eret {S E A} (a : A) : eff S E A := fun s => (Ok a, s).

Definition ebind {S E A B} (m : eff S E A) (f : A -> eff S E B) : eff S E B :=
  fun s =>
    match m s with
    | (Ok a, s') => f a s'
    | (Err e, s') => (Err e, s')
    | (Panic, s') => (Panic, s')
    end.

(** An outcome that does not touch the state. *)
Definition elift {S E A} (o : outcome E A) : eff S E A := fun s => (o, s).

Definition emap_err {S E F A} (f : E -> F) (m : eff S E A) : eff S F A :=
  fun s => let '(o, s') := m s in (omap_err f o, s').

(** The [Result] of a call as a value, for code that does not use [?]. *)
Definition etry {S E F A} (m : eff S E A) : eff S F (A + E) :=
  fun s =>
    match m s with
    | (Ok a, s') => (Ok (inl a), s')
    | (Err e, s') => (Ok (inr e), s')
    | (Panic, s') => (Panic, s')
    end.

Notation "'let!' x := m 'in' k" := (ebind m (fun x => k))
  (at level 10, x name, m at level 100, k at level 200)
  : outcome_scope.
Notation "'let!' ' p := m 'in' k" := (ebind m (fun x => match x with p => k end))
  (at level 10, p pattern, m at level 100, k at level 200)
  : outcome_scope.

(** Runs [f] on each element, left to right, and stops at the first failure:
    [try_for_each], or a [for] loop whose body uses [?]. *)
Fixpoint try_for_each {E A} (f : A -> outcome E unit) (l : list A) : outcome E unit :=
  match l with
  | [] => Ok tt
  | x :: l' => let? _ := f x in try_for_each f l'
  end.

(** [iter().map(f).collect::<Result<Vec<_>, _>>()]. *)
Fixpoint try_collect {E A B} (f : A -> outcome E B) (l : list A) : outcome E (list B) :=
  match l with
  | [] => Ok []
  | x :: l' => let? y := f x in let? ys := try_collect f l' in Ok (y :: ys)
  end.

Fixpoint efor_each {S E A} (f : A -> eff S E unit) (l : list A) : eff S E unit :=
  match l with
  | [] => eret tt
  | x :: l' => let! _ := f x in efor_each f l'
  end.

(** * Bytes and machine integers *)

Abbreviation bytes := (list byte).

Definition byte_to_Z (b : byte) : Z := Z.of_N (Byte.to_N b).

Definition byte_of_Z (z : Z) : byte :=
  match Byte.of_N (Z.to_N (z mod 256)) with
  | Some b => b
  | None => x00
  end.

(** Bytes of a literal, such as a name of a well-known key. *)
Definition str (s : String.string) : bytes := String.list_byte_of_string s.

Arguments str s%_string_scope.

Definition u8_max : Z := 255.
Definition u32_max : Z := 4294967295.
Definition u64_max : Z := 18446744073709551615.
Definition i32_min : Z := -2147483648.

(** Reduction to an unsigned or a two's complement width of [w] bits. *)
Definition wrap_unsigned (w z : Z) : Z := z mod 2 ^ w.

Definition wrap_signed (w z : Z) : Z := (z + 2 ^ (w - 1)) mod 2 ^ w - 2 ^ (w - 1).

Definition is_unsigned (w z : Z) : Prop := 0 <= z < 2 ^ w.

Definition is_signed (w z : Z) : Prop := - 2 ^ (w - 1) <= z < 2 ^ (w - 1).

(** [slice.len()]. *)
Definition zlen {A} (l : list A) : Z := Z.of_nat (length l).

(** Little-endian representation on [n] bytes, [to_le_bytes] and
    [from_le_bytes] of the integer types. *)
Fixpoint to_le_bytes (n : nat) (z : Z) : bytes :=
  match n with
  | O => []
  | S n' => byte_of_Z z :: to_le_bytes n' (z / 256)
  end.

Fixpoint from_le_bytes (bs : bytes) : Z :=
  match bs with
  | [] => 0
  | b :: bs' => byte_to_Z b + 256 * from_le_bytes bs'
  end.

(** * Automation *)

Create HintDb casper.
Create Rewrite HintDb casper_rw.

(** Destructs the scrutinee of a match in the goal or in a hypothesis. *)
Ltac case_step :=
  match goal with
  | H : context [match ?x with _ => _ end] |- _ => destruct x eqn:?
  | |- context [match ?x with _ => _ end] => destruct x eqn:?
  end.

(** Simplifies a chain of [let?] whose result is known. *)
Ltac obind_inv :=
  repeat match goal with
  | H : obind ?m _ = Ok _ |- _ => destruct m eqn:?; cbn [obind] in H; try discriminate H
  | H : outcome_map _ ?m = Ok _ |- _ => unfold outcome_map in H
  | H : oguard ?b _ = Ok _ |- _ => unfold oguard in H; destruct b eqn:?; try discriminate H
  | H : oassert ?b = Ok _ |- _ => unfold oassert in H; destruct b eqn:?; try discriminate H
  | H : ok_or ?o _ = Ok _ |- _ => destruct o eqn:?; cbn [ok_or] in H; try discriminate H
  | H : omap_err _ ?m = Ok _ |- _ => destruct m eqn:?; cbn [omap_err] in H; try discriminate H
  | H : Ok _ = Ok _ |- _ => injection H as H; subst
  | H : (_, _) = (_, _) |- _ => injection H as ? ?; subst
  | H : Err _ = Ok _ |- _ => discriminate H
  | H : Panic = Ok _ |- _ => discriminate H
  | x : (_ * _)%type |- _ => destruct x
  end.

(** Turns boolean tests of the code into propositions. *)
Ltac breflect :=
  repeat match goal with
  | H : negb _ = true |- _ => apply Bool.negb_true_iff in H
  | H : negb _ = false |- _ => apply Bool.negb_false_iff in H
  | H : _ && _ = true |- _ => apply andb_true_iff in H as [? ?]
  | H : _ || _ = false |- _ => apply orb_false_iff in H as [? ?]
  | H : bool_decide _ = true |- _ => apply bool_decide_eq_true in H
  | H : bool_decide _ = false |- _ => apply bool_decide_eq_false in H
  | H : (_ <? _) = true |- _ => apply Z.ltb_lt in H
  | H : (_ <? _) = false |- _ => apply Z.ltb_ge in H
  | H : (_ <=? _) = true |- _ => apply Z.leb_le in H
  | H : (_ <=? _) = false |- _ => apply Z.leb_gt in H
  | H : (_ =? _) = true |- _ => apply Z.eqb_eq in H
  | H : (_ =? _) = false |- _ => apply Z.eqb_neq in H
  | H : (_ >? _) = _ |- _ => rewrite Z.gtb_ltb in H
  | H : (_ >=? _) = _ |- _ => rewrite Z.geb_leb in H
  end.

(** * Lemmas on outcomes *)

Lemma Ok_inj {E A} (a b : A) : Ok (E := E) a = Ok b -> a = b.
Proof. by intros [= ->]. Qed.

Lemma obind_ok {E A B} (m : outcome E A) (f : A -> outcome E B) b :
  obind m f = Ok b <-> exists a, m = Ok a /\ f a = Ok b.
Proof.
  destruct m; cbn; split; try done.
  - eauto.
  - by intros (? & [= ->] & ?).
  - by intros (? & ? & ?).
  - by intros (? & ? & ?).
Qed.

Lemma obind_safe {E A B} (m : outcome E A) (f : A -> outcome E B) :
  m <> Panic -> (forall a, f a <> Panic) -> obind m f <> Panic.
Proof. destruct m; [intros _ Hf; apply Hf | discriminate | congruence]. Qed.

Lemma obind_err {E A B} (m : outcome E A) (f : A -> outcome E B) e :
  obind m f = Err e -> m = Err e \/ exists a, m = Ok a /\ f a = Err e.
Proof. destruct m as [a|e'|]; [by right; exists a | by intros [= <-]; left | done]. Qed.

Lemma obind_assoc {E A B C} (m : outcome E A) (f : A -> outcome E B) (g : B -> outcome E C) :
  obind (obind m f) g = obind m (fun a => obind (f a) g).
Proof. by destruct m. Qed.

Lemma try_for_each_ok {E A} (f : A -> outcome E unit) l :
  try_for_each f l = Ok tt <-> Forall (fun x => f x = Ok tt) l.
Proof.
  induction l as [|x l IH]; cbn; [split; auto|].
  rewrite Forall_cons_iff, <- IH. split.
  - intros H. apply obind_ok in H as ([] & ? & ?). auto.
  - intros [-> H]. exact H.
Qed.

Lemma try_collect_ok {E A B} (f : A -> outcome E B) l ys :
  try_collect f l = Ok ys <-> Forall2 (fun x y => f x = Ok y) l ys.
Proof.
  revert ys. induction l as [|x l IH]; intros ys; cbn.
  - split; [intros [= <-]; constructor | by inversion 1].
  - rewrite obind_ok. split.
    + intros (y & Hy & H). apply obind_ok in H as (ys' & H & [= <-]).
      constructor; [done | by apply IH].
    + inversion 1 as [|? y ? ys' Hy Hys]; subst. exists y. split; [done|].
      apply obind_ok. exists ys'. split; [by apply IH | done].
Qed.

Lemma ebind_ok {S E A B} (m : eff S E A) (f : A -> eff S E B) s b s' :
  ebind m f s = (Ok b, s') <-> exists a s1, m s = (Ok a, s1) /\ f a s1 = (Ok b, s').
Proof.
  unfold ebind. destruct (m s) as [[a|e|] s1]; split; try done.
  - eauto.
  - by intros (? & ? & [= <- <-] & ?).
  - by intros (? & ? & ? & ?).
  - by intros (? & ? & ? & ?).
Qed.

(** One step of a run. *)
Lemma ebind_run {S E A B} (m : eff S E A) (f : A -> eff S E B) s a s1 :
  m s = (Ok a, s1) -> ebind m f s = f a s1.
Proof. unfold ebind. by intros ->. Qed.

Lemma elift_run {S E A B} (a : A) (f : A -> eff S E B) s : ebind (elift (Ok a)) f s = f a s.
Proof. done. Qed.

(** * What stateful code preserves

    A relation between the state before and the state after, also when the code
    fails. *)

Definition preserves {S E A} (R : relation S) (m : eff S E A) : Prop :=
  forall s o s', m s = (o, s') -> R s s'.

Section preserves.
Context {S : Type} (R : relation S) `{!PreOrder R}.

Lemma preserves_pure {E A} (f : S -> outcome E A) : preserves R (fun s => (f s, s)).
Proof. by intros s o s' [= _ <-]. Qed.

Lemma preserves_ret {E A} (a : A) : preserves (E := E) R (eret a).
Proof. apply (preserves_pure (fun _ => Ok a)). Qed.

Lemma preserves_lift {E A} (o : outcome E A) : preserves R (elift o).
Proof. apply (preserves_pure (fun _ => o)). Qed.

Lemma preserves_update {E A} (o : S -> outcome E A) (f : S -> S) :
  (forall s, R s (f s)) -> preserves R (fun s => (o s, f s)).
Proof. by intros Hf s o' s' [= _ <-]. Qed.

Lemma preserves_bind {E A B} (m : eff S E A) (f : A -> eff S E B) :
  preserves R m -> (forall a, preserves R (f a)) -> preserves R (ebind m f).
Proof.
  intros Hm Hf s o s'. unfold ebind. destruct (m s) as [[a|e|] s1] eqn:Em; intros Hr.
  - transitivity s1; [by apply (Hm s (Ok a)) | by apply (Hf a s1 o)].
  - injection Hr as _ <-. by apply (Hm s (Err e)).
  - injection Hr as _ <-. by apply (Hm s Panic).
Qed.

Lemma preserves_map_err {E F A} (f : E -> F) (m : eff S E A) : preserves R m -> preserves R (emap_err f m).
Proof. intros Hm s o s'. unfold emap_err. destruct (m s) as [o1 s1] eqn:Em. intros [= _ <-]. by apply (Hm s o1). Qed.

Lemma preserves_try {E F A} (m : eff S E A) : preserves R m -> preserves R (etry (F := F) m).
Proof.
  intros Hm s o s'. unfold etry. destruct (m s) as [[a|e|] s1] eqn:Em; intros [= _ <-]; by apply (Hm _ _ _ Em).
Qed.

Lemma preserves_use {E A X} (f : S -> X) (m : X -> eff S E A) :
  (forall x, preserves R (m x)) -> preserves R (fun s => m (f s) s).
Proof. intros Hm s o s'. apply Hm. Qed.
End preserves.

(** * Lemmas on bytes *)

Lemma byte_to_Z_range b : 0 <= byte_to_Z b < 256.
Proof. unfold byte_to_Z. pose proof (Byte.to_N_bounded b). lia. Qed.

Lemma byte_of_to_Z b : byte_of_Z (byte_to_Z b) = b.
Proof.
  unfold byte_of_Z. rewrite Z.mod_small by apply byte_to_Z_range.
  unfold byte_to_Z. by rewrite N2Z.id, Byte.of_to_N.
Qed.

Lemma byte_to_of_Z z : byte_to_Z (byte_of_Z z) = z mod 256.
Proof.
  unfold byte_of_Z. pose proof (Z.mod_pos_bound z 256 ltac:(lia)).
  destruct (Byte.of_N _) eqn:E.
  - unfold byte_to_Z. apply Byte.to_of_N in E. rewrite E. lia.
  - apply Byte.of_N_None_iff in E. lia.
Qed.

Lemma byte_to_Z_inj b1 b2 : byte_to_Z b1 = byte_to_Z b2 -> b1 = b2.
Proof. intros H. rewrite <- (byte_of_to_Z b1), <- (byte_of_to_Z b2). by rewrite H. Qed.

#[global] Instance byte_eq_dec : EqDecision byte.
Proof.
  intros a b. destruct (decide (byte_to_Z a = byte_to_Z b)) as [E|E].
  - left. by apply byte_to_Z_inj.
  - right. by intros ->.
Defined.

#[global] Program Instance byte_countable : Countable byte :=
  inj_countable' byte_to_Z byte_of_Z byte_of_to_Z.

#[export] Hint Resolve byte_to_Z_range : casper.
#[export] Hint Rewrite byte_of_to_Z byte_to_of_Z : casper_rw.

(** * Lemmas on little-endian integers *)

Lemma to_le_bytes_length n z : length (to_le_bytes n z) = n.
Proof. revert z. induction n as [|n IH]; intros z; cbn; [done|]. by rewrite IH. Qed.

Lemma from_le_bytes_range bs : 0 <= from_le_bytes bs < 256 ^ zlen bs.
Proof.
  unfold zlen. induction bs as [|b bs IH]; cbn [from_le_bytes length]; [cbn; lia|].
  rewrite Nat2Z.inj_succ, Z.pow_succ_r by lia. pose proof (byte_to_Z_range b). lia.
Qed.

Lemma from_to_le_bytes n z : from_le_bytes (to_le_bytes n z) = z mod 256 ^ Z.of_nat n.
Proof.
  revert z. induction n as [|n IH]; intros z; cbn [from_le_bytes to_le_bytes].
  - by rewrite Z.mod_1_r.
  - rewrite IH, byte_to_of_Z, Nat2Z.inj_succ, Z.pow_succ_r by lia.
    rewrite Z.rem_mul_r by lia. lia.
Qed.

Lemma from_to_le_bytes_small n z :
  0 <= z < 256 ^ Z.of_nat n -> from_le_bytes (to_le_bytes n z) = z.
Proof. intros H. rewrite from_to_le_bytes. by apply Z.mod_small. Qed.

Lemma to_from_le_bytes bs : to_le_bytes (length bs) (from_le_bytes bs) = bs.
Proof.
  induction bs as [|b bs IH]; cbn [from_le_bytes to_le_bytes length]; [done|].
  pose proof (byte_to_Z_range b). f_equal.
  - rewrite <- (byte_of_to_Z b) at 2. apply byte_to_Z_inj.
    rewrite !byte_to_of_Z. rewrite Z.mul_comm, Z.mod_add by lia.
    done.
  - replace ((byte_to_Z b + 256 * from_le_bytes bs) / 256) with (from_le_bytes bs); [done|].
    rewrite Z.mul_comm, Z.div_add, Z.div_small by lia. lia.
Qed.

Lemma from_le_bytes_app l1 l2 :
  from_le_bytes (l1 ++ l2) = from_le_bytes l1 + 256 ^ zlen l1 * from_le_bytes l2.
Proof.
  unfold zlen. induction l1 as [|b l1 IH]; cbn [from_le_bytes length app]; [cbn; lia|].
  rewrite IH, Nat2Z.inj_succ, Z.pow_succ_r by lia. lia.
Qed.

Arguments to_le_bytes : simpl never.
Arguments from_le_bytes : simpl never.

(** * Lemmas on machine integers *)

Lemma wrap_unsigned_range w z : 0 <= w -> is_unsigned w (wrap_unsigned w z).
Proof. intros. apply Z.mod_pos_bound. lia. Qed.

Lemma wrap_unsigned_small w z : is_unsigned w z -> wrap_unsigned w z = z.
Proof. apply Z.mod_small. Qed.

Lemma wrap_signed_range w z : 0 < w -> is_signed w (wrap_signed w z).
Proof.
  intros. unfold is_signed, wrap_signed.
  assert (2 ^ w = 2 * 2 ^ (w - 1)) as -> by (rewrite <- Z.pow_succ_r by lia; f_equal; lia).
  pose proof (Z.mod_pos_bound (z + 2 ^ (w - 1)) (2 * 2 ^ (w - 1))). lia.
Qed.

Lemma wrap_signed_small w z : 0 < w -> is_signed w z -> wrap_signed w z = z.
Proof.
  intros ? [? ?]. unfold wrap_signed.
  assert (2 ^ w = 2 * 2 ^ (w - 1)) as -> by (rewrite <- Z.pow_succ_r by lia; f_equal; lia).
  rewrite Z.mod_small by lia. lia.
Qed.

(** Equality modulo [2 ^ w], the equivalence that wrapping arithmetic respects. *)
Definition eqmod (w a b : Z) : Prop := a mod 2 ^ w = b mod 2 ^ w.

#[global] Instance eqmod_equivalence w : Equivalence (eqmod w).
Proof.
  split; unfold eqmod.
  - by intros ?.
  - by intros ? ? ->.
  - by intros ? ? ? -> ->.
Qed.

#[global] Instance eqmod_add w : Proper (eqmod w ==> eqmod w ==> eqmod w) Z.add.
Proof.
  unfold eqmod. intros a a' Ha b b' Hb.
  rewrite (Zplus_mod a), (Zplus_mod a'). by rewrite Ha, Hb.
Qed.

Lemma eqmod_wrap_unsigned w z : eqmod w (wrap_unsigned w z) z.
Proof. unfold eqmod, wrap_unsigned. apply Zmod_mod. Qed.

Lemma eqmod_wrap_signed w z : eqmod w (wrap_signed w z) z.
Proof.
  unfold eqmod, wrap_signed.
  rewrite Zminus_mod_idemp_l. f_equal. lia.
Qed.

Lemma eqmod_narrow w w' a b : 0 <= w' <= w -> eqmod w a b -> eqmod w' a b.
Proof.
  unfold eqmod. intros Hw H.
  assert (2 ^ w = 2 ^ w' * 2 ^ (w - w')) as E by (rewrite <- Z.pow_add_r by lia; f_equal; lia).
  pose proof (Z.pow_pos_nonneg 2 w' ltac:(lia) ltac:(lia)).
  pose proof (Z.pow_pos_nonneg 2 (w - w') ltac:(lia) ltac:(lia)).
  rewrite <- (Z.mod_mod_divide a (2 ^ w) (2 ^ w')), <- (Z.mod_mod_divide b (2 ^ w) (2 ^ w'))
    by (rewrite E; apply Z.divide_factor_l).
  by rewrite H.
Qed.

Lemma gtb_le a b : a <= b -> (a >? b) = false.
Proof. intros. rewrite Z.gtb_ltb. by apply Z.ltb_ge. Qed.

Lemma gtb_gt a b : b < a -> (a >? b) = true.
Proof. intros. rewrite Z.gtb_ltb. by apply Z.ltb_lt. Qed.

(** * Lemmas on lists *)

Lemma zlen_app {A} (l1 l2 : list A) : zlen (l1 ++ l2) = zlen l1 + zlen l2.
Proof. unfold zlen. rewrite length_app. lia. Qed.

Lemma zlen_nonneg {A} (l : list A) : 0 <= zlen l.
Proof. unfold zlen. lia. Qed.

#[export] Hint Resolve zlen_nonneg : casper.
#[export] Hint Rewrite @zlen_app : casper_rw.
