(* ===== verification/BTreeMap.v ===== *)
(** [alloc::collections::BTreeMap] and [BTreeSet], as the sources use them:
    maps that iterate in key order.  A map is the list of its entries in
    strictly increasing key order, so that two maps with the same lookups are
    equal and serialization sees the entries in the order Rust visits them. *)

From S2P Require Import Prelude.

(** * [Ord] *)

Class Ord (K : Type) := ord_cmp : K -> K -> comparison.

Class OrdLaws (K : Type) `{Ord K} := {
  ord_cmp_eq : forall x y, ord_cmp x y = Eq <-> x = y;
  ord_cmp_opp : forall x y, ord_cmp y x = CompOpp (ord_cmp x y);
  ord_cmp_trans : forall x y z, ord_cmp x y = Lt -> ord_cmp y z = Lt -> ord_cmp x z = Lt;
}.

#[global] Instance ord_Z : Ord Z := Z.compare.

#[global] Instance ord_byte : Ord byte := fun a b => Z.compare (byte_to_Z a) (byte_to_Z b).

(** Lexicographic order of [Vec], of arrays of one length and of strings. *)
Fixpoint lex_cmp {A} `{Ord A} (l1 l2 : list A) : comparison :=
  match l1, l2 with
  | [], [] => Eq
  | [], _ :: _ => Lt
  | _ :: _, [] => Gt
  | a :: l1', b :: l2' =>
      match ord_cmp a b with
      | Eq => lex_cmp l1' l2'
      | c => c
      end
  end.

#[global] Instance ord_list {A} `{Ord A} : Ord (list A) := lex_cmp.

#[global] Instance ord_laws_Z : OrdLaws Z.
Proof.
  split; unfold ord_cmp, ord_Z.
  - apply Z.compare_eq_iff.
  - intros. apply Z.compare_antisym.
  - intros x y z. rewrite !Z.compare_lt_iff. lia.
Qed.

#[global] Instance ord_laws_byte : OrdLaws byte.
Proof.
  split; unfold ord_cmp, ord_byte.
  - intros x y. rewrite Z.compare_eq_iff. split; [apply byte_to_Z_inj | by intros ->].
  - intros. apply Z.compare_antisym.
  - intros x y z. rewrite !Z.compare_lt_iff. lia.
Qed.

Section lex.
Context {A : Type} `{OrdLaws A}.

Lemma ord_cmp_refl (x : A) : ord_cmp x x = Eq.
Proof. by apply ord_cmp_eq. Qed.

Lemma lex_cmp_eq (l1 l2 : list A) : lex_cmp l1 l2 = Eq <-> l1 = l2.
Proof.
  revert l2. induction l1 as [|a l1 IH]; intros [|b l2]; cbn; try done.
  destruct (ord_cmp a b) eqn:E.
  - apply ord_cmp_eq in E as <-. rewrite IH. split; [by intros -> | by intros [= ->]].
  - split; [done|]. intros [= -> ->]. by rewrite ord_cmp_refl in E.
  - split; [done|]. intros [= -> ->]. by rewrite ord_cmp_refl in E.
Qed.

Lemma lex_cmp_opp (l1 l2 : list A) : lex_cmp l2 l1 = CompOpp (lex_cmp l1 l2).
Proof.
  revert l2. induction l1 as [|a l1 IH]; intros [|b l2]; cbn; try done.
  rewrite (ord_cmp_opp a b). by destruct (ord_cmp a b); cbn.
Qed.

Lemma lex_cmp_trans (l1 l2 l3 : list A) :
  lex_cmp l1 l2 = Lt -> lex_cmp l2 l3 = Lt -> lex_cmp l1 l3 = Lt.
Proof.
  revert l2 l3. induction l1 as [|a l1 IH]; intros [|b l2] [|c l3]; cbn; try done.
  destruct (ord_cmp a b) eqn:E1, (ord_cmp b c) eqn:E2; try done.
  - apply ord_cmp_eq in E1 as <-. apply ord_cmp_eq in E2 as <-.
    rewrite ord_cmp_refl. apply IH.
  - apply ord_cmp_eq in E1 as <-. by rewrite E2.
  - apply ord_cmp_eq in E2 as <-. by rewrite E1.
  - by rewrite (ord_cmp_trans _ _ _ E1 E2).
Qed.

#[global] Instance ord_laws_list : OrdLaws (list A).
Proof. split; [apply lex_cmp_eq | apply lex_cmp_opp | apply lex_cmp_trans]. Qed.
End lex.

(** ** Derived orders *)

(** [#[derive(Ord)]] compares fields in turn. *)
Definition cmp_then (c1 c2 : comparison) : comparison :=
  match c1 with Eq => c2 | c => c end.

#[global] Instance ord_pair {A B} `{Ord A, Ord B} : Ord (A * B) :=
  fun x y => cmp_then (ord_cmp x.1 y.1) (ord_cmp x.2 y.2).

(** The first variant comes first. *)
#[global] Instance ord_sum {A B} `{Ord A, Ord B} : Ord (A + B) :=
  fun x y =>
    match x, y with
    | inl a, inl b => ord_cmp a b
    | inl _, inr _ => Lt
    | inr _, inl _ => Gt
    | inr a, inr b => ord_cmp a b
    end.

#[global] Instance ord_option {A} `{Ord A} : Ord (option A) :=
  fun x y =>
    match x, y with
    | None, None => Eq
    | None, Some _ => Lt
    | Some _, None => Gt
    | Some a, Some b => ord_cmp a b
    end.

#[global] Instance ord_unit : Ord unit := fun _ _ => Eq.

#[global] Instance ord_bool : Ord bool :=
  fun x y => match x, y with false, true => Lt | true, false => Gt | _, _ => Eq end.

#[global] Instance ord_laws_pair {A B} `{OrdLaws A, OrdLaws B} : OrdLaws (A * B).
Proof.
  split; unfold ord_cmp, ord_pair, cmp_then.
  - intros [a b] [a' b']. cbn. destruct (ord_cmp a a') eqn:E; rewrite ?ord_cmp_eq.
    + apply ord_cmp_eq in E as <-. split; [by intros -> | by intros [= ->]].
    + split; [done|]. intros [= -> _]. by rewrite ord_cmp_refl in E.
    + split; [done|]. intros [= -> _]. by rewrite ord_cmp_refl in E.
  - intros [a b] [a' b']. cbn. rewrite (ord_cmp_opp a a'), (ord_cmp_opp b b').
    by destruct (ord_cmp a a').
  - intros [a b] [a' b'] [a'' b'']. cbn.
    destruct (ord_cmp a a') eqn:E1, (ord_cmp a' a'') eqn:E2; try done.
    + apply ord_cmp_eq in E1 as <-. apply ord_cmp_eq in E2 as <-. rewrite ord_cmp_refl. apply ord_cmp_trans.
    + apply ord_cmp_eq in E1 as <-. by rewrite E2.
    + apply ord_cmp_eq in E2 as <-. by rewrite E1.
    + by rewrite (ord_cmp_trans _ _ _ E1 E2).
Qed.

#[global] Instance ord_laws_sum {A B} `{OrdLaws A, OrdLaws B} : OrdLaws (A + B).
Proof.
  split; unfold ord_cmp, ord_sum.
  - intros [a|b] [a'|b']; rewrite ?ord_cmp_eq; split; congruence.
  - intros [a|b] [a'|b']; cbn; auto; apply ord_cmp_opp.
  - intros [a|b] [a'|b'] [a''|b'']; try done; apply ord_cmp_trans.
Qed.

#[global] Instance ord_laws_option {A} `{OrdLaws A} : OrdLaws (option A).
Proof.
  split; unfold ord_cmp, ord_option.
  - intros [a|] [a'|]; rewrite ?ord_cmp_eq; split; congruence.
  - intros [a|] [a'|]; cbn; auto; apply ord_cmp_opp.
  - intros [a|] [a'|] [a''|]; try done; apply ord_cmp_trans.
Qed.

#[global] Instance ord_laws_unit : OrdLaws unit.
Proof. split; [by intros [] [] | done | done]. Qed.

#[global] Instance ord_laws_bool : OrdLaws bool.
Proof. split; [by intros [] [] | by intros [] [] | by intros [] [] []]. Qed.

(** An order read off an injective image. *)
Lemma ord_laws_image {A B} `{OrdLaws B} (f : A -> B) :
  (forall x y, f x = f y -> x = y) -> @OrdLaws A (fun x y => ord_cmp (f x) (f y)).
Proof.
  intros Hf. split.
  - intros x y. pose proof (ord_cmp_eq (f x) (f y)) as E.
    split; [intros Hx; by apply Hf, E | intros ->; by apply E].
  - intros x y. exact (ord_cmp_opp (f x) (f y)).
  - intros x y z. exact (ord_cmp_trans (f x) (f y) (f z)).
Qed.

(** * The map *)

Definition BTreeMap (K V : Type) : Type := list (K * V).

Section btree.
Context {K V : Type} `{Ord K}.

Definition bt_empty : BTreeMap K V := [].

Fixpoint bt_get (k : K) (m : BTreeMap K V) : option V :=
  match m with
  | [] => None
  | (k', v) :: m' =>
      match ord_cmp k k' with
      | Eq => Some v
      | Lt => None
      | Gt => bt_get k m'
      end
  end.

Fixpoint bt_insert (k : K) (v : V) (m : BTreeMap K V) : BTreeMap K V :=
  match m with
  | [] => [(k, v)]
  | (k', v') :: m' =>
      match ord_cmp k k' with
      | Eq => (k, v) :: m'
      | Lt => (k, v) :: (k', v') :: m'
      | Gt => (k', v') :: bt_insert k v m'
      end
  end.

Fixpoint bt_remove (k : K) (m : BTreeMap K V) : BTreeMap K V :=
  match m with
  | [] => []
  | (k', v') :: m' =>
      match ord_cmp k k' with
      | Eq => m'
      | Lt => (k', v') :: m'
      | Gt => (k', v') :: bt_remove k m'
      end
  end.

Definition bt_contains_key (k : K) (m : BTreeMap K V) : bool :=
  match bt_get k m with
  | Some _ => true
  | None => false
  end.

(** Inserting the entries of a list one after the other: [collect]. *)
Definition bt_extend (m : BTreeMap K V) (l : list (K * V)) : BTreeMap K V :=
  fold_left (fun acc kv => bt_insert kv.1 kv.2 acc) l m.

Definition bt_collect (l : list (K * V)) : BTreeMap K V := bt_extend bt_empty l.

(** [BTreeMap::append]: the entries of [m2] replace those of [m1]. *)
Definition bt_append (m1 m2 : BTreeMap K V) : BTreeMap K V := bt_extend m1 m2.

Definition bt_keys (m : BTreeMap K V) : list K := map fst m.

Definition bt_values (m : BTreeMap K V) : list V := map snd m.

Definition bt_lt (x y : K * V) : Prop := ord_cmp x.1 y.1 = Lt.

(** Representation invariant. *)
Definition bt_wf (m : BTreeMap K V) : Prop := StronglySorted bt_lt m.
End btree.

(** * Laws *)

Section btree_laws.
Context {K V : Type} `{OrdLaws K}.
Implicit Types (k : K) (v : V) (m : BTreeMap K V).

Lemma ord_cmp_gt_lt k k' : ord_cmp k k' = Gt <-> ord_cmp k' k = Lt.
Proof. rewrite (ord_cmp_opp k k'). by destruct (ord_cmp k k'). Qed.

Lemma bt_wf_cons k v m :
  bt_wf ((k, v) :: m) <-> Forall (fun e => ord_cmp k e.1 = Lt) m /\ bt_wf m.
Proof.
  unfold bt_wf. split.
  - intros Hs. apply StronglySorted_inv in Hs as [? ?]. done.
  - intros [? ?]. by constructor.
Qed.

Lemma bt_get_above k m : Forall (fun e => ord_cmp k e.1 = Lt) m -> bt_get k m = None.
Proof. destruct m as [|[k' v'] m]; [done|]. intros HF. inversion HF as [|? ? E]. cbn in *. by rewrite E. Qed.

Lemma bt_insert_Forall (P : K * V -> Prop) k v m :
  P (k, v) -> Forall P m -> Forall P (bt_insert k v m).
Proof.
  intros HP. induction 1 as [|[k' v'] m ? ? IH]; cbn; [auto|].
  destruct (ord_cmp k k'); auto.
Qed.

Lemma bt_remove_Forall (P : K * V -> Prop) k m : Forall P m -> Forall P (bt_remove k m).
Proof.
  induction 1 as [|[k' v'] m ? ? IH]; cbn; [auto|]. destruct (ord_cmp k k'); auto.
Qed.

Lemma bt_wf_empty : bt_wf (@bt_empty K V).
Proof. constructor. Qed.

Lemma bt_wf_insert k v m : bt_wf m -> bt_wf (bt_insert k v m).
Proof.
  induction m as [|[k' v'] m IH]; intros Hwf; cbn.
  - apply bt_wf_cons. split; constructor.
  - apply bt_wf_cons in Hwf as [HF Hwf]. destruct (ord_cmp k k') eqn:E.
    + apply ord_cmp_eq in E as ->. by apply bt_wf_cons.
    + apply bt_wf_cons. split; [|by apply bt_wf_cons]. constructor; [done|].
      eapply List.Forall_impl; [|exact HF]. cbn. intros e. by apply ord_cmp_trans.
    + apply bt_wf_cons. split; [|by apply IH].
      apply bt_insert_Forall; [|done]. cbn. by apply ord_cmp_gt_lt.
Qed.

Lemma bt_wf_remove k m : bt_wf m -> bt_wf (bt_remove k m).
Proof.
  induction m as [|[k' v'] m IH]; intros Hwf; cbn; [done|].
  apply bt_wf_cons in Hwf as [HF Hwf]. destruct (ord_cmp k k') eqn:E; [done | |].
  - by apply bt_wf_cons.
  - apply bt_wf_cons. split; [by apply bt_remove_Forall | by apply IH].
Qed.

Lemma bt_get_insert_eq k v m : bt_get k (bt_insert k v m) = Some v.
Proof.
  induction m as [|[k' v'] m IH]; cbn; [by rewrite ord_cmp_refl|].
  destruct (ord_cmp k k') eqn:E; cbn; rewrite ?ord_cmp_refl, ?E; done.
Qed.

Lemma bt_get_insert_ne k k' v m : k <> k' -> bt_get k' (bt_insert k v m) = bt_get k' m.
Proof.
  intros Hne. induction m as [|[k0 v0] m IH]; cbn.
  - destruct (ord_cmp k' k) eqn:E; [|done|done]. by apply ord_cmp_eq in E as ->.
  - destruct (ord_cmp k k0) eqn:E; cbn.
    + apply ord_cmp_eq in E as ->. destruct (ord_cmp k' k0) eqn:E'; [|done|done].
      by apply ord_cmp_eq in E' as ->.
    + destruct (ord_cmp k' k) eqn:E'; [by apply ord_cmp_eq in E' as ->| |done].
      by rewrite (ord_cmp_trans _ _ _ E' E).
    + by rewrite IH.
Qed.

Lemma bt_get_remove_eq k m : bt_wf m -> bt_get k (bt_remove k m) = None.
Proof.
  induction m as [|[k' v'] m IH]; intros Hwf; cbn; [done|].
  apply bt_wf_cons in Hwf as [HF Hwf]. destruct (ord_cmp k k') eqn:E; cbn.
  - apply ord_cmp_eq in E as ->. by apply bt_get_above.
  - by rewrite E.
  - rewrite E. by apply IH.
Qed.

Lemma bt_get_remove_ne k k' m : bt_wf m -> k <> k' -> bt_get k' (bt_remove k m) = bt_get k' m.
Proof.
  intros Hwf Hne. induction m as [|[k0 v0] m IH]; cbn; [done|].
  apply bt_wf_cons in Hwf as [HF Hwf]. destruct (ord_cmp k k0) eqn:E; cbn.
  - apply ord_cmp_eq in E as ->. destruct (ord_cmp k' k0) eqn:E'.
    + by apply ord_cmp_eq in E' as ->.
    + apply bt_get_above. eapply List.Forall_impl; [|exact HF]. cbn. intros e. by apply ord_cmp_trans.
    + done.
  - done.
  - by rewrite IH.
Qed.

Lemma bt_get_in k v m : bt_get k m = Some v -> In (k, v) m.
Proof.
  induction m as [|[k' v'] m IH]; cbn; [done|].
  destruct (ord_cmp k k') eqn:E; [|done|auto].
  intros [= ->]. apply ord_cmp_eq in E as ->. auto.
Qed.

Lemma bt_in_get k v m : bt_wf m -> In (k, v) m -> bt_get k m = Some v.
Proof.
  induction m as [|[k' v'] m IH]; intros Hwf; cbn; [done|].
  apply bt_wf_cons in Hwf as [HF Hwf]. intros [[= -> ->]|Hin].
  - by rewrite ord_cmp_refl.
  - rewrite List.Forall_forall in HF. specialize (HF _ Hin). cbn in HF.
    apply ord_cmp_gt_lt in HF. rewrite HF. auto.
Qed.

(** Two maps with the same lookups are the same map. *)
Lemma bt_ext m1 m2 :
  bt_wf m1 -> bt_wf m2 -> (forall k, bt_get k m1 = bt_get k m2) -> m1 = m2.
Proof.
  revert m2. induction m1 as [|[k1 v1] m1 IH]; intros [|[k2 v2] m2] W1 W2 E; [done| | |].
  - specialize (E k2). cbn in E. by rewrite ord_cmp_refl in E.
  - specialize (E k1). cbn in E. by rewrite ord_cmp_refl in E.
  - apply bt_wf_cons in W1 as [F1 W1]. apply bt_wf_cons in W2 as [F2 W2].
    pose proof (E k1) as E1. pose proof (E k2) as E2. cbn in E1, E2.
    rewrite ord_cmp_refl in E1, E2.
    destruct (ord_cmp k1 k2) eqn:C; [|done|].
    + apply ord_cmp_eq in C as ->. injection E1 as ->. f_equal.
      apply IH; [done..|]. intros k. specialize (E k). cbn in E.
      destruct (ord_cmp k k2) eqn:C; [| |done].
      * apply ord_cmp_eq in C as ->. by rewrite !bt_get_above.
      * rewrite !bt_get_above; [done | |].
        -- eapply List.Forall_impl; [|exact F2]. cbn. intros e. by apply ord_cmp_trans.
        -- eapply List.Forall_impl; [|exact F1]. cbn. intros e. by apply ord_cmp_trans.
    + apply ord_cmp_gt_lt in C. by rewrite C in E2.
Qed.

Lemma bt_wf_extend m (l : list (K * V)) : bt_wf m -> bt_wf (bt_extend m l).
Proof.
  revert m. induction l as [|[k v] l IH]; intros m Hwf; cbn; [done|].
  apply IH. by apply bt_wf_insert.
Qed.

(** Collecting the entries of a map rebuilds the map. *)
Lemma bt_collect_sorted m : bt_wf m -> bt_collect m = m.
Proof.
  intros Hwf. unfold bt_collect, bt_extend, bt_empty.
  enough (forall acc, bt_wf (acc ++ m) ->
    fold_left (fun a (kv : K * V) => bt_insert kv.1 kv.2 a) m acc = acc ++ m) as Hgen
    by (apply (Hgen []); done).
  clear Hwf. induction m as [|[k v] m IH]; intros acc Hwf; cbn; [by rewrite app_nil_r|].
  assert (bt_insert k v acc = acc ++ [(k, v)]) as ->.
  { clear IH. induction acc as [|[k' v'] acc IHa]; cbn; [done|].
    cbn in Hwf. apply bt_wf_cons in Hwf as [HF Hwf].
    assert (ord_cmp k k' = Gt) as ->.
    { apply ord_cmp_gt_lt. rewrite List.Forall_forall in HF. apply (HF (k, v)).
      apply in_or_app. right. left. done. }
    by rewrite IHa. }
  rewrite IH; [by rewrite <- app_assoc | by rewrite <- app_assoc].
Qed.

Lemma bt_get_extend k m (l : list (K * V)) :
  bt_wf l -> bt_get k (bt_extend m l) =
    match bt_get k l with Some v => Some v | None => bt_get k m end.
Proof.
  revert m. induction l as [|[k' v'] l IH]; intros m Hwf; cbn; [done|].
  apply bt_wf_cons in Hwf as [HF Hwf]. fold (bt_extend (bt_insert k' v' m) l).
  rewrite IH by done. destruct (ord_cmp k k') eqn:E.
  - apply ord_cmp_eq in E as ->. rewrite (bt_get_above k') by done. apply bt_get_insert_eq.
  - rewrite (bt_get_above k).
    + apply bt_get_insert_ne. intros ->. by rewrite ord_cmp_refl in E.
    + eapply List.Forall_impl; [|exact HF]. cbn. intros e. by apply ord_cmp_trans.
  - destruct (bt_get k l); [done|]. apply bt_get_insert_ne. intros ->.
    by rewrite ord_cmp_refl in E.
Qed.

Lemma bt_insert_get k v m : bt_wf m -> bt_get k m = Some v -> bt_insert k v m = m.
Proof.
  intros Hwf Hg. apply bt_ext; [by apply bt_wf_insert | done |].
  intros k'. destruct (ord_cmp k k') eqn:E.
  - apply ord_cmp_eq in E as <-. by rewrite bt_get_insert_eq.
  - apply bt_get_insert_ne. intros ->. by rewrite ord_cmp_refl in E.
  - apply bt_get_insert_ne. intros ->. by rewrite ord_cmp_refl in E.
Qed.

Lemma bt_keys_NoDup m : bt_wf m -> List.NoDup (bt_keys m).
Proof.
  induction m as [|[k v] m IH]; intros Hwf; cbn; [constructor|].
  apply bt_wf_cons in Hwf as [HF Hwf]. constructor; [|by apply IH].
  intros Hin. apply in_map_iff in Hin as ([k' v'] & E & Hin). cbn in E. subst k'.
  rewrite List.Forall_forall in HF. specialize (HF _ Hin). cbn in HF. by rewrite ord_cmp_refl in HF.
Qed.
End btree_laws.

#[export] Hint Resolve bt_wf_empty bt_wf_insert bt_wf_remove bt_wf_extend : casper.
#[export] Hint Rewrite @bt_get_insert_eq : casper_rw.
