(* ===== verification/Bytesrepr.v ===== *)
(** The binary serialization format, [types/src/bytesrepr.rs].

    A Rust type with its [ToBytes] and [FromBytes] impls is a [Codec], the
    dictionary of the two methods.  The class [CodecLaws] is what a codec
    promises its clients, with the values it is lossless on. *)

From S2P Require Import Prelude BTreeMap.

(** * Errors, traits and entry points *)

Inductive Error :=
| EarlyEndOfStream
| FormattingError
| LeftOverBytes
| OutOfMemoryError.

#[global] Instance bytesrepr_error_eq_dec : EqDecision Error.
Proof. solve_decision. Defined.

Record Codec (A : Type) := mk_codec {
  to_bytes : A -> outcome Error bytes;
  from_bytes : bytes -> outcome Error (A * bytes);
}.

Arguments mk_codec {A}.
Arguments to_bytes {A}.
Arguments from_bytes {A}.

Definition U8_SERIALIZED_LENGTH : Z := 1.
Definition I32_SERIALIZED_LENGTH : Z := 4.
Definition U32_SERIALIZED_LENGTH : Z := 4.
Definition U64_SERIALIZED_LENGTH : Z := 8.
Definition OPTION_TAG_SERIALIZED_LENGTH : Z := 1.

Definition deserialize {A} (c : Codec A) (bs : bytes) : outcome Error A :=
  let? '(t, remainder) := from_bytes c bs in
  match remainder with
  | [] => Ok t
  | _ :: _ => Err LeftOverBytes
  end.

Definition serialize {A} (c : Codec A) (a : A) : outcome Error bytes := to_bytes c a.

Definition safe_split_at (bs : bytes) (n : nat) : outcome Error (bytes * bytes) :=
  if (length bs <? n)%nat then Err EarlyEndOfStream
  else Ok (take n bs, drop n bs).

(** * Scalars *)

Definition u8_to_bytes (z : Z) : outcome Error bytes := Ok [byte_of_Z z].

Definition u8_from_bytes (bs : bytes) : outcome Error (Z * bytes) :=
  match bs with
  | [] => Err EarlyEndOfStream
  | b :: rem => Ok (byte_to_Z b, rem)
  end.

Definition u8_codec : Codec Z := mk_codec u8_to_bytes u8_from_bytes.

Definition bool_to_bytes (b : bool) : outcome Error bytes :=
  u8_to_bytes (if b then 1 else 0).

Definition bool_from_bytes (bs : bytes) : outcome Error (bool * bytes) :=
  match bs with
  | [] => Err EarlyEndOfStream
  | b :: rem =>
      if byte_to_Z b =? 1 then Ok (true, rem)
      else if byte_to_Z b =? 0 then Ok (false, rem)
      else Err FormattingError
  end.

Definition bool_codec : Codec bool := mk_codec bool_to_bytes bool_from_bytes.

Definition i32_to_bytes (z : Z) : outcome Error bytes := Ok (to_le_bytes 4 z).

Definition i32_from_bytes (bs : bytes) : outcome Error (Z * bytes) :=
  let? '(b, rem) := safe_split_at bs 4 in
  Ok (wrap_signed 32 (from_le_bytes b), rem).

Definition i32_codec : Codec Z := mk_codec i32_to_bytes i32_from_bytes.

Definition u32_to_bytes (z : Z) : outcome Error bytes := Ok (to_le_bytes 4 z).

Definition u32_from_bytes (bs : bytes) : outcome Error (Z * bytes) :=
  let? '(b, rem) := safe_split_at bs 4 in
  Ok (from_le_bytes b, rem).

Definition u32_codec : Codec Z := mk_codec u32_to_bytes u32_from_bytes.

Definition u64_to_bytes (z : Z) : outcome Error bytes := Ok (to_le_bytes 8 z).

Definition u64_from_bytes (bs : bytes) : outcome Error (Z * bytes) :=
  let? '(b, rem) := safe_split_at bs 8 in
  Ok (from_le_bytes b, rem).

Definition u64_codec : Codec Z := mk_codec u64_to_bytes u64_from_bytes.

Definition i64_to_bytes (z : Z) : outcome Error bytes := Ok (to_le_bytes 8 z).

Definition i64_from_bytes (bs : bytes) : outcome Error (Z * bytes) :=
  let? '(b, rem) := safe_split_at bs 8 in
  Ok (wrap_signed 64 (from_le_bytes b), rem).

Definition i64_codec : Codec Z := mk_codec i64_to_bytes i64_from_bytes.

Definition unit_to_bytes (_ : unit) : outcome Error bytes := Ok [].

Definition unit_from_bytes (bs : bytes) : outcome Error (unit * bytes) := Ok (tt, bs).

Definition unit_codec : Codec unit := mk_codec unit_to_bytes unit_from_bytes.

(** * Byte vectors, byte arrays and strings *)

Definition vec_u8_to_bytes (v : bytes) : outcome Error bytes :=
  if zlen v >=? u32_max - U32_SERIALIZED_LENGTH then Err OutOfMemoryError
  else
    let? size := u32_to_bytes (wrap_unsigned 32 (zlen v)) in
    Ok (size ++ v).

Definition vec_u8_from_bytes (bs : bytes) : outcome Error (bytes * bytes) :=
  let? '(size, rem) := u32_from_bytes bs in
  safe_split_at rem (Z.to_nat size).

Definition vec_u8_codec : Codec bytes := mk_codec vec_u8_to_bytes vec_u8_from_bytes.

(** The impls for [[u8; N]], N one of 4, 5, 8 and 32, write no length. *)
Definition u8_array_to_bytes (a : bytes) : outcome Error bytes := Ok a.

Definition u8_array_from_bytes (n : nat) (bs : bytes) : outcome Error (bytes * bytes) :=
  safe_split_at bs n.

Definition u8_array_codec (n : nat) : Codec bytes :=
  mk_codec u8_array_to_bytes (u8_array_from_bytes n).

Definition in_range (lo hi : Z) (b : byte) : bool :=
  (lo <=? byte_to_Z b) && (byte_to_Z b <=? hi).

(** The check of [String::from_utf8]: the well-formed byte sequences of
    Unicode, table 3-7. *)
Fixpoint utf8_valid (bs : bytes) : bool :=
  match bs with
  | [] => true
  | b0 :: r0 =>
      if in_range 0 127 b0 then utf8_valid r0
      else match r0 with
      | [] => false
      | b1 :: r1 =>
          if in_range 194 223 b0 then in_range 128 191 b1 && utf8_valid r1
          else match r1 with
          | [] => false
          | b2 :: r2 =>
              if in_range 224 239 b0 then
                in_range (if byte_to_Z b0 =? 224 then 160 else 128)
                         (if byte_to_Z b0 =? 237 then 159 else 191) b1
                && in_range 128 191 b2 && utf8_valid r2
              else match r2 with
              | [] => false
              | b3 :: r3 =>
                  in_range 240 244 b0
                  && in_range (if byte_to_Z b0 =? 240 then 144 else 128)
                              (if byte_to_Z b0 =? 244 then 143 else 191) b1
                  && in_range 128 191 b2 && in_range 128 191 b3 && utf8_valid r3
              end
          end
      end
  end.

(** A [String] is its UTF-8 bytes; [str::len] counts bytes. *)
Definition str_to_bytes (s : bytes) : outcome Error bytes :=
  if zlen s >=? u32_max - U32_SERIALIZED_LENGTH then Err OutOfMemoryError
  else vec_u8_to_bytes s.

Definition string_to_bytes (s : bytes) : outcome Error bytes := str_to_bytes s.

Definition string_from_bytes (bs : bytes) : outcome Error (bytes * bytes) :=
  let? '(str_bytes, rem) := vec_u8_from_bytes bs in
  if utf8_valid str_bytes then Ok (str_bytes, rem) else Err FormattingError.

Definition string_codec : Codec bytes := mk_codec string_to_bytes string_from_bytes.

(** * Option, Result and tuples *)

Definition option_to_bytes {A} (c : Codec A) (o : option A) : outcome Error bytes :=
  match o with
  | Some v =>
      let? value := to_bytes c v in
      if zlen value >=? u32_max - U8_SERIALIZED_LENGTH then Err OutOfMemoryError
      else let? tag := u8_to_bytes 1 in Ok (tag ++ value)
  | None => u8_to_bytes 0
  end.

Definition option_from_bytes {A} (c : Codec A) (bs : bytes) : outcome Error (option A * bytes) :=
  let? '(tag, rem) := u8_from_bytes bs in
  if tag =? 0 then Ok (None, rem)
  else if tag =? 1 then
    let? '(t, rem') := from_bytes c rem in Ok (Some t, rem')
  else Err FormattingError.

Definition option_codec {A} (c : Codec A) : Codec (option A) :=
  mk_codec (option_to_bytes c) (option_from_bytes c).

(** A Rust [Result] value as data: [inl] is its [Ok], [inr] its [Err]. *)
Definition result_to_bytes {T E} (ct : Codec T) (ce : Codec E) (r : T + E) : outcome Error bytes :=
  match r with
  | inl result =>
      let? variant := u8_to_bytes 1 in
      let? value := to_bytes ct result in Ok (variant ++ value)
  | inr error =>
      let? variant := u8_to_bytes 0 in
      let? value := to_bytes ce error in Ok (variant ++ value)
  end.

Definition result_from_bytes {T E} (ct : Codec T) (ce : Codec E) (bs : bytes)
    : outcome Error ((T + E) * bytes) :=
  let? '(variant, rem) := u8_from_bytes bs in
  if variant =? 0 then
    let? '(value, rem') := from_bytes ce rem in Ok (inr value, rem')
  else if variant =? 1 then
    let? '(value, rem') := from_bytes ct rem in Ok (inl value, rem')
  else Err FormattingError.

Definition result_codec {T E} (ct : Codec T) (ce : Codec E) : Codec (T + E) :=
  mk_codec (result_to_bytes ct ce) (result_from_bytes ct ce).

(** [(T1,)] is [T1]. *)
Definition tuple1_to_bytes {A} (c : Codec A) (t : A) : outcome Error bytes :=
  let? b1 := to_bytes c t in Ok ([] ++ b1).

Definition tuple1_from_bytes {A} (c : Codec A) (bs : bytes) : outcome Error (A * bytes) :=
  let? '(t1, remainder) := from_bytes c bs in Ok (t1, remainder).

Definition tuple1_codec {A} (c : Codec A) : Codec A :=
  mk_codec (tuple1_to_bytes c) (tuple1_from_bytes c).

Definition tuple2_to_bytes {A B} (ca : Codec A) (cb : Codec B) (t : A * B) : outcome Error bytes :=
  let? b1 := to_bytes ca t.1 in
  let? b2 := to_bytes cb t.2 in
  Ok (b1 ++ b2).

Definition tuple2_from_bytes {A B} (ca : Codec A) (cb : Codec B) (bs : bytes)
    : outcome Error ((A * B) * bytes) :=
  let? '(t1, remainder) := from_bytes ca bs in
  let? '(t2, remainder') := from_bytes cb remainder in
  Ok ((t1, t2), remainder').

Definition tuple2_codec {A B} (ca : Codec A) (cb : Codec B) : Codec (A * B) :=
  mk_codec (tuple2_to_bytes ca cb) (tuple2_from_bytes ca cb).

Definition tuple3_to_bytes {A B C} (ca : Codec A) (cb : Codec B) (cc : Codec C) (t : A * B * C)
    : outcome Error bytes :=
  let? b1 := to_bytes ca t.1.1 in
  let? b2 := to_bytes cb t.1.2 in
  let? b3 := to_bytes cc t.2 in
  Ok (b1 ++ b2 ++ b3).

Definition tuple3_from_bytes {A B C} (ca : Codec A) (cb : Codec B) (cc : Codec C) (bs : bytes)
    : outcome Error ((A * B * C) * bytes) :=
  let? '(t1, remainder) := from_bytes ca bs in
  let? '(t2, remainder') := from_bytes cb remainder in
  let? '(t3, remainder'') := from_bytes cc remainder' in
  Ok ((t1, t2, t3), remainder'').

Definition tuple3_codec {A B C} (ca : Codec A) (cb : Codec B) (cc : Codec C) : Codec (A * B * C) :=
  mk_codec (tuple3_to_bytes ca cb cc) (tuple3_from_bytes ca cb cc).

(** * Sequences *)

(** The loop [for _ in 0..n { let (t, rem) = T::from_bytes(stream)?; ... }]. *)
Fixpoint read_n {A} (c : Codec A) (n : nat) (stream : bytes) : outcome Error (list A * bytes) :=
  match n with
  | O => Ok ([], stream)
  | S n' =>
      let? '(t, rem) := from_bytes c stream in
      let? '(ts, rem') := read_n c n' rem in
      Ok (t :: ts, rem')
  end.

(** The loop that appends the serialization of each element. *)
Definition write_all {A} (c : Codec A) (l : list A) : outcome Error bytes :=
  let? bss := try_collect (to_bytes c) l in Ok (concat bss).

(** [Vec::try_reserve_exact]: whether the allocator grants room for that many
    elements. *)
Class Allocator := try_reserve_exact : nat -> bool.

Section vec.
Context {alloc : Allocator}.

Definition reserve (n : Z) : outcome Error unit :=
  if try_reserve_exact (Z.to_nat n) then Ok tt else Err OutOfMemoryError.

(** [FromBytes] of [Vec<i32>], [Vec<Vec<u8>>], [Vec<String>], [Vec<Key>] and
    [Vec<URef>] share this shape. *)
Definition vec_from_bytes {A} (c : Codec A) (bs : bytes) : outcome Error (list A * bytes) :=
  let? '(size, stream) := u32_from_bytes bs in
  let? _ := reserve size in
  read_n c (Z.to_nat size) stream.

Definition vec_i32_to_bytes (v : list Z) : outcome Error bytes :=
  if zlen v * I32_SERIALIZED_LENGTH >=? u32_max - U32_SERIALIZED_LENGTH then Err OutOfMemoryError
  else
    let? size := u32_to_bytes (wrap_unsigned 32 (zlen v)) in
    let? items := write_all i32_codec v in
    Ok (size ++ items).

Definition vec_i32_codec : Codec (list Z) := mk_codec vec_i32_to_bytes (vec_from_bytes i32_codec).

(** [iter().map(Vec::len).sum::<usize>()]. *)
Fixpoint sum_len (v : list bytes) : Z :=
  match v with
  | [] => 0
  | b :: v' => zlen b + sum_len v'
  end.

Definition vec_vec_u8_to_bytes (v : list bytes) : outcome Error bytes :=
  let serialized_len := sum_len v + U32_SERIALIZED_LENGTH * (zlen v + 1) in
  if serialized_len >? u32_max then Err OutOfMemoryError
  else
    let? size := u32_to_bytes (wrap_unsigned 32 (zlen v)) in
    let? items := write_all vec_u8_codec v in
    Ok (size ++ items).

Definition vec_vec_u8_codec : Codec (list bytes) :=
  mk_codec vec_vec_u8_to_bytes (vec_from_bytes vec_u8_codec).

(** [ToBytes] of [Vec<String>], [Vec<Key>] and [Vec<URef>]: no size check. *)
Definition vec_to_bytes {A} (c : Codec A) (v : list A) : outcome Error bytes :=
  let? size := u32_to_bytes (wrap_unsigned 32 (zlen v)) in
  let? items := write_all c v in
  Ok (size ++ items).

Definition vec_string_codec : Codec (list bytes) :=
  mk_codec (vec_to_bytes string_codec) (vec_from_bytes string_codec).

End vec.

(** [[T; N]] for the element types other than [u8]: the length is written, and
    the size test uses [size_of::<T>()]. *)
Definition array_to_bytes {A} (size_of : Z) (n : nat) (c : Codec A) (a : list A)
    : outcome Error bytes :=
  let approx_size := Z.of_nat n * size_of in
  if approx_size >=? u32_max then Err OutOfMemoryError
  else
    let? size := u32_to_bytes (wrap_unsigned 32 (Z.of_nat n)) in
    let? items := write_all c a in
    Ok (size ++ items).

Definition array_from_bytes {A} (n : nat) (c : Codec A) (bs : bytes)
    : outcome Error (list A * bytes) :=
  let? '(size, remainder) := u32_from_bytes bs in
  if negb (size =? wrap_unsigned 32 (Z.of_nat n)) then Err FormattingError
  else read_n c n remainder.

Definition array_codec {A} (size_of : Z) (n : nat) (c : Codec A) : Codec (list A) :=
  mk_codec (array_to_bytes size_of n c) (array_from_bytes n c).

(** * Maps *)

(** [size_hint().0] of a [Flatten] over vectors that has not been started: the
    lower bound counts only the inner iterators already entered. *)
Definition flatten_size_hint_lower (_ : list bytes) : Z := 0.

Definition btreemap_to_bytes {K V} (ck : Codec K) (cv : Codec V) (m : BTreeMap K V)
    : outcome Error bytes :=
  let num_keys := wrap_unsigned 32 (zlen m) in
  let? bss := try_collect (tuple2_to_bytes ck cv) m in
  let lower_bound := flatten_size_hint_lower bss in
  if lower_bound >=? u32_max - U32_SERIALIZED_LENGTH then Err OutOfMemoryError
  else
    let? size := u32_to_bytes num_keys in
    Ok (size ++ concat bss).

Fixpoint read_entries {K V} `{Ord K} (ck : Codec K) (cv : Codec V) (n : nat)
    (result : BTreeMap K V) (stream : bytes) : outcome Error (BTreeMap K V * bytes) :=
  match n with
  | O => Ok (result, stream)
  | S n' =>
      let? '(k, rem) := from_bytes ck stream in
      let? '(v, rem') := from_bytes cv rem in
      read_entries ck cv n' (bt_insert k v result) rem'
  end.

Definition btreemap_from_bytes {K V} `{Ord K} (ck : Codec K) (cv : Codec V) (bs : bytes)
    : outcome Error (BTreeMap K V * bytes) :=
  let? '(num_keys, stream) := u32_from_bytes bs in
  read_entries ck cv (Z.to_nat num_keys) bt_empty stream.

Definition btreemap_codec {K V} `{Ord K} (ck : Codec K) (cv : Codec V) : Codec (BTreeMap K V) :=
  mk_codec (btreemap_to_bytes ck cv) (btreemap_from_bytes ck cv).

(** * What a codec promises *)

(** Reading back what was written returns the value and leaves the rest of the
    stream untouched. *)
Class CodecLaws {A} (c : Codec A) (valid : A -> Prop) : Prop :=
  codec_roundtrip : forall a bs rest,
    valid a -> to_bytes c a = Ok bs -> from_bytes c (bs ++ rest) = Ok (a, rest).

(** A codec with one encoding per value: what decodes is valid and encodes back
    to the bytes that were read. *)
Class CodecExact {A} (c : Codec A) (valid : A -> Prop) : Prop :=
  codec_exact : forall bs a rest,
    from_bytes c bs = Ok (a, rest) ->
    valid a /\ exists p, to_bytes c a = Ok p /\ bs = p ++ rest.

(** Decoding never panics. *)
Class CodecSafe {A} (c : Codec A) : Prop :=
  codec_safe : forall bs, from_bytes c bs <> Panic.

Definition is_bytes (n : nat) (bs : bytes) : Prop := length bs = n.

Definition option_valid {A} (valid : A -> Prop) (o : option A) : Prop :=
  match o with Some a => valid a | None => True end.

Definition sum_valid {A B} (va : A -> Prop) (vb : B -> Prop) (s : A + B) : Prop :=
  match s with inl a => va a | inr b => vb b end.

Definition pair_valid {A B} (va : A -> Prop) (vb : B -> Prop) (p : A * B) : Prop :=
  va p.1 /\ vb p.2.

Definition fits_u32 {A} (l : list A) : Prop := zlen l <= u32_max.

Definition list_valid {A} (valid : A -> Prop) (l : list A) : Prop := Forall valid l /\ fits_u32 l.

Definition btreemap_valid {K V} `{Ord K} (vk : K -> Prop) (vv : V -> Prop) (m : BTreeMap K V)
    : Prop := bt_wf m /\ Forall (pair_valid vk vv) m /\ fits_u32 m.

Section generic.
Context {A : Type} (c : Codec A) (valid : A -> Prop) `{!CodecLaws c valid}.

Lemma deserialize_serialize a bs :
  valid a -> serialize c a = Ok bs -> deserialize c bs = Ok a.
Proof.
  intros Hv Hs. unfold deserialize. rewrite <- (app_nil_r bs).
  by rewrite (codec_roundtrip a bs [] Hv Hs).
Qed.

Lemma to_bytes_inj a1 a2 bs :
  valid a1 -> valid a2 -> to_bytes c a1 = Ok bs -> to_bytes c a2 = Ok bs -> a1 = a2.
Proof.
  intros V1 V2 E1 E2. pose proof (codec_roundtrip a1 bs [] V1 E1) as D1.
  rewrite (codec_roundtrip a2 bs [] V2 E2) in D1. by injection D1.
Qed.

(** An encoding that extends another one is equal to it. *)
Lemma to_bytes_prefix_free a1 a2 p1 x :
  valid a1 -> valid a2 -> to_bytes c a1 = Ok p1 -> to_bytes c a2 = Ok (p1 ++ x) ->
  a1 = a2 /\ x = [].
Proof.
  intros V1 V2 E1 E2. pose proof (codec_roundtrip a1 p1 x V1 E1) as D1.
  pose proof (codec_roundtrip a2 _ [] V2 E2) as D2. rewrite app_nil_r in D2.
  rewrite D1 in D2. by injection D2 as -> ->.
Qed.
End generic.

(** * Lemmas on the scalar codecs *)

Lemma safe_split_at_app n p rest :
  length p = n -> safe_split_at (p ++ rest) n = Ok (p, rest).
Proof.
  intros <-. unfold safe_split_at.
  replace (length (p ++ rest) <? length p)%nat with false
    by (symmetry; apply Nat.ltb_ge; rewrite length_app; lia).
  by rewrite take_app_length, drop_app_length.
Qed.

Lemma safe_split_at_ok bs n p rest :
  safe_split_at bs n = Ok (p, rest) -> bs = p ++ rest /\ length p = n.
Proof.
  unfold safe_split_at. destruct (Nat.ltb_spec (length bs) n); [done|].
  intros [= <- <-]. split; [by rewrite take_drop | rewrite length_take; lia].
Qed.

Lemma safe_split_at_safe bs n : safe_split_at bs n <> Panic.
Proof. unfold safe_split_at. by destruct (_ <? _)%nat. Qed.

#[global] Instance u8_laws : CodecLaws u8_codec (is_unsigned 8).
Proof.
  intros z bs rest Hz <-%Ok_inj. cbn. by rewrite byte_to_of_Z, Z.mod_small.
Qed.

#[global] Instance u8_exact : CodecExact u8_codec (is_unsigned 8).
Proof.
  intros [|b bs] z rest; cbn; [done|]. intros [= <- <-].
  split; [apply byte_to_Z_range|]. exists [b]. cbn. unfold u8_to_bytes. by rewrite byte_of_to_Z.
Qed.

#[global] Instance bool_laws : CodecLaws bool_codec (fun _ => True).
Proof. by intros [|] bs rest _ <-%Ok_inj. Qed.

Lemma unsigned_le_laws w n z rest :
  w = 8 * Z.of_nat n -> is_unsigned w z ->
  (let? '(b, rem) := safe_split_at (to_le_bytes n z ++ rest) n in
   Ok (from_le_bytes b, rem)) = Ok (E := Error) (z, rest).
Proof.
  intros -> [? ?]. rewrite safe_split_at_app by apply to_le_bytes_length.
  cbn. rewrite from_to_le_bytes_small; [done|].
  change 256 with (2 ^ 8). rewrite <- Z.pow_mul_r by lia. done.
Qed.

Lemma unsigned_le_exact w n bs z rest :
  w = 8 * Z.of_nat n ->
  (let? '(b, rem) := safe_split_at bs n in
   Ok (from_le_bytes b, rem)) = Ok (E := Error) (z, rest) ->
  is_unsigned w z /\ bs = to_le_bytes n z ++ rest.
Proof.
  intros -> H. apply obind_ok in H as ([p r] & H & [= <- <-]).
  apply safe_split_at_ok in H as [-> <-]. rewrite to_from_le_bytes. split; [|done].
  unfold is_unsigned. rewrite Z.pow_mul_r by lia. apply from_le_bytes_range.
Qed.

Lemma signed_le_laws w n z rest :
  w = 8 * Z.of_nat n -> 0 < w -> is_signed w z ->
  (let? '(b, rem) := safe_split_at (to_le_bytes n z ++ rest) n in
   Ok (wrap_signed w (from_le_bytes b), rem)) = Ok (E := Error) (z, rest).
Proof.
  intros -> Hw Hz. rewrite safe_split_at_app by apply to_le_bytes_length.
  cbn. rewrite from_to_le_bytes. change 256 with (2 ^ 8). rewrite <- Z.pow_mul_r by lia.
  do 2 f_equal. transitivity (wrap_signed (8 * Z.of_nat n) z); [|by apply wrap_signed_small].
  unfold wrap_signed. f_equal. by rewrite Zplus_mod_idemp_l.
Qed.

#[global] Instance u32_laws : CodecLaws u32_codec (is_unsigned 32).
Proof. intros z bs rest Hz <-%Ok_inj. by apply (unsigned_le_laws 32 4). Qed.

#[global] Instance u32_exact : CodecExact u32_codec (is_unsigned 32).
Proof.
  intros bs z rest H. apply (unsigned_le_exact 32 4) in H as [? ->]; [|done]. eauto.
Qed.

#[global] Instance u64_laws : CodecLaws u64_codec (is_unsigned 64).
Proof. intros z bs rest Hz <-%Ok_inj. by apply (unsigned_le_laws 64 8). Qed.

#[global] Instance u64_exact : CodecExact u64_codec (is_unsigned 64).
Proof.
  intros bs z rest H. apply (unsigned_le_exact 64 8) in H as [? ->]; [|done]. eauto.
Qed.

#[global] Instance i32_laws : CodecLaws i32_codec (is_signed 32).
Proof. intros z bs rest Hz <-%Ok_inj. by apply (signed_le_laws 32 4). Qed.

#[global] Instance i64_laws : CodecLaws i64_codec (is_signed 64).
Proof. intros z bs rest Hz <-%Ok_inj. by apply (signed_le_laws 64 8). Qed.

#[global] Instance unit_laws : CodecLaws unit_codec (fun _ => True).
Proof. by intros [] bs rest _ <-%Ok_inj. Qed.

Lemma u32_prefix z rest :
  is_unsigned 32 z -> u32_from_bytes (to_le_bytes 4 z ++ rest) = Ok (z, rest).
Proof. intros Hz. by apply (u32_laws z (to_le_bytes 4 z) rest Hz). Qed.

Lemma zlen_to_nat {A} (l : list A) : Z.to_nat (zlen l) = length l.
Proof. apply Nat2Z.id. Qed.

Lemma fits_u32_unsigned {A} (l : list A) : fits_u32 l -> is_unsigned 32 (zlen l).
Proof. unfold fits_u32, u32_max, is_unsigned. pose proof (zlen_nonneg l). lia. Qed.

(** A length prefix that fits reads back as the length. *)
Lemma u32_len_prefix {A} (l : list A) rest :
  fits_u32 l -> u32_from_bytes (to_le_bytes 4 (wrap_unsigned 32 (zlen l)) ++ rest) = Ok (zlen l, rest).
Proof.
  intros H. apply fits_u32_unsigned in H. rewrite wrap_unsigned_small by done. by apply u32_prefix.
Qed.

(** * Vectors of bytes and strings *)

#[global] Instance vec_u8_laws : CodecLaws vec_u8_codec (fun _ => True).
Proof.
  intros v bs rest _. cbn. unfold vec_u8_to_bytes, vec_u8_from_bytes.
  destruct (_ >=? _) eqn:E; [done|]. breflect. cbn. intros Hs. apply Ok_inj in Hs as <-.
  rewrite <- app_assoc, u32_len_prefix by (unfold fits_u32, u32_max, U32_SERIALIZED_LENGTH in *; lia).
  cbn [obind]. apply safe_split_at_app. symmetry. apply zlen_to_nat.
Qed.

#[global] Instance u8_array_laws n : CodecLaws (u8_array_codec n) (is_bytes n).
Proof. intros v bs rest Hv <-%Ok_inj. by apply safe_split_at_app. Qed.

#[global] Instance u8_array_exact n : CodecExact (u8_array_codec n) (is_bytes n).
Proof.
  intros bs v rest H. apply safe_split_at_ok in H as [-> ?]. split; [done|]. by exists v.
Qed.

#[global] Instance string_laws : CodecLaws string_codec (fun s => utf8_valid s = true).
Proof.
  intros s bs rest Hv. cbn. unfold string_to_bytes, str_to_bytes, string_from_bytes.
  destruct (_ >=? _); [done|]. intros H.
  change (vec_u8_from_bytes (bs ++ rest)) with (from_bytes vec_u8_codec (bs ++ rest)).
  rewrite (vec_u8_laws s bs rest I H). cbn. by rewrite Hv.
Qed.

(** * Option, Result, tuples *)

Section composite.
Context {A B : Type} (ca : Codec A) (cb : Codec B) (va : A -> Prop) (vb : B -> Prop).
Context `{!CodecLaws ca va, !CodecLaws cb vb}.

#[global] Instance option_laws : CodecLaws (option_codec ca) (option_valid va).
Proof.
  intros [a|] bs rest Hv; cbn; unfold option_to_bytes, option_from_bytes.
  - intros H. apply obind_ok in H as (p & Hp & H). destruct (_ >=? _); [done|].
    apply Ok_inj in H as <-. cbn. by rewrite (codec_roundtrip a p rest Hv Hp).
  - by intros <-%Ok_inj.
Qed.

#[global] Instance result_laws : CodecLaws (result_codec ca cb) (sum_valid va vb).
Proof.
  intros [a|b] bs rest Hv; cbn; unfold result_from_bytes; intros H;
    apply obind_ok in H as (p & Hp & <-%Ok_inj); cbn.
  - by rewrite (codec_roundtrip a p rest Hv Hp).
  - by rewrite (codec_roundtrip b p rest Hv Hp).
Qed.

#[global] Instance tuple1_laws : CodecLaws (tuple1_codec ca) va.
Proof.
  intros a bs rest Hv H. apply obind_ok in H as (p & Hp & <-%Ok_inj).
  cbn. unfold tuple1_from_bytes. by rewrite (codec_roundtrip a p rest Hv Hp).
Qed.

#[global] Instance tuple2_laws : CodecLaws (tuple2_codec ca cb) (pair_valid va vb).
Proof.
  intros [a b] bs rest [Ha Hb] H. cbn in *. unfold tuple2_to_bytes in H.
  apply obind_ok in H as (p & Hp & H). apply obind_ok in H as (q & Hq & <-%Ok_inj).
  unfold tuple2_from_bytes. rewrite <- app_assoc, (codec_roundtrip a p _ Ha Hp). cbn.
  by rewrite (codec_roundtrip b q rest Hb Hq).
Qed.
End composite.

#[global] Instance option_exact {A} (c : Codec A) (v : A -> Prop) :
  CodecExact c v ->
  (forall a p, to_bytes c a = Ok p -> zlen p < u32_max - U8_SERIALIZED_LENGTH) ->
  CodecExact (option_codec c) (option_valid v).
Proof.
  intros Hc Hlen bs o rest H. cbn in H. unfold option_from_bytes in H.
  apply obind_ok in H as ([tag rem] & Ht & H).
  apply (u8_exact bs tag rem) in Ht as (? & p & <-%Ok_inj & ->).
  destruct (Z.eqb_spec tag 0) as [->|].
  - injection H as <- <-. split; [done|]. by eexists.
  - destruct (Z.eqb_spec tag 1) as [->|]; [|done].
    apply obind_ok in H as ([t rem'] & Hr & [= <- <-]).
    apply Hc in Hr as (Hv & q & Hq & ->). split; [done|].
    exists (byte_of_Z 1 :: q). split; [|done]. cbn. rewrite Hq. cbn.
    specialize (Hlen _ _ Hq).
    replace (zlen q >=? u32_max - U8_SERIALIZED_LENGTH) with false
      by (symmetry; rewrite Z.geb_leb; apply Z.leb_gt; lia).
    done.
Qed.

#[global] Instance tuple3_laws {A B C} (ca : Codec A) (cb : Codec B) (cc : Codec C) va vb vc
  `{!CodecLaws ca va, !CodecLaws cb vb, !CodecLaws cc vc} :
  CodecLaws (tuple3_codec ca cb cc) (pair_valid (pair_valid va vb) vc).
Proof.
  intros [[a b] c] bs rest [[Ha Hb] Hc] H. cbn in *. unfold tuple3_to_bytes in H.
  apply obind_ok in H as (p & Hp & H). apply obind_ok in H as (q & Hq & H).
  apply obind_ok in H as (r & Hr & <-%Ok_inj).
  unfold tuple3_from_bytes. rewrite <- !app_assoc, (codec_roundtrip a p _ Ha Hp). cbn.
  rewrite (codec_roundtrip b q _ Hb Hq). cbn. by rewrite (codec_roundtrip c r _ Hc Hr).
Qed.

(** * Sequences and maps *)

Section sequences.
Context {A : Type} (c : Codec A) (valid : A -> Prop) `{!CodecLaws c valid}.

Lemma read_n_write_all l bs rest :
  Forall valid l -> write_all c l = Ok bs -> read_n c (length l) (bs ++ rest) = Ok (l, rest).
Proof.
  intros Hv H. unfold write_all in H. apply obind_ok in H as (bss & H & <-%Ok_inj).
  apply try_collect_ok in H. revert Hv.
  induction H as [|a p l ps Hp _ IH]; intros Hv; cbn; [done|].
  inversion Hv; subst. rewrite <- app_assoc, (codec_roundtrip a p _) by done.
  cbn. by rewrite IH.
Qed.

#[global] Instance array_laws size_of n :
  Z.of_nat n <= u32_max ->
  CodecLaws (array_codec size_of n c) (fun l => length l = n /\ Forall valid l).
Proof.
  intros Hn l bs rest [Hl Hv]. cbn. unfold array_to_bytes, array_from_bytes.
  destruct (_ >=? _); [done|]. intros H. cbn in H.
  apply obind_ok in H as (items & Hi & <-%Ok_inj).
  assert (is_unsigned 32 (Z.of_nat n)) by (unfold is_unsigned, u32_max in *; lia).
  rewrite wrap_unsigned_small by done. rewrite <- app_assoc, u32_prefix by done. cbn.
  rewrite Z.eqb_refl. cbn. subst n. by apply read_n_write_all.
Qed.

Context {alloc : Allocator}.

Lemma vec_read_written l items rest :
  list_valid valid l -> try_reserve_exact (length l) = true -> write_all c l = Ok items ->
  vec_from_bytes c (to_le_bytes 4 (wrap_unsigned 32 (zlen l)) ++ items ++ rest) = Ok (l, rest).
Proof.
  intros [Hv Hn] Ha Hi. unfold vec_from_bytes. rewrite u32_len_prefix by done. cbn.
  unfold reserve. rewrite zlen_to_nat, Ha. cbn. by apply read_n_write_all.
Qed.

Lemma vec_roundtrip l bs rest :
  list_valid valid l -> try_reserve_exact (length l) = true ->
  vec_to_bytes c l = Ok bs -> vec_from_bytes c (bs ++ rest) = Ok (l, rest).
Proof.
  intros Hv Ha H. unfold vec_to_bytes in H. cbn in H. apply obind_ok in H as (items & Hi & <-%Ok_inj).
  rewrite <- app_assoc. by apply vec_read_written.
Qed.
End sequences.

Section maps.
Context {K V : Type} `{OrdLaws K} (ck : Codec K) (cv : Codec V) (vk : K -> Prop) (vv : V -> Prop).
Context `{!CodecLaws ck vk, !CodecLaws cv vv}.

Lemma read_entries_written (l : list (K * V)) bss m rest :
  Forall (pair_valid vk vv) l ->
  Forall2 (fun kv p => tuple2_to_bytes ck cv kv = Ok p) l bss ->
  read_entries ck cv (length l) m (concat bss ++ rest) = Ok (bt_extend m l, rest).
Proof.
  intros Hv H2. revert m Hv. induction H2 as [|[k v] p l ps Hp _ IH]; intros m Hv; cbn; [done|].
  inversion Hv as [|? ? [Hk Hvv] Hv']; subst. cbn in *. unfold tuple2_to_bytes in Hp. cbn in Hp.
  apply obind_ok in Hp as (pk & Hpk & Hp). apply obind_ok in Hp as (pv & Hpv & <-%Ok_inj).
  rewrite <- !app_assoc, (codec_roundtrip k pk _ Hk Hpk). cbn.
  rewrite (codec_roundtrip v pv _ Hvv Hpv). cbn. by rewrite IH.
Qed.

#[global] Instance btreemap_laws : CodecLaws (btreemap_codec ck cv) (btreemap_valid vk vv).
Proof.
  intros m bs rest (Hwf & Hv & Hn). cbn. unfold btreemap_to_bytes, btreemap_from_bytes.
  intros Hs. apply obind_ok in Hs as (bss & Hb & Hs). cbn in Hs. apply Ok_inj in Hs as <-.
  apply try_collect_ok in Hb. rewrite <- app_assoc, u32_len_prefix by done. cbn.
  rewrite zlen_to_nat, (read_entries_written m bss) by done.
  change (bt_extend bt_empty m) with (bt_collect m). by rewrite (bt_collect_sorted m).
Qed.
Lemma read_entries_wf n m bs :
  CodecSafe ck -> CodecSafe cv -> bt_wf m ->
  read_entries ck cv n m bs <> Panic
  /\ forall m' rest, read_entries ck cv n m bs = Ok (m', rest) -> bt_wf m'.
Proof.
  intros Sk Sv. revert m bs. induction n as [|n IH]; intros m bs Hm; cbn [read_entries].
  - split; [done|]. by intros m' rest [= <- _].
  - pose proof (Sk bs). destruct (from_bytes ck bs) as [[k rem]|?|]; cbn; [|done..].
    pose proof (Sv rem). destruct (from_bytes cv rem) as [[v rem']|?|]; cbn; [|done..].
    apply IH. by apply bt_wf_insert.
Qed.

Lemma u32_safe : CodecSafe u32_codec.
Proof. intros bs. cbn. unfold u32_from_bytes, safe_split_at. by destruct (_ <? _)%nat. Qed.

(** A map reads back from its serialized form, and the reader of untrusted
    bytes, if those of keys and values do, returns without panicking; whatever
    order or repetition of entries it meets, it returns a sorted map without
    duplicates. *)
Theorem btreemap_codec_spec :
  CodecSafe ck -> CodecSafe cv ->
  (forall m bs rest, btreemap_valid vk vv m -> btreemap_to_bytes ck cv m = Ok bs ->
     btreemap_from_bytes ck cv (bs ++ rest) = Ok (m, rest))
  /\ forall bs, btreemap_from_bytes ck cv bs <> Panic
     /\ forall m rest, btreemap_from_bytes ck cv bs = Ok (m, rest) -> bt_wf m.
Proof.
  intros Sk Sv. split; [apply btreemap_laws|]. intros bs. unfold btreemap_from_bytes.
  pose proof (u32_safe bs) as Hs. cbn in Hs. destruct (u32_from_bytes bs) as [[n stream]|?|]; [|done..].
  cbn [obind]. apply read_entries_wf; [done | done | apply bt_wf_empty].
Qed.
End maps.
