(* ===== verification/Uint.v ===== *)
(** The 128, 256 and 512 bit unsigned integers, [types/src/uint.rs]: their
    variable-length serialization and the [AsPrimitive] conversions between
    them and the primitive integers.  A value is its number in [Z]; limb [0] is
    the value modulo [2 ^ 64]. *)

From S2P Require Import Prelude Bytesrepr.

(** * Serialization, for a type of [total_bytes] bytes *)

Fixpoint skip_while {A} (p : A -> bool) (l : list A) : list A :=
  match l with
  | [] => []
  | x :: l' => if p x then skip_while p l' else l
  end.

Definition uint_to_bytes (total_bytes : nat) (z : Z) : outcome Error bytes :=
  let buf := to_le_bytes total_bytes z in
  let non_zero_bytes := skip_while (fun b => byte_to_Z b =? 0) (rev buf) in
  let num_bytes := wrap_unsigned 8 (zlen non_zero_bytes) in
  Ok (rev (non_zero_bytes ++ [byte_of_Z num_bytes])).

Definition uint_from_bytes (total_bytes : nat) (bs : bytes) : outcome Error (Z * bytes) :=
  let? '(num_bytes, rem) := u8_from_bytes bs in
  if num_bytes >? Z.of_nat total_bytes then Err FormattingError
  else
    let? '(value, rem') := safe_split_at rem (Z.to_nat num_bytes) in
    Ok (from_le_bytes value, rem').

Definition uint_codec (total_bytes : nat) : Codec Z :=
  mk_codec (uint_to_bytes total_bytes) (uint_from_bytes total_bytes).

Definition u128_codec : Codec Z := uint_codec 16.
Definition u256_codec : Codec Z := uint_codec 32.
Definition u512_codec : Codec Z := uint_codec 64.

Definition U512_MAX : Z := 2 ^ 512 - 1.

(** * Arithmetic on [w] bits *)

Definition wrapping_add (w a b : Z) : Z := wrap_unsigned w (a + b).

Definition wrapping_sub (w a b : Z) : Z := wrap_unsigned w (a - b).

Definition saturating_add (w a b : Z) : Z := Z.min (a + b) (2 ^ w - 1).

Definition saturating_sub (a b : Z) : Z := Z.max (a - b) 0.

Definition checked_add (w a b : Z) : option Z :=
  if a + b <? 2 ^ w then Some (a + b) else None.

Definition checked_sub (a b : Z) : option Z :=
  if b <=? a then Some (a - b) else None.

(** The operators [+], [-] and [*] of the wide integers panic on overflow. *)
Definition uint_add {E} (w a b : Z) : outcome E Z :=
  if a + b <? 2 ^ w then Ok (a + b) else Panic.

Definition uint_sub {E} (a b : Z) : outcome E Z :=
  if b <=? a then Ok (a - b) else Panic.

Definition uint_mul {E} (w a b : Z) : outcome E Z :=
  if a * b <? 2 ^ w then Ok (a * b) else Panic.

(** * Conversions *)

Definition i32_as_uint (w z : Z) : Z :=
  if z >=? 0 then wrap_unsigned 32 z
  else
    let abs := wrapping_sub 32 0 (wrap_unsigned 32 z) in
    wrapping_sub w 0 abs.

Definition i64_as_uint (w z : Z) : Z :=
  if z >=? 0 then wrap_unsigned 64 z
  else
    let abs := wrapping_sub 64 0 (wrap_unsigned 64 z) in
    wrapping_sub w 0 abs.

Definition small_as_uint (z : Z) : Z := z.

(** [self.0[0]]. *)
Definition limb0 (z : Z) : Z := z mod 2 ^ 64.

Definition uint_as_i32 (z : Z) : Z := wrap_signed 32 (limb0 z).

Definition uint_as_i64 (z : Z) : Z := wrap_signed 64 (limb0 z).

Definition uint_as_u8 (z : Z) : Z := wrap_unsigned 8 (limb0 z).

Definition uint_as_u32 (z : Z) : Z := wrap_unsigned 32 (limb0 z).

Definition uint_as_u64 (z : Z) : Z := limb0 z.

(** [result.0[..n].clone_from_slice(&self.0[..n])] into a zero. *)
Definition copy_limbs (n z : Z) : Z := z mod 2 ^ (64 * n).

Definition u128_as_u256 (z : Z) : Z := copy_limbs 2 z.
Definition u128_as_u512 (z : Z) : Z := copy_limbs 2 z.
Definition u256_as_u128 (z : Z) : Z := copy_limbs 2 z.
Definition u256_as_u512 (z : Z) : Z := copy_limbs 4 z.
Definition u512_as_u128 (z : Z) : Z := copy_limbs 2 z.
Definition u512_as_u256 (z : Z) : Z := copy_limbs 4 z.

(** The numeric types that meet in a wrapping addition. *)
Inductive NumType := NI32 | NI64 | NU8 | NU32 | NU64 | NU128 | NU256 | NU512.

#[global] Instance NumType_eq_dec : EqDecision NumType.
Proof. solve_decision. Defined.

Definition num_width (t : NumType) : Z :=
  match t with
  | NI32 => 32 | NI64 => 64 | NU8 => 8 | NU32 => 32 | NU64 => 64
  | NU128 => 128 | NU256 => 256 | NU512 => 512
  end.

Definition num_signed (t : NumType) : bool :=
  match t with NI32 | NI64 => true | _ => false end.

(** The value of type [t] congruent to [z]. *)
Definition num_wrap (t : NumType) (z : Z) : Z :=
  if num_signed t then wrap_signed (num_width t) z else wrap_unsigned (num_width t) z.

Definition num_valid (t : NumType) (z : Z) : Prop :=
  if num_signed t then is_signed (num_width t) z else is_unsigned (num_width t) z.

(** [AsPrimitive::as_] from [src] to [dst]; between primitive integers it is
    the [as] cast. *)
Definition as_ (src dst : NumType) (z : Z) : Z :=
  match src, dst with
  | NI32, (NU128 | NU256 | NU512) => i32_as_uint (num_width dst) z
  | NI64, (NU128 | NU256 | NU512) => i64_as_uint (num_width dst) z
  | (NU8 | NU32 | NU64), (NU128 | NU256 | NU512) => small_as_uint z
  | (NU128 | NU256 | NU512), NI32 => uint_as_i32 z
  | (NU128 | NU256 | NU512), NI64 => uint_as_i64 z
  | (NU128 | NU256 | NU512), NU8 => uint_as_u8 z
  | (NU128 | NU256 | NU512), NU32 => uint_as_u32 z
  | (NU128 | NU256 | NU512), NU64 => uint_as_u64 z
  | NU128, NU128 => z
  | NU128, NU256 => u128_as_u256 z
  | NU128, NU512 => u128_as_u512 z
  | NU256, NU128 => u256_as_u128 z
  | NU256, NU256 => z
  | NU256, NU512 => u256_as_u512 z
  | NU512, NU128 => u512_as_u128 z
  | NU512, NU256 => u512_as_u256 z
  | NU512, NU512 => z
  | (NI32 | NI64 | NU8 | NU32 | NU64), (NI32 | NI64 | NU8 | NU32 | NU64) => num_wrap dst z
  end.

(** [WrappingAdd::wrapping_add] at type [t]. *)
Definition num_wrapping_add (t : NumType) (a b : Z) : Z := num_wrap t (a + b).

(** * Serialization lemmas *)

Lemma skip_while_split {A} (p : A -> bool) l :
  exists z, l = z ++ skip_while p l /\ Forall (fun x => p x = true) z.
Proof.
  induction l as [|x l [z [E F]]]; cbn; [by exists []|].
  destruct (p x) eqn:Ep.
  - exists (x :: z). split; [cbn; by rewrite <- E | by constructor].
  - by exists [].
Qed.

Lemma from_le_bytes_zeros l :
  Forall (fun b => (byte_to_Z b =? 0) = true) l -> from_le_bytes l = 0.
Proof.
  induction 1 as [|b l Hb _ IH]; [done|]. breflect.
  change (from_le_bytes (b :: l)) with (byte_to_Z b + 256 * from_le_bytes l). lia.
Qed.

(** The digits written are the value's, without the leading zero bytes. *)
Lemma uint_digits n z (nz := skip_while (fun b => byte_to_Z b =? 0) (rev (to_le_bytes n z))) :
  is_unsigned (8 * Z.of_nat n) z ->
  from_le_bytes (rev nz) = z /\ (length nz <= n)%nat.
Proof.
  intros [Hz0 Hz]. subst nz.
  destruct (skip_while_split (fun b => byte_to_Z b =? 0) (rev (to_le_bytes n z))) as (zs & E & F).
  set (nz := skip_while _ _) in *.
  assert (to_le_bytes n z = rev nz ++ rev zs) as Eb.
  { rewrite <- (rev_involutive (to_le_bytes n z)), E. apply rev_app_distr. }
  split.
  - transitivity (from_le_bytes (to_le_bytes n z)).
    + rewrite Eb, from_le_bytes_app, (from_le_bytes_zeros (rev zs)) by (by apply Forall_rev). lia.
    + apply from_to_le_bytes_small. change 256 with (2 ^ 8). rewrite <- Z.pow_mul_r by lia. done.
  - pose proof (to_le_bytes_length n z) as L. rewrite Eb, length_app, !length_rev in L. lia.
Qed.

#[global] Instance uint_laws n :
  Z.of_nat n < 256 -> CodecLaws (uint_codec n) (is_unsigned (8 * Z.of_nat n)).
Proof.
  intros Hn z bs rest Hz Hs. unfold uint_codec, to_bytes, uint_to_bytes in Hs.
  apply Ok_inj in Hs as <-. destruct (uint_digits n z Hz) as [Ed Ln].
  set (nz := skip_while _ _) in *.
  rewrite rev_app_distr. cbn [rev app uint_codec from_bytes].
  unfold uint_from_bytes. cbn [u8_from_bytes obind].
  assert (0 <= zlen nz < 256) by (unfold zlen; lia).
  rewrite byte_to_of_Z, wrap_unsigned_small, Z.mod_small by done.
  destruct (zlen nz >? Z.of_nat n) eqn:E; [breflect; unfold zlen in *; lia|].
  rewrite zlen_to_nat, safe_split_at_app by apply length_rev. cbn. by rewrite Ed.
Qed.

#[global] Instance u128_laws : CodecLaws u128_codec (is_unsigned 128).
Proof. by apply (uint_laws 16). Qed.

#[global] Instance u256_laws : CodecLaws u256_codec (is_unsigned 256).
Proof. by apply (uint_laws 32). Qed.

#[global] Instance u512_laws : CodecLaws u512_codec (is_unsigned 512).
Proof. by apply (uint_laws 64). Qed.

(** * Conversion lemmas *)

Lemma num_width_pos t : 8 <= num_width t.
Proof. by destruct t. Qed.

Lemma num_wrap_valid t z : num_valid t (num_wrap t z).
Proof.
  unfold num_valid, num_wrap. pose proof (num_width_pos t). destruct (num_signed t).
  - apply wrap_signed_range. lia.
  - apply wrap_unsigned_range. lia.
Qed.

Lemma num_wrap_small t z : num_valid t z -> num_wrap t z = z.
Proof.
  unfold num_valid, num_wrap. pose proof (num_width_pos t). destruct (num_signed t).
  - apply wrap_signed_small. lia.
  - apply wrap_unsigned_small.
Qed.

Lemma eqmod_num_wrap t z : eqmod (num_width t) (num_wrap t z) z.
Proof.
  unfold num_wrap. destruct (num_signed t); [apply eqmod_wrap_signed | apply eqmod_wrap_unsigned].
Qed.

(** Wrapping depends only on the residue. *)
#[global] Instance num_wrap_proper t : Proper (eqmod (num_width t) ==> eq) (num_wrap t).
Proof.
  intros a b H. unfold num_wrap, wrap_signed, wrap_unsigned. destruct (num_signed t); [|done].
  f_equal. by apply eqmod_add.
Qed.

Lemma eqmod_mod w w' z : 0 <= w <= w' -> eqmod w (z mod 2 ^ w') z.
Proof. intros. apply (eqmod_narrow w'); [lia|]. apply eqmod_wrap_unsigned. Qed.

Lemma neg_as_uint w w' z :
  0 < w' <= w -> - 2 ^ (w' - 1) <= z < 0 ->
  wrapping_sub w 0 (wrapping_sub w' 0 (wrap_unsigned w' z)) = wrap_unsigned w z.
Proof.
  intros Hw Hz. unfold wrapping_sub, wrap_unsigned.
  assert (2 ^ w' = 2 * 2 ^ (w' - 1)) as E by (rewrite <- Z.pow_succ_r by lia; f_equal; lia).
  rewrite Zminus_mod_idemp_r.
  rewrite (Z.mod_small (0 - z) (2 ^ w')) by lia. f_equal. lia.
Qed.

(** Every conversion is reduction to the target width: no conversion loses
    anything else. *)
Lemma as_num_wrap src dst z : num_valid src z -> as_ src dst z = num_wrap dst z.
Proof.
  intros Hv.
  assert (forall a, eqmod (num_width dst) a z -> num_wrap dst a = num_wrap dst z) as Hw
    by (intros a Ha; by rewrite Ha).
  destruct src, dst; cbn [as_]; try done;
    unfold num_valid, is_signed, is_unsigned, small_as_uint in Hv; cbn [num_signed num_width] in Hv.
  all: try (symmetry; apply num_wrap_small; unfold num_valid, is_unsigned, is_signed;
            cbn [num_signed num_width]; unfold small_as_uint; lia).
  all: try (unfold i32_as_uint, i64_as_uint; destruct (_ >=? 0) eqn:E; breflect;
            [ unfold num_wrap, wrap_unsigned; cbn [num_signed num_width];
              rewrite !Z.mod_small; lia
            | apply neg_as_uint; cbn; lia ]).
  all: unfold uint_as_i32, uint_as_i64, uint_as_u8, uint_as_u32, uint_as_u64, limb0,
    u128_as_u256, u128_as_u512, u256_as_u128, u256_as_u512, u512_as_u128, u512_as_u256, copy_limbs.
  all: try (apply Hw; cbn [num_width]; apply eqmod_mod; lia).
  all: unfold num_wrap, wrap_unsigned; cbn [num_signed num_width]; try done.
  all: rewrite !Z.mod_small; lia.
Qed.

(** An inner reduction to a type at least as wide is absorbed. *)
Lemma num_wrap_add_r t r a b :
  num_width t <= num_width r -> num_wrap t (a + num_wrap r b) = num_wrap t (a + b).
Proof.
  intros Hw. apply num_wrap_proper. apply eqmod_add; [done|].
  eapply eqmod_narrow; [|apply eqmod_num_wrap]. pose proof (num_width_pos t). lia.
Qed.

Lemma num_wrap_add_l t r a b :
  num_width t <= num_width r -> num_wrap t (num_wrap r a + b) = num_wrap t (a + b).
Proof. intros. rewrite (Z.add_comm _ b), num_wrap_add_r by done. f_equal. lia. Qed.

(** * What the conversions and the serialization promise *)

(** A conversion between numeric types is reduction modulo the width of the
    target, read with the target's sign; a value the target can hold is kept. *)
Theorem as_spec src dst z :
  num_valid src z ->
  num_valid dst (as_ src dst z) /\ eqmod (num_width dst) (as_ src dst z) z
  /\ (num_valid dst z -> as_ src dst z = z).
Proof.
  intros Hv. rewrite (as_num_wrap src dst z Hv).
  split; [apply num_wrap_valid|]. split; [apply eqmod_num_wrap | apply num_wrap_small].
Qed.

Lemma skip_while_head {A} (p : A -> bool) l x l' : skip_while p l = x :: l' -> p x = false.
Proof.
  induction l as [|a l IH]; cbn; [done|]. destruct (p a) eqn:E; [done|]. by intros [= <- _].
Qed.

(** A number whose highest byte is not zero needs all its bytes. *)
Lemma from_le_bytes_top b l :
  byte_to_Z b <> 0 -> 256 ^ zlen l <= from_le_bytes (rev (b :: l)).
Proof.
  intros Hb. cbn [rev]. rewrite from_le_bytes_app. pose proof (from_le_bytes_range (rev l)) as Hr.
  pose proof (byte_to_Z_range b). change (from_le_bytes [b]) with (byte_to_Z b + 256 * 0).
  unfold zlen in *. rewrite length_rev in *.
  assert (0 < 256 ^ Z.of_nat (length l)) by (apply Z.pow_pos_nonneg; lia). nia.
Qed.

(** The serialized form of a wide integer reads back, and no other input
    that reads as the same number is shorter. *)
Theorem uint_codec_spec n z bs :
  Z.of_nat n < 256 -> is_unsigned (8 * Z.of_nat n) z -> uint_to_bytes n z = Ok bs ->
  (forall rest, uint_from_bytes n (bs ++ rest) = Ok (z, rest))
  /\ forall bs', uint_from_bytes n bs' = Ok (z, []) -> (length bs <= length bs')%nat.
Proof.
  intros Hn Hz E. split; [intros rest; by apply (uint_laws n Hn z bs rest)|].
  intros bs' E'. unfold uint_to_bytes in E. apply Ok_inj in E as <-.
  destruct (uint_digits n z Hz) as [Ed Ln]. set (nz := skip_while _ _) in *.
  rewrite rev_app_distr, length_app. cbn [length rev app].
  unfold uint_from_bytes in E'. destruct bs' as [|c bs']; [done|]. cbn [u8_from_bytes obind] in E'.
  destruct (_ >? _); [done|].
  apply obind_ok in E' as ([value rem'] & Hs & E'). injection E' as Ev ->.
  apply safe_split_at_ok in Hs as [-> _]. rewrite app_nil_r. cbn.
  rewrite length_rev. enough (length nz <= length value)%nat by lia.
  destruct nz as [|x nz'] eqn:Enz; [cbn; lia|].
  assert ((byte_to_Z x =? 0) = false) as Hx by (by apply (skip_while_head _ _ _ _ Enz)). breflect.
  pose proof (from_le_bytes_top x nz' Hx) as Ht. rewrite Ed, <- Ev in Ht.
  pose proof (from_le_bytes_range value) as Hr. cbn.
  enough (zlen nz' < zlen value) by (unfold zlen in *; lia).
  apply (Z.pow_lt_mono_r_iff 256); [lia | unfold zlen; lia | lia].
Qed.
