(* ===== verification/Types.v ===== *)
(** The base types of the platform: access rights, unforgeable references,
    keys, account identifiers, versions and phases, with their codecs.
    Sources: [types/src/access_rights.rs], [uref.rs], [key.rs],
    [contract_ref.rs], [account.rs], [block_time.rs], [phase.rs], [semver.rs],
    [protocol_version.rs]. *)

From S2P Require Import Prelude BTreeMap Bytesrepr Uint.

(** * Access rights: three bits of a [u8] *)

Definition AccessRights : Type := Z.

Definition READ : AccessRights := 1.
Definition WRITE : AccessRights := 2.
Definition ADD : AccessRights := 4.
Definition READ_ADD : AccessRights := Z.lor READ ADD.
Definition READ_WRITE : AccessRights := Z.lor READ WRITE.
Definition ADD_WRITE : AccessRights := Z.lor ADD WRITE.
Definition READ_ADD_WRITE : AccessRights := Z.lor (Z.lor READ ADD) WRITE.

(** [from_bits]: no bit outside the declared flags. *)
Definition rights_from_bits (bits : Z) : option AccessRights :=
  if Z.land bits (Z.lnot READ_ADD_WRITE) =? 0 then Some bits else None.

Definition rights_is_readable (r : AccessRights) : bool := Z.land r READ =? READ.

Definition rights_is_writeable (r : AccessRights) : bool := Z.land r WRITE =? WRITE.

Definition rights_is_addable (r : AccessRights) : bool := Z.land r ADD =? ADD.

(** [held & wanted == wanted], the test of the runtime. *)
Definition rights_enough (held wanted : AccessRights) : bool := Z.land held wanted =? wanted.

Definition access_rights_to_bytes (r : AccessRights) : outcome Error bytes := u8_to_bytes r.

Definition access_rights_from_bytes (bs : bytes) : outcome Error (AccessRights * bytes) :=
  let? '(id, rem) := u8_from_bytes bs in
  match rights_from_bits id with
  | Some rights => Ok (rights, rem)
  | None => Err FormattingError
  end.

Definition access_rights_codec : Codec AccessRights :=
  mk_codec access_rights_to_bytes access_rights_from_bytes.

(** * Unforgeable references *)

Definition UREF_ADDR_LENGTH : nat := 32.
Definition UREF_SERIALIZED_LENGTH : Z := 32 + OPTION_TAG_SERIALIZED_LENGTH + 1.

Record URef := mk_uref {
  uref_addr : bytes;
  uref_access_rights : option AccessRights;
}.

#[global] Instance uref_eq_dec : EqDecision URef.
Proof. solve_decision. Defined.

#[global] Program Instance uref_countable : Countable URef :=
  inj_countable' (fun u => (uref_addr u, uref_access_rights u)) (fun p => mk_uref p.1 p.2) _.
Next Obligation. by intros []. Qed.

Definition uref_new (id : bytes) (access_rights : AccessRights) : URef :=
  mk_uref id (Some access_rights).

Definition with_access_rights (u : URef) (access_rights : AccessRights) : URef :=
  mk_uref (uref_addr u) (Some access_rights).

Definition remove_access_rights (u : URef) : URef := mk_uref (uref_addr u) None.

Definition uref_is_readable (u : URef) : bool :=
  match uref_access_rights u with
  | Some r => rights_is_readable r
  | None => false
  end.

Definition into_read (u : URef) : URef := mk_uref (uref_addr u) (Some READ).

Definition into_read_add_write (u : URef) : URef := mk_uref (uref_addr u) (Some READ_ADD_WRITE).

Definition uref_is_writeable (u : URef) : bool :=
  match uref_access_rights u with
  | Some r => rights_is_writeable r
  | None => false
  end.

Definition uref_is_addable (u : URef) : bool :=
  match uref_access_rights u with
  | Some r => rights_is_addable r
  | None => false
  end.

Definition uref_to_bytes (u : URef) : outcome Error bytes :=
  let? b0 := u8_array_to_bytes (uref_addr u) in
  let? b1 := option_to_bytes access_rights_codec (uref_access_rights u) in
  Ok (b0 ++ b1).

Definition uref_from_bytes (bs : bytes) : outcome Error (URef * bytes) :=
  let? '(id, rem) := u8_array_from_bytes 32 bs in
  let? '(maybe_access_rights, rem') := option_from_bytes access_rights_codec rem in
  Ok (mk_uref id maybe_access_rights, rem').

Definition uref_codec : Codec URef := mk_codec uref_to_bytes uref_from_bytes.

(** A digit of base eight, and [{:03o}] of a byte. *)
Definition octal_digit (z : Z) : byte := byte_of_Z (48 + z mod 8).

Definition octal3 (z : Z) : bytes := [octal_digit (z / 64); octal_digit (z / 8); octal_digit z].

Section as_string.
Variable encode_lower : bytes -> bytes.

Definition uref_as_string (u : URef) : bytes :=
  let access_rights_bits := match uref_access_rights u with Some r => r | None => 0 end in
  str "uref-" ++ encode_lower (uref_addr u) ++ str "-" ++ octal3 access_rights_bits.
End as_string.

(** * Keys *)

Definition ACCOUNT_ID : Z := 0.
Definition HASH_ID : Z := 1.
Definition UREF_ID : Z := 2.
Definition LOCAL_ID : Z := 3.

Definition KEY_ACCOUNT_SERIALIZED_LENGTH : Z := 1 + 32.
Definition KEY_HASH_SERIALIZED_LENGTH : Z := 1 + 32.
Definition KEY_UREF_SERIALIZED_LENGTH : Z := 1 + UREF_SERIALIZED_LENGTH.
Definition KEY_LOCAL_SERIALIZED_LENGTH : Z := 1 + 32.

Inductive Key :=
| Key_Account (addr : bytes)
| Key_Hash (hash : bytes)
| Key_URef (uref : URef)
| Key_Local (hash : bytes).

#[global] Instance key_eq_dec : EqDecision Key.
Proof. solve_decision. Defined.

#[global] Program Instance key_countable : Countable Key :=
  inj_countable'
    (fun k => match k with
              | Key_Account a => inl (inl a)
              | Key_Hash h => inl (inr h)
              | Key_URef u => inr (inl u)
              | Key_Local h => inr (inr h)
              end)
    (fun s => match s with
              | inl (inl a) => Key_Account a
              | inl (inr h) => Key_Hash h
              | inr (inl u) => Key_URef u
              | inr (inr h) => Key_Local h
              end) _.
Next Obligation. by intros []. Qed.

(** The derived orders: address before rights, variants in their order. *)
#[global] Instance ord_uref : Ord URef :=
  fun x y => ord_cmp (uref_addr x, uref_access_rights x) (uref_addr y, uref_access_rights y).

#[global] Instance ord_laws_uref : OrdLaws URef.
Proof. apply (ord_laws_image (fun u => (uref_addr u, uref_access_rights u))). by intros [] [] [= -> ->]. Qed.

Definition key_variant (k : Key) : (bytes + bytes) + (URef + bytes) :=
  match k with
  | Key_Account a => inl (inl a)
  | Key_Hash h => inl (inr h)
  | Key_URef u => inr (inl u)
  | Key_Local h => inr (inr h)
  end.

#[global] Instance ord_key : Ord Key := fun x y => ord_cmp (key_variant x) (key_variant y).

#[global] Instance ord_laws_key : OrdLaws Key.
Proof. apply (ord_laws_image key_variant). by intros [] [] [= ->]. Qed.

Inductive ContractRef :=
| ContractRef_Hash (hash : bytes)
| ContractRef_URef (uref : URef).

Definition contract_ref_into_uref (c : ContractRef) : option URef :=
  match c with ContractRef_URef u => Some u | _ => None end.

Definition key_from_contract_ref (c : ContractRef) : Key :=
  match c with ContractRef_Hash h => Key_Hash h | ContractRef_URef u => Key_URef u end.

Definition key_local (blake2b : bytes -> bytes) (seed key_bytes : bytes) : Key :=
  Key_Local (blake2b (seed ++ key_bytes)).

Definition key_serialized_size (k : Key) : Z :=
  match k with
  | Key_Account _ => KEY_ACCOUNT_SERIALIZED_LENGTH
  | Key_Hash _ => KEY_HASH_SERIALIZED_LENGTH
  | Key_URef _ => KEY_UREF_SERIALIZED_LENGTH
  | Key_Local _ => KEY_LOCAL_SERIALIZED_LENGTH
  end.

Definition key_serialized_size_hint : Z := KEY_UREF_SERIALIZED_LENGTH.

Definition to_contract_ref (k : Key) : option ContractRef :=
  match k with
  | Key_URef uref => Some (ContractRef_URef uref)
  | Key_Hash id => Some (ContractRef_Hash id)
  | _ => None
  end.

Definition key_as_account (k : Key) : option bytes :=
  match k with Key_Account b => Some b | _ => None end.

Definition normalize (k : Key) : Key :=
  match k with
  | Key_URef uref => Key_URef (remove_access_rights uref)
  | other => other
  end.

Definition key_into_uref (k : Key) : option URef :=
  match k with Key_URef u => Some u | _ => None end.

Definition key_as_hash (k : Key) : option bytes :=
  match k with Key_Hash h => Some h | _ => None end.

Definition key_as_local (k : Key) : option bytes :=
  match k with Key_Local h => Some h | _ => None end.

Definition key_to_bytes (k : Key) : outcome Error bytes :=
  match k with
  | Key_Account addr => let? b := u8_array_to_bytes addr in Ok (byte_of_Z ACCOUNT_ID :: b)
  | Key_Hash hash => let? b := u8_array_to_bytes hash in Ok (byte_of_Z HASH_ID :: b)
  | Key_URef uref => let? b := uref_to_bytes uref in Ok (byte_of_Z UREF_ID :: b)
  | Key_Local hash => let? b := u8_array_to_bytes hash in Ok (byte_of_Z LOCAL_ID :: b)
  end.

Definition key_from_bytes (bs : bytes) : outcome Error (Key * bytes) :=
  let? '(id, rest) := u8_from_bytes bs in
  if id =? ACCOUNT_ID then
    let? '(addr, rem) := u8_array_from_bytes 32 rest in Ok (Key_Account addr, rem)
  else if id =? HASH_ID then
    let? '(hash, rem) := u8_array_from_bytes 32 rest in Ok (Key_Hash hash, rem)
  else if id =? UREF_ID then
    let? '(uref, rem) := uref_from_bytes rest in Ok (Key_URef uref, rem)
  else if id =? LOCAL_ID then
    let? '(hash, rem) := u8_array_from_bytes 32 rest in Ok (Key_Local hash, rem)
  else Err FormattingError.

Definition key_codec : Codec Key := mk_codec key_to_bytes key_from_bytes.

Section hex.
Variable encode_lower : bytes -> bytes.
Variable decode : bytes -> option bytes.
Variable blake2b : bytes -> bytes.

Definition key_as_string (k : Key) : bytes :=
  match k with
  | Key_Account addr => str "account-" ++ encode_lower addr
  | Key_Hash addr => str "hash-" ++ encode_lower addr
  | Key_URef uref => uref_as_string encode_lower uref
  | Key_Local hash => str "local-" ++ encode_lower hash
  end.

Definition drop_hex_prefix (s : bytes) : bytes :=
  if bool_decide (take 2 s = str "0x") then drop 2 s else s.

Definition decode_from_hex (input : bytes) : option bytes :=
  let undecorated_input := drop_hex_prefix input in
  if negb (zlen undecorated_input =? 64) then None else decode undecorated_input.

Definition parse_hash (s : bytes) : option Key := Key_Hash <$> decode_from_hex s.

Definition parse_uref (s : bytes) (access_rights : AccessRights) : option Key :=
  (fun uref => Key_URef (uref_new uref access_rights)) <$> decode_from_hex s.

Definition parse_local (hex_seed hex_key_bytes : bytes) : option Key :=
  match decode_from_hex hex_seed with
  | None => None
  | Some decoded_seed =>
      match decode (drop_hex_prefix hex_key_bytes) with
      | None => None
      | Some decoded_key_bytes => Some (key_local blake2b decoded_seed decoded_key_bytes)
      end
  end.
End hex.

(** * Account identifiers and failures *)

(** [PurseId], [PublicKey] and [Weight] wrap one value. *)
Definition PurseId : Type := URef.
Definition PublicKey : Type := bytes.
Definition Weight : Type := Z.

Definition MAX_KEYS : Z := 10.
Definition PUBLIC_KEY_SERIALIZED_LENGTH : Z := 32.
Definition WEIGHT_SERIALIZED_LENGTH : Z := U8_SERIALIZED_LENGTH.

Definition purse_id_codec : Codec PurseId := uref_codec.
Definition public_key_codec : Codec PublicKey := u8_array_codec 32.
Definition weight_codec : Codec Weight := u8_codec.

Inductive TryFromIntError := mk_TryFromIntError.

Inductive ActionType := Deployment | KeyManagement.

Definition action_type_try_from (value : Z) : outcome TryFromIntError ActionType :=
  if value =? 0 then Ok Deployment
  else if value =? 1 then Ok KeyManagement
  else Err mk_TryFromIntError.

Inductive SetThresholdFailure :=
| KeyManagementThresholdError
| DeploymentThresholdError
| SetThreshold_PermissionDeniedError
| InsufficientTotalWeight.

Definition set_threshold_failure_code (f : SetThresholdFailure) : Z :=
  match f with
  | KeyManagementThresholdError => 1
  | DeploymentThresholdError => 2
  | SetThreshold_PermissionDeniedError => 3
  | InsufficientTotalWeight => 4
  end.

Definition set_threshold_failure_try_from (d : Z) : outcome TryFromIntError SetThresholdFailure :=
  if d =? set_threshold_failure_code KeyManagementThresholdError then Ok KeyManagementThresholdError
  else if d =? set_threshold_failure_code DeploymentThresholdError then Ok DeploymentThresholdError
  else if d =? set_threshold_failure_code SetThreshold_PermissionDeniedError
    then Ok SetThreshold_PermissionDeniedError
  else if d =? set_threshold_failure_code InsufficientTotalWeight then Ok InsufficientTotalWeight
  else Err mk_TryFromIntError.

Inductive AddKeyFailure := MaxKeysLimit | DuplicateKey | AddKey_PermissionDenied.

Definition add_key_failure_code (f : AddKeyFailure) : Z :=
  match f with MaxKeysLimit => 1 | DuplicateKey => 2 | AddKey_PermissionDenied => 3 end.

Definition add_key_failure_try_from (d : Z) : outcome TryFromIntError AddKeyFailure :=
  if d =? add_key_failure_code MaxKeysLimit then Ok MaxKeysLimit
  else if d =? add_key_failure_code DuplicateKey then Ok DuplicateKey
  else if d =? add_key_failure_code AddKey_PermissionDenied then Ok AddKey_PermissionDenied
  else Err mk_TryFromIntError.

Inductive RemoveKeyFailure :=
  RemoveKey_MissingKey | RemoveKey_PermissionDenied | RemoveKey_ThresholdViolation.

Definition remove_key_failure_code (f : RemoveKeyFailure) : Z :=
  match f with
  | RemoveKey_MissingKey => 1 | RemoveKey_PermissionDenied => 2 | RemoveKey_ThresholdViolation => 3
  end.

Definition remove_key_failure_try_from (d : Z) : outcome TryFromIntError RemoveKeyFailure :=
  if d =? remove_key_failure_code RemoveKey_MissingKey then Ok RemoveKey_MissingKey
  else if d =? remove_key_failure_code RemoveKey_PermissionDenied then Ok RemoveKey_PermissionDenied
  else if d =? remove_key_failure_code RemoveKey_ThresholdViolation
    then Ok RemoveKey_ThresholdViolation
  else Err mk_TryFromIntError.

Inductive UpdateKeyFailure :=
  UpdateKey_MissingKey | UpdateKey_PermissionDenied | UpdateKey_ThresholdViolation.

Definition update_key_failure_code (f : UpdateKeyFailure) : Z :=
  match f with
  | UpdateKey_MissingKey => 1 | UpdateKey_PermissionDenied => 2 | UpdateKey_ThresholdViolation => 3
  end.

Definition update_key_failure_try_from (d : Z) : outcome TryFromIntError UpdateKeyFailure :=
  if d =? update_key_failure_code UpdateKey_MissingKey then Ok UpdateKey_MissingKey
  else if d =? update_key_failure_code UpdateKey_PermissionDenied then Ok UpdateKey_PermissionDenied
  else if d =? update_key_failure_code UpdateKey_ThresholdViolation
    then Ok UpdateKey_ThresholdViolation
  else Err mk_TryFromIntError.

(** * Block time and phase *)

Definition BlockTime : Type := Z.

Definition blocktime_saturating_sub (a b : BlockTime) : BlockTime := saturating_sub a b.

Definition blocktime_codec : Codec BlockTime := u64_codec.

Inductive Phase := Phase_System | Phase_Payment | Phase_Session | Phase_FinalizePayment.

#[global] Instance phase_eq_dec : EqDecision Phase.
Proof. solve_decision. Defined.

Definition phase_to_u8 (p : Phase) : Z :=
  match p with
  | Phase_System => 0 | Phase_Payment => 1 | Phase_Session => 2 | Phase_FinalizePayment => 3
  end.

Definition phase_from_u8 (z : Z) : option Phase :=
  if z =? 0 then Some Phase_System
  else if z =? 1 then Some Phase_Payment
  else if z =? 2 then Some Phase_Session
  else if z =? 3 then Some Phase_FinalizePayment
  else None.

Definition phase_to_bytes (p : Phase) : outcome Error bytes := Ok [byte_of_Z (phase_to_u8 p)].

Definition phase_from_bytes (bs : bytes) : outcome Error (Phase * bytes) :=
  let? '(id, rest) := u8_from_bytes bs in
  let? phase := ok_or (phase_from_u8 id) FormattingError in
  Ok (phase, rest).

Definition phase_codec : Codec Phase := mk_codec phase_to_bytes phase_from_bytes.

(** * Versions *)

Record SemVer := mk_semver { major : Z; minor : Z; patch : Z }.

#[global] Instance semver_eq_dec : EqDecision SemVer.
Proof. solve_decision. Defined.

Definition semver_to_bytes (v : SemVer) : outcome Error bytes :=
  let? b1 := u32_to_bytes (major v) in
  let? b2 := u32_to_bytes (minor v) in
  let? b3 := u32_to_bytes (patch v) in
  Ok (b1 ++ b2 ++ b3).

Definition semver_from_bytes (bs : bytes) : outcome Error (SemVer * bytes) :=
  let? '(ma, rem) := u32_from_bytes bs in
  let? '(mi, rem') := u32_from_bytes rem in
  let? '(pa, rem'') := u32_from_bytes rem' in
  Ok (mk_semver ma mi pa, rem'').

Definition semver_codec : Codec SemVer := mk_codec semver_to_bytes semver_from_bytes.

Definition ProtocolVersion : Type := SemVer.

Definition protocol_version_codec : Codec ProtocolVersion := semver_codec.

Inductive VersionCheckResult := CodeIsRequired | CodeIsOptional | Invalid.

Definition is_invalid (r : VersionCheckResult) : bool :=
  match r with Invalid => true | _ => false end.

Definition is_code_required (r : VersionCheckResult) : bool :=
  match r with CodeIsRequired => true | _ => false end.

(** [a + b] on [u32]: a panic where overflow checks are compiled in, a wrapped
    sum where they are not. *)
Definition u32_add {E} (overflow_checks : bool) (a b : Z) : outcome E Z :=
  if (a + b >? u32_max) && overflow_checks then Panic else Ok (wrap_unsigned 32 (a + b)).

Definition check_next_version (overflow_checks : bool) (self next : ProtocolVersion)
    : outcome Empty_set VersionCheckResult :=
  let? major_bad :=
    if major next <? major self then Ok true
    else let? m := u32_add overflow_checks (major self) 1 in Ok (major next >? m) in
  if major_bad then Ok Invalid
  else if major next =? saturating_add 32 (major self) 1 then
    if negb (minor next =? 0) || negb (patch next =? 0) then Ok Invalid
    else Ok CodeIsRequired
  else
    let? _ := if overflow_checks then oassert (major next =? major self) else Ok tt in
    let? minor_bad :=
      if minor next <? minor self then Ok true
      else let? m := u32_add overflow_checks (minor self) 1 in Ok (minor next >? m) in
    if minor_bad then Ok Invalid
    else
      let? m := u32_add overflow_checks (minor self) 1 in
      if minor next =? m then
        if negb (patch next =? 0) then Ok Invalid else Ok CodeIsOptional
      else
        let? _ := if overflow_checks then oassert (minor next =? minor self) else Ok tt in
        if patch next <=? patch self then Ok Invalid else Ok CodeIsOptional.

Definition is_compatible_with (self version : ProtocolVersion) : bool :=
  major self =? major version.

(** * Well-formed values *)

Definition rights_valid (r : AccessRights) : Prop := 0 <= r <= 7.

Definition uref_valid (u : URef) : Prop :=
  is_bytes 32 (uref_addr u) /\ option_valid rights_valid (uref_access_rights u).

Definition key_valid (k : Key) : Prop :=
  match k with
  | Key_URef u => uref_valid u
  | Key_Account b | Key_Hash b | Key_Local b => is_bytes 32 b
  end.

Definition semver_valid (v : SemVer) : Prop :=
  is_unsigned 32 (major v) /\ is_unsigned 32 (minor v) /\ is_unsigned 32 (patch v).

(** * Access rights *)

Lemma rights_from_bits_Some z r :
  is_unsigned 8 z -> rights_from_bits z = Some r <-> r = z /\ rights_valid z.
Proof.
  intros Hz. unfold rights_from_bits, rights_valid. change (Z.lnot READ_ADD_WRITE) with (-8).
  assert (Z.land z (-8) = z - z mod 8) as ->.
  { change (-8) with (- 2 ^ 3). rewrite <- Z.ldiff_ones_r_low || idtac.
    replace (- 2 ^ 3) with (Z.lnot (Z.ones 3)) by reflexivity.
    rewrite <- Z.ldiff_land, Z.ldiff_ones_r, Z.shiftl_mul_pow2, Z.shiftr_div_pow2 by lia.
    pose proof (Z.div_mod z (2 ^ 3)). change (2 ^ 3) with 8 in *. lia. }
  pose proof (Z.mod_pos_bound z 8). unfold is_unsigned in Hz.
  destruct (Z.eqb_spec (z - z mod 8) 0) as [E|E]; split.
  - intros [= <-]. split; [done|]. lia.
  - by intros [-> _].
  - done.
  - intros [-> ?]. rewrite Z.mod_small in E by lia. lia.
Qed.

(** Rights that are enough for [w] give every access that [w] gives. *)
Lemma rights_enough_mono held w m :
  rights_enough held w = true -> Z.land w m = m -> Z.land held m = m.
Proof.
  unfold rights_enough. intros E Hm. apply Z.eqb_eq in E.
  rewrite <- Hm at 1. rewrite Z.land_assoc, E. done.
Qed.

Lemma rights_enough_refl r : rights_enough r r = true.
Proof. unfold rights_enough. rewrite Z.land_diag. apply Z.eqb_refl. Qed.

Lemma rights_enough_trans a b c :
  rights_enough a b = true -> rights_enough b c = true -> rights_enough a c = true.
Proof.
  intros H1 H2. unfold rights_enough in *. apply Z.eqb_eq in H2.
  apply Z.eqb_eq. by apply (rights_enough_mono a b c).
Qed.

#[global] Instance access_rights_laws : CodecLaws access_rights_codec rights_valid.
Proof.
  intros r bs rest Hr <-%Ok_inj. cbn. unfold access_rights_from_bytes. cbn.
  unfold rights_valid in Hr. rewrite byte_to_of_Z, Z.mod_small by lia.
  replace (rights_from_bits r) with (Some r); [done|].
  symmetry. apply rights_from_bits_Some; [unfold is_unsigned; lia | done].
Qed.

#[global] Instance access_rights_exact : CodecExact access_rights_codec rights_valid.
Proof.
  intros bs r rest H. cbn in H. unfold access_rights_from_bytes in H.
  apply obind_ok in H as ([id rem] & Hu & H).
  apply (u8_exact bs id rem) in Hu as (Hid & p & <-%Ok_inj & ->).
  destruct (rights_from_bits id) eqn:E; [|done]. injection H as -> ->.
  apply rights_from_bits_Some in E as [-> Hr]; [|done]. split; [done|]. by eexists.
Qed.

Lemma access_rights_len r p :
  to_bytes access_rights_codec r = Ok p -> zlen p < u32_max - U8_SERIALIZED_LENGTH.
Proof. by intros <-%Ok_inj. Qed.

Definition opt_rights_exact := option_exact _ _ access_rights_exact access_rights_len.

(** * References and keys *)

#[global] Instance uref_laws : CodecLaws uref_codec uref_valid.
Proof.
  intros [addr r] bs rest [Ha Hr] H. cbn in *. unfold uref_to_bytes in H. cbn in H.
  apply obind_ok in H as (p & Hp & <-%Ok_inj).
  unfold uref_from_bytes, u8_array_from_bytes.
  rewrite <- app_assoc, safe_split_at_app by done. cbn.
  pose proof (option_laws access_rights_codec rights_valid r p rest Hr Hp) as E. cbn in E.
  by rewrite E.
Qed.

#[global] Instance uref_exact : CodecExact uref_codec uref_valid.
Proof.
  intros bs u rest H. cbn in H. unfold uref_from_bytes in H.
  apply obind_ok in H as ([addr rem] & Ha & H). apply obind_ok in H as ([r rem'] & Hr & [= <- <-]).
  apply safe_split_at_ok in Ha as [-> La].
  apply opt_rights_exact in Hr as (Hv & p & Hp & ->). split; [done|].
  exists (addr ++ p). cbn. unfold uref_to_bytes. cbn. cbn in Hp. rewrite Hp. cbn.
  by rewrite app_assoc.
Qed.

#[global] Instance key_laws : CodecLaws key_codec key_valid.
Proof.
  intros k bs rest Hv H. cbn in *.
  destruct k as [b|b|u|b]; cbn in H.
  1,2,4: apply Ok_inj in H as <-; unfold key_from_bytes; cbn; unfold u8_array_from_bytes;
    by rewrite safe_split_at_app.
  apply obind_ok in H as (p & Hp & <-%Ok_inj). unfold key_from_bytes. cbn.
  pose proof (uref_laws u p rest Hv Hp) as E. cbn in E. by rewrite E.
Qed.

#[global] Instance key_exact : CodecExact key_codec key_valid.
Proof.
  intros bs k rest H. cbn in H. unfold key_from_bytes in H.
  apply obind_ok in H as ([id rem] & Hid & H).
  apply (u8_exact bs id rem) in Hid as (Hid & p & <-%Ok_inj & ->).
  unfold ACCOUNT_ID, HASH_ID, UREF_ID, LOCAL_ID in H.
  repeat match type of H with
  | (if ?a =? ?b then _ else _) = _ => destruct (Z.eqb_spec a b) as [->|]
  end; [ | | | | done].
  all: apply obind_ok in H as ([x r] & Hx & [= <- <-]).
  1,2,4: apply safe_split_at_ok in Hx as [-> Lx]; split; [done|]; by eexists.
  apply uref_exact in Hx as (Hv & q & Hq & ->). split; [done|].
  exists (byte_of_Z 2 :: q). cbn in *. rewrite Hq. done.
Qed.

Lemma key_to_bytes_total k : exists bs, key_to_bytes k = Ok bs.
Proof. destruct k as [?|?|[? [?|]]|?]; cbn; eauto. Qed.

Lemma key_to_bytes_len k bs :
  key_valid k -> key_to_bytes k = Ok bs ->
  zlen bs <= key_serialized_size k <= key_serialized_size_hint
  /\ (zlen bs = key_serialized_size k <->
      match k with Key_URef u => uref_access_rights u <> None | _ => True end).
Proof.
  intros Hv H. destruct k as [b|b|[addr [r|]]|b]; cbn in *; apply Ok_inj in H as <-;
    unfold is_bytes, uref_valid in Hv; cbn in Hv; unfold zlen; cbn [length];
    rewrite ?length_app; cbn [length];
    unfold KEY_ACCOUNT_SERIALIZED_LENGTH, KEY_HASH_SERIALIZED_LENGTH, KEY_LOCAL_SERIALIZED_LENGTH,
      key_serialized_size_hint, KEY_UREF_SERIALIZED_LENGTH, UREF_SERIALIZED_LENGTH,
      OPTION_TAG_SERIALIZED_LENGTH.
  3, 4: destruct Hv as [Hv _].
  all: rewrite Hv; split; [lia|]; split; done || lia.
Qed.

Lemma normalize_idem k : normalize (normalize k) = normalize k.
Proof. by destruct k. Qed.

Lemma normalize_valid k : key_valid k -> key_valid (normalize k).
Proof. destruct k as [| |u|]; cbn; [done | done | | done]. by intros [? _]. Qed.

#[export] Hint Resolve normalize_valid : casper.

(** * Phase and version codecs *)

#[global] Instance phase_laws : CodecLaws phase_codec (fun _ => True).
Proof. by intros [] bs rest _ <-%Ok_inj. Qed.

#[global] Instance semver_laws : CodecLaws semver_codec semver_valid.
Proof.
  intros [ma mi pa] bs rest (H1 & H2 & H3) H. cbn in *. apply Ok_inj in H as <-.
  unfold semver_from_bytes. rewrite <- !app_assoc.
  by do 3 (rewrite u32_prefix by done; cbn).
Qed.

(** * Properties *)

(** The key decoder accepts exactly the encodings of well-formed keys. *)
Theorem key_codec_exact bs k rest :
  key_from_bytes bs = Ok (k, rest) <->
  key_valid k /\ exists p, key_to_bytes k = Ok p /\ bs = p ++ rest.
Proof.
  split.
  - apply (key_exact bs k rest).
  - intros (Hv & p & Hp & ->). by apply (key_laws k p rest).
Qed.

Lemma bool_decide_semver a b c a' b' c' :
  bool_decide (mk_semver a b c = mk_semver a' b' c') = (a =? a') && (b =? b') && (c =? c').
Proof.
  case_bool_decide as H; [simplify_eq; by rewrite !Z.eqb_refl|].
  symmetry. apply not_true_iff_false. intros E. breflect. by subst.
Qed.

Lemma bool_decide_patch (a b c a' b' c' : Z) :
  bool_decide (a = a' /\ b = b' /\ c' < c) = (a =? a') && (b =? b') && (c' <? c).
Proof. case_bool_decide; lia. Qed.

(** What a caller may conclude from [check_next_version] away from the top
    of the [u32] range: no panic in either build profile, and the three answers
    are exactly the three shapes of successor version. *)
Theorem check_next_version_spec chk self next :
  semver_valid self -> semver_valid next -> major self < u32_max -> minor self < u32_max ->
  check_next_version chk self next =
    Ok (if bool_decide (next = mk_semver (major self + 1) 0 0) then CodeIsRequired
        else if bool_decide (next = mk_semver (major self) (minor self + 1) 0) then CodeIsOptional
        else if bool_decide (major next = major self /\ minor next = minor self
                             /\ patch self < patch next) then CodeIsOptional
        else Invalid).
Proof.
  destruct self as [ma mi pa], next as [ma' mi' pa'].
  unfold semver_valid, is_unsigned, u32_max. cbn. intros (A1 & A2 & A3) (B1 & B2 & B3) Hma Hmi.
  unfold check_next_version, u32_add, u32_max, saturating_add, wrap_unsigned, oassert. cbn.
  replace (ma + 1 >? 4294967295) with false by lia.
  replace (mi + 1 >? 4294967295) with false by lia.
  rewrite !(Z.mod_small) by lia. rewrite Z.min_l by lia. cbn.
  rewrite !bool_decide_semver, bool_decide_patch.
  repeat match goal with
  | |- context [if ?b then _ else _] => destruct b eqn:?; cbn
  end.
  all: first [done | exfalso; breflect; lia].
Qed.

(** At the top of the range the unsaturated [+ 1] of the first guard shows: a
    build with overflow checks panics, one without rejects every successor,
    also a later patch of the same version. *)
Lemma check_next_version_max mi pa next :
  0 < major next ->
  check_next_version true (mk_semver u32_max mi pa) (mk_semver u32_max (minor next) (patch next)) = Panic
  /\ check_next_version false (mk_semver u32_max mi pa) next = Ok Invalid.
Proof.
  intros Hn. unfold check_next_version, u32_add, wrap_unsigned. cbn. split.
  - reflexivity.
  - destruct (major next <? u32_max); [done|]. cbn.
    rewrite andb_false_r. cbn [obind]. change ((u32_max + 1) mod 2 ^ 32) with 0.
    by replace (major next >? 0) with true by lia.
Qed.

(** * Text forms

    The hexadecimal codec is a library: what is assumed of it is that a byte
    takes two characters, that decoding inverts encoding, and that the letter
    of the [0x] prefix is not a digit. *)

Class HexLaws (encode_lower : bytes -> bytes) (decode : bytes -> option bytes) : Prop := {
  hex_length : forall b, length (encode_lower b) = (2 * length b)%nat;
  hex_decode_encode : forall b, decode (encode_lower b) = Some b;
  hex_no_prefix : forall b, take 2 (encode_lower b) <> str "0x";
}.

Section text.
Context (encode_lower : bytes -> bytes) (decode : bytes -> option bytes) `{!HexLaws encode_lower decode}.

Lemma encode_lower_inj b1 b2 : encode_lower b1 = encode_lower b2 -> b1 = b2.
Proof.
  intros E. pose proof (hex_decode_encode b1) as D. rewrite E, hex_decode_encode in D. congruence.
Qed.

Lemma octal3_inj a b : 0 <= a < 8 -> 0 <= b < 8 -> octal3 a = octal3 b -> a = b.
Proof.
  intros Ha Hb [= _ _ E]. apply (f_equal byte_to_Z) in E. unfold octal_digit in E.
  rewrite !byte_to_of_Z, !(Z.mod_small _ 8) in E by lia. rewrite !Z.mod_small in E by lia. lia.
Qed.

(** The names under which references are stored tell addresses apart, and
    rights apart except absent ones from the empty set. *)
Theorem uref_as_string_inj u1 u2 :
  uref_valid u1 -> uref_valid u2 ->
  uref_as_string encode_lower u1 = uref_as_string encode_lower u2 ->
  uref_addr u1 = uref_addr u2
  /\ default 0 (uref_access_rights u1) = default 0 (uref_access_rights u2).
Proof.
  destruct u1 as [a1 r1], u2 as [a2 r2]. intros [L1 V1] [L2 V2] E. cbn in *.
  unfold uref_as_string in E. cbn in E. injection E as E.
  apply app_inj_1 in E as [Ea Er]; [|rewrite !hex_length; unfold is_bytes in *; lia].
  split; [by apply encode_lower_inj|]. apply (f_equal (drop 1)) in Er.
  apply octal3_inj; [| |exact Er];
    [destruct r1 as [r|] | destruct r2 as [r|]]; cbn in *; unfold rights_valid in *; lia.
Qed.

(** Parsing inverts printing, with or without the [0x] prefix. *)
Theorem parse_hash_encode h :
  is_bytes 32 h ->
  parse_hash decode (encode_lower h) = Some (Key_Hash h)
  /\ parse_hash decode (str "0x" ++ encode_lower h) = Some (Key_Hash h).
Proof.
  intros Hh. unfold parse_hash, decode_from_hex, drop_hex_prefix.
  assert (zlen (encode_lower h) = 64) as L
    by (unfold zlen; rewrite hex_length; unfold is_bytes in Hh; lia).
  split.
  - rewrite bool_decide_eq_false_2 by apply hex_no_prefix.
    by rewrite L, hex_decode_encode.
  - rewrite bool_decide_eq_true_2 by done. change (drop 2 _) with (encode_lower h).
    by rewrite L, hex_decode_encode.
Qed.
End text.
