(* ===== verification/CLValues.v ===== *)
(** The types and values contracts exchange with the platform,
    [types/src/cl_type.rs] and [types/src/cl_value.rs]. *)

From S2P Require Import Prelude BTreeMap Bytesrepr Uint Types.

(** * Type descriptors *)

Inductive CLType :=
| CL_Bool | CL_I32 | CL_I64 | CL_U8 | CL_U32 | CL_U64 | CL_U128 | CL_U256 | CL_U512
| CL_Unit | CL_String | CL_Key | CL_URef
| CL_Option (t : CLType)
| CL_List (t : CLType)
| CL_FixedList (t : CLType) (len : Z)
| CL_Result (ok err : CLType)
| CL_Map (key value : CLType)
| CL_Tuple1 (t1 : CLType)
| CL_Tuple2 (t1 t2 : CLType)
| CL_Tuple3 (t1 t2 t3 : CLType)
| CL_Any.

#[global] Instance cl_type_eq_dec : EqDecision CLType.
Proof. solve_decision. Defined.

Definition named_key_type : CLType := CL_Tuple2 CL_String CL_Key.

(** [size_of::<u8>()] for the tag, plus the components. *)
Fixpoint cl_type_serialized_len (t : CLType) : Z :=
  1 + match t with
      | CL_Option t | CL_List t | CL_Tuple1 t => cl_type_serialized_len t
      | CL_FixedList t _ => cl_type_serialized_len t + 4
      | CL_Result a b | CL_Map a b | CL_Tuple2 a b =>
          cl_type_serialized_len a + cl_type_serialized_len b
      | CL_Tuple3 a b c =>
          cl_type_serialized_len a + cl_type_serialized_len b + cl_type_serialized_len c
      | _ => 0
      end.

Definition cl_type_tag (t : CLType) : Z :=
  match t with
  | CL_Bool => 0 | CL_I32 => 1 | CL_I64 => 2 | CL_U8 => 3 | CL_U32 => 4 | CL_U64 => 5
  | CL_U128 => 6 | CL_U256 => 7 | CL_U512 => 8 | CL_Unit => 9 | CL_String => 10
  | CL_Key => 11 | CL_URef => 12 | CL_Option _ => 13 | CL_List _ => 14
  | CL_FixedList _ _ => 15 | CL_Result _ _ => 16 | CL_Map _ _ => 17
  | CL_Tuple1 _ => 18 | CL_Tuple2 _ _ => 19 | CL_Tuple3 _ _ _ => 20 | CL_Any => 21
  end.

Fixpoint append_bytes (t : CLType) (stream : bytes) : bytes :=
  let stream := stream ++ [byte_of_Z (cl_type_tag t)] in
  match t with
  | CL_Option t | CL_List t | CL_Tuple1 t => append_bytes t stream
  | CL_FixedList t len => append_bytes t stream ++ to_le_bytes 4 len
  | CL_Result a b | CL_Map a b | CL_Tuple2 a b => append_bytes b (append_bytes a stream)
  | CL_Tuple3 a b c => append_bytes c (append_bytes b (append_bytes a stream))
  | _ => stream
  end.

(** [CLType::from_bytes] is recursive and every call consumes the tag byte, so
    that the length of the input bounds the depth; [fuel] is that bound. *)
Fixpoint cl_type_parse (fuel : nat) (bs : bytes) : outcome Error (CLType * bytes) :=
  match fuel with
  | O => Panic
  | S fuel =>
      let? '(tag, rem) := u8_from_bytes bs in
      let parse := cl_type_parse fuel in
      if tag =? 0 then Ok (CL_Bool, rem)
      else if tag =? 1 then Ok (CL_I32, rem)
      else if tag =? 2 then Ok (CL_I64, rem)
      else if tag =? 3 then Ok (CL_U8, rem)
      else if tag =? 4 then Ok (CL_U32, rem)
      else if tag =? 5 then Ok (CL_U64, rem)
      else if tag =? 6 then Ok (CL_U128, rem)
      else if tag =? 7 then Ok (CL_U256, rem)
      else if tag =? 8 then Ok (CL_U512, rem)
      else if tag =? 9 then Ok (CL_Unit, rem)
      else if tag =? 10 then Ok (CL_String, rem)
      else if tag =? 11 then Ok (CL_Key, rem)
      else if tag =? 12 then Ok (CL_URef, rem)
      else if tag =? 13 then let? '(t, r) := parse rem in Ok (CL_Option t, r)
      else if tag =? 14 then let? '(t, r) := parse rem in Ok (CL_List t, r)
      else if tag =? 15 then
        let? '(t, r) := parse rem in let? '(len, r') := u32_from_bytes r in Ok (CL_FixedList t len, r')
      else if tag =? 16 then
        let? '(a, r) := parse rem in let? '(b, r') := parse r in Ok (CL_Result a b, r')
      else if tag =? 17 then
        let? '(a, r) := parse rem in let? '(b, r') := parse r in Ok (CL_Map a b, r')
      else if tag =? 18 then let? '(t, r) := parse rem in Ok (CL_Tuple1 t, r)
      else if tag =? 19 then
        let? '(a, r) := parse rem in let? '(b, r') := parse r in Ok (CL_Tuple2 a b, r')
      else if tag =? 20 then
        let? '(a, r) := parse rem in let? '(b, r') := parse r in let? '(c, r'') := parse r' in
        Ok (CL_Tuple3 a b c, r'')
      else if tag =? 21 then Ok (CL_Any, rem)
      else Err FormattingError
  end.

Definition cl_type_from_bytes (bs : bytes) : outcome Error (CLType * bytes) :=
  cl_type_parse (S (length bs)) bs.

(** * Typed values *)

(** A Rust type that is [CLTyped + ToBytes + FromBytes]. *)
Record CLTyped (A : Type) := mk_cl_typed { clt_type : CLType; clt_codec : Codec A }.

Arguments mk_cl_typed {A}.
Arguments clt_type {A}.
Arguments clt_codec {A}.

Definition clt_bool := mk_cl_typed CL_Bool bool_codec.
Definition clt_i32 := mk_cl_typed CL_I32 i32_codec.
Definition clt_i64 := mk_cl_typed CL_I64 i64_codec.
Definition clt_u8 := mk_cl_typed CL_U8 u8_codec.
Definition clt_u32 := mk_cl_typed CL_U32 u32_codec.
Definition clt_u64 := mk_cl_typed CL_U64 u64_codec.
Definition clt_u128 := mk_cl_typed CL_U128 u128_codec.
Definition clt_u256 := mk_cl_typed CL_U256 u256_codec.
Definition clt_u512 := mk_cl_typed CL_U512 u512_codec.
Definition clt_unit := mk_cl_typed CL_Unit unit_codec.
Definition clt_string := mk_cl_typed CL_String string_codec.
Definition clt_key := mk_cl_typed CL_Key key_codec.
Definition clt_uref := mk_cl_typed CL_URef uref_codec.

Definition clt_option {A} (t : CLTyped A) : CLTyped (option A) :=
  mk_cl_typed (CL_Option (clt_type t)) (option_codec (clt_codec t)).

Definition clt_result {A B} (a : CLTyped A) (b : CLTyped B) : CLTyped (A + B) :=
  mk_cl_typed (CL_Result (clt_type a) (clt_type b)) (result_codec (clt_codec a) (clt_codec b)).

Definition clt_map {K V} `{Ord K} (k : CLTyped K) (v : CLTyped V) : CLTyped (BTreeMap K V) :=
  mk_cl_typed (CL_Map (clt_type k) (clt_type v)) (btreemap_codec (clt_codec k) (clt_codec v)).

Definition clt_tuple2 {A B} (a : CLTyped A) (b : CLTyped B) : CLTyped (A * B) :=
  mk_cl_typed (CL_Tuple2 (clt_type a) (clt_type b)) (tuple2_codec (clt_codec a) (clt_codec b)).

Definition clt_tuple3 {A B C} (a : CLTyped A) (b : CLTyped B) (c : CLTyped C) : CLTyped (A * B * C) :=
  mk_cl_typed (CL_Tuple3 (clt_type a) (clt_type b) (clt_type c))
    (tuple3_codec (clt_codec a) (clt_codec b) (clt_codec c)).

Definition clt_named_key : CLTyped (bytes * Key) := clt_tuple2 clt_string clt_key.

Record CLTypeMismatch := mk_cl_type_mismatch { clm_expected : CLType; clm_found : CLType }.

Inductive CLValueError :=
| CLValue_Serialization (e : Error)
| CLValue_Type (m : CLTypeMismatch).

Record CLValue := mk_cl_value { cl_type : CLType; cl_bytes : bytes }.

#[global] Instance cl_value_eq_dec : EqDecision CLValue.
Proof. solve_decision. Defined.

Definition from_t {A} (T : CLTyped A) (t : A) : outcome CLValueError CLValue :=
  let? bs := omap_err CLValue_Serialization (to_bytes (clt_codec T) t) in
  Ok (mk_cl_value (clt_type T) bs).

Definition into_t {A} (T : CLTyped A) (v : CLValue) : outcome CLValueError A :=
  if bool_decide (cl_type v = clt_type T) then
    omap_err CLValue_Serialization (deserialize (clt_codec T) (cl_bytes v))
  else Err (CLValue_Type (mk_cl_type_mismatch (clt_type T) (cl_type v))).

Definition cl_value_serialized_len (v : CLValue) : Z :=
  cl_type_serialized_len (cl_type v) + U32_SERIALIZED_LENGTH + zlen (cl_bytes v).

Definition cl_value_to_bytes (v : CLValue) : outcome Error bytes :=
  let? result := vec_u8_to_bytes (cl_bytes v) in
  Ok (append_bytes (cl_type v) result).

Definition cl_value_from_bytes (bs : bytes) : outcome Error (CLValue * bytes) :=
  let? '(b, remainder) := vec_u8_from_bytes bs in
  let? '(ty, remainder') := cl_type_from_bytes remainder in
  Ok (mk_cl_value ty b, remainder').

Definition cl_value_codec : Codec CLValue := mk_codec cl_value_to_bytes cl_value_from_bytes.

Fixpoint sum_serialized_len (l : list CLValue) : Z :=
  match l with
  | [] => 0
  | v :: l' => cl_value_serialized_len v + sum_serialized_len l'
  end.

Definition vec_cl_value_to_bytes (l : list CLValue) : outcome Error bytes :=
  if sum_serialized_len l >? u32_max - U32_SERIALIZED_LENGTH then Err OutOfMemoryError
  else
    let? len := u32_to_bytes (wrap_unsigned 32 (zlen l)) in
    let? items := write_all cl_value_codec l in
    Ok (len ++ items).

(** [Vec::with_capacity(len)] aborts where the allocator refuses. *)
Definition vec_cl_value_from_bytes {alloc : Allocator} (bs : bytes)
    : outcome Error (list CLValue * bytes) :=
  let? '(len, remainder) := u32_from_bytes bs in
  let? _ := oassert (try_reserve_exact (Z.to_nat len)) in
  read_n cl_value_codec (Z.to_nat len) remainder.

(** * Lemmas *)

(** Lengths inside descriptors are [u32]. *)
Fixpoint cl_type_valid (t : CLType) : Prop :=
  match t with
  | CL_Option t | CL_List t | CL_Tuple1 t => cl_type_valid t
  | CL_FixedList t len => cl_type_valid t /\ is_unsigned 32 len
  | CL_Result a b | CL_Map a b | CL_Tuple2 a b => cl_type_valid a /\ cl_type_valid b
  | CL_Tuple3 a b c => cl_type_valid a /\ cl_type_valid b /\ cl_type_valid c
  | _ => True
  end.

Definition cl_value_valid (v : CLValue) : Prop := cl_type_valid (cl_type v).

(** The bytes [append_bytes] adds to the stream. *)
Fixpoint cl_type_enc (t : CLType) : bytes :=
  byte_of_Z (cl_type_tag t) ::
    match t with
    | CL_Option t | CL_List t | CL_Tuple1 t => cl_type_enc t
    | CL_FixedList t len => cl_type_enc t ++ to_le_bytes 4 len
    | CL_Result a b | CL_Map a b | CL_Tuple2 a b => cl_type_enc a ++ cl_type_enc b
    | CL_Tuple3 a b c => cl_type_enc a ++ cl_type_enc b ++ cl_type_enc c
    | _ => []
    end.

Lemma append_bytes_enc t s : append_bytes t s = s ++ cl_type_enc t.
Proof.
  revert s. induction t; intros s; cbn [append_bytes cl_type_enc]; try done.
  all: repeat match goal with IH : forall s, append_bytes ?t s = _ |- _ => rewrite IH; clear IH end.
  all: by rewrite <- !app_assoc.
Qed.

Lemma cl_type_enc_len t : zlen (cl_type_enc t) = cl_type_serialized_len t.
Proof.
  unfold zlen. induction t; cbn [cl_type_enc cl_type_serialized_len length]; try done.
  all: rewrite ?length_app, ?to_le_bytes_length; lia.
Qed.

Lemma cl_type_parse_enc t fuel rest :
  cl_type_valid t -> (length (cl_type_enc t) < fuel)%nat ->
  cl_type_parse fuel (cl_type_enc t ++ rest) = Ok (t, rest).
Proof.
  revert fuel rest. induction t; intros [|fuel] rest Hv Hf; try (cbn in Hf; lia).
  all: cbn in Hv; cbn [cl_type_enc length] in Hf; rewrite ?length_app in Hf.
  all: cbn [cl_type_enc app cl_type_parse u8_from_bytes obind]; rewrite byte_to_of_Z;
    cbn [cl_type_tag]; rewrite Z.mod_small by lia; cbn [Z.eqb Pos.eqb]; rewrite <- ?app_assoc.
  all: repeat match goal with
    | H : _ /\ _ |- _ => destruct H
    | IH : forall fuel rest, cl_type_valid ?t -> _ |- context [cl_type_enc ?t ++ _] =>
        rewrite IH by (done || lia); cbn [obind]; clear IH
    end; try done.
  by rewrite u32_prefix.
Qed.

Lemma cl_type_parse_sound fuel bs t rest :
  cl_type_parse fuel bs = Ok (t, rest) -> cl_type_valid t /\ bs = cl_type_enc t ++ rest.
Proof.
  revert bs t rest. induction fuel as [|fuel IH]; intros bs t rest; [done|].
  cbn [cl_type_parse]. intros H. apply obind_ok in H as ([tag rem] & Ht & H).
  apply (u8_exact bs tag rem) in Ht as (_ & p & <-%Ok_inj & ->).
  repeat match type of H with
  | (if ?a =? ?b then _ else _) = _ => destruct (Z.eqb_spec a b) as [->|]
  end; try done.
  all: repeat match type of H with
    | Ok _ = Ok _ => injection H as <- <-
    | obind (cl_type_parse _ _) _ = _ =>
        let q := fresh "q" in let Hq := fresh "Hq" in
        apply obind_ok in H as (q & Hq & H); destruct q; apply IH in Hq as [? ->]
    | obind (u32_from_bytes _) _ = _ =>
        let q := fresh "q" in let Hq := fresh "Hq" in
        apply obind_ok in H as (q & Hq & H); destruct q;
        apply u32_exact in Hq as (? & ? & <-%Ok_inj & ->)
    end.
  all: split; [done|]; cbn [cl_type_enc cl_type_tag app]; by rewrite <- ?app_assoc.
Qed.

(** With more fuel than input the parser reaches a verdict of the code. *)
Lemma cl_type_parse_enough fuel bs :
  (length bs < fuel)%nat -> cl_type_parse fuel bs <> Panic.
Proof.
  revert bs. induction fuel as [|fuel IH]; intros bs Hf; [lia|].
  cbn [cl_type_parse]. destruct bs as [|b rem]; [done|]. cbn [u8_from_bytes obind].
  cbn in Hf. generalize (byte_to_Z b). intros tag.
  assert (forall r, (length r <= length rem)%nat ->
    cl_type_parse fuel r <> Panic /\
    forall t r', cl_type_parse fuel r = Ok (t, r') -> (length r' <= length rem)%nat) as Hp.
  { intros r Hr. split; [apply IH; lia|]. intros t r' H.
    apply cl_type_parse_sound in H as [_ ->]. rewrite length_app in Hr. lia. }
  repeat match goal with |- (if ?a =? ?b then _ else _) <> _ => destruct (a =? b) end; try done.
  all: repeat match goal with
    | Hp : forall r, _ -> cl_type_parse ?f r <> Panic /\ _ |- obind (cl_type_parse ?f ?r) _ <> Panic =>
        let Hs := fresh in let Hl := fresh in
        destruct (Hp r ltac:(eauto)) as [Hs Hl];
        destruct (cl_type_parse f r) as [[? ?]|?|] eqn:?; cbn [obind]; [|done|done];
        specialize (Hl _ _ eq_refl)
    | |- obind (u32_from_bytes ?r) _ <> Panic =>
        unfold u32_from_bytes, safe_split_at; destruct (_ <? _)%nat
    end; done.
Qed.

Lemma cl_type_roundtrip t rest :
  cl_type_valid t -> cl_type_from_bytes (cl_type_enc t ++ rest) = Ok (t, rest).
Proof. intros Hv. apply cl_type_parse_enc; [done|]. rewrite length_app. lia. Qed.

#[global] Instance cl_value_laws : CodecLaws cl_value_codec cl_value_valid.
Proof.
  intros [ty b] bs rest Hv H. cbn in *. unfold cl_value_to_bytes in H. cbn in H.
  apply obind_ok in H as (p & Hp & <-%Ok_inj). rewrite append_bytes_enc, <- app_assoc.
  unfold cl_value_from_bytes.
  pose proof (vec_u8_laws b p (cl_type_enc ty ++ rest) I Hp) as E. cbn in E. rewrite E. cbn [obind].
  by rewrite cl_type_roundtrip.
Qed.

(** * Properties *)

(** The descriptor parser terminates without panicking on every input, and
    accepts exactly the encodings that [append_bytes] produces. *)
Theorem cl_type_from_bytes_spec bs :
  cl_type_from_bytes bs <> Panic
  /\ forall t rest, cl_type_from_bytes bs = Ok (t, rest)
       <-> cl_type_valid t /\ bs = append_bytes t [] ++ rest.
Proof.
  split; [apply cl_type_parse_enough; lia|]. intros t rest. rewrite append_bytes_enc. split.
  - apply cl_type_parse_sound.
  - intros [Hv ->]. by apply cl_type_roundtrip.
Qed.

(** Unpacking a packed value. *)
Lemma into_from_t {A} (T : CLTyped A) (valid : A -> Prop) {laws : CodecLaws (clt_codec T) valid} a v :
  valid a -> from_t T a = Ok v -> cl_type v = clt_type T /\ into_t T v = Ok a.
Proof.
  intros Ha Hv. apply obind_ok in Hv as (p & Hp & <-%Ok_inj).
  destruct (to_bytes (clt_codec T) a) eqn:E; [|done..]. cbn in Hp. apply Ok_inj in Hp as ->.
  split; [done|]. unfold into_t. cbn. rewrite bool_decide_eq_true_2 by done.
  by rewrite (deserialize_serialize (clt_codec T) valid a).
Qed.

(** A value packed from a Rust value unpacks to it, through the serialized
    form of the packed value; the advertised length is the true one. *)
Theorem cl_value_roundtrip {A} (T : CLTyped A) (valid : A -> Prop)
    {laws : CodecLaws (clt_codec T) valid} a v bs :
  cl_type_valid (clt_type T) -> valid a -> from_t T a = Ok v -> cl_value_to_bytes v = Ok bs ->
  deserialize cl_value_codec bs = Ok v /\ into_t T v = Ok a /\ zlen bs = cl_value_serialized_len v.
Proof.
  intros Ht Ha Hv Hb. destruct (into_from_t T valid a v Ha Hv) as [Et Ei].
  split_and!; [|done|].
  - apply (deserialize_serialize cl_value_codec cl_value_valid); [|done]. unfold cl_value_valid. by rewrite Et.
  - unfold cl_value_to_bytes in Hb. cbn in Hb. apply obind_ok in Hb as (q & Hq & <-%Ok_inj).
    rewrite append_bytes_enc, zlen_app, cl_type_enc_len. unfold vec_u8_to_bytes in Hq.
    destruct (_ >=? _); [done|]. cbn in Hq. apply Ok_inj in Hq as <-.
    unfold cl_value_serialized_len, U32_SERIALIZED_LENGTH. cbn.
    rewrite zlen_app. unfold zlen at 1. rewrite to_le_bytes_length. lia.
Qed.
