(* ===== verification/Account.v ===== *)
(** Accounts: their associated keys, action thresholds and operations, with the
    serialization of accounts.  Sources: [engine-shared/src/account.rs],
    [account/associated_keys.rs], [account/action_thresholds.rs]. *)

From S2P Require Import Prelude BTreeMap Bytesrepr Uint Types.

(** * Associated keys *)

Definition AssociatedKeys : Type := BTreeMap PublicKey Weight.

Definition associated_keys_new (key : PublicKey) (weight : Weight) : AssociatedKeys :=
  bt_insert key weight bt_empty.

Definition add_key (self : AssociatedKeys) (key : PublicKey) (weight : Weight)
    : outcome AddKeyFailure AssociatedKeys :=
  if zlen self =? MAX_KEYS then Err MaxKeysLimit
  else if bt_contains_key key self then Err DuplicateKey
  else Ok (bt_insert key weight self).

Definition remove_key (self : AssociatedKeys) (key : PublicKey)
    : outcome RemoveKeyFailure AssociatedKeys :=
  let? _ := ok_or (bt_get key self) RemoveKey_MissingKey in
  Ok (bt_remove key self).

Definition update_key (self : AssociatedKeys) (key : PublicKey) (weight : Weight)
    : outcome UpdateKeyFailure AssociatedKeys :=
  if negb (bt_contains_key key self) then Err UpdateKey_MissingKey
  else Ok (bt_insert key weight self).

(** [filter_map(|key| self.0.get(key)).fold(0u8, saturating_add)]. *)
Definition calculate_any_keys_weight (self : AssociatedKeys) (keys : list PublicKey) : Weight :=
  fold_left (fun acc w => saturating_add 8 acc w) (omap (fun key => bt_get key self) keys) 0.

(** The argument is a [BTreeSet], as the list of its elements in order. *)
Definition calculate_keys_weight (self : AssociatedKeys) (authorization_keys : list PublicKey)
    : Weight := calculate_any_keys_weight self authorization_keys.

Definition total_keys_weight (self : AssociatedKeys) : Weight :=
  calculate_any_keys_weight self (bt_keys self).

Definition total_keys_weight_excluding (self : AssociatedKeys) (public_key : PublicKey) : Weight :=
  calculate_any_keys_weight self
    (List.filter (fun element => negb (bool_decide (element = public_key))) (bt_keys self)).

Definition associated_keys_to_bytes (self : AssociatedKeys) : outcome Error bytes :=
  btreemap_to_bytes public_key_codec weight_codec self.

(** [keys.add_key(k, v).unwrap()] for each entry read. *)
Fixpoint add_all (keys : AssociatedKeys) (entries : list (PublicKey * Weight))
    : outcome Error AssociatedKeys :=
  match entries with
  | [] => Ok keys
  | (k, v) :: entries' =>
      match add_key keys k v with
      | Ok keys' => add_all keys' entries'
      | _ => Panic
      end
  end.

Definition associated_keys_from_bytes (bs : bytes) : outcome Error (AssociatedKeys * bytes) :=
  let? '(keys_map, rem) := btreemap_from_bytes public_key_codec weight_codec bs in
  let? keys := add_all bt_empty keys_map in
  Ok (keys, rem).

Definition associated_keys_codec : Codec AssociatedKeys :=
  mk_codec associated_keys_to_bytes associated_keys_from_bytes.

(** * Action thresholds *)

Record ActionThresholds := mk_thresholds { deployment : Weight; key_management : Weight }.

#[global] Instance thresholds_eq_dec : EqDecision ActionThresholds.
Proof. solve_decision. Defined.

Definition action_thresholds_new (deployment key_management : Weight)
    : outcome SetThresholdFailure ActionThresholds :=
  if deployment >? key_management then Err DeploymentThresholdError
  else Ok (mk_thresholds deployment key_management).

Definition set_deployment_threshold (self : ActionThresholds) (new_threshold : Weight)
    : outcome SetThresholdFailure ActionThresholds :=
  if new_threshold >? key_management self then Err DeploymentThresholdError
  else Ok (mk_thresholds new_threshold (key_management self)).

Definition set_key_management_threshold (self : ActionThresholds) (new_threshold : Weight)
    : outcome SetThresholdFailure ActionThresholds :=
  if deployment self >? new_threshold then Err KeyManagementThresholdError
  else Ok (mk_thresholds (deployment self) new_threshold).

Definition set_threshold (self : ActionThresholds) (action_type : ActionType) (new_threshold : Weight)
    : outcome SetThresholdFailure ActionThresholds :=
  match action_type with
  | Deployment => set_deployment_threshold self new_threshold
  | KeyManagement => set_key_management_threshold self new_threshold
  end.

Definition action_thresholds_default : ActionThresholds := mk_thresholds 1 1.

Definition action_thresholds_to_bytes (t : ActionThresholds) : outcome Error bytes :=
  let? b1 := u8_to_bytes (deployment t) in
  let? b2 := u8_to_bytes (key_management t) in
  Ok (b1 ++ b2).

Definition action_thresholds_from_bytes (bs : bytes) : outcome Error (ActionThresholds * bytes) :=
  let? '(d, rem) := u8_from_bytes bs in
  let? '(k, rem') := u8_from_bytes rem in
  Ok (mk_thresholds d k, rem').

Definition action_thresholds_codec : Codec ActionThresholds :=
  mk_codec action_thresholds_to_bytes action_thresholds_from_bytes.

(** * Accounts *)

Record Account := mk_account {
  account_public_key : bytes;
  account_named_keys : BTreeMap bytes Key;
  account_purse_id : PurseId;
  associated_keys : AssociatedKeys;
  action_thresholds : ActionThresholds;
}.

#[global] Instance account_eq_dec : EqDecision Account.
Proof.
  assert (EqDecision (BTreeMap bytes Key)) by (unfold BTreeMap; apply _).
  assert (EqDecision AssociatedKeys)
    by (unfold AssociatedKeys, BTreeMap, PublicKey, Weight; apply _).
  assert (EqDecision PurseId) by (unfold PurseId; apply _).
  solve_decision.
Defined.

Definition account_create (account_addr : bytes) (named_keys : BTreeMap bytes Key)
    (purse_id : PurseId) : Account :=
  mk_account account_addr named_keys purse_id
    (associated_keys_new account_addr 1) action_thresholds_default.

Definition account_named_keys_append (self : Account) (keys : BTreeMap bytes Key) : Account :=
  mk_account (account_public_key self) (bt_append (account_named_keys self) keys)
    (account_purse_id self) (associated_keys self) (action_thresholds self).

(** Assignment through [named_keys_mut]. *)
Definition with_named_keys (self : Account) (named_keys : BTreeMap bytes Key) : Account :=
  mk_account (account_public_key self) named_keys
    (account_purse_id self) (associated_keys self) (action_thresholds self).

Definition with_associated_keys (self : Account) (keys : AssociatedKeys) : Account :=
  mk_account (account_public_key self) (account_named_keys self)
    (account_purse_id self) keys (action_thresholds self).

Definition with_action_thresholds (self : Account) (t : ActionThresholds) : Account :=
  mk_account (account_public_key self) (account_named_keys self)
    (account_purse_id self) (associated_keys self) t.

Definition purse_id_add_only (self : Account) : PurseId :=
  uref_new (uref_addr (account_purse_id self)) ADD.

Definition add_associated_key (self : Account) (public_key : PublicKey) (weight : Weight)
    : outcome AddKeyFailure Account :=
  let? keys := add_key (associated_keys self) public_key weight in
  Ok (with_associated_keys self keys).

Definition can_remove_key (self : Account) (public_key : PublicKey) : bool :=
  let total_weight_without := total_keys_weight_excluding (associated_keys self) public_key in
  (total_weight_without >=? deployment (action_thresholds self))
  && (total_weight_without >=? key_management (action_thresholds self)).

Definition can_update_key (self : Account) (public_key : PublicKey) (weight : Weight) : bool :=
  let total_weight := total_keys_weight_excluding (associated_keys self) public_key in
  let new_weight := saturating_add 8 total_weight weight in
  (new_weight >=? deployment (action_thresholds self))
  && (new_weight >=? key_management (action_thresholds self)).

Definition remove_associated_key (self : Account) (public_key : PublicKey)
    : outcome RemoveKeyFailure Account :=
  if bt_contains_key public_key (associated_keys self) && negb (can_remove_key self public_key)
  then Err RemoveKey_ThresholdViolation
  else
    let? keys := remove_key (associated_keys self) public_key in
    Ok (with_associated_keys self keys).

Definition update_associated_key (self : Account) (public_key : PublicKey) (weight : Weight)
    : outcome UpdateKeyFailure Account :=
  let violation :=
    match bt_get public_key (associated_keys self) with
    | Some current_weight =>
        (weight <? current_weight) && negb (can_update_key self public_key weight)
    | None => false
    end in
  if violation then Err UpdateKey_ThresholdViolation
  else
    let? keys := update_key (associated_keys self) public_key weight in
    Ok (with_associated_keys self keys).

Definition can_set_threshold (self : Account) (new_threshold : Weight)
    : outcome SetThresholdFailure unit :=
  let total_weight := total_keys_weight (associated_keys self) in
  oguard (new_threshold >? total_weight) InsufficientTotalWeight.

Definition set_action_threshold (self : Account) (action_type : ActionType) (weight : Weight)
    : outcome SetThresholdFailure Account :=
  let? _ := can_set_threshold self weight in
  let? t := set_threshold (action_thresholds self) action_type weight in
  Ok (with_action_thresholds self t).

Definition can_authorize (self : Account) (authorization_keys : list PublicKey) : bool :=
  match authorization_keys with
  | [] => false
  | _ => forallb (fun e => bt_contains_key e (associated_keys self)) authorization_keys
  end.

Definition can_deploy_with (self : Account) (authorization_keys : list PublicKey) : bool :=
  calculate_keys_weight (associated_keys self) authorization_keys
    >=? deployment (action_thresholds self).

Definition can_manage_keys_with (self : Account) (authorization_keys : list PublicKey) : bool :=
  calculate_keys_weight (associated_keys self) authorization_keys
    >=? key_management (action_thresholds self).

Definition named_keys_codec : Codec (BTreeMap bytes Key) := btreemap_codec string_codec key_codec.

Definition account_to_bytes (self : Account) : outcome Error bytes :=
  let action_thresholds_size := 2 * (WEIGHT_SERIALIZED_LENGTH + U8_SERIALIZED_LENGTH) in
  let associated_keys_size :=
    zlen (associated_keys self) * (PUBLIC_KEY_SERIALIZED_LENGTH + WEIGHT_SERIALIZED_LENGTH)
    + U32_SERIALIZED_LENGTH in
  let named_keys_size :=
    KEY_UREF_SERIALIZED_LENGTH * zlen (account_named_keys self) + U32_SERIALIZED_LENGTH in
  let purse_id_size := KEY_UREF_SERIALIZED_LENGTH in
  let serialized_account_size :=
    PUBLIC_KEY_SERIALIZED_LENGTH + named_keys_size + purse_id_size + associated_keys_size
    + action_thresholds_size in
  if serialized_account_size >=? u32_max then Err OutOfMemoryError
  else
    let? b1 := u8_array_to_bytes (account_public_key self) in
    let? b2 := to_bytes named_keys_codec (account_named_keys self) in
    let? b3 := uref_to_bytes (account_purse_id self) in
    let? b4 := associated_keys_to_bytes (associated_keys self) in
    let? b5 := action_thresholds_to_bytes (action_thresholds self) in
    Ok (b1 ++ b2 ++ b3 ++ b4 ++ b5).

Definition account_from_bytes (bs : bytes) : outcome Error (Account * bytes) :=
  let? '(public_key, rem) := u8_array_from_bytes 32 bs in
  let? '(named_keys, rem) := from_bytes named_keys_codec rem in
  let? '(purse_id, rem) := uref_from_bytes rem in
  let? '(keys, rem) := associated_keys_from_bytes rem in
  let? '(thresholds, rem) := action_thresholds_from_bytes rem in
  Ok (mk_account public_key named_keys purse_id keys thresholds, rem).

Definition account_codec : Codec Account := mk_codec account_to_bytes account_from_bytes.

Arguments total_keys_weight : simpl never.
Arguments total_keys_weight_excluding : simpl never.

(** * Sums of weights *)

Fixpoint sum_weights (m : list (PublicKey * Weight)) : Z :=
  match m with
  | [] => 0
  | (_, w) :: m' => w + sum_weights m'
  end.

Definition weights_valid (m : list (PublicKey * Weight)) : Prop :=
  Forall (fun kv => is_unsigned 8 kv.2) m.

Lemma fold_saturating ws acc :
  0 <= acc <= 255 -> Forall (is_unsigned 8) ws ->
  fold_left (fun acc w => saturating_add 8 acc w) ws acc
    = Z.min (acc + fold_right Z.add 0 ws) 255.
Proof.
  intros Ha H. revert acc Ha. induction H as [|w ws Hw Hws IH]; intros acc Ha; cbn [fold_left fold_right].
  - lia.
  - unfold is_unsigned in Hw.
    assert (0 <= fold_right Z.add 0 ws).
    { clear -Hws. induction Hws as [|w ws Hw _ IH]; cbn; unfold is_unsigned in *; lia. }
    rewrite IH; unfold saturating_add; lia.
Qed.

Lemma sum_weights_values m : sum_weights m = fold_right Z.add 0 (map snd m).
Proof. induction m as [|[k w] m IH]; cbn; congruence. Qed.

Lemma sum_weights_nonneg m : weights_valid m -> 0 <= sum_weights m.
Proof. induction 1 as [|[k w] m Hw _ IH]; cbn; unfold is_unsigned in *; cbn in *; lia. Qed.

(** Looking up entries that are in the map returns their weights. *)
Lemma omap_get_entries (m l : AssociatedKeys) :
  bt_wf m -> (forall e, In e l -> In e m) -> omap (fun k => bt_get k m) (map fst l) = map snd l.
Proof.
  intros Hwf. induction l as [|[k w] l IH]; intros Hin; cbn; [done|].
  rewrite (bt_in_get k w) by (done || (apply Hin; by left)).
  f_equal. apply IH. intros e He. apply Hin. by right.
Qed.

Lemma weight_of_entries (m l : AssociatedKeys) :
  bt_wf m -> weights_valid m -> (forall e, In e l -> In e m) ->
  calculate_any_keys_weight m (map fst l) = Z.min (sum_weights l) 255.
Proof.
  intros Hwf Hv Hin. unfold calculate_any_keys_weight.
  rewrite omap_get_entries by done. rewrite fold_saturating; [|lia|].
  - by rewrite <- sum_weights_values.
  - apply List.Forall_map, List.Forall_forall. intros e He.
    unfold weights_valid in Hv. rewrite List.Forall_forall in Hv. apply Hv. auto.
Qed.

Lemma total_keys_weight_sum (m : AssociatedKeys) :
  bt_wf m -> weights_valid m -> total_keys_weight m = Z.min (sum_weights m) 255.
Proof. intros. by apply weight_of_entries. Qed.

Definition others (k : PublicKey) (m : AssociatedKeys) : AssociatedKeys :=
  List.filter (fun e => negb (bool_decide (e.1 = k))) m.

Lemma keys_others k (m : AssociatedKeys) :
  List.filter (fun e => negb (bool_decide (e = k))) (bt_keys m) = map fst (others k m).
Proof.
  unfold bt_keys, others. induction m as [|[k' w] m IH]; cbn; [done|].
  destruct (negb _); cbn; by rewrite IH.
Qed.

Lemma sum_insert k w (m : AssociatedKeys) :
  sum_weights (bt_insert k w m) = sum_weights m - default 0 (bt_get k m) + w.
Proof.
  induction m as [|[k' w'] m IH]; cbn; [lia|]. destruct (ord_cmp k k'); cbn; lia.
Qed.

Lemma sum_remove k (m : AssociatedKeys) :
  sum_weights (bt_remove k m) = sum_weights m - default 0 (bt_get k m).
Proof.
  induction m as [|[k' w'] m IH]; cbn; [lia|]. destruct (ord_cmp k k'); cbn; lia.
Qed.

Lemma sum_others k (m : AssociatedKeys) :
  bt_wf m -> sum_weights (others k m) = sum_weights m - default 0 (bt_get k m).
Proof.
  unfold others. induction m as [|[k' w'] m IH]; intros Hwf; cbn; [lia|].
  apply bt_wf_cons in Hwf as [HF Hwf]. specialize (IH Hwf).
  destruct (ord_cmp k k') eqn:E; cbn.
  - apply ord_cmp_eq in E as ->. rewrite bool_decide_eq_true_2 by done. cbn.
    rewrite IH, bt_get_above by done. cbn. lia.
  - rewrite bool_decide_eq_false_2 by (intros ->; by rewrite ord_cmp_refl in E). cbn.
    rewrite IH, (bt_get_above k); [cbn; lia|].
    eapply List.Forall_impl; [|exact HF]. cbn. intros e. by apply ord_cmp_trans.
  - rewrite bool_decide_eq_false_2 by (intros ->; by rewrite ord_cmp_refl in E). cbn. lia.
Qed.

Lemma total_excluding_sum k (m : AssociatedKeys) :
  bt_wf m -> weights_valid m ->
  total_keys_weight_excluding m k = Z.min (sum_weights m - default 0 (bt_get k m)) 255.
Proof.
  intros Hwf Hv. unfold total_keys_weight_excluding. rewrite keys_others.
  rewrite weight_of_entries by (done || (intros e He; by apply filter_In in He as [? _])).
  by rewrite sum_others.
Qed.

Lemma zlen_insert {K V} `{OrdLaws K} (k : K) (v : V) (m : BTreeMap K V) :
  zlen (bt_insert k v m) = if bt_contains_key k m then zlen m else zlen m + 1.
Proof.
  unfold zlen, bt_contains_key. induction m as [|[k' v'] m IH]; cbn [bt_insert bt_get]; [done|].
  destruct (ord_cmp k k'); cbn [length]; [lia | lia |]. destruct (bt_get k m); lia.
Qed.

Lemma zlen_remove {K V} `{OrdLaws K} (k : K) (m : BTreeMap K V) : zlen (bt_remove k m) <= zlen m.
Proof.
  unfold zlen. induction m as [|[k' v'] m IH]; cbn [bt_remove]; [done|].
  destruct (ord_cmp k k'); cbn [length]; lia.
Qed.

(** * The account invariant *)

Record account_inv (a : Account) : Prop := {
  inv_keys_wf : bt_wf (associated_keys a);
  inv_weights : weights_valid (associated_keys a);
  inv_max_keys : zlen (associated_keys a) <= MAX_KEYS;
  inv_deployment : 0 <= deployment (action_thresholds a) <= key_management (action_thresholds a);
  inv_reachable : key_management (action_thresholds a) <= total_keys_weight (associated_keys a);
}.

(** The operations a deploy can apply to an account; weights are [u8]. *)
Inductive account_step : Account -> Account -> Prop :=
| step_add a k w a' :
    is_unsigned 8 w -> add_associated_key a k w = Ok a' -> account_step a a'
| step_remove a k a' :
    remove_associated_key a k = Ok a' -> account_step a a'
| step_update a k w a' :
    is_unsigned 8 w -> update_associated_key a k w = Ok a' -> account_step a a'
| step_threshold a t w a' :
    is_unsigned 8 w -> set_action_threshold a t w = Ok a' -> account_step a a'
| step_named_keys a keys :
    account_step a (account_named_keys_append a keys).

Lemma account_create_inv addr named_keys purse : account_inv (account_create addr named_keys purse).
Proof.
  assert (bt_wf [(addr, 1)] /\ weights_valid [(addr, 1)]) as [? ?]
    by (split; repeat constructor; unfold is_unsigned; cbn; lia).
  split; [done | done | done | cbn; lia |].
  cbn [account_create associated_keys action_thresholds].
  change (associated_keys_new addr 1) with [(addr, 1)]. by rewrite total_keys_weight_sum.
Qed.

Lemma weight_get (m : AssociatedKeys) k w :
  weights_valid m -> bt_get k m = Some w -> is_unsigned 8 w.
Proof.
  unfold weights_valid. rewrite List.Forall_forall. intros Hv Hg.
  apply bt_get_in in Hg. by apply Hv in Hg.
Qed.

(** Replacing the associated keys keeps the invariant when the new sum still
    reaches the thresholds. *)
Lemma with_keys_inv a keys :
  account_inv a -> bt_wf keys -> weights_valid keys -> zlen keys <= MAX_KEYS ->
  key_management (action_thresholds a) <= Z.min (sum_weights keys) 255 ->
  account_inv (with_associated_keys a keys).
Proof.
  intros [] ? ? ? ?. split; cbn; try done. by rewrite total_keys_weight_sum.
Qed.

Lemma add_associated_key_inv a k w a' :
  account_inv a -> is_unsigned 8 w -> add_associated_key a k w = Ok a' -> account_inv a'.
Proof.
  intros Ha Hw H. pose proof Ha as [Wf Wv Mx Dp Rc]. unfold add_associated_key, add_key in H.
  destruct (Z.eqb_spec (zlen (associated_keys a)) MAX_KEYS); [done|].
  destruct (bt_contains_key k (associated_keys a)) eqn:Hc; [done|]. apply Ok_inj in H as <-.
  apply with_keys_inv; [done | by apply bt_wf_insert | by apply bt_insert_Forall | |].
  - rewrite zlen_insert, Hc. lia.
  - rewrite total_keys_weight_sum in Rc by done. rewrite sum_insert.
    unfold bt_contains_key in Hc. destruct (bt_get k _); [done|]. cbn. unfold is_unsigned in Hw. lia.
Qed.

Lemma remove_associated_key_inv a k a' :
  account_inv a -> remove_associated_key a k = Ok a' -> account_inv a'.
Proof.
  intros Ha H. pose proof Ha as [Wf Wv Mx Dp Rc]. unfold remove_associated_key, remove_key in H.
  destruct (bt_contains_key k _ && _) eqn:Hc; [done|].
  unfold bt_contains_key in Hc. destruct (bt_get k (associated_keys a)) as [w|] eqn:Hg; [|done].
  cbn in Hc, H. apply Ok_inj in H as <-. breflect.
  unfold can_remove_key in *. rewrite total_excluding_sum, Hg in * by done. cbn in *.
  apply with_keys_inv; [done | by apply bt_wf_remove | by apply bt_remove_Forall | |].
  - pose proof (zlen_remove k (associated_keys a)). lia.
  - rewrite sum_remove, Hg. breflect. cbn. lia.
Qed.

Lemma update_associated_key_inv a k w a' :
  account_inv a -> is_unsigned 8 w -> update_associated_key a k w = Ok a' -> account_inv a'.
Proof.
  intros Ha Hw H. pose proof Ha as [Wf Wv Mx Dp Rc].
  unfold update_associated_key, update_key, bt_contains_key in H.
  destruct (bt_get k (associated_keys a)) as [w0|] eqn:Hg; [|done].
  destruct (_ && _) eqn:Hc; [done|]. cbn in H. apply Ok_inj in H as <-.
  apply with_keys_inv; [done | by apply bt_wf_insert | by apply bt_insert_Forall | |].
  - rewrite zlen_insert. unfold bt_contains_key. by rewrite Hg.
  - rewrite sum_insert, Hg. cbn. rewrite total_keys_weight_sum in Rc by done.
    unfold can_update_key, saturating_add in Hc. rewrite total_excluding_sum, Hg in Hc by done.
    cbn in Hc. change (2 ^ 8) with 256 in Hc.
    pose proof (weight_get _ _ _ Wv Hg). unfold is_unsigned in *.
    destruct (Z.ltb_spec w w0); cbn in Hc; breflect; lia.
Qed.

Lemma set_action_threshold_inv a t w a' :
  account_inv a -> is_unsigned 8 w -> set_action_threshold a t w = Ok a' -> account_inv a'.
Proof.
  intros Ha Hw H. destruct Ha as [Wf Wv Mx Dp Rc]. unfold set_action_threshold, can_set_threshold in H.
  obind_inv. breflect. unfold is_unsigned in Hw.
  destruct t; cbn in *; unfold set_deployment_threshold, set_key_management_threshold in *;
    destruct (_ >? _) eqn:E in *; try done; obind_inv; breflect; split; cbn; try done; lia.
Qed.

Lemma account_step_inv a a' : account_inv a -> account_step a a' -> account_inv a'.
Proof.
  intros Ha Hs. destruct Hs.
  - by eapply add_associated_key_inv.
  - by eapply remove_associated_key_inv.
  - by eapply update_associated_key_inv.
  - by eapply set_action_threshold_inv.
  - by destruct Ha; split.
Qed.

(** * Serialization *)

Definition thresholds_valid (t : ActionThresholds) : Prop :=
  is_unsigned 8 (deployment t) /\ is_unsigned 8 (key_management t).

Definition named_keys_valid (m : BTreeMap bytes Key) : Prop :=
  bt_wf m /\ Forall (pair_valid (fun s => utf8_valid s = true) key_valid) m.

Lemma named_keys_valid_append m1 m2 :
  named_keys_valid m1 -> named_keys_valid m2 -> named_keys_valid (bt_append m1 m2).
Proof.
  intros [W1 F1] [W2 F2]. split; [by apply bt_wf_extend|]. clear W1 W2. revert m1 F1.
  induction F2 as [|[k v] m2 Hx _ IH]; intros m1 F1; cbn; [done|].
  apply IH. by apply bt_insert_Forall.
Qed.

Definition associated_keys_valid (m : AssociatedKeys) : Prop :=
  btreemap_valid (is_bytes 32) (is_unsigned 8) m /\ zlen m <= MAX_KEYS.

Definition account_valid (a : Account) : Prop :=
  is_bytes 32 (account_public_key a) /\ named_keys_valid (account_named_keys a)
  /\ uref_valid (account_purse_id a) /\ associated_keys_valid (associated_keys a)
  /\ thresholds_valid (action_thresholds a).

(** An entry above all others is appended. *)
Lemma bt_insert_last {K V} `{OrdLaws K} (k : K) (v : V) m :
  bt_wf (m ++ [(k, v)]) -> bt_insert k v m = m ++ [(k, v)] /\ bt_get k m = None.
Proof.
  induction m as [|[k' v'] m IH]; cbn; [done|]. intros Hwf.
  apply bt_wf_cons in Hwf as [HF Hwf]. specialize (IH Hwf) as [IH1 IH2].
  assert (ord_cmp k k' = Gt) as ->.
  { apply ord_cmp_gt_lt. rewrite List.Forall_forall in HF. apply (HF (k, v)).
    apply in_or_app. right. by left. }
  by rewrite IH1.
Qed.

Lemma bt_wf_prefix {K V} `{OrdLaws K} (m1 m2 : BTreeMap K V) : bt_wf (m1 ++ m2) -> bt_wf m1.
Proof.
  induction m1 as [|[k v] m1 IH]; cbn; [intros; apply bt_wf_empty|]. rewrite !bt_wf_cons.
  intros [HF Hwf]. split; [by apply Forall_app in HF as [? _] | auto].
Qed.

Lemma add_all_sorted (acc m : AssociatedKeys) :
  bt_wf (acc ++ m) -> zlen (acc ++ m) <= MAX_KEYS -> add_all acc m = Ok (acc ++ m).
Proof.
  revert acc. induction m as [|[k w] m IH]; intros acc Hwf Hn; cbn; [by rewrite app_nil_r|].
  change ((k, w) :: m) with ([(k, w)] ++ m) in *. rewrite app_assoc in *.
  pose proof (bt_wf_prefix _ _ Hwf) as Hp. apply bt_insert_last in Hp as [Hi Hg].
  unfold add_key, bt_contains_key. rewrite Hg, Hi.
  rewrite !zlen_app in Hn. replace (zlen acc =? MAX_KEYS) with false
    by (unfold zlen, MAX_KEYS in *; cbn in *; lia).
  apply IH; [done|]. by rewrite !zlen_app.
Qed.

Lemma add_all_app acc (m l : AssociatedKeys) :
  add_all acc (m ++ l) =
    match add_all acc m with Ok k => add_all k l | Err x => Err x | Panic => Panic end.
Proof.
  revert acc. induction m as [|[k w] m IH]; intros acc; cbn [add_all app]; [done|].
  destruct (add_key acc k w); [apply IH|done|done].
Qed.

#[global] Instance associated_keys_laws : CodecLaws associated_keys_codec associated_keys_valid.
Proof.
  intros m bs rest [Hv Hn] H. cbn in *. unfold associated_keys_from_bytes.
  pose proof (btreemap_laws public_key_codec weight_codec _ _ m bs rest Hv H) as E.
  cbn in E. rewrite E. cbn. destruct Hv as [Hwf _].
  by rewrite (add_all_sorted bt_empty m).
Qed.

#[global] Instance thresholds_laws : CodecLaws action_thresholds_codec thresholds_valid.
Proof.
  intros [d k] bs rest [Hd Hk] H. cbn in *. apply Ok_inj in H as <-.
  unfold action_thresholds_from_bytes, is_unsigned in *. cbn.
  by rewrite !byte_to_of_Z, !Z.mod_small by done.
Qed.

(** The writers of accounts and contracts refuse maps that do not fit. *)
Lemma named_keys_laws nk b rest :
  named_keys_valid nk -> fits_u32 nk -> to_bytes named_keys_codec nk = Ok b ->
  from_bytes named_keys_codec (b ++ rest) = Ok (nk, rest).
Proof. intros [W F] Hf. by apply (btreemap_laws string_codec key_codec _ _ nk). Qed.

#[global] Instance account_laws : CodecLaws account_codec account_valid.
Proof.
  intros [pk nk pu ak th] bs rest (H1 & H2 & H3 & H4 & H5) H. cbn in H1, H2, H3, H4, H5.
  cbn in H. unfold account_to_bytes in H.
  destruct (_ >=? _) eqn:Hsz; [done|]. assert (fits_u32 nk) as Hfit.
  { breflect. revert Hsz.
    cbn [account_named_keys associated_keys].
    unfold fits_u32, KEY_UREF_SERIALIZED_LENGTH, UREF_SERIALIZED_LENGTH, PUBLIC_KEY_SERIALIZED_LENGTH,
      OPTION_TAG_SERIALIZED_LENGTH, WEIGHT_SERIALIZED_LENGTH, U8_SERIALIZED_LENGTH,
      U32_SERIALIZED_LENGTH, U64_SERIALIZED_LENGTH.
    pose proof (zlen_nonneg nk). pose proof (zlen_nonneg ak). lia. }
  cbn [account_public_key account_named_keys account_purse_id associated_keys action_thresholds
       u8_array_to_bytes obind] in H.
  apply obind_ok in H as (b2 & E2 & H). apply obind_ok in H as (b3 & E3 & H).
  apply obind_ok in H as (b4 & E4 & H). apply obind_ok in H as (b5 & E5 & <-%Ok_inj).
  cbn [from_bytes account_codec]. unfold account_from_bytes, u8_array_from_bytes.
  rewrite <- !app_assoc, safe_split_at_app by done. cbn [obind].
  rewrite (named_keys_laws nk b2 _ H2 Hfit E2). cbn [obind].
  pose proof (uref_laws pu b3 (b4 ++ b5 ++ rest) H3 E3) as D3. cbn [from_bytes uref_codec] in D3.
  rewrite D3. cbn [obind].
  pose proof (associated_keys_laws ak b4 (b5 ++ rest) H4 E4) as D4.
  cbn [from_bytes associated_keys_codec] in D4. rewrite D4. cbn [obind].
  pose proof (thresholds_laws th b5 rest H5 E5) as D5.
  cbn [from_bytes action_thresholds_codec] in D5. by rewrite D5.
Qed.

(** * Properties *)

(** C20: from creation on, through any sequence of key management operations, the
    keys of an account together can manage it and deploy with it, there are at
    most [MAX_KEYS] of them, and deploying never needs more than managing. *)
Theorem account_never_locked addr named_keys purse a :
  rtc account_step (account_create addr named_keys purse) a ->
  can_manage_keys_with a (bt_keys (associated_keys a)) = true
  /\ can_deploy_with a (bt_keys (associated_keys a)) = true
  /\ zlen (associated_keys a) <= MAX_KEYS
  /\ deployment (action_thresholds a) <= key_management (action_thresholds a).
Proof.
  intros Hr.
  assert (account_inv a) as [Wf Wv Mx Dp Rc].
  { pose proof (account_create_inv addr named_keys purse) as H0. revert H0.
    induction Hr as [|x y z Hs _ IH]; [done|]. intros Hx. apply IH. by eapply account_step_inv. }
  unfold can_manage_keys_with, can_deploy_with, calculate_keys_weight.
  change (calculate_any_keys_weight (associated_keys a) (bt_keys (associated_keys a)))
    with (total_keys_weight (associated_keys a)).
  rewrite !Z.geb_leb, !Z.leb_le. lia.
Qed.

(** The weight tests saturate at 255, yet removing and updating a key decide
    exactly as the unbounded sums would, on every branch. *)
Theorem key_changes_exact a k w :
  account_inv a -> is_unsigned 8 w ->
  let km := key_management (action_thresholds a) in
  let keys := associated_keys a in
  remove_associated_key a k =
    match bt_get k keys with
    | None => Err RemoveKey_MissingKey
    | Some w0 =>
        if sum_weights keys - w0 <? km then Err RemoveKey_ThresholdViolation
        else Ok (with_associated_keys a (bt_remove k keys))
    end
  /\ update_associated_key a k w =
    match bt_get k keys with
    | None => Err UpdateKey_MissingKey
    | Some w0 =>
        if sum_weights keys - w0 + w <? km then Err UpdateKey_ThresholdViolation
        else Ok (with_associated_keys a (bt_insert k w keys))
    end.
Proof.
  intros [Wf Wv Mx Dp Rc] Hw km keys. subst km keys. unfold is_unsigned in Hw.
  rewrite total_keys_weight_sum in Rc by done.
  unfold remove_associated_key, update_associated_key, remove_key, update_key, can_remove_key,
    can_update_key, bt_contains_key, saturating_add.
  rewrite total_excluding_sum by done.
  destruct (bt_get k (associated_keys a)) as [w0|] eqn:Hg; [|done]. cbn.
  pose proof (weight_get _ _ _ Wv Hg) as Hw0. unfold is_unsigned in Hw0.
  change (2 ^ 8) with 256 in *.
  split.
  - destruct (negb _) eqn:E1, (_ <? _) eqn:E2; try done; exfalso; lia.
  - destruct (_ && _) eqn:E1, (sum_weights _ - w0 + w <? _) eqn:E2; try done; exfalso; lia.
Qed.

(** Deserializing more than [MAX_KEYS] associated keys panics; every stored
    account with at most that many is read back unchanged. *)
Theorem associated_keys_decode m bs :
  btreemap_valid (is_bytes 32) (is_unsigned 8) m -> associated_keys_to_bytes m = Ok bs ->
  deserialize associated_keys_codec bs = if zlen m <=? MAX_KEYS then Ok m else Panic.
Proof.
  intros Hv H. destruct (Z.leb_spec (zlen m) MAX_KEYS) as [Hn|Hn].
  - by apply (deserialize_serialize associated_keys_codec associated_keys_valid).
  - unfold deserialize. cbn [from_bytes associated_keys_codec]. unfold associated_keys_from_bytes.
    rewrite <- (app_nil_r bs).
    pose proof (btreemap_laws public_key_codec weight_codec _ _ m bs [] Hv H) as E.
    cbn [from_bytes btreemap_codec] in E. rewrite E. cbn [obind]. clear E.
    destruct Hv as [Hwf _].
    replace (add_all bt_empty m) with (Panic : outcome Error AssociatedKeys); [done|]. symmetry.
    rewrite <- (take_drop 10 m) in Hwf |- *.
    assert (length (take 10 m) = 10%nat) as L
      by (rewrite length_take; unfold zlen, MAX_KEYS in Hn; lia).
    assert (exists e l, drop 10 m = e :: l) as (e & l & El).
    { destruct (drop 10 m) eqn:D; [|eauto].
      apply (f_equal length) in D. rewrite length_drop in D. unfold zlen, MAX_KEYS in Hn. cbn in D. lia. }
    rewrite El in *. generalize (take 10 m) L Hwf. clear. intros m L Hwf.
    rewrite add_all_app, (add_all_sorted bt_empty m).
    + destruct e as [k w]. unfold bt_empty. cbn [add_all app]. unfold add_key, zlen. unfold PublicKey, Weight in *. by rewrite L.
    + cbn. by apply bt_wf_prefix in Hwf.
    + unfold zlen, MAX_KEYS, bt_empty. cbn [app]. unfold PublicKey, Weight in *. lia.
Qed.
