(* ===== verification/StoredValue.v ===== *)
(** What the global state stores under a key: a typed value, an account or a
    contract.  Sources: [engine-shared/src/contract.rs],
    [engine-shared/src/stored_value.rs]. *)

From S2P Require Import Prelude BTreeMap Bytesrepr Uint Types CLValues Account.

(** * Contracts *)

Record Contract := mk_contract {
  contract_bytes : bytes;
  contract_named_keys : BTreeMap bytes Key;
  contract_protocol_version : ProtocolVersion;
}.

#[global] Instance contract_eq_dec : EqDecision Contract.
Proof.
  assert (EqDecision (BTreeMap bytes Key)) by (unfold BTreeMap; apply _).
  assert (EqDecision ProtocolVersion) by (unfold ProtocolVersion; apply _).
  solve_decision.
Defined.

Definition contract_named_keys_append (self : Contract) (keys : BTreeMap bytes Key) : Contract :=
  mk_contract (contract_bytes self) (bt_append (contract_named_keys self) keys)
    (contract_protocol_version self).

Definition contract_with_named_keys (self : Contract) (named_keys : BTreeMap bytes Key) : Contract :=
  mk_contract (contract_bytes self) named_keys (contract_protocol_version self).

Definition contract_to_bytes (self : Contract) : outcome Error bytes :=
  if zlen (contract_bytes self) + KEY_UREF_SERIALIZED_LENGTH * zlen (contract_named_keys self)
     + U64_SERIALIZED_LENGTH >=? u32_max - U32_SERIALIZED_LENGTH * 2
  then Err OutOfMemoryError
  else
    let? b1 := vec_u8_to_bytes (contract_bytes self) in
    let? b2 := to_bytes named_keys_codec (contract_named_keys self) in
    let? b3 := to_bytes protocol_version_codec (contract_protocol_version self) in
    Ok (b1 ++ b2 ++ b3).

Definition contract_from_bytes (bs : bytes) : outcome Error (Contract * bytes) :=
  let? '(b, rem1) := vec_u8_from_bytes bs in
  let? '(named_keys, rem2) := from_bytes named_keys_codec rem1 in
  let? '(protocol_version, rem3) := from_bytes protocol_version_codec rem2 in
  Ok (mk_contract b named_keys protocol_version, rem3).

Definition contract_codec : Codec Contract := mk_codec contract_to_bytes contract_from_bytes.

(** * Stored values *)

Inductive StoredValue :=
| SV_CLValue (v : CLValue)
| SV_Account (a : Account)
| SV_Contract (c : Contract).

#[global] Instance stored_value_eq_dec : EqDecision StoredValue.
Proof. solve_decision. Defined.

(** [TypeMismatch] of [engine-shared/src/transform.rs]. *)
Record TypeMismatch := mk_type_mismatch { tm_expected : bytes; tm_found : bytes }.

#[global] Instance type_mismatch_eq_dec : EqDecision TypeMismatch.
Proof. solve_decision. Defined.

(** Decimal digits of a [u32]. *)
Fixpoint decimal (fuel : nat) (z : Z) : bytes :=
  match fuel with
  | O => []
  | S fuel => (if z <? 10 then [] else decimal fuel (z / 10)) ++ [byte_of_Z (48 + z mod 10)]
  end.

(** The derived [Debug] of [CLType]. *)
Fixpoint cl_type_debug (t : CLType) : bytes :=
  match t with
  | CL_Bool => str "Bool" | CL_I32 => str "I32" | CL_I64 => str "I64" | CL_U8 => str "U8"
  | CL_U32 => str "U32" | CL_U64 => str "U64" | CL_U128 => str "U128" | CL_U256 => str "U256"
  | CL_U512 => str "U512" | CL_Unit => str "Unit" | CL_String => str "String"
  | CL_Key => str "Key" | CL_URef => str "URef" | CL_Any => str "Any"
  | CL_Option t => str "Option(" ++ cl_type_debug t ++ str ")"
  | CL_List t => str "List(" ++ cl_type_debug t ++ str ")"
  | CL_FixedList t n => str "FixedList(" ++ cl_type_debug t ++ str ", " ++ decimal 10 n ++ str ")"
  | CL_Result a b => str "Result { ok: " ++ cl_type_debug a ++ str ", err: " ++ cl_type_debug b ++ str " }"
  | CL_Map a b => str "Map { key: " ++ cl_type_debug a ++ str ", value: " ++ cl_type_debug b ++ str " }"
  | CL_Tuple1 a => str "Tuple1([" ++ cl_type_debug a ++ str "])"
  | CL_Tuple2 a b => str "Tuple2([" ++ cl_type_debug a ++ str ", " ++ cl_type_debug b ++ str "])"
  | CL_Tuple3 a b c =>
      str "Tuple3([" ++ cl_type_debug a ++ str ", " ++ cl_type_debug b ++ str ", "
        ++ cl_type_debug c ++ str "])"
  end.

Definition type_name (v : StoredValue) : bytes :=
  match v with
  | SV_CLValue cl_value => cl_type_debug (cl_type cl_value)
  | SV_Account _ => str "Account"
  | SV_Contract _ => str "Contract"
  end.

Definition as_cl_value (v : StoredValue) : option CLValue :=
  match v with SV_CLValue x => Some x | _ => None end.

Definition as_account (v : StoredValue) : option Account :=
  match v with SV_Account x => Some x | _ => None end.

Definition as_contract (v : StoredValue) : option Contract :=
  match v with SV_Contract x => Some x | _ => None end.

Definition try_into_cl_value (v : StoredValue) : outcome TypeMismatch CLValue :=
  match v with
  | SV_CLValue x => Ok x
  | _ => Err (mk_type_mismatch (str "CLValue") (type_name v))
  end.

Definition try_into_account (v : StoredValue) : outcome TypeMismatch Account :=
  match v with
  | SV_Account x => Ok x
  | _ => Err (mk_type_mismatch (str "Account") (type_name v))
  end.

Definition try_into_contract (v : StoredValue) : outcome TypeMismatch Contract :=
  match v with
  | SV_Contract x => Ok x
  | _ => Err (mk_type_mismatch (str "Contract") (type_name v))
  end.

Definition TAG_CLVALUE : Z := 0.
Definition TAG_ACCOUNT : Z := 1.
Definition TAG_CONTRACT : Z := 2.

(** The helper [to_bytes(value, tag)]; [size_of::<Tag>()] is 1. *)
Definition tagged_to_bytes {A} (c : Codec A) (value : A) (tag : Z) : outcome Error bytes :=
  let? bs := to_bytes c value in
  if zlen bs >=? u32_max - 1 then Err OutOfMemoryError
  else Ok (byte_of_Z tag :: bs).

Definition stored_value_to_bytes (v : StoredValue) : outcome Error bytes :=
  match v with
  | SV_CLValue cl_value => tagged_to_bytes cl_value_codec cl_value TAG_CLVALUE
  | SV_Account account => tagged_to_bytes account_codec account TAG_ACCOUNT
  | SV_Contract contract => tagged_to_bytes contract_codec contract TAG_CONTRACT
  end.

Definition stored_value_from_bytes (bs : bytes) : outcome Error (StoredValue * bytes) :=
  let? '(tag, remainder) := u8_from_bytes bs in
  if tag =? TAG_CLVALUE then
    let? '(v, rem) := from_bytes cl_value_codec remainder in Ok (SV_CLValue v, rem)
  else if tag =? TAG_ACCOUNT then
    let? '(a, rem) := from_bytes account_codec remainder in Ok (SV_Account a, rem)
  else if tag =? TAG_CONTRACT then
    let? '(c, rem) := from_bytes contract_codec remainder in Ok (SV_Contract c, rem)
  else Err FormattingError.

Definition stored_value_codec : Codec StoredValue :=
  mk_codec stored_value_to_bytes stored_value_from_bytes.

(** * Laws *)

Definition contract_valid (c : Contract) : Prop :=
  named_keys_valid (contract_named_keys c) /\ semver_valid (contract_protocol_version c).

Definition stored_value_valid (v : StoredValue) : Prop :=
  match v with
  | SV_CLValue v => cl_value_valid v
  | SV_Account a => account_valid a
  | SV_Contract c => contract_valid c
  end.

#[global] Instance contract_laws : CodecLaws contract_codec contract_valid.
Proof.
  intros [b nk pv] bs rest [H2 H3] H. cbn in H2, H3. cbn in H. unfold contract_to_bytes in H.
  destruct (_ >=? _) eqn:Hsz; [done|]. assert (fits_u32 nk) as Hfit.
  { breflect. revert Hsz.
    cbn [contract_named_keys contract_bytes].
    unfold fits_u32, KEY_UREF_SERIALIZED_LENGTH, UREF_SERIALIZED_LENGTH, PUBLIC_KEY_SERIALIZED_LENGTH,
      OPTION_TAG_SERIALIZED_LENGTH, WEIGHT_SERIALIZED_LENGTH, U8_SERIALIZED_LENGTH,
      U32_SERIALIZED_LENGTH, U64_SERIALIZED_LENGTH.
    pose proof (zlen_nonneg nk). pose proof (zlen_nonneg b). lia. }
  cbn [contract_bytes contract_named_keys contract_protocol_version] in H.
  apply obind_ok in H as (b1 & E1 & H). apply obind_ok in H as (b2 & E2 & H).
  apply obind_ok in H as (b3 & E3 & <-%Ok_inj).
  cbn [from_bytes contract_codec]. unfold contract_from_bytes. rewrite <- !app_assoc.
  pose proof (vec_u8_laws b b1 (b2 ++ b3 ++ rest) I E1) as D1. cbn [from_bytes vec_u8_codec] in D1.
  rewrite D1. cbn [obind]. rewrite (named_keys_laws nk b2 _ H2 Hfit E2). cbn [obind].
  by rewrite (semver_laws pv b3 _ H3 E3).
Qed.

#[global] Instance stored_value_laws : CodecLaws stored_value_codec stored_value_valid.
Proof.
  intros [v|a|c] bs rest Hv H; cbn in H; unfold tagged_to_bytes in H;
    apply obind_ok in H as (p & Hp & H); destruct (_ >=? _); try done; apply Ok_inj in H as <-;
    cbn [from_bytes stored_value_codec app]; unfold stored_value_from_bytes;
    cbn [u8_from_bytes obind]; rewrite byte_to_of_Z; cbn [Z.modulo];
    cbn [stored_value_valid] in Hv.
  - by rewrite (cl_value_laws v p rest Hv Hp).
  - by rewrite (account_laws a p rest Hv Hp).
  - by rewrite (contract_laws c p rest Hv Hp).
Qed.

(** C40: every stored value, whether a typed value, an account or a contract, is
    read back from its serialized form, and the reader stops at its end. *)
Theorem stored_value_roundtrip v bs rest :
  stored_value_valid v -> stored_value_to_bytes v = Ok bs ->
  stored_value_from_bytes (bs ++ rest) = Ok (v, rest).
Proof. apply stored_value_laws. Qed.

(** Writing a stored value never panics. *)
Lemma try_collect_safe {E A B} (f : A -> outcome E B) l :
  (forall a, f a <> Panic) -> try_collect f l <> Panic.
Proof.
  intros Hf. induction l as [|a l IH]; cbn; [done|].
  apply obind_safe; [done|]. intros b. by apply obind_safe.
Qed.

Lemma btreemap_to_bytes_safe {K V} (ck : Codec K) (cv : Codec V) m :
  (forall k, to_bytes ck k <> Panic) -> (forall v, to_bytes cv v <> Panic) ->
  btreemap_to_bytes ck cv m <> Panic.
Proof.
  intros Hk Hv. unfold btreemap_to_bytes. apply obind_safe.
  - apply try_collect_safe. intros [k v]. unfold tuple2_to_bytes.
    apply obind_safe; [done|]. intros. by apply obind_safe.
  - intros. by case_match.
Qed.

Lemma key_to_bytes_safe k : key_to_bytes k <> Panic.
Proof. by destruct (key_to_bytes_total k) as [bs ->]. Qed.

Lemma vec_u8_to_bytes_safe b : vec_u8_to_bytes b <> Panic.
Proof. unfold vec_u8_to_bytes. by case_match. Qed.

Lemma named_keys_to_bytes_safe m : to_bytes named_keys_codec m <> Panic.
Proof.
  apply btreemap_to_bytes_safe; [|apply key_to_bytes_safe].
  intros s. cbn. unfold string_to_bytes, str_to_bytes.
  case_match; [done | apply vec_u8_to_bytes_safe].
Qed.

Lemma stored_value_to_bytes_safe v : stored_value_to_bytes v <> Panic.
Proof.
  destruct v as [v|a|c]; cbn; unfold tagged_to_bytes; apply obind_safe; try (intros; by case_match); cbn.
  - unfold cl_value_to_bytes. by apply obind_safe; [apply vec_u8_to_bytes_safe|].
  - unfold account_to_bytes. case_match; [done|]. apply obind_safe; [done|]. intros.
    apply obind_safe; [apply named_keys_to_bytes_safe|]. intros.
    apply obind_safe; [by destruct (account_purse_id a) as [? [?|]]|]. intros.
    by apply obind_safe; [apply btreemap_to_bytes_safe|].
  - unfold contract_to_bytes. case_match; [done|].
    apply obind_safe; [apply vec_u8_to_bytes_safe|]. intros.
    by apply obind_safe; [apply named_keys_to_bytes_safe|].
Qed.
