(* ===== verification/Transform.v ===== *)
(** State transforms, their application to stored values and their
    composition; the kinds of operation recorded beside them.  Sources:
    [engine-shared/src/transform.rs], [engine-shared/src/additive_map.rs],
    [engine-core/src/engine_state/op.rs]. *)

From stdpp Require Import gmap.
From S2P Require Import Prelude BTreeMap Bytesrepr Uint Types CLValues Account StoredValue.

(** * Transforms *)

Inductive TransformError :=
| TE_Serialization (e : Bytesrepr.Error)
| TE_TypeMismatch (m : TypeMismatch).

#[global] Instance transform_error_eq_dec : EqDecision TransformError.
Proof. solve_decision. Defined.

Inductive Transform :=
| Identity
| Write (v : StoredValue)
| AddInt32 (z : Z)
| AddUInt64 (z : Z)
| AddUInt128 (z : Z)
| AddUInt256 (z : Z)
| AddUInt512 (z : Z)
| AddKeys (m : BTreeMap bytes Key)
| Failure (e : TransformError).

#[global] Instance transform_eq_dec : EqDecision Transform.
Proof.
  assert (EqDecision (BTreeMap bytes Key)) by (unfold BTreeMap; apply _). solve_decision.
Defined.

(** The text that [format!("{:?}", _)] and [any::type_name] put into error
    messages. *)
Class DebugText := {
  transform_debug : Transform -> bytes;
  num_type_name : NumType -> bytes;
}.

(** [impl From<CLValueError> for Error]. *)
Definition error_from_cl_value_error (e : CLValueError) : TransformError :=
  match e with
  | CLValue_Serialization error => TE_Serialization error
  | CLValue_Type m =>
      TE_TypeMismatch (mk_type_mismatch (cl_type_debug (clm_expected m)) (cl_type_debug (clm_found m)))
  end.

(** The numeric types by descriptor. *)
Definition num_of_cl_type (t : CLType) : option NumType :=
  match t with
  | CL_I32 => Some NI32 | CL_I64 => Some NI64 | CL_U8 => Some NU8 | CL_U32 => Some NU32
  | CL_U64 => Some NU64 | CL_U128 => Some NU128 | CL_U256 => Some NU256 | CL_U512 => Some NU512
  | _ => None
  end.

Definition clt_num (t : NumType) : CLTyped Z :=
  match t with
  | NI32 => clt_i32 | NI64 => clt_i64 | NU8 => clt_u8 | NU32 => clt_u32
  | NU64 => clt_u64 | NU128 => clt_u128 | NU256 => clt_u256 | NU512 => clt_u512
  end.

Definition do_wrapping_addition (X Y : NumType) (cl_value : CLValue) (to_add : Z)
    : outcome TransformError StoredValue :=
  let? x := omap_err error_from_cl_value_error (into_t (clt_num X) cl_value) in
  let result := num_wrapping_add X x (as_ Y X to_add) in
  let? v := omap_err error_from_cl_value_error (from_t (clt_num X) result) in
  Ok (SV_CLValue v).

Section transform.
Context {dbg : DebugText}.

Definition wrapping_addition (Y : NumType) (stored_value : StoredValue) (to_add : Z)
    : outcome TransformError StoredValue :=
  let? cl_value := omap_err TE_TypeMismatch (try_into_cl_value stored_value) in
  match num_of_cl_type (cl_type cl_value) with
  | Some X => do_wrapping_addition X Y cl_value to_add
  | None =>
      Err (TE_TypeMismatch (mk_type_mismatch
        (str "integral type compatible with " ++ num_type_name Y)
        (cl_type_debug (cl_type cl_value))))
  end.

Definition apply_transform (t : Transform) (stored_value : StoredValue)
    : outcome TransformError StoredValue :=
  match t with
  | Identity => Ok stored_value
  | Write new_value => Ok new_value
  | AddInt32 to_add => wrapping_addition NI32 stored_value to_add
  | AddUInt64 to_add => wrapping_addition NU64 stored_value to_add
  | AddUInt128 to_add => wrapping_addition NU128 stored_value to_add
  | AddUInt256 to_add => wrapping_addition NU256 stored_value to_add
  | AddUInt512 to_add => wrapping_addition NU512 stored_value to_add
  | AddKeys keys =>
      match stored_value with
      | SV_Contract contract => Ok (SV_Contract (contract_named_keys_append contract keys))
      | SV_Account account => Ok (SV_Account (account_named_keys_append account keys))
      | SV_CLValue cl_value =>
          Err (TE_TypeMismatch (mk_type_mismatch (str "Contract or Account")
            (cl_type_debug (cl_type cl_value))))
      end
  | Failure error => Err error
  end.

Definition mismatch_failure (expected : bytes) (found : Transform) : Transform :=
  Failure (TE_TypeMismatch (mk_type_mismatch expected (transform_debug found))).

(** [From<T> for Transform] for the wide integers. *)
Definition wide_transform (T : NumType) (z : Z) : Transform :=
  match T with
  | NU128 => AddUInt128 z
  | NU256 => AddUInt256 z
  | _ => AddUInt512 z
  end.

(** [TryFrom<Transform> for T]. *)
Definition wide_try_from (T : NumType) (t : Transform) : option Z :=
  match T, t with
  | NU128, AddUInt128 z => Some z
  | NU256, AddUInt256 z => Some z
  | NU512, AddUInt512 z => Some z
  | _, _ => None
  end.

Definition wrapped_transform_addition (T : NumType) (i : Z) (b : Transform) (expected : bytes)
    : Transform :=
  match b with
  | AddInt32 j => wide_transform T (num_wrapping_add T i (as_ NI32 T j))
  | AddUInt64 j => wide_transform T (num_wrapping_add T i j)
  | _ =>
      match wide_try_from T b with
      | None => mismatch_failure expected b
      | Some j => wide_transform T (num_wrapping_add T i j)
      end
  end.

(** [impl Add for Transform]. *)
Definition transform_add (self other : Transform) : Transform :=
  match self, other with
  | a, Identity => a
  | Identity, b => b
  | Failure _, _ => self
  | _, Failure _ => other
  | _, Write _ => other
  | Write v, b =>
      match apply_transform b v with
      | Ok new_value => Write new_value
      | Err error => Failure error
      | Panic => self
      end
  | AddInt32 i, b =>
      match b with
      | AddInt32 j => AddInt32 (num_wrapping_add NI32 i j)
      | AddUInt64 j => AddUInt64 (num_wrapping_add NU64 j (num_wrap NU64 i))
      | AddUInt128 j => AddUInt128 (num_wrapping_add NU128 j (as_ NI32 NU128 i))
      | AddUInt256 j => AddUInt256 (num_wrapping_add NU256 j (as_ NI32 NU256 i))
      | AddUInt512 j => AddUInt512 (num_wrapping_add NU512 j (as_ NI32 NU512 i))
      | other => mismatch_failure (str "AddInt32") other
      end
  | AddUInt64 i, b =>
      match b with
      | AddInt32 j => AddInt32 (num_wrapping_add NI32 j (num_wrap NI32 i))
      | AddUInt64 j => AddUInt64 (num_wrapping_add NU64 i j)
      | AddUInt128 j => AddUInt128 (num_wrapping_add NU128 j i)
      | AddUInt256 j => AddUInt256 (num_wrapping_add NU256 j i)
      | AddUInt512 j => AddUInt512 (num_wrapping_add NU512 j i)
      | other => mismatch_failure (str "AddUInt64") other
      end
  | AddUInt128 i, b => wrapped_transform_addition NU128 i b (str "U128")
  | AddUInt256 i, b => wrapped_transform_addition NU256 i b (str "U256")
  | AddUInt512 i, b => wrapped_transform_addition NU512 i b (str "U512")
  | AddKeys ks1, b =>
      match b with
      | AddKeys ks2 => AddKeys (bt_append ks1 ks2)
      | other => mismatch_failure (str "AddKeys") other
      end
  end.
End transform.

Definition transform_default : Transform := Identity.

(** * Operation kinds *)

Inductive Op := Op_Read | Op_Write | Op_Add | Op_NoOp.

#[global] Instance op_eq_dec : EqDecision Op.
Proof. solve_decision. Defined.

Definition op_add (self other : Op) : Op :=
  match self, other with
  | a, Op_NoOp => a
  | Op_NoOp, b => b
  | Op_Read, Op_Read => Op_Read
  | Op_Add, Op_Add => Op_Add
  | _, _ => Op_Write
  end.

Definition op_default : Op := Op_NoOp.

(** * Additive maps *)

(** [AdditiveMap::insert_add] over [V: AddAssign + Default]. *)
Definition insert_add {K V} `{Countable K} (add : V -> V -> V) (default : V)
    (m : gmap K V) (key : K) (value_to_add : V) : gmap K V :=
  <[ key := add (match m !! key with Some v => v | None => default end) value_to_add ]> m.

(** * Lemmas *)

Definition transform_valid (t : Transform) : Prop :=
  match t with
  | AddInt32 z => num_valid NI32 z
  | AddUInt64 z => num_valid NU64 z
  | AddUInt128 z => num_valid NU128 z
  | AddUInt256 z => num_valid NU256 z
  | AddUInt512 z => num_valid NU512 z
  | AddKeys m => named_keys_valid m
  | Write v => stored_value_valid v
  | Identity | Failure _ => True
  end.

(** The type and the amount of a numeric addition. *)
Definition numeric_part (t : Transform) : option (NumType * Z) :=
  match t with
  | AddInt32 z => Some (NI32, z)
  | AddUInt64 z => Some (NU64, z)
  | AddUInt128 z => Some (NU128, z)
  | AddUInt256 z => Some (NU256, z)
  | AddUInt512 z => Some (NU512, z)
  | _ => None
  end.

(** The type in which the sum of two numeric additions is kept, if it is. *)
Definition sum_type (a b : NumType) : option NumType :=
  match a, b with
  | (NI32 | NU64), t => Some t
  | t, (NI32 | NU64) => Some t
  | NU128, NU128 | NU256, NU256 | NU512, NU512 => Some a
  | _, _ => None
  end.

(** Where the sum is kept in a type [R], nothing the stored value can see is
    lost: [R] holds the sum, or it is at least as wide as the stored type. *)
Definition sum_lossless (a b : Transform) (v : StoredValue) : Prop :=
  match numeric_part a, numeric_part b with
  | Some (ta, i), Some (tb, j) =>
      exists R, sum_type ta tb = Some R /\
        (num_valid R (i + j)
         \/ forall cl X, v = SV_CLValue cl -> num_of_cl_type (cl_type cl) = Some X ->
              num_width X <= num_width R)
  | _, _ => True
  end.

#[global] Instance num_valid_dec t z : Decision (num_valid t z).
Proof. unfold num_valid, is_signed, is_unsigned. destruct (num_signed t); apply _. Defined.

#[global] Instance sum_lossless_dec a b v : Decision (sum_lossless a b v).
Proof.
  unfold sum_lossless. destruct (numeric_part a) as [[ta i]|]; [|left; done].
  destruct (numeric_part b) as [[tb j]|]; [|left; done].
  destruct (sum_type ta tb) as [R|]; [|right; by intros (? & ? & _)].
  destruct (decide (num_valid R (i + j))) as [Hv|Hv]; [left; eauto|].
  destruct v as [cl|?|?]; [|left; exists R; (split; [done|]); by right..].
  destruct (num_of_cl_type (cl_type cl)) as [X|] eqn:EX;
    [|left; exists R; (split; [done|]); right; intros ? ? [= <-]; congruence].
  destruct (decide (num_width X <= num_width R)) as [Hw|Hw]; [left; exists R; split; [done|]; right|right].
  - intros ? ? [= <-]. congruence.
  - intros (? & [= <-] & [?|Hl]); [done|]. by apply Hw, (Hl cl).
Defined.

(** Same stored value, or an error on both sides. *)
Definition agree (r s : outcome TransformError StoredValue) : Prop :=
  match r, s with
  | Ok v, Ok w => v = w
  | Err _, Err _ => True
  | _, _ => False
  end.

Lemma num_of_cl_type_clt X : num_of_cl_type (clt_type (clt_num X)) = Some X.
Proof. by destruct X. Qed.

Lemma clt_num_type t X : num_of_cl_type t = Some X -> t = clt_type (clt_num X).
Proof. destruct t; cbn; try done; by intros [= <-]. Qed.

#[global] Instance clt_num_laws X : CodecLaws (clt_codec (clt_num X)) (num_valid X).
Proof. destruct X; cbn; apply _. Qed.

#[global] Instance clt_num_safe X : CodecSafe (clt_codec (clt_num X)).
Proof.
  intros bs. destruct X; cbn;
    unfold i32_from_bytes, i64_from_bytes, u32_from_bytes, u64_from_bytes, uint_from_bytes,
      u8_from_bytes, safe_split_at; repeat (case_match; cbn [obind]); done.
Qed.

Lemma from_t_num X z :
  num_valid X z ->
  exists v, from_t (clt_num X) z = Ok v /\ num_of_cl_type (cl_type v) = Some X
    /\ into_t (clt_num X) v = Ok z.
Proof.
  intros Hz.
  assert (exists bs, to_bytes (clt_codec (clt_num X)) z = Ok bs) as [bs Hb]
    by (destruct X; cbn; unfold u32_to_bytes; eauto).
  exists (mk_cl_value (clt_type (clt_num X)) bs). unfold from_t, into_t. rewrite Hb. cbn.
  split; [done|]. split; [apply num_of_cl_type_clt|].
  rewrite bool_decide_eq_true_2 by done.
  by rewrite (deserialize_serialize _ (num_valid X) z bs).
Qed.

Section transform_lemmas.
Context {dbg : DebugText}.

Lemma apply_numeric t Y i v :
  numeric_part t = Some (Y, i) -> apply_transform t v = wrapping_addition Y v i.
Proof. destruct t; cbn; try done; by intros [= <- <-]. Qed.

Lemma wrapping_addition_ok Y i v v' :
  wrapping_addition Y v i = Ok v' ->
  exists cl X x, v = SV_CLValue cl /\ num_of_cl_type (cl_type cl) = Some X
    /\ into_t (clt_num X) cl = Ok x.
Proof.
  unfold wrapping_addition. destruct v as [cl|acc|c]; cbn; try done.
  destruct (num_of_cl_type _) as [X|] eqn:E; [|done]. unfold do_wrapping_addition.
  destruct (into_t _ _) as [x|?|] eqn:Ei; cbn; [|done..]. eauto 6.
Qed.

(** A numeric addition replaces the stored number by the sum modulo the stored
    width, whatever the type of the amount. *)
Lemma wrapping_addition_sum Y i cl X x :
  num_valid Y i -> num_of_cl_type (cl_type cl) = Some X -> into_t (clt_num X) cl = Ok x ->
  exists cl', wrapping_addition Y (SV_CLValue cl) i = Ok (SV_CLValue cl')
    /\ from_t (clt_num X) (num_wrap X (x + i)) = Ok cl'.
Proof.
  intros Hi HX Hx. unfold wrapping_addition, do_wrapping_addition. cbn. rewrite HX, Hx. cbn.
  rewrite as_num_wrap by done. unfold num_wrapping_add.
  assert (num_wrap X (x + num_wrap X i) = num_wrap X (x + i)) as ->
    by (by apply num_wrap_add_r).
  destruct (from_t_num X (num_wrap X (x + i)) (num_wrap_valid _ _)) as (cl' & Hc & _).
  rewrite Hc. cbn. eauto.
Qed.

(** The sum of two numeric additions. *)
Lemma transform_add_numeric a b ta i tb j R :
  transform_valid a -> transform_valid b ->
  numeric_part a = Some (ta, i) -> numeric_part b = Some (tb, j) -> sum_type ta tb = Some R ->
  numeric_part (transform_add a b) = Some (R, num_wrap R (i + j)).
Proof.
  intros Ha Hb Ea Eb ER.
  destruct a; cbn in Ea; try done; injection Ea as <- <-;
    destruct b; cbn in Eb; try done; injection Eb as <- <-;
    cbn in ER; try done; injection ER as <-;
    cbn [transform_add wrapped_transform_addition wide_try_from wide_transform numeric_part];
    unfold num_wrapping_add; rewrite ?as_num_wrap by done;
    rewrite ?num_wrap_add_r by done; first [done | rewrite Z.add_comm; done].
Qed.

Lemma bt_append_assoc {K V} `{OrdLaws K} (m1 m2 m3 : BTreeMap K V) :
  bt_wf m1 -> bt_wf m2 -> bt_wf m3 ->
  bt_append m1 (bt_append m2 m3) = bt_append (bt_append m1 m2) m3.
Proof.
  intros. unfold bt_append. apply bt_ext; [auto with casper..|]. intros k.
  rewrite !bt_get_extend by auto with casper. by destruct (bt_get k m3).
Qed.

(** Numeric additions compose. *)
Lemma numeric_compose a b ta i tb j v v' :
  transform_valid a -> transform_valid b ->
  numeric_part a = Some (ta, i) -> numeric_part b = Some (tb, j) ->
  sum_lossless a b v -> apply_transform a v = Ok v' ->
  agree (apply_transform (transform_add a b) v) (apply_transform b v').
Proof.
  intros Ha Hb Ea Eb Hl Hv. unfold sum_lossless in Hl. rewrite Ea, Eb in Hl.
  destruct Hl as (R & ER & Hl).
  assert (num_valid ta i) as Hi by (destruct a; cbn in Ea; try done; by injection Ea as <- <-).
  assert (num_valid tb j) as Hj by (destruct b; cbn in Eb; try done; by injection Eb as <- <-).
  pose proof (transform_add_numeric a b ta i tb j R Ha Hb Ea Eb ER) as Es.
  rewrite (apply_numeric _ _ _ _ Es), (apply_numeric _ _ _ _ Eb).
  rewrite (apply_numeric _ _ _ _ Ea) in Hv.
  destruct (wrapping_addition_ok _ _ _ _ Hv) as (cl & X & x & -> & HX & Hx).
  destruct (wrapping_addition_sum ta i cl X x Hi HX Hx) as (cl1 & E1 & F1).
  rewrite E1 in Hv. injection Hv as <-.
  destruct (from_t_num X (num_wrap X (x + i)) (num_wrap_valid _ _)) as (cl1' & F1' & HX1 & Hx1).
  rewrite F1 in F1'. injection F1' as <-.
  destruct (wrapping_addition_sum tb j cl1 X _ Hj HX1 Hx1) as (cl2 & -> & F2).
  destruct (wrapping_addition_sum R (num_wrap R (i + j)) cl X x (num_wrap_valid _ _) HX Hx)
    as (cl3 & -> & F3).
  cbn. f_equal. enough (Ok (E := CLValueError) cl3 = Ok cl2) by congruence.
  rewrite <- F2, <- F3. f_equal. rewrite num_wrap_add_l by done. destruct Hl as [Hr|Hw].
  - rewrite (num_wrap_small R) by done. f_equal. lia.
  - rewrite num_wrap_add_r by (by apply (Hw cl)). f_equal. lia.
Qed.

Lemma keys_compose ks1 ks2 v v' :
  bt_wf ks1 -> bt_wf ks2 -> stored_value_valid v -> apply_transform (AddKeys ks1) v = Ok v' ->
  agree (apply_transform (AddKeys (bt_append ks1 ks2)) v) (apply_transform (AddKeys ks2) v').
Proof.
  intros H1 H2 Hv. destruct v as [cl|a|c]; cbn; [done| |]; intros [= <-]; cbn; f_equal.
  - destruct Hv as (_ & [Hw _] & _). unfold account_named_keys_append. cbn.
    by rewrite bt_append_assoc.
  - destruct Hv as ([Hw _] & _). unfold contract_named_keys_append. cbn.
    by rewrite bt_append_assoc.
Qed.

Lemma apply_no_panic t v : apply_transform t v <> Panic.
Proof.
  destruct (numeric_part t) as [[Y i]|] eqn:E.
  - rewrite (apply_numeric t Y i v E). unfold wrapping_addition.
    destruct v as [cl|a|c]; cbn; try done. destruct (num_of_cl_type _) as [X|] eqn:EX; [|done].
    unfold do_wrapping_addition. destruct (into_t (clt_num X) cl) as [x|e|] eqn:Ei; cbn; [|done|].
    + destruct (from_t_num X (num_wrapping_add X x (as_ Y X i)) (num_wrap_valid _ _))
        as (cl' & -> & _). done.
    + unfold into_t, deserialize in Ei. destruct (bool_decide _); [|done].
      destruct (from_bytes _ _) as [[? [|? ?]]|?|] eqn:Ef; try done.
      by destruct (clt_num_safe X _ Ef).
  - destruct t; cbn in *; try done. by destruct v.
Qed.

(** Applying a transform keeps stored values well formed. *)
Lemma apply_valid t v v' :
  transform_valid t -> stored_value_valid v -> apply_transform t v = Ok v' -> stored_value_valid v'.
Proof.
  intros Ht Hv. destruct (numeric_part t) as [[Y i]|] eqn:E.
  - rewrite (apply_numeric t Y i v E). intros Ha.
    destruct (wrapping_addition_ok _ _ _ _ Ha) as (cl & X & x & -> & HX & Hx).
    assert (num_valid Y i) as Hi by (destruct t; cbn in E; try done; by injection E as <- <-).
    destruct (wrapping_addition_sum Y i cl X x Hi HX Hx) as (cl' & Ha' & Hf).
    rewrite Ha in Ha'. injection Ha' as ->. cbn. unfold cl_value_valid.
    unfold from_t in Hf. apply obind_ok in Hf as (bs & _ & <-%Ok_inj). by destruct X.
  - destruct t as [|w| | | | | |ks|e]; cbn in *; try done; [by intros [= <-]|by intros [= <-]|].
    destruct v as [cl|a|c]; [done| |]; intros [= <-]; cbn in *.
    + destruct Hv as (? & ? & ?). split; [done|]. split; [|done]. by apply named_keys_valid_append.
    + destruct Hv as [? ?]. split; [|done]. by apply named_keys_valid_append.
Qed.

(** A numeric addition meets a failed addition of keys, and the reverse. *)
Lemma apply_kind_err a b v v' ks :
  (a = AddKeys ks /\ numeric_part b <> None) \/ (b = AddKeys ks /\ numeric_part a <> None) ->
  apply_transform a v = Ok v' -> exists e, apply_transform b v' = Err e.
Proof.
  intros [[-> Hb]|[-> Ha]] Hv.
  - destruct (numeric_part b) as [[Y i]|] eqn:E; [|done]. rewrite (apply_numeric b Y i v' E).
    destruct v as [cl|acc|c]; cbn in Hv; [done| |]; injection Hv as <-;
      unfold wrapping_addition; cbn; eauto.
  - destruct (numeric_part a) as [[Y i]|] eqn:E; [|done]. rewrite (apply_numeric a Y i v E) in Hv.
    unfold wrapping_addition, do_wrapping_addition in Hv. obind_inv. case_step; [|done].
    obind_inv. cbn. eauto.
Qed.
End transform_lemmas.

(** * Properties *)

Section transform_properties.
Context {dbg : DebugText}.

(** The sum of two transforms and the transforms in turn. *)
Lemma transform_add_agree a b v v' :
  transform_valid a -> transform_valid b -> stored_value_valid v -> sum_lossless a b v ->
  apply_transform a v = Ok v' ->
  agree (apply_transform (transform_add a b) v) (apply_transform b v').
Proof.
  intros Ha Hb Hs Hl Hv.
  destruct (numeric_part a) as [[ta i]|] eqn:Ea, (numeric_part b) as [[tb j]|] eqn:Eb.
  - by eapply numeric_compose.
  - destruct b as [|w| | | | | |ks|e]; try done.
    + cbn. replace (transform_add a Identity) with a by (by destruct a). by rewrite Hv.
    + by destruct a.
    + edestruct (apply_kind_err a (AddKeys ks) v v' ks) as [e He]; [by right; rewrite Ea | done |].
      rewrite He. by destruct a.
    + by destruct a.
  - destruct a as [|w| | | | | |ks|e]; try done.
    + cbn in Hv. injection Hv as <-.
      replace (transform_add Identity b) with b by (by destruct b).
      pose proof (apply_no_panic b v). by destruct (apply_transform b v).
    + cbn in Hv. injection Hv as <-. pose proof (apply_no_panic b w) as Hp.
      destruct b; try done; cbn [transform_add]; by destruct (apply_transform _ w).
    + edestruct (apply_kind_err (AddKeys ks) b v v' ks) as [e He]; [by left; rewrite Eb | done |].
      rewrite He. by destruct b.
  - destruct a as [|w| | | | | |ks|e]; try done; destruct b as [|w'| | | | | |ks'|e']; try done.
    all: try (by cbn in *; simplify_eq; try case_match).
    + cbn in Hv. injection Hv as <-. cbn [transform_add].
      pose proof (apply_no_panic (AddKeys ks') w). by destruct (apply_transform _ w).
    + cbn [transform_add]. rewrite Hv. done.
    + destruct Ha, Hb. by eapply keys_compose.
Qed.

(** ** Validity *)

Lemma wide_valid T z : T <> NI32 -> T <> NI64 -> T <> NU8 -> T <> NU32 -> T <> NU64 ->
  transform_valid (wide_transform T (num_wrap T z)).
Proof. destruct T; try done; intros; apply num_wrap_valid. Qed.

Lemma transform_add_valid a b :
  transform_valid a -> transform_valid b -> transform_valid (transform_add a b).
Proof.
  intros Ha Hb. destruct a as [|w| | | | | |ks|e], b as [|w'| | | | | |ks'|e']; cbn [transform_add]; try done.
  all: unfold wrapped_transform_addition; cbn [wide_try_from].
  all: try (apply wide_valid; done).
  all: try (apply num_wrap_valid).
  all: try (match goal with |- context [apply_transform ?t ?u] =>
    pose proof (apply_valid t u) as Hv; destruct (apply_transform t u) end; [by apply Hv|done|done]).
  by apply named_keys_valid_append.
Qed.

(** A number that decodes is in the range of its type. *)
Lemma into_t_num_valid X cl z : into_t (clt_num X) cl = Ok z -> num_valid X z.
Proof.
  unfold into_t, deserialize. case_bool_decide; [|done].
  destruct (from_bytes (clt_codec (clt_num X)) (cl_bytes cl)) as [[z' [|? ?]]|?|] eqn:Ef; try done.
  intros [= ->].
  assert (forall w n, w = 8 * Z.of_nat n -> forall b : bytes, length b = n -> is_unsigned w (from_le_bytes b)) as Hle.
  { intros w n -> b <-. unfold is_unsigned. rewrite Z.pow_mul_r by lia. apply from_le_bytes_range. }
  assert (forall n, uint_from_bytes n (cl_bytes cl) = Ok (z, []) -> is_unsigned (8 * Z.of_nat n) z) as Hu.
  { intros n E. unfold uint_from_bytes in E. obind_inv. destruct (_ >? _) eqn:Eg; [done|]. obind_inv.
    match goal with H : safe_split_at _ _ = _ |- _ => apply safe_split_at_ok in H as [_ Hl] end.
    breflect. pose proof (Hle _ _ eq_refl _ Hl) as [? Hlt]. split; [done|].
    eapply Z.lt_le_trans; [exact Hlt|]. apply Z.pow_le_mono_r; [lia|]. lia. }
  destruct X; cbn in Ef; unfold i32_from_bytes, i64_from_bytes, u32_from_bytes, u64_from_bytes in Ef.
  - obind_inv. by apply wrap_signed_range.
  - obind_inv. by apply wrap_signed_range.
  - destruct (cl_bytes cl); [done|]. injection Ef as <- _. apply byte_to_Z_range.
  - by apply (u32_exact (cl_bytes cl) z []).
  - by apply (u64_exact (cl_bytes cl) z []).
  - by apply (Hu 16%nat).
  - by apply (Hu 32%nat).
  - by apply (Hu 64%nat).
Qed.

(** C39: applying the sum of two transforms agrees with applying one after the
    other, when the first succeeds and the sum of two amounts is kept in a
    type that loses nothing the stored value can see. *)
Theorem transform_add_apply a b v v' :
  transform_valid a -> transform_valid b -> stored_value_valid v -> sum_lossless a b v ->
  apply_transform a v = Ok v' ->
  agree (apply_transform (transform_add a b) v) (apply_transform b v').
Proof. apply transform_add_agree. Qed.

(** The sum of a 64-bit amount and a 32-bit amount is kept in 32 bits: on a
    stored [u64] the sum of the transforms and the transforms in sequence give
    different values. *)
Theorem transform_add_truncates :
  let v := SV_CLValue (mk_cl_value CL_U64 (to_le_bytes 8 0)) in
  let a := AddUInt64 (2 ^ 32) in
  let b := AddInt32 1 in
  apply_transform (transform_add a b) v
    = Ok (SV_CLValue (mk_cl_value CL_U64 (to_le_bytes 8 1)))
  /\ (let? v' := apply_transform a v in apply_transform b v')
    = Ok (SV_CLValue (mk_cl_value CL_U64 (to_le_bytes 8 (2 ^ 32 + 1)))).
Proof. by vm_compute. Qed.

(** Amounts of two different wide types can be added in turn to a stored
    integer, but the sum of the two transforms is a failure: what an execution
    may do to a value cannot be committed as one effect. *)
Theorem transform_add_mixed_widths cl X x i j :
  num_of_cl_type (cl_type cl) = Some X -> into_t (clt_num X) cl = Ok x ->
  num_valid NU128 i -> num_valid NU256 j ->
  let v := SV_CLValue cl in
  (exists v2, (let? v1 := apply_transform (AddUInt128 i) v in apply_transform (AddUInt256 j) v1) = Ok v2)
  /\ exists e, apply_transform (transform_add (AddUInt128 i) (AddUInt256 j)) v = Err e.
Proof.
  intros HX Hx Hi Hj v. split; [|by eexists]. subst v. cbn [apply_transform].
  destruct (wrapping_addition_sum NU128 i cl X x Hi HX Hx) as (cl1 & -> & F1). cbn [obind].
  destruct (from_t_num X (num_wrap X (x + i)) (num_wrap_valid _ _)) as (cl1' & F1' & HX1 & Hx1).
  rewrite F1 in F1'. injection F1' as <-.
  destruct (wrapping_addition_sum NU256 j cl1 X _ Hj HX1 Hx1) as (cl2 & -> & _). by eexists.
Qed.
End transform_properties.
