(* ===== verification/Trie.v ===== *)
(** Merkle trie elements: pointers, pointer blocks, leaves, nodes and
    extensions, and their serialized form.  Sources:
    [engine-storage/src/trie/mod.rs],
    [engine-shared/src/newtypes/mod.rs] (the digest type). *)

From S2P Require Import Prelude BTreeMap Bytesrepr.

Definition BLAKE2B_DIGEST_LENGTH : nat := 32.

(** A digest is its array of bytes. *)
Abbreviation Blake2bHash := (list byte).

Definition blake2b_hash_codec : Codec Blake2bHash := u8_array_codec BLAKE2B_DIGEST_LENGTH.

(** The hash function of the [blake2] crate. *)
Class Hasher := blake2b_hash_new : bytes -> Blake2bHash.

Class HasherLaws `{Hasher} : Prop :=
  blake2b_hash_length : forall data, is_bytes BLAKE2B_DIGEST_LENGTH (blake2b_hash_new data).

(** * Pointers *)

Inductive Pointer :=
| LeafPointer (hash : Blake2bHash)
| NodePointer (hash : Blake2bHash).

#[global] Instance pointer_eq_dec : EqDecision Pointer.
Proof. solve_decision. Defined.

Definition pointer_hash (p : Pointer) : Blake2bHash :=
  match p with LeafPointer hash => hash | NodePointer hash => hash end.

Definition pointer_update (p : Pointer) (hash : Blake2bHash) : Pointer :=
  match p with LeafPointer _ => LeafPointer hash | NodePointer _ => NodePointer hash end.

Definition pointer_tag (p : Pointer) : Z :=
  match p with LeafPointer _ => 0 | NodePointer _ => 1 end.

Definition pointer_to_bytes (p : Pointer) : outcome Error bytes :=
  let? hash_bytes := to_bytes blake2b_hash_codec (pointer_hash p) in
  let? tag := u32_to_bytes (pointer_tag p) in
  Ok (tag ++ hash_bytes).

Definition pointer_from_bytes (bs : bytes) : outcome Error (Pointer * bytes) :=
  let? '(tag, rem) := u32_from_bytes bs in
  if tag =? 0 then
    let? '(hash, rem') := from_bytes blake2b_hash_codec rem in
    Ok (LeafPointer hash, rem')
  else if tag =? 1 then
    let? '(hash, rem') := from_bytes blake2b_hash_codec rem in
    Ok (NodePointer hash, rem')
  else Err FormattingError.

Definition pointer_codec : Codec Pointer := mk_codec pointer_to_bytes pointer_from_bytes.

(** * Pointer blocks *)

Definition RADIX : nat := 256.

(** [[Option<Pointer>; RADIX]]: a list of [RADIX] entries. *)
Abbreviation PointerBlock := (list (option Pointer)).

Definition pointer_block_new : PointerBlock := replicate RADIX None.

(** [block[index]]; an index out of range panics. *)
Definition block_index {E} (b : PointerBlock) (index : nat) : outcome E (option Pointer) :=
  match b !! index with
  | Some o => Ok o
  | None => Panic
  end.

(** [block[index] = Some(pointer)]; an index out of range panics. *)
Definition block_set {E} (b : PointerBlock) (index : nat) (p : Pointer) : outcome E PointerBlock :=
  if (index <? length b)%nat then Ok (<[ index := Some p ]> b) else Panic.

Fixpoint set_pointers {E} (b : PointerBlock) (ps : list (nat * Pointer)) : outcome E PointerBlock :=
  match ps with
  | [] => Ok b
  | (idx, ptr) :: ps' => let? b' := block_set b idx ptr in set_pointers b' ps'
  end.

Definition from_indexed_pointers {E} (ps : list (nat * Pointer)) : outcome E PointerBlock :=
  set_pointers pointer_block_new ps.

(** [size_of::<Option<Pointer>>()]: the tag and 32 bytes. *)
Definition SIZE_OF_OPTION_POINTER : Z := 33.

Definition pointer_block_codec : Codec PointerBlock :=
  array_codec SIZE_OF_OPTION_POINTER RADIX (option_codec pointer_codec).

(** * Tries *)

Inductive Trie (K V : Type) :=
| Leaf (key : K) (value : V)
| Node (pointer_block : PointerBlock)
| Extension (affix : bytes) (pointer : Pointer).

Arguments Leaf {K V}.
Arguments Node {K V}.
Arguments Extension {K V}.

#[global] Instance trie_eq_dec {K V} `{EqDecision K, EqDecision V} : EqDecision (Trie K V).
Proof. solve_decision. Defined.

(** A parent is a child index and a node or an extension. *)
Definition Parents (K V : Type) : Type := list (byte * Trie K V).

Section trie.
Context {K V : Type}.

Definition trie_tag (t : Trie K V) : Z :=
  match t with
  | Leaf _ _ => 0
  | Node _ => 1
  | Extension _ _ => 2
  end.

Definition trie_node {E} (indexed_pointers : list (nat * Pointer)) : outcome E (Trie K V) :=
  let? pointer_block := from_indexed_pointers indexed_pointers in
  Ok (Node pointer_block).

Definition trie_extension (affix : bytes) (pointer : Pointer) : Trie K V := Extension affix pointer.

Definition trie_key (t : Trie K V) : option K :=
  match t with Leaf key _ => Some key | _ => None end.

Context (ck : Codec K) (cv : Codec V).

Definition trie_to_bytes (t : Trie K V) : outcome Error bytes :=
  match t with
  | Leaf key value =>
      let? key_bytes := to_bytes ck key in
      let? value_bytes := to_bytes cv value in
      if zlen key_bytes + zlen value_bytes >? u32_max - U32_SERIALIZED_LENGTH
      then Err OutOfMemoryError
      else
        let? tag := u32_to_bytes (trie_tag t) in
        Ok (tag ++ key_bytes ++ value_bytes)
  | Node pointer_block =>
      let? pointer_block_bytes := to_bytes pointer_block_codec pointer_block in
      let? tag := u32_to_bytes (trie_tag t) in
      Ok (tag ++ pointer_block_bytes)
  | Extension affix pointer =>
      let? affix_bytes := vec_u8_to_bytes affix in
      let? pointer_bytes := pointer_to_bytes pointer in
      if zlen affix_bytes + zlen pointer_bytes >? u32_max - U32_SERIALIZED_LENGTH
      then Err OutOfMemoryError
      else
        let? tag := u32_to_bytes (trie_tag t) in
        Ok (tag ++ affix_bytes ++ pointer_bytes)
  end.

Definition trie_from_bytes (bs : bytes) : outcome Error (Trie K V * bytes) :=
  let? '(tag, rem) := u32_from_bytes bs in
  if tag =? 0 then
    let? '(key, rem1) := from_bytes ck rem in
    let? '(value, rem2) := from_bytes cv rem1 in
    Ok (Leaf key value, rem2)
  else if tag =? 1 then
    let? '(pointer_block, rem1) := from_bytes pointer_block_codec rem in
    Ok (Node pointer_block, rem1)
  else if tag =? 2 then
    let? '(affix, rem1) := vec_u8_from_bytes rem in
    let? '(pointer, rem2) := pointer_from_bytes rem1 in
    Ok (Extension affix pointer, rem2)
  else Err FormattingError.

Definition trie_codec : Codec (Trie K V) := mk_codec trie_to_bytes trie_from_bytes.

Definition create_hashed_empty_trie `{Hasher} : outcome Error (Blake2bHash * Trie K V) :=
  let root := Node pointer_block_new in
  let? root_bytes := trie_to_bytes root in
  Ok (blake2b_hash_new root_bytes, root).
End trie.

(** * Lemmas *)

Definition pointer_valid (p : Pointer) : Prop := is_bytes BLAKE2B_DIGEST_LENGTH (pointer_hash p).

Definition block_valid (b : PointerBlock) : Prop :=
  length b = RADIX /\ Forall (option_valid pointer_valid) b.

#[global] Instance pointer_laws : CodecLaws pointer_codec pointer_valid.
Proof.
  intros [h|h] bs rest Hv H; cbn in H; apply Ok_inj in H as <-; cbn [from_bytes pointer_codec];
    unfold pointer_from_bytes; rewrite <- app_assoc, u32_prefix by (by vm_compute);
    cbn [obind Z.eqb pointer_tag]; unfold pointer_valid in Hv; cbn [pointer_hash] in Hv;
    unfold blake2b_hash_codec; by rewrite (u8_array_laws BLAKE2B_DIGEST_LENGTH h h rest Hv eq_refl).
Qed.

#[global] Instance pointer_block_laws : CodecLaws pointer_block_codec block_valid.
Proof. apply array_laws; [apply _ | unfold RADIX, u32_max; lia]. Qed.

Definition trie_valid {K V} (vk : K -> Prop) (vv : V -> Prop) (t : Trie K V) : Prop :=
  match t with
  | Leaf k v => vk k /\ vv v
  | Node b => block_valid b
  | Extension _ p => pointer_valid p
  end.

Section trie_laws.
Context {K V : Type} (ck : Codec K) (cv : Codec V) (vk : K -> Prop) (vv : V -> Prop).
Context {lk : CodecLaws ck vk} {lv : CodecLaws cv vv}.

#[global] Instance trie_laws : CodecLaws (trie_codec ck cv) (trie_valid vk vv).
Proof.
  intros [k v|b|a p] bs rest Hv H; cbn in Hv; cbn [to_bytes trie_codec trie_to_bytes trie_tag] in H;
    cbn [from_bytes trie_codec].
  - apply obind_ok in H as (kb & Hk & H). apply obind_ok in H as (vb & Hvb & H).
    destruct (_ >? _); [done|]. cbn in H. apply Ok_inj in H as <-.
    unfold trie_from_bytes. rewrite <- !app_assoc, u32_prefix by done. cbn [obind Z.eqb].
    destruct Hv as [Vk Vv].
    rewrite (codec_roundtrip k kb _ Vk Hk). cbn [obind].
    by rewrite (codec_roundtrip v vb _ Vv Hvb).
  - apply obind_ok in H as (bb & Hb & H). cbn in H. apply Ok_inj in H as <-.
    unfold trie_from_bytes. rewrite <- !app_assoc, u32_prefix by done. cbn [obind Z.eqb Pos.eqb].
    by rewrite (pointer_block_laws b bb rest Hv Hb).
  - apply obind_ok in H as (ab & Ha & H). apply obind_ok in H as (pb & Hp & H).
    destruct (_ >? _); [done|]. cbn in H. apply Ok_inj in H as <-.
    unfold trie_from_bytes. rewrite <- !app_assoc, u32_prefix by done. cbn [obind Z.eqb Pos.eqb].
    pose proof (vec_u8_laws a ab (pb ++ rest) I Ha) as E1. cbn in E1. rewrite E1. cbn [obind].
    pose proof (pointer_laws p pb rest Hv Hp) as E2. cbn in E2. by rewrite E2.
Qed.
End trie_laws.
