(* ===== verification/TrieStore.v ===== *)
(** Transactions over key-value stores, the store of trie elements at their
    hashes, and the operations on tries kept in it: [read], [scan], [rehash],
    [write] and [keys].  Sources:
    [engine-storage/src/transaction_source/mod.rs], [store/mod.rs],
    [store/store_ext.rs], [trie_store/operations/mod.rs]. *)

From S2P Require Import Prelude BTreeMap Bytesrepr Trie.

(** * Transactions *)

(** [Readable] and [Writable] with their error and handle types. *)
Class Transaction (T H TE : Type) := {
  txn_read : T -> H -> bytes -> outcome TE (option bytes);
  txn_write : T -> H -> bytes -> bytes -> outcome TE T;
}.

(** What the stores rely on: a write is read back and touches nothing else. *)
Class TransactionLaws (T H TE : Type) `{Transaction T H TE} : Prop := {
  txn_read_written : forall t t' h k v,
    txn_write t h k v = Ok t' -> txn_read t' h k = Ok (Some v);
  txn_read_other : forall t t' h k v h' k',
    txn_write t h k v = Ok t' -> (h', k') <> (h, k) -> txn_read t' h' k' = txn_read t h' k';
  txn_write_safe : forall t h k v, txn_write t h k v <> Panic;
}.

(** A transaction whose writes never fail. *)
Class TransactionTotal (T H TE : Type) `{Transaction T H TE} : Prop :=
  txn_write_total : forall t h k v, exists t', txn_write t h k v = Ok t'.

(** [Store::Error: From<bytesrepr::Error> + From<T::Error>]. *)
Inductive StoreError (TE : Type) :=
| SE_BytesRepr (e : Bytesrepr.Error)
| SE_Transaction (e : TE).

Arguments SE_BytesRepr {TE}.
Arguments SE_Transaction {TE}.

(** * Stores *)

Section store.
Context {T H TE : Type} `{Transaction T H TE}.
Context {A B : Type} (ca : Codec A) (cb : Codec B) (handle : H).

Definition store_get (txn : T) (key : A) : outcome (StoreError TE) (option B) :=
  let? key_bytes := omap_err SE_BytesRepr (to_bytes ca key) in
  let? found := omap_err SE_Transaction (txn_read txn handle key_bytes) in
  match found with
  | None => Ok None
  | Some value_bytes =>
      let? value := omap_err SE_BytesRepr (deserialize cb value_bytes) in
      Ok (Some value)
  end.

Definition store_put (txn : T) (key : A) (value : B) : outcome (StoreError TE) T :=
  let? key_bytes := omap_err SE_BytesRepr (to_bytes ca key) in
  let? value_bytes := omap_err SE_BytesRepr (to_bytes cb value) in
  omap_err SE_Transaction (txn_write txn handle key_bytes value_bytes).

Definition get_many (txn : T) (keys : list A) : outcome (StoreError TE) (list (option B)) :=
  try_collect (store_get txn) keys.

Fixpoint put_many (txn : T) (pairs : list (A * B)) : outcome (StoreError TE) T :=
  match pairs with
  | [] => Ok txn
  | (key, value) :: pairs' => let? txn' := store_put txn key value in put_many txn' pairs'
  end.
End store.

(** * Operations on tries *)

Inductive ReadResult (V : Type) :=
| Found (value : V)
| NotFound
| RootNotFound.

Arguments Found {V}.
Arguments NotFound {V}.
Arguments RootNotFound {V}.

Inductive WriteResult :=
| Written (root : Blake2bHash)
| AlreadyExists
| WriteRootNotFound.

Record TrieScan (K V : Type) := mk_trie_scan { scan_tip : Trie K V; scan_parents : Parents K V }.

Arguments mk_trie_scan {K V}.
Arguments scan_tip {K V}.
Arguments scan_parents {K V}.

(** [usize::from(b)]. *)
Definition byte_index (b : byte) : nat := Z.to_nat (byte_to_Z b).

(** [path[i]]; panics out of range. *)
Definition index_or_panic {E A} (l : list A) (i : nat) : outcome E A :=
  match l !! i with
  | Some a => Ok a
  | None => Panic
  end.

(** [path[from..to]]; panics out of range. *)
Definition slice {E A} (l : list A) (from to : nat) : outcome E (list A) :=
  if (from <=? to)%nat && (to <=? length l)%nat then Ok (take (to - from) (drop from l)) else Panic.

Fixpoint common_prefix {A} `{EqDecision A} (ls rs : list A) : list A :=
  match ls, rs with
  | l :: ls', r :: rs' => if decide (l = r) then l :: common_prefix ls' rs' else []
  | _, _ => []
  end.

Fixpoint get_parents_path {K V} (parents : Parents K V) : bytes :=
  match parents with
  | [] => []
  | (index, element) :: parents' =>
      match element with
      | Extension affix _ => affix ++ get_parents_path parents'
      | _ => index :: get_parents_path parents'
      end
  end.

(** [Vec::pop]. *)
Definition vec_pop {A} (l : list A) : option (A * list A) :=
  match rev l with
  | [] => None
  | z :: r => Some (z, rev r)
  end.

Section operations.
Context {T H TE : Type} `{Transaction T H TE} {hasher : Hasher}.
Context {K V : Type} `{EqDecision K, EqDecision V} (ck : Codec K) (cv : Codec V) (handle : H).

Let SE := StoreError TE.

(** [TrieStore<K, V>: Store<Blake2bHash, Trie<K, V>>]. *)
Definition trie_store_get (txn : T) (hash : Blake2bHash) : outcome SE (option (Trie K V)) :=
  store_get blake2b_hash_codec (trie_codec ck cv) handle txn hash.

Definition trie_store_put (txn : T) (hash : Blake2bHash) (t : Trie K V) : outcome SE T :=
  store_put blake2b_hash_codec (trie_codec ck cv) handle txn hash t.

(** The body of the loop of [read]; it stops at a leaf, at an empty slot or
    at an affix that differs.  [fuel] bounds the number of elements visited. *)
Fixpoint read_loop (fuel : nat) (txn : T) (key : K) (path : bytes) (depth : nat)
    (current : Trie K V) : outcome SE (ReadResult V) :=
  match fuel with
  | O => Panic
  | S fuel' =>
      match current with
      | Leaf leaf_key leaf_value =>
          Ok (if decide (key = leaf_key) then Found leaf_value else NotFound)
      | Node pointer_block =>
          let? index := index_or_panic path depth in
          let? maybe_pointer := block_index pointer_block (byte_index index) in
          match maybe_pointer with
          | Some pointer =>
              let? next := trie_store_get txn (pointer_hash pointer) in
              match next with
              | Some next => read_loop fuel' txn key path (depth + 1) next
              | None => Panic
              end
          | None => Ok NotFound
          end
      | Extension affix pointer =>
          let? sub_path := slice path depth (depth + length affix) in
          if decide (sub_path = affix) then
            let? next := trie_store_get txn (pointer_hash pointer) in
            match next with
            | Some next => read_loop fuel' txn key path (depth + length affix) next
            | None => Panic
            end
          else Ok NotFound
      end
  end.

Definition read (fuel : nat) (txn : T) (root : Blake2bHash) (key : K) : outcome SE (ReadResult V) :=
  let? path := omap_err SE_BytesRepr (to_bytes ck key) in
  let? current := trie_store_get txn root in
  match current with
  | Some root => read_loop fuel txn key path 0 root
  | None => Ok RootNotFound
  end.

Fixpoint scan_loop (fuel : nat) (txn : T) (path : bytes) (depth : nat) (acc : Parents K V)
    (current : Trie K V) : outcome SE (TrieScan K V) :=
  match fuel with
  | O => Panic
  | S fuel' =>
      match current with
      | Leaf _ _ => Ok (mk_trie_scan current acc)
      | Node pointer_block =>
          let? index := index_or_panic path depth in
          let? maybe_pointer := block_index pointer_block (byte_index index) in
          match maybe_pointer with
          | None => Ok (mk_trie_scan (Node pointer_block) acc)
          | Some pointer =>
              let? next := trie_store_get txn (pointer_hash pointer) in
              match next with
              | Some next =>
                  scan_loop fuel' txn path (depth + 1) (acc ++ [(index, Node pointer_block)]) next
              | None => Panic
              end
          end
      | Extension affix pointer =>
          let? sub_path := slice path depth (depth + length affix) in
          if decide (sub_path = affix) then
            let? next := trie_store_get txn (pointer_hash pointer) in
            match next with
            | Some next =>
                let? index := index_or_panic path depth in
                scan_loop fuel' txn path (depth + length affix)
                  (acc ++ [(index, Extension affix pointer)]) next
            | None => Panic
            end
          else Ok (mk_trie_scan (Extension affix pointer) acc)
      end
  end.

Definition scan (fuel : nat) (txn : T) (key_bytes : bytes) (root : Trie K V)
    : outcome SE (TrieScan K V) :=
  scan_loop fuel txn key_bytes 0 [] root.

(** [Blake2bHash::new(&t.to_bytes()?)]. *)
Definition trie_hash (t : Trie K V) : outcome Bytesrepr.Error Blake2bHash :=
  let? bs := trie_to_bytes ck cv t in Ok (blake2b_hash_new bs).

(** The loop of [rehash], from the deepest parent to the root. *)
Fixpoint rehash_loop (tip : Trie K V) (tip_hash : Blake2bHash) (parents_rev : Parents K V)
    (ret : list (Blake2bHash * Trie K V))
    : outcome Bytesrepr.Error (list (Blake2bHash * Trie K V)) :=
  match parents_rev with
  | [] => Ok ret
  | (index, parent) :: rest =>
      match parent with
      | Leaf _ _ => Panic
      | Node pointer_block =>
          let pointer :=
            match tip with
            | Leaf _ _ => LeafPointer tip_hash
            | Node _ => NodePointer tip_hash
            | Extension _ _ => NodePointer tip_hash
            end in
          let? pointer_block' := block_set pointer_block (byte_index index) pointer in
          let tip' := Node pointer_block' in
          let? tip_hash' := trie_hash tip' in
          rehash_loop tip' tip_hash' rest (ret ++ [(tip_hash', tip')])
      | Extension affix pointer =>
          let tip' := Extension affix (pointer_update pointer tip_hash) in
          let? tip_hash' := trie_hash tip' in
          rehash_loop tip' tip_hash' rest (ret ++ [(tip_hash', tip')])
      end
  end.

Definition rehash (tip : Trie K V) (parents : Parents K V)
    : outcome Bytesrepr.Error (list (Blake2bHash * Trie K V)) :=
  let? tip_hash := trie_hash tip in
  rehash_loop tip tip_hash (rev parents) [(tip_hash, tip)].

Definition add_node_to_parents (path_to_leaf : bytes) (new_parent_node : Trie K V)
    (parents : Parents K V) : outcome Bytesrepr.Error (Parents K V) :=
  match new_parent_node with
  | Node _ =>
      let path_to_node := get_parents_path parents in
      let current_path := common_prefix path_to_leaf path_to_node in
      let? _ := oassert (bool_decide (current_path = path_to_node)) in
      let depth := length path_to_node in
      let? index := index_or_panic path_to_leaf depth in
      Ok (parents ++ [(index, new_parent_node)])
  | _ => Panic
  end.

Definition reparent_leaf (new_leaf_path existing_leaf_path : bytes) (parents : Parents K V)
    : outcome Bytesrepr.Error (Trie K V * Parents K V) :=
  match vec_pop parents with
  | None => Panic
  | Some ((child_index, parent), parents') =>
      match parent with
      | Node pointer_block =>
          let shared_path := common_prefix new_leaf_path existing_leaf_path in
          let? index := index_or_panic existing_leaf_path (length shared_path) in
          let? maybe_pointer := block_index pointer_block (byte_index child_index) in
          match maybe_pointer with
          | None => Panic
          | Some existing_leaf_pointer =>
              let? new_node := trie_node [(byte_index index, existing_leaf_pointer)] in
              let parents1 := parents' ++ [(child_index, Node pointer_block)] in
              let parents_path := get_parents_path parents1 in
              let? affix := slice shared_path (length parents_path) (length shared_path) in
              if bool_decide (affix = []) then Ok (new_node, parents1)
              else
                let? new_node_hash := trie_hash new_node in
                let new_extension := trie_extension affix (NodePointer new_node_hash) in
                Ok (new_node, parents1 ++ [(child_index, new_extension)])
          end
      | _ => Panic
      end
  end.

Record SplitResult := mk_split_result {
  split_new_node : Trie K V;
  split_parents : Parents K V;
  maybe_hashed_child_extension : option (Blake2bHash * Trie K V);
}.

Definition split_extension (new_leaf_path : bytes) (existing_extension : Trie K V)
    (parents : Parents K V) : outcome Bytesrepr.Error SplitResult :=
  match existing_extension with
  | Extension affix pointer =>
      let parents_path := get_parents_path parents in
      let existing_extension_path := parents_path ++ affix in
      let shared_path := common_prefix new_leaf_path existing_extension_path in
      let? parent_extension_affix :=
        slice shared_path (length parents_path) (length shared_path) in
      let? child_extension_affix :=
        slice affix (length parent_extension_affix + 1) (length affix) in
      let? maybe_child :=
        if bool_decide (child_extension_affix = []) then Ok None
        else
          let child_extension := trie_extension child_extension_affix pointer in
          let? child_extension_hash := trie_hash child_extension in
          Ok (Some (child_extension_hash, child_extension)) in
      let? index := index_or_panic existing_extension_path (length shared_path) in
      let pointer' := match maybe_child with Some (hash, _) => NodePointer hash | None => pointer end in
      let? new_node := trie_node [(byte_index index, pointer')] in
      match parent_extension_affix with
      | [] => Ok (mk_split_result new_node parents maybe_child)
      | first :: _ =>
          let? new_node_hash := trie_hash new_node in
          let parent_extension := trie_extension parent_extension_affix (NodePointer new_node_hash) in
          Ok (mk_split_result new_node (parents ++ [(first, parent_extension)]) maybe_child)
      end
  | _ => Panic
  end.

(** The match of [write] on the tip of the scan: the elements to store, the
    new root last. *)
Definition new_elements (path : bytes) (key : K) (value : V) (tip : Trie K V) (parents : Parents K V)
    : outcome Bytesrepr.Error (list (Blake2bHash * Trie K V)) :=
  let new_leaf := Leaf key value in
  match tip with
  | Leaf leaf_key leaf_value =>
      if decide (new_leaf = tip) then Ok []
      else if decide (key = leaf_key /\ value <> leaf_value) then rehash new_leaf parents
      else if decide (key <> leaf_key) then
        let? existing_leaf_path := to_bytes ck leaf_key in
        let? '(new_node, parents1) := reparent_leaf path existing_leaf_path parents in
        let? parents2 := add_node_to_parents path new_node parents1 in
        rehash new_leaf parents2
      else Panic
  | Node _ =>
      let? parents1 := add_node_to_parents path tip parents in
      rehash new_leaf parents1
  | Extension _ _ =>
      let? split := split_extension path tip parents in
      let? parents1 := add_node_to_parents path (split_new_node split) (split_parents split) in
      match maybe_hashed_child_extension split with
      | Some hashed_extension =>
          let? ret := rehash new_leaf parents1 in
          Ok (hashed_extension :: ret)
      | None => rehash new_leaf parents1
      end
  end.

(** The loop that stores the new elements; the last hash is the new root. *)
Fixpoint put_elements (txn : T) (root_hash : Blake2bHash) (l : list (Blake2bHash * Trie K V))
    : outcome SE (T * Blake2bHash) :=
  match l with
  | [] => Ok (txn, root_hash)
  | (hash, element) :: l' =>
      let? txn' := trie_store_put txn hash element in
      put_elements txn' hash l'
  end.

Definition write (fuel : nat) (txn : T) (root : Blake2bHash) (key : K) (value : V)
    : outcome SE (T * WriteResult) :=
  let? found := trie_store_get txn root in
  match found with
  | None => Ok (txn, WriteRootNotFound)
  | Some current_root =>
      let? path := omap_err SE_BytesRepr (to_bytes ck key) in
      let? sc := scan fuel txn path current_root in
      let? elements :=
        omap_err SE_BytesRepr (new_elements path key value (scan_tip sc) (scan_parents sc)) in
      match elements with
      | [] => Ok (txn, AlreadyExists)
      | _ =>
          let? '(txn', root_hash) := put_elements txn root elements in
          Ok (txn', Written root_hash)
      end
  end.

(** The first occupied slot of a block at or after [index]. *)
Fixpoint next_slot (n : nat) (b : PointerBlock) (index : nat) : option (nat * Pointer) :=
  match n with
  | O => None
  | S n' =>
      match b !! index with
      | Some (Some pointer) => Some (index, pointer)
      | _ => next_slot n' b (S index)
      end
  end.

(** The loop of [keys] over its stack of visited elements, the top first. *)
Fixpoint keys_loop (fuel : nat) (txn : T) (visited : list (Trie K V * option nat * bytes))
    (ret : list K) : outcome SE (list K) :=
  match visited with
  | [] => Ok ret
  | (trie, maybe_index, path) :: visited' =>
      match fuel with
      | O => Panic
      | S fuel' =>
          match trie with
          | Leaf key _ =>
              let? key_bytes := omap_err SE_BytesRepr (to_bytes ck key) in
              let? _ := oassert (bool_decide (take (length path) key_bytes = path)) in
              keys_loop fuel' txn visited' (ret ++ [key])
          | Node pointer_block =>
              let index := match maybe_index with Some i => i | None => O end in
              match next_slot (RADIX - index) pointer_block index with
              | Some (index', pointer) =>
                  let? next := trie_store_get txn (pointer_hash pointer) in
                  match next with
                  | Some next_trie =>
                      keys_loop fuel' txn
                        ((next_trie, None, path ++ [byte_of_Z (Z.of_nat index')])
                          :: (trie, Some (S index'), path) :: visited') ret
                  | None => Panic
                  end
              | None => keys_loop fuel' txn visited' ret
              end
          | Extension affix pointer =>
              let? next := trie_store_get txn (pointer_hash pointer) in
              match next with
              | Some (Node b) => keys_loop fuel' txn ((Node b, None, path ++ affix) :: visited') ret
              | _ => Panic
              end
          end
      end
  end.

Definition keys (fuel : nat) (txn : T) (root : Blake2bHash) : outcome SE (list K) :=
  let? found := trie_store_get txn root in
  match found with
  | None => Ok []
  | Some current_root => keys_loop fuel txn [(current_root, None, [])] []
  end.
End operations.

Arguments mk_split_result {K V}.
Arguments split_new_node {K V}.
Arguments split_parents {K V}.
Arguments maybe_hashed_child_extension {K V}.
