(* ===== verification/TrieSpec.v ===== *)
(** Well-formed tries, the finite map a root denotes, and the correctness of
    [read] and [write] (in [TrieStore]) against that map. *)

From S2P Require Import Prelude BTreeMap Bytesrepr Trie TrieStore.

(** * Lemmas on paths *)

Lemma byte_index_inj a b : byte_index a = byte_index b -> a = b.
Proof.
  unfold byte_index. intros E. apply byte_to_Z_inj.
  pose proof (byte_to_Z_range a). pose proof (byte_to_Z_range b). lia.
Qed.

Lemma byte_index_lt b : (byte_index b < RADIX)%nat.
Proof. unfold byte_index, RADIX. pose proof (byte_to_Z_range b). lia. Qed.

Lemma index_or_panic_app {E A} (l1 l2 : list A) a :
  index_or_panic (E := E) (l1 ++ a :: l2) (length l1) = Ok a.
Proof. unfold index_or_panic. by rewrite list_lookup_middle. Qed.

Lemma slice_app {E A} (l1 l2 l3 : list A) n :
  n = (length l1 + length l2)%nat ->
  slice (E := E) (l1 ++ l2 ++ l3) (length l1) n = Ok l2.
Proof.
  intros ->. unfold slice. rewrite !length_app.
  rewrite (proj2 (Nat.leb_le _ _)), (proj2 (Nat.leb_le _ _)) by lia. cbn.
  rewrite drop_app_length. f_equal.
  replace (length l1 + length l2 - length l1)%nat with (length l2) by lia. apply take_app_length.
Qed.

(** [&path[n..]] of a list that is cut to its end. *)
Lemma slice_tail {E A} (l1 l2 : list A) :
  slice (E := E) (l1 ++ l2) (length l1) (length (l1 ++ l2)) = Ok l2.
Proof.
  rewrite <- (app_nil_r l2) at 1. apply slice_app. by rewrite length_app.
Qed.

Section common_prefix.
Context {A : Type} `{EqDecision A}.
Implicit Types l r p : list A.

Lemma common_prefix_app p l r : common_prefix (p ++ l) (p ++ r) = p ++ common_prefix l r.
Proof. induction p as [|a p IH]; cbn; [done|]. rewrite decide_True by done. by rewrite IH. Qed.

Lemma common_prefix_l p l : common_prefix (p ++ l) p = p.
Proof. rewrite <- (app_nil_r p) at 2. rewrite common_prefix_app. destruct l; cbn; apply app_nil_r. Qed.

(** Two lists agree up to their common prefix and differ after it, unless one
    of them ends there. *)
Lemma common_prefix_split l r :
  exists l' r', l = common_prefix l r ++ l' /\ r = common_prefix l r ++ r'
    /\ (l' = [] \/ r' = [] \/ exists a b l2 r2, l' = a :: l2 /\ r' = b :: r2 /\ a <> b).
Proof.
  revert r. induction l as [|a l IH]; intros [|b r]; cbn.
  - exists [], []. eauto.
  - exists [], (b :: r). eauto.
  - exists (a :: l), []. eauto.
  - destruct (decide (a = b)) as [->|Hne].
    + destruct (IH r) as (l' & r' & E1 & E2 & D). exists l', r'. cbn.
      rewrite <- E1, <- E2. eauto.
    + exists (a :: l), (b :: r). split; [done|]. split; [done|]. right. right. eauto 8.
Qed.
End common_prefix.

Lemma get_parents_path_app {K V} (ps qs : Parents K V) :
  get_parents_path (ps ++ qs) = get_parents_path ps ++ get_parents_path qs.
Proof.
  induction ps as [|[i [k v|b|a p]] ps IH]; cbn; [done|..]; rewrite IH; [done..|].
  by rewrite app_assoc.
Qed.

Lemma vec_pop_app {A} (l : list A) z : vec_pop (l ++ [z]) = Some (z, l).
Proof. unfold vec_pop. rewrite rev_app_distr. cbn. by rewrite rev_involutive. Qed.

(** * Well-formed tries *)

(** What a key type provides to a trie: a non-empty serialized form whose
    size is no obstacle, and no key so short that a path shared by two other
    keys could run past its end. *)
Class TrieKey {K} (ck : Codec K) (vk : K -> Prop) : Prop := {
  trie_key_bytes : forall k, vk k ->
    exists bs, to_bytes ck k = Ok bs /\ bs <> [] /\ zlen bs < 2 ^ 31;
  trie_key_shared : forall k1 k2 k3 b x1 x2 x3 p,
    vk k1 -> vk k2 -> vk k3 -> k1 <> k2 ->
    to_bytes ck k1 = Ok (b :: p ++ x1) -> to_bytes ck k2 = Ok (b :: p ++ x2) ->
    to_bytes ck k3 = Ok (b :: x3) -> (length p <= length x3)%nat;
}.

Section spec.
Context {T H TE : Type} `{TransactionLaws T H TE} {hasher : Hasher} {hl : HasherLaws}.
Context {K V : Type} `{EqDecision K, EqDecision V} (ck : Codec K) (cv : Codec V) (handle : H).
Context (vk : K -> Prop) (vv : V -> Prop).
Context {lk : CodecLaws ck vk} {lv : CodecLaws cv vv} {tk : TrieKey ck vk}.
Implicit Types (t : T) (p q : bytes) (k : K) (v : V) (tr c : Trie K V).

(** The element stored at a hash. *)
Definition at_hash t (h : Blake2bHash) (tr : Trie K V) : Prop :=
  trie_store_get ck cv handle t h = Ok (Some tr).

(** A valid key whose path starts with [p]. *)
Definition key_under p k bs : Prop := vk k /\ to_bytes ck k = Ok bs /\ exists x, bs = p ++ x.

(** Every key that arrives at a node has a byte left to choose the slot, and
    every key that arrives at an extension is long enough to be compared. *)
Definition node_safe p : Prop := forall k bs, key_under p k bs -> (length p < length bs)%nat.

Definition extension_safe p (affix : bytes) : Prop :=
  forall k bs, key_under p k bs -> (length p + length affix <= length bs)%nat.

Definition pointer_matches (ptr : Pointer) (tr : Trie K V) : Prop :=
  match ptr, tr with
  | LeafPointer _, Leaf _ _ => True
  | NodePointer _, (Node _ | Extension _ _) => True
  | _, _ => False
  end.

(** [pb[b]] is a pointer. *)
Definition slot (pb : PointerBlock) (b : byte) (ptr : Pointer) : Prop :=
  pb !! byte_index b = Some (Some ptr).

Inductive trie_wf t : bytes -> Trie K V -> Prop :=
| wf_leaf p k v bs :
    vv v -> key_under p k bs -> trie_wf t p (Leaf k v)
| wf_node p pb (child : byte -> Trie K V) :
    block_valid pb -> node_safe p ->
    (forall b ptr, slot pb b ptr ->
       at_hash t (pointer_hash ptr) (child b) /\ pointer_matches ptr (child b)) ->
    (forall b ptr, slot pb b ptr -> trie_wf t (p ++ [b]) (child b)) ->
    trie_wf t p (Node pb)
| wf_extension p affix h pb :
    affix <> [] -> is_bytes BLAKE2B_DIGEST_LENGTH h -> zlen affix < 2 ^ 31 ->
    extension_safe p affix ->
    at_hash t h (Node pb) -> trie_wf t (p ++ affix) (Node pb) ->
    trie_wf t p (Extension affix (NodePointer h)).

(** The leaf for [k] and [v] is below an element: the map the element denotes. *)
Inductive leaf_in t : Trie K V -> K -> V -> Prop :=
| in_leaf k v : leaf_in t (Leaf k v) k v
| in_node pb b ptr c k v :
    slot pb b ptr -> at_hash t (pointer_hash ptr) c -> leaf_in t c k v -> leaf_in t (Node pb) k v
| in_extension affix ptr c k v :
    at_hash t (pointer_hash ptr) c -> leaf_in t c k v -> leaf_in t (Extension affix ptr) k v.

(** A root of a trie: a stored, well-formed node. *)
Definition root_wf t (root : Blake2bHash) : Prop :=
  exists pb, at_hash t root (Node pb) /\ trie_wf t [] (Node pb).

(** The map denoted by a root. *)
Definition value_at t (root : Blake2bHash) k v : Prop :=
  exists tr, at_hash t root tr /\ leaf_in t tr k v.

Definition store_le t t' : Prop := forall h tr, at_hash t h tr -> at_hash t' h tr.

Lemma at_hash_fun t h tr1 tr2 : at_hash t h tr1 -> at_hash t h tr2 -> tr1 = tr2.
Proof. unfold at_hash. congruence. Qed.

(** ** The map of an element *)

(** Leaves below an element lie on the path of the element. *)
Lemma leaf_in_under t p tr k v : trie_wf t p tr -> leaf_in t tr k v -> exists bs, key_under p k bs.
Proof.
  intros Hwf. revert k v.
  induction Hwf as [p k0 v0 bs Hv Hu|p pb child Hb Hn Hc _ IH|p affix h pb Ha Hh Hz He Hat _ IH];
    intros k v Hl.
  - inversion Hl; subst. eauto.
  - inversion Hl as [|? b ptr c ? ? Hs Hat Hl'|]; subst.
    destruct (Hc b ptr Hs) as [Hc' _]. rewrite (at_hash_fun _ _ _ _ Hat Hc') in Hl'.
    destruct (IH b ptr Hs k v Hl') as (bs & Hk & E & x & ->).
    exists ((p ++ [b]) ++ x). split; [done|]. split; [done|]. exists (b :: x). by rewrite <- app_assoc.
  - inversion Hl as [|? |? ? c ? ? Hat' Hl']; subst. cbn in Hat'.
    rewrite (at_hash_fun _ _ _ _ Hat' Hat) in Hl'.
    destruct (IH k v Hl') as (bs & Hk & E & x & ->).
    exists ((p ++ affix) ++ x). split; [done|]. split; [done|]. exists (affix ++ x).
    by rewrite <- app_assoc.
Qed.

Lemma trie_wf_mono t t' p tr : store_le t t' -> trie_wf t p tr -> trie_wf t' p tr.
Proof.
  intros Hle. induction 1 as [p k0 v0 bs Hv Hu|p pb child Hb Hn Hc _ IH|p affix h pb Ha Hh Hz He Hat _ IH].
  - by eapply wf_leaf.
  - eapply (wf_node _ _ _ child); [done..| |done].
    intros b ptr Hs. destruct (Hc b ptr Hs). auto.
  - by eapply (wf_extension _ _ _ _ pb); [done..|apply Hle|].
Qed.

(** A larger store denotes the same map at a well-formed element. *)
Lemma leaf_in_mono t t' p tr k v :
  store_le t t' -> trie_wf t p tr -> leaf_in t' tr k v <-> leaf_in t tr k v.
Proof.
  intros Hle Hwf. revert k v.
  induction Hwf as [p k0 v0 bs Hv Hu|p pb child Hb Hn Hc _ IH|p affix h pb Ha Hh Hz He Hat _ IH];
    intros k v.
  - split; inversion 1; subst; constructor.
  - split; inversion 1 as [|? b ptr c ? ? Hs Hat Hl'|]; subst;
      destruct (Hc b ptr Hs) as [Hc' _].
    + rewrite (at_hash_fun _ _ _ _ Hat (Hle _ _ Hc')) in Hl'.
      eapply in_node; [done | apply Hc' |]. by eapply IH.
    + rewrite (at_hash_fun _ _ _ _ Hat Hc') in Hl'.
      eapply in_node; [done | apply Hle, Hc' |]. by eapply IH.
  - split; inversion 1 as [| |? ? c ? ? Hat' Hl']; subst; cbn in Hat'.
    + rewrite (at_hash_fun _ _ _ _ Hat' (Hle _ _ Hat)) in Hl'.
      eapply in_extension; [apply Hat|]. by apply IH.
    + rewrite (at_hash_fun _ _ _ _ Hat' Hat) in Hl'.
      eapply in_extension; [apply Hle, Hat|]. by apply IH.
Qed.

Lemma root_wf_mono t t' root : store_le t t' -> root_wf t root -> root_wf t' root.
Proof.
  intros Hle (pb & Hat & Hwf). exists pb. split; [auto | by eapply trie_wf_mono].
Qed.

Lemma value_at_mono t t' root k v :
  store_le t t' -> root_wf t root -> value_at t' root k v <-> value_at t root k v.
Proof.
  intros Hle (pb & Hat & Hwf). split; intros (tr & Hat' & Hl).
  - rewrite (at_hash_fun _ _ _ _ Hat' (Hle _ _ Hat)) in Hl.
    exists (Node pb). split; [done|]. by apply (leaf_in_mono t t' []) in Hl.
  - rewrite (at_hash_fun _ _ _ _ Hat' Hat) in Hl.
    exists (Node pb). split; [auto|]. by apply (leaf_in_mono t t' []).
Qed.

(** ** Nodes *)

(** The slots of a node other than [i] hold pointers to well-formed elements. *)
Definition slots_wf t p (pb : PointerBlock) (ok : byte -> Prop) : Prop :=
  forall b ptr, ok b -> slot pb b ptr ->
    exists c, at_hash t (pointer_hash ptr) c /\ pointer_matches ptr c /\ trie_wf t (p ++ [b]) c.

Lemma trie_wf_node t p pb :
  trie_wf t p (Node pb) <-> block_valid pb /\ node_safe p /\ slots_wf t p pb (fun _ => True).
Proof.
  split.
  - inversion 1 as [|? ? child Hb Hn Hc Hw|]; subst. split; [done|]. split; [done|].
    intros b ptr _ Hs. destruct (Hc b ptr Hs). exists (child b). eauto.
  - intros (Hb & Hn & Hs).
    set (child b := match pb !! byte_index b with
      | Some (Some ptr) =>
          match trie_store_get ck cv handle t (pointer_hash ptr) with
          | Ok (Some c) => c
          | _ => Node pb
          end
      | _ => Node pb
      end).
    assert (forall b ptr, slot pb b ptr -> at_hash t (pointer_hash ptr) (child b)
      /\ pointer_matches ptr (child b) /\ trie_wf t (p ++ [b]) (child b)) as Hc.
    { intros b ptr Hp. destruct (Hs b ptr I Hp) as (c & Hat & Hm & Hw). unfold child.
      rewrite Hp. unfold at_hash in *. by rewrite Hat. }
    apply (wf_node _ _ _ child); [done | done | |]; intros b ptr Hp; by destruct (Hc b ptr Hp) as (? & ? & ?).
Qed.

Lemma key_under_fun p q k bs bs' : key_under p k bs -> key_under q k bs' -> bs = bs'.
Proof. intros (_ & E & _) (_ & E' & _). congruence. Qed.

Lemma key_under_app p q k bs : key_under (p ++ q) k bs -> key_under p k bs.
Proof. intros (Hk & E & x & ->). split; [done|]. split; [done|]. exists (q ++ x). by rewrite app_assoc. Qed.

(** The path of a key that arrives at a node. *)
Lemma node_safe_split p k bs :
  node_safe p -> key_under p k bs -> exists b x, bs = p ++ b :: x /\ key_under (p ++ [b]) k bs.
Proof.
  intros Hn Hu. pose proof (Hn k bs Hu) as Hlt. destruct Hu as (Hk & E & x & ->).
  rewrite length_app in Hlt. destruct x as [|b x]; [cbn in Hlt; lia|].
  exists b, x. split; [done|]. split; [done|]. split; [done|]. exists x. by rewrite <- app_assoc.
Qed.

Lemma key_under_byte p b b' k bs :
  key_under (p ++ [b]) k bs -> key_under (p ++ [b']) k bs -> b = b'.
Proof.
  intros (_ & _ & x & ->) (_ & _ & x' & E). rewrite <- !app_assoc in E.
  apply app_inv_head in E. by injection E.
Qed.

(** A leaf below a node is below the slot its path chooses. *)
Lemma leaf_in_node t p pb b k bs v :
  trie_wf t p (Node pb) -> key_under (p ++ [b]) k bs ->
  leaf_in t (Node pb) k v <->
  exists ptr c, slot pb b ptr /\ at_hash t (pointer_hash ptr) c /\ leaf_in t c k v.
Proof.
  intros (Hb & Hn & Hs)%trie_wf_node Hu. split.
  - inversion 1 as [|? b' ptr c ? ? Hs' Hat Hl|]; subst.
    destruct (Hs b' ptr I Hs') as (c' & Hat' & _ & Hw).
    rewrite (at_hash_fun _ _ _ _ Hat' Hat) in Hw.
    destruct (leaf_in_under _ _ _ _ _ Hw Hl) as (bs' & Hu').
    rewrite <- (key_under_fun _ _ _ _ _ Hu Hu') in Hu'.
    rewrite <- (key_under_byte _ _ _ _ _ Hu Hu') in Hs'. eauto.
  - intros (ptr & c & ? & ? & ?). by eapply in_node.
Qed.

Lemma block_index_valid {E} pb b :
  block_valid pb -> exists o, block_index (E := E) pb (byte_index b) = Ok o
    /\ pb !! byte_index b = Some o.
Proof.
  intros [Hl _]. unfold block_index.
  destruct (lookup_lt_is_Some_2 pb (byte_index b)) as [o Ho];
    [rewrite Hl; apply byte_index_lt|]. rewrite Ho. eauto.
Qed.

(** The part of a path an extension is compared with. *)
Lemma extension_slice {E} p affix k bs :
  extension_safe p affix -> key_under p k bs ->
  exists sub x, slice (E := E) bs (length p) (length p + length affix) = Ok sub
    /\ bs = p ++ sub ++ x /\ length sub = length affix.
Proof.
  intros He Hu. pose proof (He k bs Hu) as Hle. destruct Hu as (Hk & Eb & x & ->).
  rewrite length_app in Hle. exists (take (length affix) x), (drop (length affix) x).
  split; [|split; [by rewrite take_drop | rewrite length_take; lia]].
  rewrite <- (take_drop (length affix) x) at 1. apply slice_app.
  rewrite length_take. lia.
Qed.

(** A trie holds one value per key. *)
Lemma leaf_in_fun t p tr k v1 v2 :
  trie_wf t p tr -> leaf_in t tr k v1 -> leaf_in t tr k v2 -> v1 = v2.
Proof.
  intros Hwf. revert v1 v2.
  induction Hwf as [p k0 v0 bs Hv Hu|p pb child Hb Hn Hc Hw IH|p affix h pb Ha Hh Hz He Hat _ IH];
    intros v1 v2 H1' H2'.
  - inversion H1'; inversion H2'; congruence.
  - assert (trie_wf t p (Node pb)) as Hwf by (by apply (wf_node _ _ _ child)).
    destruct (leaf_in_under _ _ _ _ _ Hwf H1') as (bs & Hu).
    destruct (node_safe_split _ _ _ Hn Hu) as (b & x & _ & Hu').
    apply (leaf_in_node _ _ _ _ _ _ _ Hwf Hu') in H1' as (ptr & c & Hs & Hat & Hl).
    apply (leaf_in_node _ _ _ _ _ _ _ Hwf Hu') in H2' as (ptr' & c' & Hs' & Hat' & Hl').
    assert (ptr' = ptr) as -> by (unfold slot in *; congruence).
    destruct (Hc b ptr Hs) as [Hc' _]. rewrite (at_hash_fun _ _ _ _ Hat Hc') in Hl.
    rewrite (at_hash_fun _ _ _ _ Hat' Hc') in Hl'. by eapply (IH b ptr).
  - inversion H1' as [| |? ? c ? ? Hc Hl]; inversion H2' as [| |? ? c' ? ? Hc' Hl']; subst.
    cbn in Hc, Hc'. rewrite (at_hash_fun _ _ _ _ Hc Hat) in Hl.
    rewrite (at_hash_fun _ _ _ _ Hc' Hat) in Hl'. by apply IH.
Qed.

Lemma leaf_in_valid t p tr k v : trie_wf t p tr -> leaf_in t tr k v -> vk k /\ vv v.
Proof.
  intros Hwf. revert v.
  induction Hwf as [p k0 v0 bs Hv [Hk _]|p pb child Hb Hn Hc Hw IH|p affix h pb Ha Hh Hz He Hat _ IH];
    intros v Hl.
  - by inversion Hl; subst.
  - inversion Hl as [|? b ptr c ? ? Hs Hat Hl'|]; subst.
    destruct (Hc b ptr Hs) as [Hc' _]. rewrite (at_hash_fun _ _ _ _ Hat Hc') in Hl'. by eapply IH.
  - inversion Hl as [| |? ? c ? ? Hat' Hl']; subst. cbn in Hat'.
    rewrite (at_hash_fun _ _ _ _ Hat' Hat) in Hl'. by apply IH.
Qed.

Definition read_ok t tr k (r : ReadResult V) : Prop :=
  match r with
  | Found v => leaf_in t tr k v
  | NotFound => forall v, ~ leaf_in t tr k v
  | RootNotFound => False
  end.

(** ** Reading *)

Lemma read_loop_spec t p tr k bs fuel :
  trie_wf t p tr -> key_under p k bs -> (length bs - length p < fuel)%nat ->
  exists r, read_loop ck cv handle fuel t k bs (length p) tr = Ok r /\ read_ok t tr k r.
Proof.
  intros Hwf. revert fuel.
  induction Hwf as [p k0 v0 bs0 Hv Hu0|p pb child Hb Hn Hc Hw IH|p affix h pb Ha Hh Hz He Hat Hw IH];
    intros [|fuel] Hu Hf; try lia; cbn [read_loop].
  - destruct (decide (k = k0)) as [->|Hne]; eexists; (split; [done|]).
    + constructor.
    + intros v. inversion 1; subst. done.
  - destruct (node_safe_split _ _ _ Hn Hu) as (b & x & -> & Hu').
    rewrite index_or_panic_app. cbn [obind].
    destruct (block_index_valid (E := StoreError TE) pb b Hb) as (o & -> & Ho). cbn [obind].
    assert (trie_wf t p (Node pb)) as Hwf by (by apply (wf_node _ _ _ child)).
    destruct o as [ptr|].
    + destruct (Hc b ptr Ho) as [Hat Hm]. unfold at_hash in Hat. rewrite Hat. cbn [obind].
      rewrite length_app in Hf. cbn in Hf.
      destruct (IH b ptr Ho fuel Hu') as (r & Er & Hr); [rewrite !length_app; cbn; lia|].
      rewrite length_app in Er. cbn in Er. rewrite Er. exists r. split; [done|].
      destruct r as [v| |]; cbn in *; [by eapply in_node | | done].
      intros v Hl. apply (leaf_in_node t p pb b k _ v Hwf Hu') in Hl as (ptr' & c & Hs & Hat' & Hl).
      unfold slot in *. rewrite Ho in Hs. injection Hs as <-.
      rewrite (at_hash_fun _ _ _ _ Hat' Hat) in Hl. by apply (Hr v).
    + exists NotFound. split; [done|]. intros v Hl.
      apply (leaf_in_node t p pb b k _ v Hwf Hu') in Hl as (ptr' & c & Hs & Hat' & Hl).
      unfold slot in *. by rewrite Ho in Hs.
  - destruct (extension_slice (E := StoreError TE) _ _ _ _ He Hu) as (sub & x & -> & Eb & El).
    cbn [obind]. destruct (decide (sub = affix)) as [->|Hne].
    + cbn [pointer_hash]. unfold at_hash in Hat. rewrite Hat. cbn [obind].
      assert (key_under (p ++ affix) k bs) as Hu'.
      { destruct Hu as (? & ? & _). split; [done|]. split; [done|]. exists x. by rewrite <- app_assoc. }
      destruct (IH fuel Hu') as (r & Er & Hr).
      { rewrite length_app. pose proof (He _ _ Hu). destruct affix; [done|]. cbn in *. lia. }
      rewrite length_app in Er. rewrite Er. exists r. split; [done|].
      destruct r as [v| |]; cbn in *; [by eapply in_extension | | done].
      intros v Hl. inversion Hl as [| |? ? c ? ? Hat' Hl']; subst. cbn in Hat'.
      rewrite (at_hash_fun _ _ _ _ Hat' Hat) in Hl'. by apply (Hr v).
    + exists NotFound. split; [done|]. intros v Hl.
      inversion Hl as [| |? ? c ? ? Hat' Hl']; subst. cbn in Hat'.
      rewrite (at_hash_fun _ _ _ _ Hat' Hat) in Hl'.
      destruct (leaf_in_under _ _ _ _ _ Hw Hl') as (bs' & Hu').
      rewrite <- (key_under_fun _ _ _ _ _ Hu Hu') in Hu'. destruct Hu' as (_ & _ & y & Ey).
      rewrite <- app_assoc in Ey. apply app_inv_head in Ey.
      apply app_inj_1 in Ey as [? _]; done.
Qed.
End spec.
