(* ===== verification/TrieWrite.v ===== *)
(** The correctness of [write]: what a scan returns, what rehashing a path
    builds, and the map denoted by the new root. *)

From S2P Require Import Prelude BTreeMap Bytesrepr Trie TrieStore TrieSpec.

Section write.
Context {T H TE : Type} `{TransactionLaws T H TE} {hasher : Hasher} {hl : HasherLaws}.
Context {K V : Type} `{EqDecision K, EqDecision V} (ck : Codec K) (cv : Codec V) (handle : H).
Context (vk : K -> Prop) (vv : V -> Prop).
Context {lk : CodecLaws ck vk} {lv : CodecLaws cv vv} {tk : TrieKey ck vk}.
Implicit Types (t : T) (p q : bytes) (k : K) (v : V) (tr c tip : Trie K V) (ps : Parents K V).

#[local] Abbreviation at_hash := (at_hash ck cv handle).
#[local] Abbreviation trie_wf := (trie_wf ck cv handle vk vv).
#[local] Abbreviation leaf_in := (leaf_in ck cv handle).
#[local] Abbreviation slots_wf := (slots_wf ck cv handle vk vv).
#[local] Abbreviation node_safe := (node_safe ck vk).
#[local] Abbreviation extension_safe := (extension_safe ck vk).
#[local] Abbreviation key_under := (key_under ck vk).

(** ** Paths from the root *)

Definition is_node tr : Prop := match tr with Node _ => True | _ => False end.

Definition head_elem ps tip : Trie K V := match ps with [] => tip | x :: _ => x.2 end.

(** A parent at path [p], whatever the slot it was left through holds. *)
Definition parent_ok t p (x : byte * Trie K V) : Prop :=
  match x.2 with
  | Leaf _ _ => False
  | Node pb => block_valid pb /\ node_safe p /\ slots_wf t p pb (fun b => b <> x.1)
  | Extension affix (NodePointer h) =>
      affix <> [] /\ is_bytes BLAKE2B_DIGEST_LENGTH h /\ zlen affix < 2 ^ 31
      /\ extension_safe p affix
  | Extension _ (LeafPointer _) => False
  end.

Fixpoint parents_ok t p ps tip : Prop :=
  match ps with
  | [] => True
  | x :: ps' =>
      parent_ok t p x
      /\ match x.2 with Extension _ _ => is_node (head_elem ps' tip) | _ => True end
      /\ parents_ok t (p ++ get_parents_path [x]) ps' tip
  end.

(** The leaves that hang off the path. *)
Definition sibling t ps k v : Prop :=
  exists i pb b ptr c, In (i, Node pb) ps /\ b <> i /\ slot pb b ptr
    /\ at_hash t (pointer_hash ptr) c /\ leaf_in t c k v.

(** The last parent, when it is a node, holds a pointer to the tip. *)
Definition last_link t ps tip : Prop :=
  forall ps' i pb, ps = ps' ++ [(i, Node pb)] ->
    exists ptr, slot pb i ptr /\ at_hash t (pointer_hash ptr) tip /\ pointer_matches ptr tip.

(** Why a scan stops. *)
Definition tip_stops (bs q : bytes) tip : Prop :=
  match tip with
  | Leaf _ _ => True
  | Node pb => exists b x, bs = q ++ b :: x /\ pb !! byte_index b = Some None
  | Extension affix _ =>
      exists sub x, bs = q ++ sub ++ x /\ length sub = length affix /\ sub <> affix
  end.

Record scan_ok t p tr k bs tip ps : Prop := {
  scan_parents_ok : parents_ok t p ps tip;
  scan_tip_wf : trie_wf t (p ++ get_parents_path ps) tip;
  scan_key : key_under (p ++ get_parents_path ps) k bs;
  scan_stops : tip_stops bs (p ++ get_parents_path ps) tip;
  scan_link : last_link t ps tip;
  scan_head : head_elem ps tip = tr;
  scan_map : forall k' v', leaf_in t tr k' v' <-> leaf_in t tip k' v' \/ sibling t ps k' v';
}.

Lemma get_parents_path_cons (x : byte * Trie K V) ps :
  get_parents_path (x :: ps) = get_parents_path [x] ++ get_parents_path ps.
Proof. apply (get_parents_path_app [x] ps). Qed.

Lemma parents_ok_app t p ps qs tip :
  parents_ok t p (ps ++ qs) tip <->
  parents_ok t p ps (head_elem qs tip) /\ parents_ok t (p ++ get_parents_path ps) qs tip.
Proof.
  revert p. induction ps as [|x ps IH]; intros p; cbn [app parents_ok].
  - cbn. rewrite app_nil_r. tauto.
  - rewrite IH. rewrite (get_parents_path_cons x ps), app_assoc.
    assert (head_elem (ps ++ qs) tip = head_elem ps (head_elem qs tip)) as -> by (by destruct ps).
    tauto.
Qed.

Lemma parents_ok_tip t p ps tip tip' :
  (is_node tip -> is_node tip') -> parents_ok t p ps tip -> parents_ok t p ps tip'.
Proof.
  intros Hn. revert p. induction ps as [|x ps IH]; intros p; cbn [parents_ok]; [done|].
  intros (? & Hx & ?). split; [done|]. split; [|auto].
  destruct x.2; [done..|]. by destruct ps; [apply Hn|].
Qed.

Lemma sibling_nil t k v : ~ sibling t [] k v.
Proof. by intros (? & ? & ? & ? & ? & [] & _). Qed.

Lemma sibling_app t ps qs k v :
  sibling t (ps ++ qs) k v <-> sibling t ps k v \/ sibling t qs k v.
Proof.
  unfold sibling. split.
  - intros (i & pb & b & ptr & c & Hin & ? & ? & ? & ?).
    apply in_app_or in Hin as [?|?]; [left|right]; eauto 10.
  - intros [(i & pb & b & ptr & c & Hin & ? & ? & ? & ?)|(i & pb & b & ptr & c & Hin & ? & ? & ? & ?)];
      exists i, pb, b, ptr, c; split; auto using in_or_app.
Qed.

Lemma sibling_extension t i affix ptr k v : ~ sibling t [(i, Extension affix ptr)] k v.
Proof. by intros (? & ? & ? & ? & ? & [|[]] & _). Qed.

Lemma sibling_node t i pb k v :
  sibling t [(i, Node pb)] k v <->
  exists b ptr c, b <> i /\ slot pb b ptr /\ at_hash t (pointer_hash ptr) c /\ leaf_in t c k v.
Proof.
  split.
  - intros (i' & pb' & b & ptr & c & [E|[]] & ? & ? & ? & ?). injection E as <- <-. eauto 10.
  - intros (b & ptr & c & ? & ? & ? & ?). exists i, pb, b, ptr, c. split; [by left|]. done.
Qed.

(** The map of a node, split at one slot. *)
Lemma leaf_in_split t pb i ptr c k v :
  slot pb i ptr -> at_hash t (pointer_hash ptr) c ->
  leaf_in t (Node pb) k v <-> leaf_in t c k v \/ sibling t [(i, Node pb)] k v.
Proof.
  intros Hs Hat. rewrite sibling_node. split.
  - inversion 1 as [|? b ptr' c' ? ? Hs' Hat' Hl|]; subst.
    destruct (decide (b = i)) as [->|Hne]; [|right; eauto 10]. left.
    unfold slot in *. rewrite Hs in Hs'. injection Hs' as <-.
    by rewrite (at_hash_fun _ _ _ _ _ _ _ Hat Hat').
  - intros [Hl|(b & ptr' & c' & ? & ? & ? & ?)]; by eapply in_node.
Qed.

Lemma leaf_in_extension t affix ptr c k v :
  at_hash t (pointer_hash ptr) c -> leaf_in t (Extension affix ptr) k v <-> leaf_in t c k v.
Proof.
  intros Hat. split; [|by eapply in_extension].
  inversion 1 as [| |? ? c' ? ? Hat' Hl]; subst. by rewrite (at_hash_fun _ _ _ _ _ _ _ Hat Hat').
Qed.

(** ** Scanning *)

Lemma scan_ok_stop t p tr k bs :
  trie_wf t p tr -> key_under p k bs -> tip_stops bs p tr -> scan_ok t p tr k bs tr [].
Proof.
  intros. split; cbn; rewrite ?app_nil_r; try done.
  - by intros [|? ?] ? ?.
  - intros. pose proof (sibling_nil t k' v'). tauto.
Qed.

Lemma last_link_cons t x ps tip :
  (match x.2 with
   | Node pb => exists ptr, slot pb x.1 ptr /\ at_hash t (pointer_hash ptr) (head_elem ps tip)
       /\ pointer_matches ptr (head_elem ps tip)
   | _ => True
   end) ->
  last_link t ps tip -> last_link t (x :: ps) tip.
Proof.
  intros Hx Hl [|y ps'] i pb E; cbn in E.
  - injection E as -> ->. exact Hx.
  - injection E as _ ->. by eapply Hl.
Qed.

Lemma scan_ok_node t p pb b ptr c k bs tip ps :
  trie_wf t p (Node pb) -> slot pb b ptr -> at_hash t (pointer_hash ptr) c ->
  pointer_matches ptr c -> scan_ok t (p ++ [b]) c k bs tip ps ->
  scan_ok t p (Node pb) k bs tip ((b, Node pb) :: ps).
Proof.
  intros Hwf Hs Hat Hm [Hp Ht Hk Hst Hl Hh Hmap].
  assert (p ++ get_parents_path ((b, Node pb) :: ps) = (p ++ [b]) ++ get_parents_path ps) as Ep
    by (cbn; by rewrite <- app_assoc).
  split; rewrite ?Ep; try done.
  - cbn. split; [|done]. apply trie_wf_node in Hwf as (? & ? & Hw); [|done..].
    split; [done|]. split; [done|]. intros b' ptr' _. by apply Hw.
  - apply last_link_cons; [|done]. cbn. rewrite Hh. eauto.
  - intros k' v'. rewrite (leaf_in_split t pb b ptr c k' v' Hs Hat), Hmap.
    change ((b, Node pb) :: ps) with ([(b, Node pb)] ++ ps). rewrite sibling_app. tauto.
Qed.

Lemma scan_ok_extension t p affix h pb i k bs tip ps :
  trie_wf t p (Extension affix (NodePointer h)) -> at_hash t h (Node pb) ->
  scan_ok t (p ++ affix) (Node pb) k bs tip ps ->
  scan_ok t p (Extension affix (NodePointer h)) k bs tip ((i, Extension affix (NodePointer h)) :: ps).
Proof.
  intros Hwf Hat [Hp Ht Hk Hst Hl Hh Hmap].
  assert (p ++ get_parents_path ((i, Extension affix (NodePointer h)) :: ps)
    = (p ++ affix) ++ get_parents_path ps) as Ep by (cbn; by rewrite <- app_assoc).
  split; rewrite ?Ep; try done.
  - cbn. rewrite app_nil_r, Hh. split; [by inversion Hwf|]. done.
  - by apply last_link_cons.
  - intros k' v'. change ((i, Extension affix (NodePointer h)) :: ps)
      with ([(i, Extension affix (NodePointer h))] ++ ps). rewrite sibling_app.
    pose proof (sibling_extension t i affix (NodePointer h) k' v').
    rewrite leaf_in_extension by done. rewrite Hmap. tauto.
Qed.

Lemma scan_loop_spec t p tr k bs fuel acc :
  trie_wf t p tr -> key_under p k bs -> (length bs - length p < fuel)%nat ->
  exists tip ps, scan_loop ck cv handle fuel t bs (length p) acc tr = Ok (mk_trie_scan tip (acc ++ ps))
    /\ scan_ok t p tr k bs tip ps.
Proof.
  intros Hwf. revert fuel acc.
  induction Hwf as [p k0 v0 bs0 Hv Hu0|p pb child Hb Hn Hc Hw IH|p affix h pb Ha Hh Hz He Hat Hw IH];
    intros [|fuel] acc Hu Hf; try lia; cbn [scan_loop].
  - exists (Leaf k0 v0), []. rewrite app_nil_r. split; [done|].
    apply scan_ok_stop; [by eapply wf_leaf | done | done].
  - assert (trie_wf t p (Node pb)) as Hwf by (by apply (wf_node _ _ _ _ _ _ _ _ child)).
    destruct (node_safe_split _ _ _ _ _ Hn Hu) as (b & x & -> & Hu').
    rewrite index_or_panic_app. cbn [obind].
    destruct (block_index_valid (E := StoreError TE) pb b Hb) as (o & -> & Ho). cbn [obind].
    destruct o as [ptr|].
    + destruct (Hc b ptr Ho) as [Hat Hm]. rewrite Hat. cbn [obind].
      rewrite length_app in Hf. cbn in Hf.
      destruct (IH b ptr Ho fuel (acc ++ [(b, Node pb)]) Hu') as (tip & ps & Es & Hok);
        [rewrite !length_app; cbn; lia|].
      rewrite length_app in Es. cbn in Es. rewrite Es, <- app_assoc.
      exists tip, ((b, Node pb) :: ps). split; [done|]. by eapply scan_ok_node.
    + exists (Node pb), []. rewrite app_nil_r. split; [done|].
      apply scan_ok_stop; [done | done |]. cbn. eauto.
  - assert (trie_wf t p (Extension affix (NodePointer h))) as Hwf by (by eapply wf_extension).
    destruct (extension_slice (E := StoreError TE) _ _ _ _ _ _ He Hu) as (sub & x & -> & Eb & El).
    cbn [obind]. destruct (decide (sub = affix)) as [->|Hne].
    + cbn [pointer_hash]. rewrite Hat. cbn [obind].
      destruct affix as [|a affix]; [done|].
      assert (index_or_panic (E := StoreError TE) bs (length p) = Ok a) as ->
        by (rewrite Eb; apply index_or_panic_app). cbn [obind].
      assert (key_under (p ++ a :: affix) k bs) as Hu'.
      { destruct Hu as (? & ? & _). split; [done|]. split; [done|]. exists x. by rewrite <- app_assoc. }
      destruct (IH fuel (acc ++ [(a, Extension (a :: affix) (NodePointer h))]) Hu')
        as (tip & ps & Es & Hok).
      { rewrite length_app. pose proof (He _ _ Hu). cbn in *. lia. }
      rewrite length_app in Es. rewrite Es, <- app_assoc.
      eexists tip, (_ :: ps). split; [done|]. by eapply scan_ok_extension.
    + eexists _, []. rewrite app_nil_r. split; [done|].
      apply scan_ok_stop; [done | done |]. cbn. eauto.
Qed.

(** ** Rehashing *)

Lemma block_set_valid {E} pb b ptr pb' :
  block_valid pb -> pointer_valid ptr -> block_set (E := E) pb (byte_index b) ptr = Ok pb' ->
  block_valid pb' /\ (forall b' ptr', slot pb' b' ptr' <->
    (b' = b /\ ptr' = ptr) \/ (b' <> b /\ slot pb b' ptr')).
Proof.
  intros [Hl Hv] Hp. unfold block_set.
  destruct (byte_index b <? length pb)%nat eqn:E'; [|done]. intros <-%Ok_inj.
  apply Nat.ltb_lt in E'. split.
  - split; [by rewrite length_insert|]. by apply Forall_insert.
  - intros b' ptr'. unfold slot. destruct (decide (b' = b)) as [->|Hne].
    + rewrite list_lookup_insert_eq by done. split; [intros [= <-]; tauto | intros [[_ ->]|[? _]]; done].
    + rewrite list_lookup_insert_ne by (by intros ?%byte_index_inj). naive_solver.
Qed.

Lemma block_set_ok {E} pb b ptr :
  block_valid pb -> exists pb', block_set (E := E) pb (byte_index b) ptr = Ok pb'.
Proof.
  intros [Hl _]. unfold block_set.
  rewrite (proj2 (Nat.ltb_lt _ _)) by (rewrite Hl; apply byte_index_lt). eauto.
Qed.

Definition tip_pointer tip (h : Blake2bHash) : Pointer :=
  match tip with
  | Leaf _ _ => LeafPointer h
  | Node _ => NodePointer h
  | Extension _ _ => NodePointer h
  end.

Lemma tip_pointer_spec tip h :
  pointer_hash (tip_pointer tip h) = h /\ pointer_matches (tip_pointer tip h) tip.
Proof. by destruct tip. Qed.

(** A node whose slot is pointed at a well-formed tip. *)
Lemma node_replaced t p i pb pb' tip h :
  parent_ok t p (i, Node pb) -> is_bytes BLAKE2B_DIGEST_LENGTH h -> at_hash t h tip ->
  trie_wf t (p ++ [i]) tip ->
  block_set (E := Bytesrepr.Error) pb (byte_index i) (tip_pointer tip h) = Ok pb' ->
  trie_wf t p (Node pb')
  /\ forall k v, leaf_in t (Node pb') k v <-> leaf_in t tip k v \/ sibling t [(i, Node pb)] k v.
Proof.
  intros (Hb & Hn & Hw) Hh Hat Htip Hset. destruct (tip_pointer_spec tip h) as [Eh Hm].
  apply block_set_valid in Hset as [Hb' Hslots]; [|done|by unfold pointer_valid; rewrite Eh].
  split.
  - apply trie_wf_node; [done..|]. split; [done|]. split; [done|].
    intros b ptr _ [[-> ->]|[Hne Hs]]%Hslots; [|by apply Hw]. rewrite Eh. eauto.
  - intros k v. rewrite (leaf_in_split t pb' i (tip_pointer tip h) tip k v);
      [|apply Hslots; tauto|by rewrite Eh].
    rewrite !sibling_node. apply or_iff_compat_l.
    split; intros (b & ptr & c & Hne & Hs & ?); exists b, ptr, c;
      (split; [done|]); (split; [|done]); apply Hslots in Hs || apply Hslots; tauto.
Qed.

(** An extension pointed at a well-formed node. *)
Lemma extension_replaced t p i affix ptr tip h :
  parent_ok t p (i, Extension affix ptr) -> is_node tip ->
  is_bytes BLAKE2B_DIGEST_LENGTH h -> at_hash t h tip -> trie_wf t (p ++ affix) tip ->
  trie_wf t p (Extension affix (pointer_update ptr h))
  /\ forall k v, leaf_in t (Extension affix (pointer_update ptr h)) k v <->
       leaf_in t tip k v \/ sibling t [(i, Extension affix ptr)] k v.
Proof.
  intros Hx Hn Hh Hat Hwf. destruct ptr as [h0|h0]; [done|].
  destruct Hx as (Ha & _ & Hz & He). cbn [pointer_update].
  destruct tip as [|pb|]; [done| |done]. split; [by eapply wf_extension|].
  intros k v. rewrite (leaf_in_extension t affix (NodePointer h) (Node pb)) by done.
  pose proof (sibling_extension t i affix (NodePointer h0) k v). tauto.
Qed.

Lemma rehash_loop_ret tip h rps ret es :
  rehash_loop ck cv tip h rps ret = Ok es -> forall x, In x ret -> In x es.
Proof.
  revert tip h ret. induction rps as [|[i e] rps IH]; intros tip h ret E x Hx; cbn in E.
  - by apply Ok_inj in E as <-.
  - destruct e; [done|..]; obind_inv; eapply IH; try done; by apply in_or_app; left.
Qed.

(** What rehashing builds, in a store that holds the new elements: a
    well-formed root whose leaves are those of the tip and the siblings. *)
Definition rehashed t ps tip (root : Trie K V) : Prop :=
  trie_wf t [] root /\ (is_node (head_elem ps tip) -> is_node root)
  /\ forall k v, leaf_in t root k v <-> leaf_in t tip k v \/ sibling t ps k v.

Lemma rehashed_snoc t ps x tip tip' root :
  (forall k v, leaf_in t tip' k v <-> leaf_in t tip k v \/ sibling t [x] k v) ->
  (is_node x.2 -> is_node tip') ->
  rehashed t ps tip' root -> rehashed t (ps ++ [x]) tip root.
Proof.
  intros Hmap Hx (Hwf & Hn & Hm). split; [done|]. split.
  - intros Hh. apply Hn. by destruct ps; [apply Hx|].
  - intros k v. rewrite Hm, Hmap, sibling_app. tauto.
Qed.

Lemma rehash_loop_spec t rps tip h ret es :
  rehash_loop ck cv tip h rps ret = Ok es ->
  (forall h e, In (h, e) es -> at_hash t h e /\ is_bytes BLAKE2B_DIGEST_LENGTH h) ->
  last ret = Some (h, tip) ->
  parents_ok t [] (rev rps) tip -> trie_wf t (get_parents_path (rev rps)) tip ->
  exists rh root, last es = Some (rh, root) /\ rehashed t (rev rps) tip root.
Proof.
  intros E Hat. revert tip h ret E.
  induction rps as [|[i e] rps IH]; intros tip h ret E Hlast Hp Hwf; cbn [rev] in *.
  - cbn in E. apply Ok_inj in E as ->. exists h, tip. split; [done|]. split; [done|]. split; [done|].
    intros k v. pose proof (sibling_nil t k v). tauto.
  - rewrite parents_ok_app in Hp. destruct Hp as [Hp (Hx & Hext & _)].
    rewrite get_parents_path_app in Hwf. cbn [head_elem snd] in Hp, Hext.
    destruct (Hat h tip) as [Hth Hlen].
    { eapply rehash_loop_ret; [exact E|]. by apply last_Some_elem_of, list_elem_of_In in Hlast. }
    destruct e as [k0 v0|pb|affix ptr]; [done|..]; cbn [rehash_loop] in E.
    + apply obind_ok in E as (pb' & Hset & E). apply obind_ok in E as (h' & Hh' & E).
      destruct (node_replaced t (get_parents_path (rev rps)) i pb pb' tip h) as [Hwf' Hmap]; try done.
      destruct (IH (Node pb') h' _ E) as (rh & root & ? & Hr);
        [apply last_snoc | by eapply parents_ok_tip; [|exact Hp] | done |].
      exists rh, root. split; [done|]. by eapply rehashed_snoc.
    + apply obind_ok in E as (h' & Hh' & E). cbn in Hwf. rewrite app_nil_r in Hwf.
      destruct (extension_replaced t (get_parents_path (rev rps)) i affix ptr tip h)
        as [Hwf' Hmap]; try done.
      destruct (IH _ h' _ E) as (rh & root & ? & Hr);
        [apply last_snoc | by eapply parents_ok_tip; [|exact Hp] | done |].
      exists rh, root. split; [done|]. by eapply rehashed_snoc.
Qed.

(** ** New elements are stored at the hash of their serialized form *)

Definition element_ok (x : Blake2bHash * Trie K V) : Prop :=
  trie_hash ck cv x.2 = Ok x.1 /\ trie_valid vk vv x.2.

Lemma trie_hash_length tr h : trie_hash ck cv tr = Ok h -> is_bytes BLAKE2B_DIGEST_LENGTH h.
Proof. unfold trie_hash. intros E. obind_inv. apply blake2b_hash_length. Qed.

Lemma option_pointer_total o :
  option_valid pointer_valid o -> exists bs, to_bytes (option_codec pointer_codec) o = Ok bs.
Proof.
  destruct o as [ptr|]; intros Hv; cbn; [|eauto]. unfold option_to_bytes. cbn.
  destruct (_ >=? _) eqn:E; [|eauto]. exfalso. breflect. revert E.
  unfold pointer_valid, is_bytes, BLAKE2B_DIGEST_LENGTH in Hv. cbn in Hv.
  unfold zlen. rewrite length_app, to_le_bytes_length, Hv. vm_compute. done.
Qed.

Lemma trie_hash_node pb : block_valid pb -> exists h, trie_hash ck cv (Node pb) = Ok h.
Proof.
  intros [_ Hv]. unfold trie_hash, trie_to_bytes. cbn [to_bytes pointer_block_codec array_codec].
  assert (exists bs, write_all (option_codec pointer_codec) pb = Ok bs) as [bs Hbs].
  { unfold write_all. induction Hv as [|o pb Ho _ [bs IH]]; cbn [try_collect]; [cbn; eauto|].
    destruct (option_pointer_total o Ho) as [b ->]. cbn [obind].
    destruct (try_collect _ pb); cbn in *; [eauto | done | done]. }
  unfold array_to_bytes. rewrite Hbs. cbn. eauto.
Qed.

Lemma trie_hash_extension affix ptr :
  zlen affix < 2 ^ 31 -> pointer_valid ptr -> exists h, trie_hash ck cv (Extension affix ptr) = Ok h.
Proof.
  intros Hz Hv. unfold trie_hash, trie_to_bytes, vec_u8_to_bytes.
  destruct (_ >=? _) eqn:E; [breflect; unfold u32_max, U32_SERIALIZED_LENGTH in E; lia|].
  cbn. destruct (_ >? _) eqn:E'; [|cbn; eauto]. exfalso. breflect. revert E'.
  unfold pointer_valid, is_bytes, BLAKE2B_DIGEST_LENGTH in Hv.
  autorewrite with casper_rw. unfold zlen in *. rewrite !to_le_bytes_length, Hv.
  unfold u32_max, U32_SERIALIZED_LENGTH. lia.
Qed.

Lemma element_step tr : trie_valid vk vv tr -> (exists h, trie_hash ck cv tr = Ok h) ->
  exists h, trie_hash ck cv tr = Ok h /\ element_ok (h, tr).
Proof. intros Hv [h Hh]. by exists h. Qed.

(** A parent, apart from what its pointers lead to. *)
Definition parent_shape (x : byte * Trie K V) : Prop :=
  match x.2 with
  | Leaf _ _ => False
  | Node pb => block_valid pb
  | Extension affix (NodePointer h) => is_bytes BLAKE2B_DIGEST_LENGTH h /\ zlen affix < 2 ^ 31
  | Extension _ (LeafPointer _) => False
  end.

Lemma parents_ok_shape t p ps tip : parents_ok t p ps tip -> Forall parent_shape ps.
Proof.
  revert p. induction ps as [|[i e] ps IH]; intros p; cbn [parents_ok]; [constructor|].
  intros (Hx & _ & Hp). constructor; [|by eapply IH].
  destruct e as [|pb|affix [h|h]]; cbn in *; try done; [by destruct Hx|].
  by destruct Hx as (_ & ? & ? & _).
Qed.

(** Rehashing a path fails only where the tip does not serialize. *)
Lemma rehash_total ps tip h :
  Forall parent_shape ps -> trie_hash ck cv tip = Ok h -> trie_valid vk vv tip ->
  exists es, rehash ck cv tip ps = Ok es /\ Forall element_ok es.
Proof.
  intros Hp Hh Hv. unfold rehash. rewrite Hh. cbn [obind].
  assert (Forall element_ok [(h, tip)]) as Hret by (repeat constructor; done).
  apply Forall_rev in Hp. revert Hp. generalize (rev ps). clear ps. intros rps Hp. revert Hret.
  generalize [(h, tip)]. intros ret. revert tip h ret Hh Hv.
  induction Hp as [|[i e] rps Hx _ IH]; intros tip h ret Hh Hv Hret; [cbn; eauto|].
  pose proof (trie_hash_length _ _ Hh) as Hlen.
  destruct e as [k0 v0|pb|affix [h0|h0]]; try done; cbn [rehash_loop]; cbn in Hx.
  - destruct (tip_pointer_spec tip h) as [Eh _].
    destruct (block_set_ok (E := Bytesrepr.Error) pb i (tip_pointer tip h) Hx) as [pb' Hs].
    pose proof Hs as Hb'. apply block_set_valid in Hb' as [Hb' _];
      [|done|by unfold pointer_valid; rewrite Eh].
    unfold tip_pointer in Hs. rewrite Hs. cbn [obind].
    destruct (element_step (Node pb') Hb' (trie_hash_node pb' Hb')) as (h' & Hh' & He).
    rewrite Hh'. cbn [obind]. apply IH; [done | done | apply Forall_app; auto].
  - destruct Hx as [_ Hz]. cbn [pointer_update].
    destruct (element_step (Extension affix (NodePointer h)) Hlen) as (h' & Hh' & He);
      [by apply trie_hash_extension|].
    rewrite Hh'. cbn [obind]. apply IH; [done | done | apply Forall_app; auto].
Qed.

(** ** Storing the new elements *)

(** No new element's hash is already the hash of other bytes, in the store or
    among the new elements. *)
Definition no_collision t (es : list (Blake2bHash * Trie K V)) : Prop :=
  (forall h e bs, In (h, e) es -> txn_read t handle h = Ok (Some bs) -> trie_to_bytes ck cv e = Ok bs)
  /\ (forall h e1 e2, In (h, e1) es -> In (h, e2) es -> e1 = e2).

(** The same test on the lists of bytes. *)
Definition no_collision_b t (es : list (Blake2bHash * Trie K V)) : bool :=
  forallb (fun x =>
    match txn_read t handle x.1 with
    | Ok (Some bs) => match trie_to_bytes ck cv x.2 with Ok bs' => bool_decide (bs' = bs) | _ => false end
    | _ => true
    end
    && forallb (fun y => negb (bool_decide (x.1 = y.1)) || bool_decide (x.2 = y.2)) es) es.

Lemma no_collision_check t es : no_collision_b t es = true -> no_collision t es.
Proof.
  unfold no_collision_b. rewrite forallb_forall. intros Hc. split.
  - intros h e bs Hin Hr. specialize (Hc _ Hin). cbn in Hc. rewrite Hr in Hc. breflect.
    destruct (trie_to_bytes ck cv e); [|done..]. breflect. by subst.
  - intros h e1 e2 H1' H2'. specialize (Hc _ H1'). breflect.
    rewrite forallb_forall in *. specialize (H3 _ H2'). cbn in H3.
    rewrite bool_decide_eq_true_2 in H3 by done. cbn in H3. by breflect.
Qed.

Lemma trie_store_put_spec t h e t' :
  trie_store_put ck cv handle t h e = Ok t' -> trie_valid vk vv e ->
  at_hash t' h e /\ (exists bs, trie_to_bytes ck cv e = Ok bs /\ txn_read t' handle h = Ok (Some bs))
  /\ forall h', h' <> h -> txn_read t' handle h' = txn_read t handle h'.
Proof.
  unfold trie_store_put, store_put. cbn. intros E Hv.
  destruct (trie_to_bytes ck cv e) as [bs|?|] eqn:Eb; [|done..]. cbn in E.
  destruct (txn_write _ _ _ _) eqn:Ew; [|done..]. apply Ok_inj in E as ->.
  pose proof (txn_read_written _ _ _ _ _ Ew) as Hr. split; [|split].
  - unfold TrieSpec.at_hash, trie_store_get, store_get. cbn. rewrite Hr. cbn.
    by rewrite (deserialize_serialize (trie_codec ck cv) (trie_valid vk vv) e).
  - eauto.
  - intros h' Hne. eapply txn_read_other; [exact Ew|]. by intros [= ->].
Qed.

Lemma at_hash_read t t' h tr :
  txn_read t' handle h = txn_read t handle h -> at_hash t h tr -> at_hash t' h tr.
Proof. unfold TrieSpec.at_hash, trie_store_get, store_get. cbn. by intros ->. Qed.

Lemma put_elements_spec t es root t' r :
  put_elements ck cv handle t root es = Ok (t', r) ->
  Forall (fun x => trie_valid vk vv x.2) es -> no_collision t es ->
  store_le ck cv handle t t' /\ (forall h e, In (h, e) es -> at_hash t' h e)
  /\ r = match last es with Some (h, _) => h | None => root end.
Proof.
  revert t root. induction es as [|[h e] es IH]; intros t root E Hv Hc; cbn in E.
  - injection E as -> ->. split; [by intros ? ?|]. by split.
  - apply obind_ok in E as (t1 & E1 & E). inversion Hv as [|? ? He Hes]; subst. cbn in He.
    destruct (trie_store_put_spec _ _ _ _ E1 He) as (Hat & (bs & Hbs & Hr) & Ho).
    destruct Hc as [Hc1 Hc2].
    assert (store_le ck cv handle t t1) as Hle.
    { intros h' tr Htr. destruct (decide (h' = h)) as [->|Hne];
        [|eapply at_hash_read; [by apply Ho | done]].
      unfold TrieSpec.at_hash, trie_store_get, store_get in Htr. cbn in Htr.
      destruct (txn_read t handle h) as [[bs'|]|?|] eqn:Er; try done. cbn in Htr.
      pose proof (Hc1 h e bs' (or_introl eq_refl) Er) as Hbs'.
      rewrite (deserialize_serialize (trie_codec ck cv) (trie_valid vk vv) e bs') in Htr by done.
      injection Htr as <-. done. }
    destruct (IH t1 h E Hes) as (Hle' & Hall & Hlast).
    { split; [|intros h' e1 e2 ? ?; by eapply (Hc2 h'); right].
      intros h' e' bs' Hin Hr'. destruct (decide (h' = h)) as [->|Hne].
      - rewrite Hr in Hr'. injection Hr' as <-.
        by rewrite (Hc2 h e' e (or_intror Hin) (or_introl eq_refl)).
      - rewrite Ho in Hr' by done. eapply Hc1; [by right | done]. }
    split; [intros ? ? ?; by apply Hle', Hle|]. split.
    + intros h' e' [[= <- <-]|Hin]; [by apply Hle' | by apply Hall].
    + rewrite Hlast, last_cons. by destruct (last es) as [[? ?]|].
Qed.

(** ** Paths of distinct keys *)

Lemma keys_diverge k k0 bs bs0 :
  vk k -> vk k0 -> to_bytes ck k = Ok bs -> to_bytes ck k0 = Ok bs0 -> k <> k0 ->
  exists b x b0 x0, bs = common_prefix bs bs0 ++ b :: x
    /\ bs0 = common_prefix bs bs0 ++ b0 :: x0 /\ b <> b0.
Proof.
  intros Hk Hk0 E E0 Hne. destruct (common_prefix_split bs bs0) as (l & r & El & Er & Hd).
  destruct Hd as [->|[->|(b & b0 & x & x0 & -> & -> & ?)]]; [| |eauto 8].
  - rewrite app_nil_r in El. rewrite <- El in Er. rewrite Er in E0.
    by destruct (to_bytes_prefix_free ck vk k k0 bs r Hk Hk0 E E0).
  - rewrite app_nil_r in Er. rewrite <- Er in El. rewrite El in E.
    by destruct (to_bytes_prefix_free ck vk k0 k bs0 l Hk0 Hk E0 E).
Qed.

(** A proper prefix of one key's path is no key's path. *)
Lemma node_safe_key p k b x : vk k -> to_bytes ck k = Ok (p ++ b :: x) -> node_safe p.
Proof.
  intros Hk E k' bs (Hk' & E' & y & ->). destruct y as [|c y].
  - rewrite app_nil_r in E'. by destruct (to_bytes_prefix_free ck vk k' k p (b :: x) Hk' Hk E' E).
  - rewrite length_app. cbn. lia.
Qed.

(** The path shared by two keys is no longer than the keys that start with it. *)
Lemma extension_safe_keys q affix k k0 b b0 x x0 :
  q <> [] -> vk k -> vk k0 -> k <> k0 ->
  to_bytes ck k = Ok ((q ++ affix) ++ b :: x) -> to_bytes ck k0 = Ok ((q ++ affix) ++ b0 :: x0) ->
  extension_safe q affix.
Proof.
  destruct q as [|c q]; [done|]. intros _ Hk Hk0 Hne E E0 k' bs (Hk' & E' & y & ->).
  cbn in E, E0, E'.
  pose proof (trie_key_shared k k0 k' c _ _ _ _ Hk Hk0 Hk' Hne E E0 E') as Hle.
  rewrite !length_app in Hle. cbn. rewrite length_app. lia.
Qed.

Lemma affix_diverge (sub x affix : bytes) (m := common_prefix (sub ++ x) affix) :
  length sub = length affix -> sub <> affix ->
  exists b y b0 ca, sub ++ x = m ++ b :: y /\ affix = m ++ b0 :: ca /\ b <> b0.
Proof.
  intros Hl Hne. destruct (common_prefix_split (sub ++ x) affix) as (l & r & El & Er & Hd).
  fold m in El, Er.
  assert (r <> []) as Hr.
  { intros ->. rewrite app_nil_r in Er. rewrite Er in Hl, Hne.
    apply Hne. by apply app_inj_1 in El as [? _]. }
  destruct Hd as [->|[->|(b & b0 & y & ca & -> & -> & ?)]]; [|done|eauto 8].
  exfalso. apply (f_equal length) in El. rewrite !length_app in El. cbn in El.
  assert (length affix = length m + length r)%nat as Ha by (rewrite Er at 1; apply length_app).
  destruct r; [done|]. cbn in Ha. lia.
Qed.

(** ** Larger stores *)

Lemma parents_ok_mono t t' p ps tip :
  store_le ck cv handle t t' -> parents_ok t p ps tip -> parents_ok t' p ps tip.
Proof.
  intros Hle. revert p. induction ps as [|[i e] ps IH]; intros p; cbn [parents_ok]; [done|].
  intros (Hx & Hn & Hp). split; [|auto]. destruct e as [|pb|]; [done| |done].
  destruct Hx as (? & ? & Hs). split; [done|]. split; [done|]. intros b ptr Hb Hsl.
  destruct (Hs b ptr Hb Hsl) as (c & ? & ? & ?). exists c.
  split; [by apply Hle|]. split; [done|]. by eapply trie_wf_mono.
Qed.

(** A sibling's leaf is not on the path. *)
Lemma sibling_under t p ps tip k v :
  parents_ok t p ps tip -> sibling t ps k v ->
  forall k' bs, key_under (p ++ get_parents_path ps) k' bs -> k <> k'.
Proof.
  revert p. induction ps as [|[i e] ps IH]; intros p Hp Hs; [by apply sibling_nil in Hs|].
  cbn [parents_ok] in Hp. destruct Hp as (Hx & _ & Hp). intros k' bs Hu.
  rewrite get_parents_path_cons, app_assoc in Hu.
  apply (sibling_app t [(i, e)] ps) in Hs as [Hs|Hs]; [|by eapply IH].
  apply key_under_app in Hu. destruct e as [|pb|]; [done| |by apply sibling_extension in Hs].
  apply sibling_node in Hs as (b & ptr & c & Hne & Hsl & Hat & Hl). destruct Hx as (_ & _ & Hw).
  destruct (Hw b ptr Hne Hsl) as (c' & Hat' & _ & Hwf).
  rewrite (at_hash_fun _ _ _ _ _ _ _ Hat' Hat) in Hwf.
  destruct (leaf_in_under _ _ _ _ _ _ _ _ _ _ Hwf Hl) as (bs' & Hu'). intros ->.
  rewrite (key_under_fun _ _ _ _ _ _ _ Hu' Hu) in Hu'.
  by rewrite (key_under_byte _ _ _ _ _ _ _ Hu' Hu) in Hne.
Qed.

Lemma sibling_mono t t' p ps tip k v :
  store_le ck cv handle t t' -> parents_ok t p ps tip -> sibling t' ps k v <-> sibling t ps k v.
Proof.
  intros Hle. revert p. induction ps as [|[i e] ps IH]; intros p Hp.
  - split; intros Hs; by apply sibling_nil in Hs.
  - cbn [parents_ok] in Hp. destruct Hp as (Hx & _ & Hp).
    change ((i, e) :: ps) with ([(i, e)] ++ ps). rewrite !sibling_app, (IH _ Hp).
    enough (sibling t' [(i, e)] k v <-> sibling t [(i, e)] k v) by tauto.
    destruct e as [|pb|]; [done| |split; intros Hs; by apply sibling_extension in Hs].
    destruct Hx as (_ & _ & Hw). rewrite !sibling_node.
    split; intros (b & ptr & c & Hne & Hsl & Hat & Hl); exists b, ptr;
      destruct (Hw b ptr Hne Hsl) as (c' & Hat' & _ & Hwf); exists c'.
    + rewrite (at_hash_fun _ _ _ _ _ _ _ Hat (Hle _ _ Hat')) in Hl.
      repeat split; try done. by apply (leaf_in_mono ck cv handle vk vv t t' (p ++ [b])) in Hl.
    + rewrite (at_hash_fun _ _ _ _ _ _ _ Hat Hat') in Hl.
      repeat split; try done; [by apply Hle|]. by apply (leaf_in_mono ck cv handle vk vv t t' (p ++ [b])).
Qed.

(** ** New paths *)

(** The parents that [rehash] receives for a new leaf: their siblings are the
    other keys of the old map. *)
Record plan_ok t (root : Trie K V) k v bs t' ps2 : Prop := {
  plan_parents : parents_ok t' [] ps2 (Leaf k v);
  plan_key : key_under (get_parents_path ps2) k bs;
  plan_head : is_node (head_elem ps2 (Leaf k v));
  plan_map : forall k' v', sibling t' ps2 k' v' <-> k' <> k /\ leaf_in t root k' v';
}.

(** [new_elements] stores some elements and rehashes the new leaf into a path
    that is sound in every store that has them. *)
Definition planned t (root : Trie K V) k v bs tip ps : Prop :=
  exists extra ps2,
    new_elements ck cv bs k v tip ps =
      (let? es := rehash ck cv (Leaf k v) ps2 in Ok (extra ++ es))
    /\ Forall element_ok extra /\ Forall parent_shape ps2
    /\ forall t', store_le ck cv handle t t' -> (forall h e, In (h, e) extra -> at_hash t' h e) ->
         plan_ok t root k v bs t' ps2.

Lemma obind_ret {E A} (m : outcome E A) : (let? x := m in Ok x) = m.
Proof. by destruct m. Qed.

Lemma planned_rehash t root k v bs tip ps ps2 :
  new_elements ck cv bs k v tip ps = rehash ck cv (Leaf k v) ps2 ->
  (forall t', store_le ck cv handle t t' -> plan_ok t root k v bs t' ps2) ->
  planned t root k v bs tip ps.
Proof.
  intros E Hp. exists [], ps2. cbn [app]. rewrite obind_ret. split; [done|]. split; [constructor|].
  split; [|intros; by apply Hp]. destruct (Hp t) as [Hpar _ _ _]; [by intros ? ?|].
  by eapply parents_ok_shape.
Qed.

Lemma not_node_parents t p ps tip tip' :
  ~ is_node tip -> parents_ok t p ps tip -> parents_ok t p ps tip'.
Proof. intros Hn. apply parents_ok_tip. tauto. Qed.

Lemma trie_wf_valid t p tr : trie_wf t p tr -> trie_valid vk vv tr.
Proof. destruct 1 as [? ? ? ? ? [? _]| |]; cbn; done. Qed.

Lemma slot_pointer_valid pb b ptr : block_valid pb -> slot pb b ptr -> pointer_valid ptr.
Proof.
  intros [_ Hv] Hs. rewrite Forall_lookup in Hv. apply (Hv _ _ Hs).
Qed.

(** A node with one pointer. *)
Lemma single_node {E} b ptr :
  pointer_valid ptr ->
  exists nb, trie_node (K := K) (V := V) (E := E) [(byte_index b, ptr)] = Ok (Node nb)
    /\ block_valid nb /\ forall b' ptr', slot nb b' ptr' <-> b' = b /\ ptr' = ptr.
Proof.
  intros Hp. assert (block_valid pointer_block_new) as Hn.
  { split; [apply length_replicate|]. by apply Forall_replicate. }
  destruct (block_set_ok (E := E) pointer_block_new b ptr Hn) as [nb Hs].
  exists nb. unfold trie_node, from_indexed_pointers, set_pointers. rewrite Hs.
  apply block_set_valid in Hs as [Hb Hsl]; [|done..]. split; [done|]. split; [done|].
  intros b' ptr'. rewrite Hsl. split; [|tauto]. intros [?|[_ Hs]]; [done|].
  unfold slot, pointer_block_new in Hs. apply lookup_replicate in Hs as [? _]. done.
Qed.

(** The extension above a new node, if the shared path is longer than the
    path of the parents. *)
Definition mid (j : byte) (affix : bytes) (h : Blake2bHash) : Parents K V :=
  match affix with
  | [] => []
  | _ => [(j, Extension affix (NodePointer h))]
  end.

Lemma mid_path j affix h : get_parents_path (mid j affix h) = affix.
Proof. destruct affix; cbn; [done|]. by rewrite app_nil_r. Qed.

Lemma mid_sibling t j affix h k v : ~ sibling t (mid j affix h) k v.
Proof. destruct affix; [apply sibling_nil | apply sibling_extension]. Qed.

(** A branch between an old element and the new leaf. *)
Lemma branch_ok t ps tip j affix h nb b b0 ptr c k v (q := get_parents_path ps) :
  parents_ok t [] ps tip -> ~ is_node tip ->
  is_bytes BLAKE2B_DIGEST_LENGTH h -> zlen affix < 2 ^ 31 -> extension_safe q affix ->
  node_safe (q ++ affix) -> block_valid nb ->
  (forall b' ptr', slot nb b' ptr' <-> b' = b0 /\ ptr' = ptr) ->
  at_hash t (pointer_hash ptr) c -> pointer_matches ptr c -> trie_wf t (q ++ affix ++ [b0]) c ->
  b <> b0 ->
  let ps2 := (ps ++ mid j affix h) ++ [(b, Node nb)] in
  parents_ok t [] ps2 (Leaf k v)
  /\ (forall k' v', sibling t ps2 k' v' <-> leaf_in t c k' v' \/ sibling t ps k' v').
Proof.
  intros Hp Hn Hh Hz He Hns Hb Hsl Hat Hm Hwf Hne. cbn zeta. split.
  - rewrite !parents_ok_app. split; [split|].
    + by eapply not_node_parents.
    + destruct affix as [|a affix]; [done|]. cbn. done.
    + rewrite get_parents_path_app, mid_path. cbn. split; [|done].
      split; [done|]. split; [done|]. intros b' ptr' _ [-> ->]%Hsl. exists c.
      rewrite <- app_assoc. done.
  - intros k' v'. rewrite !sibling_app, sibling_node. pose proof (mid_sibling t j affix h k' v').
    split.
    + intros [[?|?]|(b' & ptr' & c' & _ & [-> ->]%Hsl & Hat' & Hl)]; [tauto | tauto |].
      left. by rewrite (at_hash_fun _ _ _ _ _ _ _ Hat Hat').
    + intros [Hl|?]; [|tauto]. right. exists b0, ptr, c. split; [done|]. split; [by apply Hsl|]. done.
Qed.

Lemma plan_map_intro t root k v bs t' ps2 :
  parents_ok t' [] ps2 (Leaf k v) -> key_under (get_parents_path ps2) k bs ->
  (forall k' v', k' <> k -> sibling t' ps2 k' v' <-> leaf_in t root k' v') ->
  forall k' v', sibling t' ps2 k' v' <-> k' <> k /\ leaf_in t root k' v'.
Proof.
  intros Hp Hu Hm k' v'. split; [|intros [? ?]; by apply Hm].
  intros Hs. assert (k' <> k) as Hne by (by eapply sibling_under). split; [done|]. by apply Hm.
Qed.

Lemma branch_plan t root t' ps tip j affix h nb b b0 x ptr c k v (q := get_parents_path ps) :
  parents_ok t [] ps tip -> ~ is_node tip -> is_node root -> head_elem ps tip = root ->
  (forall k' v', leaf_in t root k' v' <-> leaf_in t tip k' v' \/ sibling t ps k' v') ->
  store_le ck cv handle t t' ->
  is_bytes BLAKE2B_DIGEST_LENGTH h -> extension_safe q affix -> block_valid nb ->
  (forall b' ptr', slot nb b' ptr' <-> b' = b0 /\ ptr' = ptr) ->
  at_hash t' (pointer_hash ptr) c -> pointer_matches ptr c -> trie_wf t' (q ++ affix ++ [b0]) c ->
  (forall k' v', leaf_in t' c k' v' <-> leaf_in t tip k' v') ->
  b <> b0 -> vk k -> to_bytes ck k = Ok ((q ++ affix) ++ b :: x) ->
  plan_ok t root k v ((q ++ affix) ++ b :: x) t' ((ps ++ mid j affix h) ++ [(b, Node nb)]).
Proof.
  intros Hp Hn Hr Hh Hmap Hle Hlen He Hb Hsl Hat Hm Hwf Hc Hne Hk E.
  assert (zlen affix < 2 ^ 31) as Hz.
  { destruct (trie_key_bytes k Hk) as (? & E' & _ & Hz). rewrite E in E'. injection E' as <-.
    revert Hz. autorewrite with casper_rw.
    pose proof (zlen_nonneg q). pose proof (zlen_nonneg (b :: x)). lia. }
  pose proof (node_safe_key _ _ _ _ Hk E) as Hns.
  destruct (branch_ok t' ps tip j affix h nb b b0 ptr c k v) as [Hp2 Hm2]; try done;
    [by eapply parents_ok_mono|].
  assert (get_parents_path ((ps ++ mid j affix h) ++ [(b, Node nb)]) = (q ++ affix) ++ [b]) as Eq
    by (by rewrite !get_parents_path_app, mid_path).
  assert (key_under ((q ++ affix) ++ [b]) k ((q ++ affix) ++ b :: x)) as Hu
    by (split; [done|]; split; [done|]; exists x; apply (app_assoc _ [b])).
  rewrite <- Eq in Hu. split; [done | done | |].
  - destruct ps as [|y ps]; cbn in *; subst root; done.
  - apply (plan_map_intro t root k v _ t' _ Hp2 Hu). intros k' v' _.
    by rewrite Hm2, Hmap, Hc, (sibling_mono t t' [] ps _ k' v' Hle Hp).
Qed.

Lemma add_node_to_parents_ok nb ps b x :
  add_node_to_parents (get_parents_path ps ++ b :: x) (Node nb) ps = Ok (ps ++ [(b, Node nb)]).
Proof.
  unfold add_node_to_parents. rewrite common_prefix_l, bool_decide_eq_true_2 by done.
  cbn [oassert obind]. by rewrite index_or_panic_app.
Qed.

(** The key is there with another value. *)
Lemma plan_update t root k v v0 bs ps :
  scan_ok t [] root k bs (Leaf k v0) ps -> is_node root -> v <> v0 ->
  planned t root k v bs (Leaf k v0) ps.
Proof.
  intros [Hp Ht Hk Hst Hl Hh Hmap] Hr Hv. apply (planned_rehash _ _ _ _ _ _ _ ps); cbn [app] in *.
  { cbn [new_elements]. rewrite decide_False by congruence. by rewrite decide_True by done. }
  intros t' Hle.
  assert (parents_ok t' [] ps (Leaf k v)) as Hp'.
  { eapply parents_ok_mono; [done|]. by apply (not_node_parents t [] ps (Leaf k v0)); [intros []|]. }
  split; [done | done | subst root; by destruct ps |].
  apply (plan_map_intro t root k v bs t' ps Hp' Hk). intros k' v' Hne.
  rewrite Hmap, (sibling_mono t t' [] ps _ k' v' Hle Hp). split; [tauto|].
  intros [Hl'|?]; [inversion Hl'; subst; done | done].
Qed.

(** The path of the key ends at an empty slot of a node. *)
Lemma plan_node t root k v bs pb ps :
  scan_ok t [] root k bs (Node pb) ps -> is_node root -> planned t root k v bs (Node pb) ps.
Proof.
  intros [Hp Ht Hk (b & x & -> & Hb) Hl Hh Hmap] Hr.
  apply (planned_rehash _ _ _ _ _ _ _ (ps ++ [(b, Node pb)])); cbn [app] in *.
  { cbn [new_elements]. by rewrite add_node_to_parents_ok. }
  intros t' Hle.
  assert (parents_ok t [] (ps ++ [(b, Node pb)]) (Leaf k v)) as Hp'.
  { rewrite parents_ok_app. split; [done|]. cbn. split; [|done].
    apply trie_wf_node in Ht as (? & ? & Hw); [|done..]. split; [done|]. split; [done|].
    intros ? ? _. by apply Hw. }
  assert (key_under (get_parents_path (ps ++ [(b, Node pb)])) k (get_parents_path ps ++ b :: x)) as Hu.
  { destruct Hk as (? & ? & _). split; [done|]. split; [done|]. exists x.
    by rewrite get_parents_path_app, <- app_assoc. }
  split; [by eapply parents_ok_mono | done | subst root; by destruct ps |].
  apply (plan_map_intro t root k v _ t' _ (parents_ok_mono _ _ _ _ _ Hle Hp') Hu). intros k' v' Hne.
  rewrite Hmap, (sibling_mono t t' [] _ _ k' v' Hle Hp'), sibling_app.
  enough (sibling t [(b, Node pb)] k' v' <-> leaf_in t (Node pb) k' v') by tauto.
  rewrite sibling_node. split.
  - intros (b' & ptr & c & _ & ? & ? & ?). by eapply in_node.
  - inversion 1 as [|? b' ptr c ? ? Hs Hat Hl'|]; subst. exists b', ptr, c.
    split; [|done]. intros ->. unfold slot in Hs. by rewrite Hb in Hs.
Qed.

Lemma reparent_leaf_ok t p ps i pb ptr affix b b0 x x0 (qs := ps ++ [(i, Node pb)])
    (sh := get_parents_path qs ++ affix) :
  parent_ok t p (i, Node pb) -> slot pb i ptr -> pointer_valid ptr -> b <> b0 ->
  exists nb h, reparent_leaf ck cv (sh ++ b :: x) (sh ++ b0 :: x0) qs = Ok (Node nb, qs ++ mid i affix h)
    /\ block_valid nb /\ (forall b' ptr', slot nb b' ptr' <-> b' = b0 /\ ptr' = ptr)
    /\ is_bytes BLAKE2B_DIGEST_LENGTH h.
Proof.
  intros (Hb & _) Hs Hpv Hne.
  destruct (single_node (E := Bytesrepr.Error) b0 ptr Hpv) as (nb & Hnb & Hv & Hsl).
  destruct (trie_hash_node nb Hv) as [h Hh]. exists nb, h.
  split; [|split; [done|]; split; [done | by eapply trie_hash_length]].
  unfold reparent_leaf. unfold qs at 1. rewrite vec_pop_app.
  assert (common_prefix (sh ++ b :: x) (sh ++ b0 :: x0) = sh) as ->.
  { rewrite common_prefix_app. cbn. rewrite decide_False by done. apply app_nil_r. }
  rewrite index_or_panic_app. cbn [obind]. unfold block_index. rewrite Hs. cbn [obind].
  rewrite Hnb. cbn [obind]. fold qs. unfold sh. rewrite slice_tail. cbn [obind].
  destruct affix as [|a affix]; [by rewrite bool_decide_eq_true_2, app_nil_r|].
  rewrite bool_decide_eq_false_2 by done. by rewrite Hh.
Qed.

(** The path of the key ends at the leaf of another key. *)
Lemma plan_leaf t root k v k0 v0 bs ps :
  scan_ok t [] root k bs (Leaf k0 v0) ps -> is_node root -> k <> k0 ->
  planned t root k v bs (Leaf k0 v0) ps.
Proof.
  intros [Hp Ht Hk Hst Hl Hh Hmap] Hr Hne. cbn [app] in *.
  destruct ps as [|[i e] ps _] using rev_ind; [by cbn in Hh; subst root|].
  pose proof Hp as Hp0. rewrite parents_ok_app in Hp0. destruct Hp0 as [_ (Hx & Hext & _)].
  destruct e as [|pb|]; [done| |done]. destruct (Hl ps i pb eq_refl) as (ptr & Hs & Hat & Hm).
  inversion Ht as [? ? ? bs0 Hv0 Hu0| |]; subst.
  destruct Hk as (Hk & E & y & ->). destruct Hu0 as (Hk0 & E0 & y0 & ->).
  set (qs := ps ++ [(i, Node pb)]) in *. set (q := get_parents_path qs) in *.
  destruct (keys_diverge k k0 _ _ Hk Hk0 E E0 Hne) as (b & x & b0 & x0 & Eb & Eb0 & Hbne).
  rewrite common_prefix_app in Eb, Eb0. set (affix := common_prefix y y0) in *.
  rewrite Eb in *. rewrite Eb0 in E0.
  assert (pointer_valid ptr) as Hpv by (eapply slot_pointer_valid; [apply Hx | done]).
  destruct (reparent_leaf_ok t _ ps i pb ptr affix b b0 x x0 Hx Hs Hpv Hbne)
    as (nb & h & Hrep & Hnb & Hsl & Hlen).
  fold qs q in Hrep.
  assert (get_parents_path (qs ++ mid i affix h) = q ++ affix) as Eq
    by (by rewrite get_parents_path_app, mid_path).
  apply (planned_rehash _ _ _ _ _ _ _ ((qs ++ mid i affix h) ++ [(b, Node nb)])).
  { cbn [new_elements]. rewrite decide_False by congruence. rewrite decide_False by tauto.
    rewrite decide_True by done. rewrite E0. cbn [obind]. rewrite Hrep. cbn [obind].
    rewrite <- Eq at 1. by rewrite add_node_to_parents_ok. }
  intros t' Hle.
  eapply (branch_plan t _ t' qs (Leaf k0 v0) i affix h nb b b0 x ptr (Leaf k0 v0) k v); try done.
  - by intros [].
  - eapply extension_safe_keys; [|exact Hk|exact Hk0|done|exact E|exact E0].
    unfold qs. rewrite get_parents_path_app. by destruct (get_parents_path ps).
  - by apply Hle.
  - eapply wf_leaf; [done|]. split; [done|]. split; [exact E0|]. exists x0. by rewrite <- !app_assoc.
  - split; inversion 1; subst; constructor.
Qed.

(** The element that replaces the part of an extension after the branch. *)
Definition child_extension (ca : bytes) (h0 hc : Blake2bHash) : option (Blake2bHash * Trie K V) :=
  match ca with
  | [] => None
  | _ => Some (hc, Extension ca (NodePointer h0))
  end.

Lemma split_extension_ok ps m b b0 y ca h0 (q := get_parents_path ps) :
  b <> b0 -> is_bytes BLAKE2B_DIGEST_LENGTH h0 -> zlen ca < 2 ^ 31 ->
  exists nb j h hc,
    trie_hash ck cv (Extension ca (NodePointer h0)) = Ok hc
    /\ split_extension ck cv (q ++ m ++ b :: y) (Extension (m ++ b0 :: ca) (NodePointer h0)) ps
      = Ok (mk_split_result (Node nb) (ps ++ mid j m h) (child_extension ca h0 hc))
    /\ block_valid nb /\ is_bytes BLAKE2B_DIGEST_LENGTH h
    /\ forall b' ptr', slot nb b' ptr' <->
        b' = b0 /\ ptr' = NodePointer (match ca with [] => h0 | _ => hc end).
Proof.
  intros Hne Hh0 Hz. destruct (trie_hash_extension ca (NodePointer h0) Hz Hh0) as [hc Hhc].
  pose proof (trie_hash_length _ _ Hhc) as Hlc.
  destruct (single_node (E := Bytesrepr.Error) b0 (NodePointer (match ca with [] => h0 | _ => hc end)))
    as (nb & Hnb & Hv & Hsl); [by destruct ca|].
  destruct (trie_hash_node nb Hv) as [h Hh].
  exists nb, (match m with [] => b0 | j :: _ => j end), h, hc. split; [done|].
  split; [|split; [done|]; split; [by eapply trie_hash_length | done]].
  unfold split_extension. fold q.
  assert (common_prefix (q ++ m ++ b :: y) (q ++ m ++ b0 :: ca) = q ++ m) as ->.
  { rewrite !common_prefix_app. cbn. rewrite decide_False by done. by rewrite app_nil_r. }
  rewrite slice_tail. cbn [obind].
  replace (m ++ b0 :: ca) with ((m ++ [b0]) ++ ca) by (by rewrite <- app_assoc).
  replace (length m + 1)%nat with (length (m ++ [b0])) by (by rewrite length_app).
  rewrite slice_tail. cbn [obind].
  replace (q ++ (m ++ [b0]) ++ ca) with ((q ++ m) ++ b0 :: ca) by (by rewrite <- !app_assoc).
  rewrite index_or_panic_app.
  destruct ca as [|a ca].
  - rewrite bool_decide_eq_true_2 by done. cbn [obind]. rewrite Hnb. cbn [obind].
    destruct m as [|j m]; cbn [mid]; [by rewrite app_nil_r|]. by rewrite Hh.
  - rewrite bool_decide_eq_false_2 by done. unfold trie_extension. rewrite Hhc. cbn [obind].
    rewrite Hnb. cbn [obind]. destruct m as [|j m]; cbn [mid]; [by rewrite app_nil_r|]. by rewrite Hh.
Qed.

(** The element below the branch, in a store that holds it. *)
Lemma child_extension_ok t t' q m b0 ca h0 hc pb :
  store_le ck cv handle t t' ->
  trie_wf t q (Extension (m ++ b0 :: ca) (NodePointer h0)) -> at_hash t h0 (Node pb) ->
  (forall h e, child_extension ca h0 hc = Some (h, e) -> at_hash t' h e) ->
  exists c, at_hash t' (match ca with [] => h0 | _ => hc end) c
    /\ pointer_matches (NodePointer (match ca with [] => h0 | _ => hc end)) c
    /\ trie_wf t' (q ++ m ++ [b0]) c
    /\ forall k v, leaf_in t' c k v <-> leaf_in t (Extension (m ++ b0 :: ca) (NodePointer h0)) k v.
Proof.
  intros Hle Hwf Hat Hx.
  inversion Hwf as [| |? ? ? pb' Ha Hh Hz He Hat' Hw]; subst.
  injection (at_hash_fun _ _ _ _ _ _ _ Hat Hat') as <-.
  assert (forall k v, leaf_in t' (Node pb) k v <->
    leaf_in t (Extension (m ++ b0 :: ca) (NodePointer h0)) k v) as Hmap.
  { intros k v. rewrite (leaf_in_mono ck cv handle vk vv t t' _ _ k v Hle Hw).
    by rewrite (leaf_in_extension t _ (NodePointer h0) (Node pb)). }
  replace (q ++ m ++ b0 :: ca) with ((q ++ m ++ [b0]) ++ ca) in Hw by (by rewrite <- !app_assoc).
  destruct ca as [|a ca].
  - exists (Node pb). split; [by apply Hle|]. split; [done|]. split; [|done].
    rewrite app_nil_r in Hw. by eapply trie_wf_mono.
  - exists (Extension (a :: ca) (NodePointer h0)). split; [by apply Hx|]. split; [done|]. split.
    + eapply (wf_extension _ _ _ _ _ _ _ _ _ pb); [done | done | | | by apply Hle | by eapply trie_wf_mono].
      * revert Hz. unfold zlen. rewrite length_app. cbn [length]. lia.
      * intros k bs Hu. pose proof (He k bs (key_under_app _ _ _ _ _ _ Hu)) as Hl.
        rewrite !length_app in *. cbn [length] in *. lia.
    + intros k v. rewrite <- Hmap. apply leaf_in_extension. by apply Hle.
Qed.

(** The path of the key leaves an extension. *)
Lemma plan_extension t root k v bs affix ptr ps :
  scan_ok t [] root k bs (Extension affix ptr) ps -> is_node root ->
  planned t root k v bs (Extension affix ptr) ps.
Proof.
  intros [Hp Ht Hk (sub & x & Ebs & Hlen & Hne) Hl Hh Hmap] Hr. cbn [app] in *.
  destruct (affix_diverge sub x affix Hlen Hne) as (b & y & b0 & ca & Es & Ea & Hbne).
  set (m := common_prefix (sub ++ x) affix) in *. clearbody m. rewrite Es in Ebs. clear Es Hlen Hne.
  subst affix bs. inversion Ht as [| |? ? h0 pb Ha Hh0 Hz He Hat Hw]; subst ptr.
  destruct (split_extension_ok ps m b b0 y ca h0 Hbne Hh0) as (nb & j & h & hc & Hhc & Hsp & Hnb & Hlh & Hsl).
  { revert Hz. unfold zlen. rewrite length_app. cbn [length]. lia. }
  exists (match child_extension ca h0 hc with Some e => [e] | None => [] end),
    ((ps ++ mid j m h) ++ [(b, Node nb)]). split; [|split; [|split]].
  - cbn [new_elements]. rewrite Hsp. cbn [obind split_new_node split_parents maybe_hashed_child_extension].
    replace (get_parents_path ps ++ m ++ b :: y)
      with (get_parents_path (ps ++ mid j m h) ++ b :: y)
      by (by rewrite get_parents_path_app, mid_path, <- app_assoc).
    rewrite add_node_to_parents_ok. cbn [obind]. destruct ca; cbn [child_extension app]; [|done].
    by rewrite obind_ret.
  - destruct ca; cbn; repeat constructor; done.
  - rewrite !Forall_app. split; [split; [by eapply parents_ok_shape|]|by apply Forall_singleton].
    destruct m; [constructor|]. apply Forall_singleton. split; [done|]. revert Hz. unfold zlen. rewrite length_app. cbn [length]. lia.
  - intros t' Hle Hx.
    destruct (child_extension_ok t t' (get_parents_path ps) m b0 ca h0 hc pb Hle Ht Hat)
      as (c & Hc & Hcm & Hcw & Hcmap).
    { intros h' e E. rewrite E in Hx. apply Hx. by left. }
    destruct Hk as (Hk & E & _). rewrite app_assoc in E |- *.
    eapply (branch_plan t root t' ps _ j m h nb b b0 y); try done.
    + by intros [].
    + intros k' bs' Hu'. pose proof (He k' bs' Hu'). rewrite length_app in *. lia.
Qed.

(** ** Writing *)

Lemma new_elements_spec t root k v bs tip ps :
  scan_ok t [] root k bs tip ps -> is_node root ->
  (new_elements ck cv bs k v tip ps = Ok [] /\ leaf_in t root k v) \/ planned t root k v bs tip ps.
Proof.
  intros Hs Hr. destruct tip as [k0 v0|pb|affix ptr].
  - destruct (decide (k = k0)) as [<-|Hk]; [|right; by apply plan_leaf].
    destruct (decide (v = v0)) as [<-|Hv]; [left|right; by apply plan_update].
    cbn [new_elements]. rewrite decide_True by done. split; [done|].
    apply (scan_map _ _ _ _ _ _ _ Hs). left. constructor.
  - right. by apply plan_node.
  - right. by apply plan_extension.
Qed.

(** The elements a write is about to store. *)
Definition write_elements (fuel : nat) t (root : Blake2bHash) k v
    : outcome (StoreError TE) (list (Blake2bHash * Trie K V)) :=
  let? found := trie_store_get ck cv handle t root in
  match found with
  | None => Ok []
  | Some current =>
      let? path := omap_err SE_BytesRepr (to_bytes ck k) in
      let? sc := scan ck cv handle fuel t path current in
      omap_err SE_BytesRepr (new_elements ck cv path k v (scan_tip sc) (scan_parents sc))
  end.

Definition enough (fuel : nat) k : Prop := forall bs, to_bytes ck k = Ok bs -> (length bs < fuel)%nat.

Lemma put_elements_safe t root es e :
  Forall element_ok es -> put_elements ck cv handle t root es <> Panic
  /\ (put_elements ck cv handle t root es = Err e ->
      exists te, e = SE_Transaction te /\ exists t1 h bs, txn_write t1 handle h bs = Err te).
Proof.
  intros Hes. revert t root. induction Hes as [|[h tr] es [Hh _] _ IH]; intros t root; cbn [put_elements].
  - done.
  - unfold trie_store_put, store_put. cbn. cbn in Hh. unfold trie_hash in Hh.
    destruct (trie_to_bytes ck cv tr) as [bs|?|]; [|done..]. cbn.
    pose proof (txn_write_safe t handle h bs).
    destruct (txn_write _ _ _ _) as [t1|te|] eqn:Ew; cbn; [apply IH| |done].
    split; [done|]. intros [= <-]. eauto 6.
Qed.

(** The outcome of a write. *)
Definition write_ok t (root : Blake2bHash) k v (r : outcome (StoreError TE) (T * WriteResult)) : Prop :=
  match r with
  | Ok (t', Written root') =>
      root_wf ck cv handle vk vv t' root' /\ store_le ck cv handle t t'
      /\ forall k' v', value_at ck cv handle t' root' k' v' <->
           (k' = k /\ v' = v) \/ (k' <> k /\ value_at ck cv handle t root k' v')
  | Ok (t', AlreadyExists) => t' = t /\ value_at ck cv handle t root k v
  | Ok (_, WriteRootNotFound) => False
  | Err (SE_BytesRepr e) => trie_hash ck cv (Leaf k v) = Err e
  | Err (SE_Transaction te) => exists t1 h bs, txn_write t1 handle h bs = Err te
  | Panic => False
  end.

(** Storing the elements of a sound plan gives the new map. *)
Lemma plan_written t root rh k v bs t' ps2 extra es r :
  at_hash t rh root -> vk k -> vv v -> to_bytes ck k = Ok bs ->
  (forall t', store_le ck cv handle t t' -> (forall h e, In (h, e) extra -> at_hash t' h e) ->
     plan_ok t root k v bs t' ps2) ->
  rehash ck cv (Leaf k v) ps2 = Ok es -> Forall element_ok (extra ++ es) ->
  no_collision t (extra ++ es) -> put_elements ck cv handle t rh (extra ++ es) = Ok (t', r) ->
  write_ok t rh k v (Ok (t', Written r)).
Proof.
  intros Hat Hk Hv E Hplan Hre Hes Hnc Hput.
  assert (Forall (fun x => trie_valid vk vv x.2) (extra ++ es)) as Hval
    by (eapply Forall_impl; [exact Hes|]; by intros ? [? ?]).
  destruct (put_elements_spec _ _ _ _ _ Hput Hval Hnc) as (Hle & Hall & Hr).
  destruct (Hplan t' Hle) as [Hp Hu Hh Hmap]; [intros; apply Hall, in_or_app; by left|].
  unfold rehash in Hre. apply obind_ok in Hre as (h & Hhash & Hre).
  rewrite <- (rev_involutive ps2) in Hp, Hu, Hh, Hmap.
  destruct (rehash_loop_spec t' (rev ps2) (Leaf k v) h [(h, Leaf k v)] es Hre)
    as (rh' & root' & Hlast & Hwf & Hn & Hm); [|done|done|by eapply wf_leaf|].
  { intros h' e Hin. split; [apply Hall, in_or_app; by right|].
    rewrite Forall_app, !Forall_forall in Hes. apply list_elem_of_In in Hin.
    by apply (trie_hash_length e), (proj2 Hes (h', e)). }
  assert (r = rh') as ->.
  { rewrite Hr. rewrite last_app, Hlast. done. }
  assert (at_hash t' rh' root') as Hat'.
  { apply Hall, in_or_app. right. by apply last_Some_elem_of, list_elem_of_In in Hlast. }
  cbn. split; [|split; [done|]].
  - destruct root' as [|pb|]; [by destruct (Hn Hh)| |by destruct (Hn Hh)]. by exists pb.
  - intros k' v'. transitivity (leaf_in t' root' k' v').
    { split; [intros (tr & Hat2 & Hl) | by exists root'].
      by rewrite (at_hash_fun _ _ _ _ _ _ _ Hat' Hat2). }
    rewrite Hm, Hmap.
    assert (leaf_in t root k' v' <-> value_at ck cv handle t rh k' v') as <-.
    { split; [by exists root|]. intros (tr & Hat2 & Hl).
      by rewrite (at_hash_fun _ _ _ _ _ _ _ Hat Hat2). }
    apply or_iff_compat_r. split; [by inversion 1 | intros [-> ->]; constructor].
Qed.

Lemma write_spec fuel t root k v :
  root_wf ck cv handle vk vv t root -> vk k -> vv v -> enough fuel k -> to_bytes cv v <> Panic ->
  (forall es, write_elements fuel t root k v = Ok es -> no_collision t es) ->
  write_ok t root k v (write ck cv handle fuel t root k v).
Proof.
  intros (pb & Hat & Hwf) Hk Hv Hf Hsafe Hnc.
  destruct (trie_key_bytes k Hk) as (bs & E & _ & _).
  assert (key_under [] k bs) as Hu by (split; [done|]; split; [done|]; by exists bs).
  destruct (scan_loop_spec t [] (Node pb) k bs fuel [] Hwf Hu) as (tip & ps & Hscan & Hok);
    [pose proof (Hf bs E); cbn; lia|].
  cbn [length app] in Hscan. unfold write. unfold TrieSpec.at_hash in Hat. rewrite Hat.
  cbn [obind]. rewrite E. cbn [omap_err obind]. unfold scan. rewrite Hscan.
  cbn [obind scan_tip scan_parents].
  assert (forall es, new_elements ck cv bs k v tip ps = Ok es -> no_collision t es) as Hnc'.
  { intros es He. apply Hnc. unfold write_elements, scan. rewrite Hat. cbn [obind]. rewrite E.
    cbn [omap_err obind]. rewrite Hscan. cbn [obind scan_tip scan_parents]. by rewrite He. }
  destruct (new_elements_spec t (Node pb) k v bs tip ps Hok I) as [[-> Hl]|(extra & ps2 & Hne & Hx & Hsh & Hplan)].
  { cbn. split; [done|]. by exists (Node pb). }
  rewrite Hne in *. clear Hne.
  destruct (trie_hash ck cv (Leaf k v)) as [h|e|] eqn:Hh.
  - destruct (rehash_total ps2 (Leaf k v) h Hsh Hh) as (es & Hre & Hes); [done|].
    rewrite Hre in *. cbn [obind omap_err] in *. specialize (Hnc' _ eq_refl).
    assert (Forall element_ok (extra ++ es)) as Hall by (by apply Forall_app).
    destruct (extra ++ es) as [|x l] eqn:El.
    { apply app_eq_nil in El as [_ ->]. unfold rehash in Hre. rewrite Hh in Hre. cbn [obind] in Hre.
      by destruct (rehash_loop_ret _ _ _ _ _ Hre (h, Leaf k v) (or_introl eq_refl)). }
    rewrite <- El in *. destruct (put_elements ck cv handle t root (extra ++ es)) as [[t' r]|e|] eqn:Ep.
    + cbn [obind]. by eapply plan_written.
    + cbn. by destruct (proj2 (put_elements_safe t root (extra ++ es) e Hall) Ep) as (te & -> & ?).
    + by destruct (proj1 (put_elements_safe t root (extra ++ es) (SE_BytesRepr FormattingError) Hall) Ep).
  - unfold rehash. rewrite Hh. cbn. done.
  - exfalso. revert Hh. unfold trie_hash, trie_to_bytes. rewrite E. cbn.
    destruct (to_bytes cv v); cbn; [|done|done]. by destruct (_ >? _).
Qed.

(** ** Reading a root *)

Lemma read_spec fuel t root k :
  root_wf ck cv handle vk vv t root -> vk k -> enough fuel k ->
  exists r, read ck cv handle fuel t root k = Ok r /\ r <> RootNotFound
    /\ forall v, r = Found v <-> value_at ck cv handle t root k v.
Proof.
  intros (pb & Hat & Hwf) Hk Hf. destruct (trie_key_bytes k Hk) as (bs & E & _ & _).
  assert (key_under [] k bs) as Hu by (split; [done|]; split; [done|]; by exists bs).
  destruct (read_loop_spec ck cv handle vk vv t [] (Node pb) k bs fuel Hwf Hu) as (r & Hr & Hok);
    [pose proof (Hf bs E); cbn; lia|].
  assert (forall v, value_at ck cv handle t root k v <-> leaf_in t (Node pb) k v) as Hv.
  { intros v. split; [|by exists (Node pb)]. intros (tr & Hat' & Hl).
    by rewrite (at_hash_fun _ _ _ _ _ _ _ Hat Hat'). }
  exists r. unfold read. rewrite E. cbn [omap_err obind]. unfold TrieSpec.at_hash in Hat. rewrite Hat.
  cbn [obind]. split; [done|]. destruct r as [v| |]; cbn in Hok; [|..|done].
  - split; [done|]. intros v'. rewrite Hv. split; [by intros [= <-]|]. intros Hl.
    f_equal. by eapply leaf_in_fun.
  - split; [done|]. intros v'. rewrite Hv. split; [done|]. intros Hl. by destruct (Hok v').
Qed.

(** Reads of roots that denote the same value agree. *)
Lemma read_ext fuel t t' root root' k :
  root_wf ck cv handle vk vv t root -> root_wf ck cv handle vk vv t' root' -> vk k -> enough fuel k ->
  (forall v, value_at ck cv handle t' root' k v <-> value_at ck cv handle t root k v) ->
  read ck cv handle fuel t' root' k = read ck cv handle fuel t root k.
Proof.
  intros Hr Hr' Hk Hf Hv.
  destruct (read_spec fuel t root k Hr Hk Hf) as (r & -> & Hn & H1').
  destruct (read_spec fuel t' root' k Hr' Hk Hf) as (r' & -> & Hn' & H2'). f_equal.
  destruct r as [v| |]; [|destruct r' as [v'| |]; [|done|done]|done].
  - apply H2', Hv, H1'. done.
  - symmetry. apply H1', Hv, H2'. done.
Qed.

(** What reads see of a write. *)
Definition reads_updated fuel t (root : Blake2bHash) k v t' (root' : Blake2bHash) : Prop :=
  root_wf ck cv handle vk vv t' root'
  /\ read ck cv handle fuel t' root' k = Ok (Found v)
  /\ (forall k', vk k' -> enough fuel k' -> k' <> k ->
        read ck cv handle fuel t' root' k' = read ck cv handle fuel t root k')
  /\ (forall root0 k', root_wf ck cv handle vk vv t root0 -> vk k' -> enough fuel k' ->
        root_wf ck cv handle vk vv t' root0
        /\ read ck cv handle fuel t' root0 k' = read ck cv handle fuel t root0 k').

Lemma written_reads fuel t root k v t' root' :
  root_wf ck cv handle vk vv t root -> vk k -> enough fuel k ->
  write_ok t root k v (Ok (t', Written root')) -> reads_updated fuel t root k v t' root'.
Proof.
  intros Hr Hk Hf (Hr' & Hle & Hmap). split; [done|]. split; [|split].
  - destruct (read_spec fuel t' root' k Hr' Hk Hf) as (r & -> & _ & Hrd). f_equal.
    apply Hrd, Hmap. by left.
  - intros k' Hk' Hf' Hne. apply read_ext; [done..|]. intros v'. rewrite Hmap. tauto.
  - intros root0 k' Hr0 Hk' Hf'. pose proof (root_wf_mono _ _ _ _ _ _ _ _ Hle Hr0) as Hr0'.
    split; [done|]. apply read_ext; [done..|]. intros v'. by eapply value_at_mono.
Qed.

(** A write that reports [AlreadyExists] was of the pair that is there. *)
Lemma exists_reads fuel t root k v :
  root_wf ck cv handle vk vv t root -> vk k -> enough fuel k ->
  value_at ck cv handle t root k v -> read ck cv handle fuel t root k = Ok (Found v).
Proof.
  intros Hr Hk Hf Hval. destruct (read_spec fuel t root k Hr Hk Hf) as (r & -> & _ & Hrd).
  f_equal. by apply Hrd.
Qed.

Lemma read_valid fuel t root k v :
  root_wf ck cv handle vk vv t root -> vk k -> enough fuel k ->
  read ck cv handle fuel t root k = Ok (Found v) -> vv v.
Proof.
  intros Hr Hk Hf Hrd. destruct (read_spec fuel t root k Hr Hk Hf) as (r & E & _ & Hval).
  rewrite E in Hrd. apply Ok_inj in Hrd. apply Hval in Hrd as (tr & Hat & Hl).
  destruct Hr as (pb & Hat' & Hwf). rewrite (at_hash_fun _ _ _ _ _ _ _ Hat Hat') in Hl.
  by eapply leaf_in_valid.
Qed.

(** ** Properties *)

(** C2: reading a well-formed root terminates within the length of the key's
    path, never panics, and returns the value of the map the root denotes. *)
Theorem trie_read_correct fuel t root k :
  root_wf ck cv handle vk vv t root -> vk k -> enough fuel k ->
  exists r, read ck cv handle fuel t root k = Ok r /\ r <> RootNotFound
    /\ forall v, r = Found v <-> value_at ck cv handle t root k v.
Proof. apply read_spec. Qed.

(** C1: after a write the new root is well formed; the key reads as the value
    written, every other key reads as before, and every older root still reads
    as it did. *)
Theorem trie_write_read fuel t root k v t' root' :
  root_wf ck cv handle vk vv t root -> vk k -> vv v -> enough fuel k -> to_bytes cv v <> Panic ->
  (forall es, write_elements fuel t root k v = Ok es -> no_collision t es) ->
  write ck cv handle fuel t root k v = Ok (t', Written root') ->
  root_wf ck cv handle vk vv t' root'
  /\ read ck cv handle fuel t' root' k = Ok (Found v)
  /\ (forall k', vk k' -> enough fuel k' -> k' <> k ->
        read ck cv handle fuel t' root' k' = read ck cv handle fuel t root k')
  /\ (forall root0 k', root_wf ck cv handle vk vv t root0 -> vk k' -> enough fuel k' ->
        root_wf ck cv handle vk vv t' root0
        /\ read ck cv handle fuel t' root0 k' = read ck cv handle fuel t root0 k').
Proof.
  intros Hr Hk Hv Hf Hs Hnc Hw. pose proof (write_spec fuel t root k v Hr Hk Hv Hf Hs Hnc) as Hok.
  rewrite Hw in Hok. by apply written_reads.
Qed.

(** C3: a write into a well-formed root never panics and always finds its root;
    over a store whose writes succeed it fails only when the leaf itself does
    not serialize, and when it reports that the pair exists it changes nothing
    and the pair reads back. *)
Theorem trie_write_outcome {total : TransactionTotal T H TE} fuel t root k v :
  root_wf ck cv handle vk vv t root -> vk k -> vv v -> enough fuel k -> to_bytes cv v <> Panic ->
  (forall es, write_elements fuel t root k v = Ok es -> no_collision t es) ->
  match write ck cv handle fuel t root k v with
  | Ok (_, Written _) => True
  | Ok (t', AlreadyExists) => t' = t /\ read ck cv handle fuel t root k = Ok (Found v)
  | Ok (_, WriteRootNotFound) => False
  | Err _ => exists e, trie_to_bytes ck cv (Leaf k v) = Err e
  | Panic => False
  end.
Proof.
  intros Hr Hk Hv Hf Hs Hnc. pose proof (write_spec fuel t root k v Hr Hk Hv Hf Hs Hnc) as Hok.
  destruct (write ck cv handle fuel t root k v) as [[t' [root'| |]]|[e|te]|] eqn:Ew; cbn in Hok; try done.
  - destruct Hok as [-> Hval]. split; [done|]. by apply exists_reads.
  - unfold trie_hash in Hok. exists e. by destruct (trie_to_bytes ck cv (Leaf k v)).
  - destruct Hok as (t1 & h & bs & Hw). destruct (txn_write_total t1 handle h bs) as [t2 Ht2]. congruence.
Qed.
End write.
