(* ===== verification/TrieKeys.v ===== *)
(** The enumeration [keys] of a root (in [TrieStore]) terminates and lists
    exactly the keys of the map the root denotes, in the order of their
    serialized forms. *)

From S2P Require Import Prelude BTreeMap Bytesrepr Trie TrieStore TrieSpec.

Section keys.
Context {T H TE : Type} `{TransactionLaws T H TE} {hasher : Hasher} {hl : HasherLaws}.
Context {K V : Type} `{EqDecision K, EqDecision V} (ck : Codec K) (cv : Codec V) (handle : H).
Context (vk : K -> Prop) (vv : V -> Prop).
Context {lk : CodecLaws ck vk} {lv : CodecLaws cv vv} {tk : TrieKey ck vk}.
Implicit Types (t : T) (p q : bytes) (k : K) (v : V) (tr c : Trie K V) (l : list K).

#[local] Abbreviation at_hash := (at_hash ck cv handle).
#[local] Abbreviation trie_wf := (trie_wf ck cv handle vk vv).
#[local] Abbreviation leaf_in := (leaf_in ck cv handle).
#[local] Abbreviation key_under := (key_under ck vk).
#[local] Abbreviation keys_loop := (keys_loop ck cv handle).

(** ** The search in a node *)

Definition empty_between (pb : PointerBlock) (i j : nat) : Prop :=
  forall m ptr, (i <= m < j)%nat -> pb !! m <> Some (Some ptr).

Lemma next_slot_spec n pb i :
  match next_slot n pb i with
  | Some (j, ptr) => (i <= j < i + n)%nat /\ pb !! j = Some (Some ptr) /\ empty_between pb i j
  | None => empty_between pb i (i + n)
  end.
Proof.
  revert i. induction n as [|n IH]; intros i; cbn [next_slot].
  - intros m ptr Hm. lia.
  - destruct (pb !! i) as [[ptr|]|] eqn:E.
    + split; [lia|]. split; [done|]. intros m ptr' Hm. lia.
    + specialize (IH (S i)). destruct (next_slot n pb (S i)) as [[j ptr]|].
      * destruct IH as (? & ? & He). split; [lia|]. split; [done|]. intros m ptr' Hm.
        destruct (decide (m = i)) as [->|]; [congruence|]. apply He. lia.
      * intros m ptr' Hm. destruct (decide (m = i)) as [->|]; [congruence|]. apply IH. lia.
    + specialize (IH (S i)). destruct (next_slot n pb (S i)) as [[j ptr]|].
      * destruct IH as (? & ? & He). split; [lia|]. split; [done|]. intros m ptr' Hm.
        destruct (decide (m = i)) as [->|]; [congruence|]. apply He. lia.
      * intros m ptr' Hm. destruct (decide (m = i)) as [->|]; [congruence|]. apply IH. lia.
Qed.

Lemma byte_index_of_nat j : (j < RADIX)%nat -> byte_index (byte_of_Z (Z.of_nat j)) = j.
Proof.
  unfold RADIX, byte_index. intros Hj. rewrite byte_to_of_Z, Z.mod_small by lia. lia.
Qed.

(** ** The order of the keys *)

(** The serialized form of [k1] is before that of [k2]. *)
Definition key_before k1 k2 : Prop :=
  exists q b1 b2 x1 x2, to_bytes ck k1 = Ok (q ++ b1 :: x1) /\ to_bytes ck k2 = Ok (q ++ b2 :: x2)
    /\ byte_to_Z b1 < byte_to_Z b2.

Lemma key_before_irrefl k : ~ key_before k k.
Proof.
  intros (q & b1 & b2 & x1 & x2 & E1 & E2 & Hlt). rewrite E1 in E2.
  apply Ok_inj in E2. apply app_inv_head in E2. injection E2 as -> _. lia.
Qed.

Lemma key_before_slots p b1 b2 k1 k2 bs1 bs2 :
  key_under (p ++ [b1]) k1 bs1 -> key_under (p ++ [b2]) k2 bs2 ->
  (byte_index b1 < byte_index b2)%nat -> key_before k1 k2.
Proof.
  intros (_ & E1 & x1 & ->) (_ & E2 & x2 & ->) Hlt. exists p, b1, b2, x1, x2.
  rewrite E1, E2, <- !app_assoc. split; [done|]. split; [done|].
  unfold byte_index in Hlt. pose proof (byte_to_Z_range b1). pose proof (byte_to_Z_range b2). lia.
Qed.

Lemma sorted_nodup l : StronglySorted key_before l -> List.NoDup l.
Proof.
  induction 1 as [|k l _ IH Hf]; constructor; [|done]. intros Hin.
  rewrite List.Forall_forall in Hf. by destruct (key_before_irrefl k (Hf k Hin)).
Qed.

Lemma sorted_app l1 l2 :
  StronglySorted key_before l1 -> StronglySorted key_before l2 ->
  (forall k1 k2, In k1 l1 -> In k2 l2 -> key_before k1 k2) -> StronglySorted key_before (l1 ++ l2).
Proof.
  induction 1 as [|k l1 _ IH Hf]; intros H2 Hc; cbn; [done|]. constructor.
  - apply IH; [done|]. intros k1 k2 Hk1. apply Hc. by right.
  - apply Forall_app. split; [done|]. rewrite List.Forall_forall. intros k2. apply Hc. by left.
Qed.

(** ** Walks *)

(** The loop, at an element on top of its stack, appends the keys [l] and drops
    the element after [n] rounds. *)
Definition lists t (n : nat) (top : Trie K V * option nat * bytes) l : Prop :=
  forall fuel visited ret,
    keys_loop (n + fuel) t (top :: visited) ret = keys_loop fuel t visited (ret ++ l).

(** [l] lists the keys satisfying [P], in order, all of them below [p]. *)
Definition enumerates p (P : K -> Prop) l : Prop :=
  (forall k, In k l <-> P k) /\ StronglySorted key_before l
  /\ (forall k, In k l -> exists bs, key_under p k bs).

(** The keys below the slots of a node from [i] on. *)
Definition slot_key t (pb : PointerBlock) (i : nat) k : Prop :=
  exists b ptr c v, slot pb b ptr /\ (i <= byte_index b)%nat /\ at_hash t (pointer_hash ptr) c
    /\ leaf_in t c k v.

Definition key_of t tr k : Prop := exists v, leaf_in t tr k v.

(** What is known of the children of a node. *)
Definition children_listed t p (pb : PointerBlock) : Prop :=
  forall b ptr, slot pb b ptr -> exists c n l, at_hash t (pointer_hash ptr) c
    /\ lists t n (c, None, p ++ [b]) l /\ enumerates (p ++ [b]) (key_of t c) l.

Lemma slot_key_next t pb i j ptr c k :
  empty_between pb i j -> pb !! j = Some (Some ptr) -> (i <= j < RADIX)%nat ->
  at_hash t (pointer_hash ptr) c ->
  slot_key t pb i k <-> key_of t c k \/ slot_key t pb (S j) k.
Proof.
  intros He Hj Hij Hat. split.
  - intros (b & ptr' & c' & v & Hs & Hi & Hat' & Hl). unfold slot in Hs.
    destruct (decide (byte_index b = j)) as [Eb|Hne].
    + left. rewrite Eb, Hj in Hs. injection Hs as <-. rewrite (at_hash_fun _ _ _ _ _ _ _ Hat' Hat) in Hl.
      by exists v.
    + right. exists b, ptr', c', v. split; [done|]. split; [|done].
      destruct (decide (byte_index b < j)%nat); [|lia]. by destruct (He (byte_index b) ptr'); [lia|].
  - intros [(v & Hl)|(b & ptr' & c' & v & Hs & Hi & Hat' & Hl)].
    + exists (byte_of_Z (Z.of_nat j)), ptr, c, v. unfold slot. rewrite byte_index_of_nat by lia.
      split; [done|]. split; [lia|]. done.
    + exists b, ptr', c', v. split; [done|]. split; [lia|]. done.
Qed.

(** What the loop does with a node from slot [i] on. *)
Definition node_from t p (pb : PointerBlock) (i : nat) (mi : option nat) : Prop :=
  exists n l, lists t n (Node pb, mi, p) l /\ enumerates p (slot_key t pb i) l
    /\ forall k, In k l -> exists b bs, (i <= byte_index b)%nat /\ key_under (p ++ [b]) k bs.

Lemma node_from_none t p pb i mi :
  default 0%nat mi = i -> next_slot (RADIX - i) pb i = None -> node_from t p pb i mi.
Proof.
  intros Hi En. pose proof (next_slot_spec (RADIX - i) pb i) as Hns. rewrite En in Hns.
  exists 1%nat, []. split; [|split; [split; [|split; [constructor|done]]|done]].
  - intros fuel visited ret. cbn [plus TrieStore.keys_loop].
    replace (match mi with Some i => i | None => 0%nat end) with i by (by destruct mi).
    rewrite En. by rewrite app_nil_r.
  - intros k. split; [done|]. intros (b & ptr & c & v & Hs & Hle & _).
    destruct (Hns (byte_index b) ptr); [pose proof (byte_index_lt b); lia | done].
Qed.

Lemma node_from_some t p pb i mi j ptr :
  children_listed t p pb -> default 0%nat mi = i -> next_slot (RADIX - i) pb i = Some (j, ptr) ->
  node_from t p pb (S j) (Some (S j)) -> node_from t p pb i mi.
Proof.
  intros Hc Hi En (nr & lr & Hlr & (Hkr & Hsr & Hur) & Hbr).
  pose proof (next_slot_spec (RADIX - i) pb i) as Hns. rewrite En in Hns.
  destruct Hns as (Hij & Hj & He). set (b := byte_of_Z (Z.of_nat j)).
  assert (byte_index b = j) as Eb by (apply byte_index_of_nat; lia).
  assert (slot pb b ptr) as Hs by (unfold slot; by rewrite Eb).
  destruct (Hc b ptr Hs) as (c & nc & lc & Hat & Hlc & Hkc & Hsc & Huc).
  exists (S (nc + nr)), (lc ++ lr). split; [|split; [split; [|split]|]].
  - intros fuel visited ret. cbn [plus TrieStore.keys_loop].
    replace (match mi with Some i => i | None => 0%nat end) with i by (by destruct mi).
    rewrite En. unfold TrieSpec.at_hash in Hat. rewrite Hat. cbn [obind]. fold b.
    rewrite <- Nat.add_assoc, Hlc, Hlr. by rewrite app_assoc.
  - intros k. rewrite in_app_iff, Hkc, Hkr. symmetry.
    apply (slot_key_next t pb i j ptr c k); [done | done | lia | done].
  - apply sorted_app; [done..|]. intros k1 k2 Hk1 Hk2.
    destruct (Huc k1 Hk1) as (bs1 & U1). destruct (Hbr k2 Hk2) as (b2 & bs2 & Hle & U2).
    apply (key_before_slots p b b2 k1 k2 bs1 bs2); [done..|lia].
  - intros k [Hk|Hk]%in_app_iff; [|by apply Hur]. destruct (Huc k Hk) as (bs & U).
    exists bs. by apply key_under_app in U.
  - intros k [Hk|Hk]%in_app_iff.
    + destruct (Huc k Hk) as (bs & U). exists b, bs. split; [lia|done].
    + destruct (Hbr k Hk) as (b2 & bs & ? & U). exists b2, bs. split; [lia|done].
Qed.

Lemma node_listed t p pb m i mi :
  children_listed t p pb -> (RADIX - i < m)%nat -> default 0%nat mi = i -> node_from t p pb i mi.
Proof.
  intros Hc. revert i mi. induction m as [|m IH]; intros i mi Hm Hi; [lia|].
  destruct (next_slot (RADIX - i) pb i) as [[j ptr]|] eqn:En; [|by apply node_from_none].
  pose proof (next_slot_spec (RADIX - i) pb i) as Hns. rewrite En in Hns.
  apply (node_from_some t p pb i mi j ptr); [done | done | done |]. apply IH; [lia | done].
Qed.

Lemma element_listed t p tr :
  trie_wf t p tr -> exists n l, lists t n (tr, None, p) l /\ enumerates p (key_of t tr) l.
Proof.
  induction 1 as [p k v bs Hv Hu|p pb child Hb Hn Hc _ IH|p affix h pb Ha Hh Hz He Hat _ IH].
  - exists 1%nat, [k]. pose proof Hu as (Hk & E & x & ->). split; [|split; [|split]].
    + intros fuel visited ret. cbn [plus TrieStore.keys_loop]. rewrite E. cbn [omap_err obind].
      rewrite take_app_length, bool_decide_eq_true_2 by done. done.
    + intros k'. cbn. split; [intros [<-|[]]; exists v; constructor|].
      intros (v' & Hl). inversion Hl. by left.
    + repeat constructor.
    + intros k' [<-|[]]. eauto.
  - assert (children_listed t p pb) as Hch.
    { intros b ptr Hs. destruct (IH b ptr Hs) as (n & l & ? & ?). exists (child b), n, l.
      by destruct (Hc b ptr Hs). }
    destruct (node_listed t p pb (S RADIX) 0 None Hch) as (n & l & Hl & (Hk & Hs & Hu) & _); [lia|done|].
    exists n, l. split; [done|]. split; [|done]. intros k. rewrite Hk. split.
    + intros (b & ptr & c & v & Hsl & _ & Hat & Hin). exists v. by eapply in_node.
    + intros (v & Hin). inversion Hin as [|? b ptr c ? ? Hsl Hat Hin'|]; subst.
      exists b, ptr, c, v. split; [done|]. split; [lia|done].
  - destruct IH as (n & l & Hl & Hk & Hs & Hu). exists (S n), l. split; [|split; [|split]].
    + intros fuel visited ret. cbn [plus TrieStore.keys_loop pointer_hash].
      unfold TrieSpec.at_hash in Hat. rewrite Hat. cbn [obind]. apply Hl.
    + intros k. rewrite Hk. split; intros (v & Hin); exists v.
      * by eapply in_extension.
      * inversion Hin as [| |? ? c ? ? Hat' Hin']; subst. cbn in Hat'.
        by rewrite (at_hash_fun _ _ _ _ _ _ _ Hat' Hat) in Hin'.
    + done.
    + intros k Hin. destruct (Hu k Hin) as (bs & U). exists bs. by apply key_under_app in U.
Qed.

(** C34: enumerating a well-formed root terminates without panicking and lists the
    keys of the map it denotes, each once, in the order of their serialized
    forms; fuel beyond what the walk needs changes nothing. *)
Theorem trie_keys_correct t root :
  root_wf ck cv handle vk vv t root ->
  exists enough l, (forall fuel, (enough <= fuel)%nat -> keys ck cv handle fuel t root = Ok l)
    /\ (forall k, In k l <-> exists v, value_at ck cv handle t root k v)
    /\ StronglySorted key_before l /\ List.NoDup l.
Proof.
  intros (pb & Hat & Hwf). destruct (element_listed t [] (Node pb) Hwf) as (n & l & Hl & Hk & Hs & _).
  exists n, l. split; [|split; [|split; [done | by apply sorted_nodup]]].
  - intros fuel Hf. unfold keys. unfold TrieSpec.at_hash in Hat. rewrite Hat. cbn [obind].
    replace fuel with (n + (fuel - n))%nat by lia. rewrite Hl. by destruct (fuel - n)%nat.
  - intros k. rewrite Hk. split; intros (v & Hin); exists v.
    + by exists (Node pb).
    + destruct Hin as (tr & Hat' & Hin). by rewrite (at_hash_fun _ _ _ _ _ _ _ Hat' Hat) in Hin.
Qed.
End keys.
