(* ===== verification/GlobalState.v ===== *)
(** Global state: in-memory environments and their transactions, the commit of
    a block's effects onto a state root, checkout and reads.  Sources:
    [engine-storage/src/transaction_source/mod.rs],
    [engine-storage/src/transaction_source/in_memory.rs],
    [engine-storage/src/global_state/mod.rs],
    [engine-storage/src/global_state/in_memory.rs]. *)

From stdpp Require Import gmap.
From S2P Require Import Prelude BTreeMap Bytesrepr Uint Types CLValues Account StoredValue Transform.
From S2P Require Import Trie TrieStore TrieSpec TrieWrite.

(** * In-memory transactions *)

Abbreviation BytesMap := (gmap bytes bytes).

(** The name of a database. *)
Abbreviation Handle := (option bytes).

(** The shared data of an [InMemoryEnvironment]; a transaction works on a copy
    of it, its view. *)
Abbreviation InMemoryData := (gmap Handle BytesMap).

(** [in_memory::Error]: a lock poisoned by a panicking thread. *)
Inductive InMemoryError := PoisonError.

Definition in_memory_read (view : InMemoryData) (handle : Handle) (key : bytes)
    : outcome InMemoryError (option bytes) :=
  match view !! handle with
  | Some sub_view => Ok (sub_view !! key)
  | None => Ok None
  end.

Definition in_memory_write (view : InMemoryData) (handle : Handle) (key value : bytes)
    : outcome InMemoryError InMemoryData :=
  let sub_view := match view !! handle with Some m => m | None => ∅ end in
  Ok (<[ handle := <[ key := value ]> sub_view ]> view).

(** [store_ref_lock.extend(self.view)]: every database of the view replaces the
    one of that name. *)
Definition in_memory_commit (data view : InMemoryData) : InMemoryData := view ∪ data.

Definition in_memory_default : InMemoryData := {[ None := ∅ ]}.

#[global] Instance in_memory_transaction : Transaction InMemoryData Handle InMemoryError := {
  txn_read := in_memory_read;
  txn_write := in_memory_write;
}.

#[global] Instance in_memory_laws : TransactionLaws InMemoryData Handle InMemoryError.
Proof.
  split; cbn; unfold in_memory_read, in_memory_write; [| |done].
  - intros t t' h k v <-%Ok_inj. rewrite lookup_insert_eq. by rewrite lookup_insert_eq.
  - intros t t' h k v h' k' <-%Ok_inj Hne. destruct (decide (h' = h)) as [->|Hh].
    + rewrite lookup_insert_eq. assert (k <> k') by congruence.
      rewrite lookup_insert_ne by done. by destruct (t !! h).
    + by rewrite lookup_insert_ne.
Qed.

#[global] Instance in_memory_total : TransactionTotal InMemoryData Handle InMemoryError.
Proof. intros t h k v. cbn. unfold in_memory_write. eauto. Qed.

(** A source of read-write transactions. *)
Class TransactionSource (Env T TE : Type) := {
  create_read_write_txn : Env -> outcome TE T;
  txn_commit : Env -> T -> outcome TE Env;
}.

#[global] Instance in_memory_environment : TransactionSource InMemoryData InMemoryData InMemoryError := {
  create_read_write_txn env := Ok env;
  txn_commit env txn := Ok (in_memory_commit env txn);
}.

(** * Commit *)

Inductive CommitResult :=
| CR_RootNotFound
| CR_Success (state_root : Blake2bHash) (bonded_validators : list (PublicKey * Z))
| CR_KeyNotFound (key : Key)
| CR_TypeMismatch (m : TypeMismatch)
| CR_Serialization (e : Bytesrepr.Error).

(** [impl From<transform::Error> for CommitResult]. *)
Definition commit_result_from_error (e : TransformError) : CommitResult :=
  match e with
  | TE_TypeMismatch m => CR_TypeMismatch m
  | TE_Serialization e => CR_Serialization e
  end.

(** A serialized key is at most 35 bytes long: no walk visits more elements. *)
Definition KEY_FUEL : nat := 36.

Section global_state.
Context {T H TE : Type} `{Transaction T H TE} {hasher : Hasher} {dbg : DebugText} (handle : H).

Let SE := StoreError TE.

(** [trie_store.get], [operations::read] and [operations::write] at
    [Key] and [StoredValue]. *)
Definition state_get (txn : T) (root : Blake2bHash) : outcome SE (option (Trie Key StoredValue)) :=
  trie_store_get key_codec stored_value_codec handle txn root.

Definition state_read (txn : T) (root : Blake2bHash) (key : Key) : outcome SE (ReadResult StoredValue) :=
  read key_codec stored_value_codec handle KEY_FUEL txn root key.

Definition state_write (txn : T) (root : Blake2bHash) (key : Key) (value : StoredValue)
    : outcome SE (T * WriteResult) :=
  write key_codec stored_value_codec handle KEY_FUEL txn root key value.

(** The new value of a key, or the result that ends the commit. *)
Definition effect_value (key : Key) (read_result : ReadResult StoredValue) (transform : Transform)
    : outcome SE (StoredValue + CommitResult) :=
  match read_result, transform with
  | NotFound, Write new_value => Ok (inl new_value)
  | NotFound, _ => Ok (inr (CR_KeyNotFound key))
  | Found current_value, transform =>
      match apply_transform transform current_value with
      | Ok updated_value => Ok (inl updated_value)
      | Err err => Ok (inr (commit_result_from_error err))
      | Panic => Panic
      end
  | RootNotFound, _ => Panic
  end.

(** The loop of [commit]; the effects come in the order in which the hash map
    yields them. *)
Fixpoint commit_loop (txn : T) (state_root : Blake2bHash) (effects : list (Key * Transform))
    : outcome SE ((T * Blake2bHash) + CommitResult) :=
  match effects with
  | [] => Ok (inl (txn, state_root))
  | (key, transform) :: effects' =>
      let? read_result := state_read txn state_root key in
      let? value := effect_value key read_result transform in
      match value with
      | inr result => Ok (inr result)
      | inl value =>
          let? '(txn', write_result) := state_write txn state_root key value in
          match write_result with
          | Written root_hash => commit_loop txn' root_hash effects'
          | AlreadyExists => commit_loop txn' state_root effects'
          | WriteRootNotFound => Panic
          end
      end
  end.

Context {Env : Type} `{!TransactionSource Env T TE}.

Definition commit (environment : Env) (prestate_hash : Blake2bHash) (effects : list (Key * Transform))
    : outcome SE (Env * CommitResult) :=
  let? txn := omap_err SE_Transaction (create_read_write_txn environment) in
  let? maybe_root := state_get txn prestate_hash in
  match maybe_root with
  | None => Ok (environment, CR_RootNotFound)
  | Some _ =>
      let? done := commit_loop txn prestate_hash effects in
      match done with
      | inr result => Ok (environment, result)
      | inl (txn', state_root) =>
          let? environment' := omap_err SE_Transaction (txn_commit environment txn') in
          Ok (environment', CR_Success state_root [])
      end
  end.
End global_state.

(** * The in-memory global state *)

Section in_memory_global_state.
Context {hasher : Hasher} {dbg : DebugText} (handle : Handle).

Let SE := StoreError InMemoryError.

(** [InMemoryGlobalState::empty]: the data and the empty root. *)
Definition global_state_empty : outcome SE (InMemoryData * Blake2bHash) :=
  let? '(root_hash, root) :=
    omap_err SE_BytesRepr (create_hashed_empty_trie key_codec stored_value_codec) in
  let txn := in_memory_default in
  let? txn' := trie_store_put key_codec stored_value_codec handle txn root_hash root in
  Ok (in_memory_commit in_memory_default txn', root_hash).

Fixpoint write_pairs (txn : InMemoryData) (current_root : Blake2bHash) (pairs : list (Key * StoredValue))
    : outcome SE (InMemoryData * Blake2bHash) :=
  match pairs with
  | [] => Ok (txn, current_root)
  | (key, value) :: pairs' =>
      let? '(txn', result) := state_write handle txn current_root (normalize key) value in
      match result with
      | Written root_hash => write_pairs txn' root_hash pairs'
      | AlreadyExists => write_pairs txn' current_root pairs'
      | WriteRootNotFound => Panic
      end
  end.

Definition global_state_from_pairs (pairs : list (Key * StoredValue))
    : outcome SE (InMemoryData * Blake2bHash) :=
  let? '(data, empty_root) := global_state_empty in
  let? '(txn, root) := write_pairs data empty_root pairs in
  Ok (in_memory_commit data txn, root).

(** [checkout]: the view of a root, if the root is there. *)
Definition checkout (data : InMemoryData) (prestate_hash : Blake2bHash)
    : outcome SE (option Blake2bHash) :=
  let? maybe_root := state_get handle data prestate_hash in
  Ok (match maybe_root with Some _ => Some prestate_hash | None => None end).

(** [StateReader::read] of a view. *)
Definition view_read (data : InMemoryData) (root_hash : Blake2bHash) (key : Key)
    : outcome SE (option StoredValue) :=
  let? r := state_read handle data root_hash key in
  match r with
  | Found value => Ok (Some value)
  | NotFound => Ok None
  | RootNotFound => Panic
  end.
End in_memory_global_state.

(** * Concurrent writers of one in-memory environment *)

Module Writers.

(** A thread between the two halves of [InMemoryReadWriteTransaction::new] holds
    the copy it took of the data and waits for the write lock; afterwards it
    holds the lock. *)
Inductive Thread :=
| Waiting (view : InMemoryData)
| Active (view : InMemoryData).

Record State := mk_state {
  data : InMemoryData;
  write_lock : option nat;
  threads : gmap nat Thread;
}.

Inductive Action :=
| Snapshot (tid : nat)
| Acquire (tid : nat)
| WriteKey (tid : nat) (handle : Handle) (key value : bytes)
| Commit (tid : nat)
| Abort (tid : nat).

Definition initial : State := mk_state in_memory_default None ∅.

(** One action of one thread, where it is enabled. *)
Definition act (a : Action) (s : State) : option State :=
  match a with
  | Snapshot tid =>
      match threads s !! tid with
      | None => Some (mk_state (data s) (write_lock s) (<[ tid := Waiting (data s) ]> (threads s)))
      | Some _ => None
      end
  | Acquire tid =>
      match threads s !! tid, write_lock s with
      | Some (Waiting view), None =>
          Some (mk_state (data s) (Some tid) (<[ tid := Active view ]> (threads s)))
      | _, _ => None
      end
  | WriteKey tid handle key value =>
      match threads s !! tid with
      | Some (Active view) =>
          match in_memory_write view handle key value with
          | Ok view' => Some (mk_state (data s) (write_lock s) (<[ tid := Active view' ]> (threads s)))
          | _ => None
          end
      | _ => None
      end
  | Commit tid =>
      match threads s !! tid with
      | Some (Active view) =>
          Some (mk_state (in_memory_commit (data s) view) None (delete tid (threads s)))
      | _ => None
      end
  | Abort tid =>
      match threads s !! tid with
      | Some (Active _) => Some (mk_state (data s) None (delete tid (threads s)))
      | _ => None
      end
  end.

Fixpoint run (l : list Action) (s : State) : option State :=
  match l with
  | [] => Some s
  | a :: l' => match act a s with Some s' => run l' s' | None => None end
  end.

Definition step (s s' : State) : Prop := exists a, act a s = Some s'.

(** The holder of the lock is the one active thread. *)
Definition lock_inv (s : State) : Prop :=
  forall tid, (exists view, threads s !! tid = Some (Active view)) <-> write_lock s = Some tid.

Lemma lock_inv_step s s' : lock_inv s -> step s s' -> lock_inv s'.
Proof.
  intros Hinv [a Ha]. unfold act in Ha. intros tid'. pose proof (Hinv tid') as Ht.
  destruct a as [tid|tid|tid h k v|tid|tid];
    destruct (threads s !! tid) as [[view|view]|] eqn:E; try done.
  - injection Ha as <-. cbn. rewrite <- Ht. destruct (decide (tid' = tid)) as [->|Hne].
    + rewrite lookup_insert_eq, E. naive_solver.
    + by rewrite lookup_insert_ne.
  - destruct (write_lock s) eqn:El; [done|]. injection Ha as <-. cbn.
    destruct (decide (tid' = tid)) as [->|Hne].
    + rewrite lookup_insert_eq. naive_solver.
    + rewrite lookup_insert_ne by done. rewrite Ht. naive_solver.
  - injection Ha as <-. cbn. rewrite <- Ht. destruct (decide (tid' = tid)) as [->|Hne].
    + rewrite lookup_insert_eq, E. naive_solver.
    + by rewrite lookup_insert_ne.
  - injection Ha as <-. cbn. assert (write_lock s = Some tid) as El by (apply Hinv; eauto).
    destruct (decide (tid' = tid)) as [->|Hne].
    + rewrite lookup_delete_eq. naive_solver.
    + rewrite lookup_delete_ne, Ht, El by done. naive_solver.
  - injection Ha as <-. cbn. assert (write_lock s = Some tid) as El by (apply Hinv; eauto).
    destruct (decide (tid' = tid)) as [->|Hne].
    + rewrite lookup_delete_eq. naive_solver.
    + rewrite lookup_delete_ne, Ht, El by done. naive_solver.
Qed.

(** However writers interleave, at most one of them is past the lock. *)
Theorem writers_exclusive s tid1 tid2 view1 view2 :
  rtc step initial s ->
  threads s !! tid1 = Some (Active view1) -> threads s !! tid2 = Some (Active view2) -> tid1 = tid2.
Proof.
  intros Hr H1 H2.
  assert (lock_inv s) as Hinv.
  { assert (lock_inv initial) as H0.
    { intros tid. cbn. rewrite lookup_empty. naive_solver. }
    revert H0. induction Hr as [|x y z Hs _ IH]; [done|]. intros Hx. apply IH; [done|done|].
    by eapply lock_inv_step. }
  assert (write_lock s = Some tid1) as E1 by (apply Hinv; eauto).
  assert (write_lock s = Some tid2) as E2 by (apply Hinv; eauto). congruence.
Qed.

(** The lock does not make transactions serializable. A writer that copied
    the data before an earlier writer committed publishes its stale copy: the
    earlier writer's key is gone, although both committed. *)
Theorem writers_lose_update :
  let first := [Snapshot 1; Acquire 1; Snapshot 2; WriteKey 1 None [x01] [x0a]; Commit 1] in
  let second := [Acquire 2; WriteKey 2 None [x02] [x0b]; Commit 2] in
  let reads s := (in_memory_read (data s) None [x01], in_memory_read (data s) None [x02]) in
  option_map reads (run first initial) = Some (Ok (Some [x0a]), Ok None)
  /\ option_map reads (run (first ++ second) initial) = Some (Ok None, Ok (Some [x0b])).
Proof. split; vm_compute; reflexivity. Qed.
End Writers.

(** * Lemmas *)

Lemma key_enough k : key_valid k -> enough key_codec KEY_FUEL k.
Proof.
  intros Hv bs E. pose proof (key_to_bytes_len k bs Hv E) as [[H1 H2] _].
  unfold key_serialized_size_hint, KEY_UREF_SERIALIZED_LENGTH, UREF_SERIALIZED_LENGTH,
    OPTION_TAG_SERIALIZED_LENGTH in H2. unfold KEY_FUEL, zlen in *. lia.
Qed.

(** The serialized forms of keys with the same first byte. *)
Lemma key_tail k b x :
  key_valid k -> key_to_bytes k = Ok (b :: x) ->
  (b <> byte_of_Z UREF_ID -> length x = 32%nat)
  /\ (b = byte_of_Z UREF_ID -> (33 <= length x <= 34)%nat).
Proof.
  intros Hv E. destruct k as [a|a|[a [r|]]|a]; cbn in Hv, E; injection E as <- <-;
    unfold uref_valid in Hv; cbn in Hv;
    assert (length a = 32%nat) by (exact Hv || exact (proj1 Hv)); clear Hv.
  all: split; intros Hb; try done; rewrite ?length_app; cbn [length]; lia.
Qed.

#[global] Instance key_trie_key : TrieKey key_codec key_valid.
Proof.
  split.
  - intros k Hv. destruct (key_to_bytes_total k) as [bs E]. exists bs. split; [done|].
    pose proof (key_enough k Hv bs E) as Hl. unfold KEY_FUEL in Hl. split.
    + destruct k as [a|a|[a [r|]]|a]; cbn in E; by injection E as <-.
    + unfold zlen. lia.
  - intros k1 k2 k3 b x1 x2 x3 p V1 V2 V3 Hne E1 E2 E3. cbn in E1, E2, E3.
    destruct (key_tail _ _ _ V1 E1) as [N1 U1]. destruct (key_tail _ _ _ V2 E2) as [N2 U2].
    destruct (key_tail _ _ _ V3 E3) as [N3 U3]. rewrite !length_app in *.
    destruct (decide (b = byte_of_Z UREF_ID)) as [Hb|Hb].
    + specialize (U1 Hb). specialize (U2 Hb). specialize (U3 Hb).
      destruct (decide (length p = 34%nat)) as [Hp|Hp]; [|lia].
      assert (x1 = [] /\ x2 = []) as [-> ->].
      { destruct x1, x2; cbn in *; [done|lia|lia|lia]. }
      destruct Hne. eapply (to_bytes_inj key_codec key_valid); [exact V1 | exact V2 | exact E1 | exact E2].
    + specialize (N1 Hb). specialize (N3 Hb). lia.
Qed.

Section commit_spec.
Context {T H TE : Type} `{TransactionLaws T H TE} {hasher : Hasher} {hl : HasherLaws}.
Context {dbg : DebugText} (handle : H).
Implicit Types (t : T) (root : Blake2bHash) (k : Key) (tr : Transform) (v : StoredValue).

#[local] Abbreviation root_wf := (root_wf key_codec stored_value_codec handle key_valid stored_value_valid).
#[local] Abbreviation state_read := (state_read handle).
#[local] Abbreviation state_write := (state_write handle).

#[local] Opaque read write trie_store_get.

Definition effect_ok (e : Key * Transform) : Prop := key_valid e.1 /\ transform_valid e.2.

(** No write of a commit meets a hash collision. *)
Fixpoint commit_no_collision t root (effects : list (Key * Transform)) : bool :=
  match effects with
  | [] => true
  | (key, transform) :: effects' =>
      match (let? r := state_read t root key in effect_value key r transform) with
      | Ok (inl value) =>
          match write_elements key_codec stored_value_codec handle KEY_FUEL t root key value with
          | Ok es => no_collision_b key_codec stored_value_codec handle t es
          | _ => true
          end
          && match state_write t root key value with
             | Ok (t', Written root') => commit_no_collision t' root' effects'
             | Ok (t', AlreadyExists) => commit_no_collision t' root effects'
             | _ => true
             end
      | _ => true
      end
  end.

(** Older roots are untouched. *)
Definition roots_kept t t' : Prop :=
  forall root0 k, root_wf t root0 -> key_valid k ->
    root_wf t' root0 /\ state_read t' root0 k = state_read t root0 k.

Lemma roots_kept_refl t : roots_kept t t.
Proof. by intros ? ?. Qed.

Lemma roots_kept_trans t1 t2 t3 : roots_kept t1 t2 -> roots_kept t2 t3 -> roots_kept t1 t3.
Proof.
  intros H12 H23 root0 k Hr Hk. destruct (H12 root0 k Hr Hk) as [Hr2 E2].
  destruct (H23 root0 k Hr2 Hk) as [Hr3 E3]. split; [done|]. rewrite E3. exact E2.
Qed.

Lemma state_read_total t root k :
  root_wf t root -> key_valid k -> exists r, state_read t root k = Ok r /\ r <> RootNotFound.
Proof.
  intros Hr Hk.
  destruct (read_spec key_codec stored_value_codec handle key_valid stored_value_valid
    KEY_FUEL t root k Hr Hk (key_enough k Hk)) as (r & E & Hn & _). by exists r.
Qed.

Lemma effect_value_cases t root k tr r :
  root_wf t root -> effect_ok (k, tr) -> state_read t root k = Ok r -> r <> RootNotFound ->
  (exists v, effect_value (TE := TE) k r tr = Ok (inl v) /\ stored_value_valid v)
  \/ (exists result, effect_value (TE := TE) k r tr = Ok (inr result)).
Proof.
  intros Hr [Hk Htr] Hrd Hn. cbn in Hk, Htr. destruct r as [c| |]; [| |done]; cbn.
  - pose proof (apply_no_panic tr c) as Hp.
    pose proof (read_valid key_codec stored_value_codec handle key_valid stored_value_valid
      KEY_FUEL t root k c Hr Hk (key_enough k Hk) Hrd) as Hc.
    destruct (apply_transform tr c) as [v|e|] eqn:Ea; [|by right; eauto|done].
    left. exists v. split; [done|]. by eapply apply_valid.
  - destruct tr; try (right; by eauto). left. by eexists.
Qed.

(** Errors of a commit: a value that does not serialize, or a failed write of
    the transaction. *)
Definition write_error (e : StoreError TE) : Prop :=
  match e with
  | SE_BytesRepr _ => True
  | SE_Transaction te => exists t1 h bs, txn_write t1 handle h bs = Err te
  end.

(** One write of a commit. *)
Lemma state_write_step t root k v :
  root_wf t root -> key_valid k -> stored_value_valid v ->
  match write_elements key_codec stored_value_codec handle KEY_FUEL t root k v with
  | Ok es => no_collision_b key_codec stored_value_codec handle t es
  | _ => true
  end = true ->
  match state_write t root k v with
  | Ok (t', Written root') =>
      root_wf t' root' /\ state_read t' root' k = Ok (Found v) /\ roots_kept t t'
      /\ forall k', key_valid k' -> k' <> k -> state_read t' root' k' = state_read t root k'
  | Ok (t', AlreadyExists) => t' = t /\ state_read t root k = Ok (Found v)
  | Ok (_, WriteRootNotFound) => False
  | Err e => write_error e
  | Panic => False
  end.
Proof.
  intros Hr Hk Hv Hnc. pose proof (key_enough k Hk) as Hf.
  pose proof (write_spec key_codec stored_value_codec handle key_valid stored_value_valid
    KEY_FUEL t root k v Hr Hk Hv Hf (stored_value_to_bytes_safe v)) as Hw.
  assert (write_ok key_codec stored_value_codec handle key_valid stored_value_valid t root k v
    (state_write t root k v)) as Hok.
  { apply Hw. intros es E. rewrite E in Hnc. by apply no_collision_check. }
  clear Hw. destruct (state_write t root k v) as [[t' [root'| |]]|e|] eqn:E;
    [| |destruct Hok|destruct e; [exact I|exact Hok]|destruct Hok].
  - destruct (written_reads key_codec stored_value_codec handle key_valid stored_value_valid
      KEY_FUEL t root k v t' root' Hr Hk Hf Hok) as (Hwf & Hrd & Ho & Hold).
    split; [exact Hwf|]. split; [exact Hrd|]. split.
    + intros root0 k' Hr0 Hk'. exact (Hold root0 k' Hr0 Hk' (key_enough k' Hk')).
    + intros k' Hk' Hne. exact (Ho k' Hk' (key_enough k' Hk') Hne).
  - destruct Hok as [-> Hval]. split; [done|].
    exact (exists_reads key_codec stored_value_codec handle key_valid stored_value_valid
      KEY_FUEL t root k v Hr Hk Hf Hval).
Qed.

(** What a commit does to the state, effect by effect. *)
Definition committed t root (effects : list (Key * Transform)) t' root' : Prop :=
  root_wf t' root' /\ roots_kept t t'
  /\ (forall k tr, In (k, tr) effects -> exists r v,
        state_read t root k = Ok r /\ effect_value (TE := TE) k r tr = Ok (inl v)
        /\ state_read t' root' k = Ok (Found v))
  /\ (forall k, key_valid k -> ~ In k (map fst effects) -> state_read t' root' k = state_read t root k).

Lemma committed_cons t root k tr r v t1 root1 effects t' root' :
  ~ In k (map fst effects) -> effect_ok (k, tr) -> Forall effect_ok effects ->
  state_read t root k = Ok r -> effect_value (TE := TE) k r tr = Ok (inl v) ->
  state_read t1 root1 k = Ok (Found v) -> roots_kept t t1 ->
  (forall k', key_valid k' -> k' <> k -> state_read t1 root1 k' = state_read t root k') ->
  committed t1 root1 effects t' root' -> committed t root ((k, tr) :: effects) t' root'.
Proof.
  intros Hnin [Hk _] Hall Hr He Hv Hkept Ho (Hwf & Hkept' & Hin & Hout).
  split; [done|]. split; [by eapply roots_kept_trans|]. split.
  - intros k' tr' [[= <- <-]|Hin'].
    + exists r, v. rewrite Hout by done. done.
    + destruct (Hin k' tr' Hin') as (r' & v' & Hr' & He' & Hv'). exists r', v'.
      split; [|done]. rewrite <- Hr'. symmetry. apply Ho.
      * rewrite List.Forall_forall in Hall. apply (Hall _ Hin').
      * intros ->. apply Hnin. by apply (in_map fst) in Hin'.
  - intros k' Hk' Hn. cbn in Hn. rewrite Hout by tauto. apply Ho; [done|]. intros ->. tauto.
Qed.

Lemma commit_loop_spec t root effects :
  root_wf t root -> Forall effect_ok effects -> List.NoDup (map fst effects) ->
  commit_no_collision t root effects = true ->
  match commit_loop handle t root effects with
  | Ok (inl (t', root')) => committed t root effects t' root'
  | Ok (inr result) => exists k tr r, In (k, tr) effects
      /\ state_read t root k = Ok r /\ effect_value (TE := TE) k r tr = Ok (inr result)
  | Err e => write_error e
  | Panic => False
  end.
Proof.
  revert t root. induction effects as [|[k tr] effects IH]; intros t root Hwf Hall Hnd Hnc.
  { cbn. split; [done|]. split; [apply roots_kept_refl|]. by split. }
  apply Forall_cons_iff in Hall as [Hk Hall]. cbn [map] in Hnd. inversion Hnd as [|? ? Hnin Hnd']; subst.
  cbn [commit_loop commit_no_collision] in *.
  destruct (state_read_total t root k Hwf (proj1 Hk)) as (r & Hr & Hrn). rewrite Hr in *. cbn [obind] in *.
  destruct (effect_value_cases t root k tr r Hwf Hk Hr Hrn) as [(v & He & Hv)|(result & He)];
    rewrite He in *; cbn [obind] in *; [|exists k, tr, r; split; [by left|done]].
  apply andb_true_iff in Hnc as [Hnc1 Hnc2].
  pose proof (state_write_step t root k v Hwf (proj1 Hk) Hv Hnc1) as Hstep.
  destruct (state_write t root k v) as [[t1 [root1| |]]|e|]; cbn [obind];
    [| |exact Hstep|exact Hstep|exact Hstep].
  - destruct Hstep as (Hwf1 & Hv1 & Hkept & Ho). specialize (IH t1 root1 Hwf1 Hall Hnd' Hnc2).
    destruct (commit_loop handle t1 root1 effects) as [[[t' root']|result]|e|]; [| |exact IH|exact IH].
    + exact (committed_cons _ _ _ _ _ _ _ _ _ _ _ Hnin Hk Hall Hr He Hv1 Hkept Ho IH).
    + destruct IH as (k' & tr' & r' & Hin & Hr' & He'). exists k', tr', r'. split; [by right|].
      split; [|done]. rewrite <- Hr'. symmetry. apply Ho.
      * rewrite List.Forall_forall in Hall. apply (Hall _ Hin).
      * intros ->. apply Hnin. by apply (in_map fst) in Hin.
  - destruct Hstep as [-> Hv1]. specialize (IH t root Hwf Hall Hnd' Hnc2).
    destruct (commit_loop handle t root effects) as [[[t' root']|result]|e|]; [| |exact IH|exact IH].
    + refine (committed_cons _ _ _ _ _ _ _ _ _ _ _ Hnin Hk Hall Hr He Hv1 (roots_kept_refl t) _ IH).
      intros; reflexivity.
    + destruct IH as (k' & tr' & r' & Hin & ?). exists k', tr', r'. split; [by right|done].
Qed.

Lemma roots_kept_le t t' : store_le key_codec stored_value_codec handle t t' -> roots_kept t t'.
Proof.
  intros Hle root0 k Hr Hk.
  pose proof (root_wf_mono key_codec stored_value_codec handle key_valid stored_value_valid
    t t' root0 Hle Hr) as Hr'.
  split; [exact Hr'|].
  apply (read_ext key_codec stored_value_codec handle key_valid stored_value_valid);
    [exact Hr | exact Hr' | exact Hk | exact (key_enough k Hk) |].
  intros v. exact (value_at_mono key_codec stored_value_codec handle key_valid stored_value_valid
    t t' root0 k v Hle Hr).
Qed.

Lemma committed_le t root effects t1 root' t' :
  store_le key_codec stored_value_codec handle t1 t' -> Forall effect_ok effects ->
  committed t root effects t1 root' -> committed t root effects t' root'.
Proof.
  intros Hle%roots_kept_le Hall (Hwf & Hkept & Hin & Hout). split; [|split; [|split]].
  - destruct (Hle root' (Key_Account (replicate 32 x00)) Hwf) as [? _]; [reflexivity|assumption].
  - exact (roots_kept_trans _ _ _ Hkept Hle).
  - intros k tr Hi. destruct (Hin k tr Hi) as (r & v & Hr & He & Hv). exists r, v.
    split; [exact Hr|]. split; [exact He|]. rewrite List.Forall_forall in Hall.
    destruct (Hle root' k Hwf (proj1 (Hall _ Hi))) as [_ ->]. exact Hv.
  - intros k Hk Hn. destruct (Hle root' k Hwf Hk) as [_ ->]. exact (Hout k Hk Hn).
Qed.

(** Two commits of the same effects, in whatever order, read alike. *)
Lemma committed_fun t root effects effects' t1 root1 t2 root2 k :
  Permutation effects effects' ->
  committed t root effects t1 root1 -> committed t root effects' t2 root2 -> key_valid k ->
  state_read t1 root1 k = state_read t2 root2 k.
Proof.
  intros Hp (_ & _ & Hin1 & Hout1) (_ & _ & Hin2 & Hout2) Hk.
  destruct (in_dec (fun a b => decide (a = b)) k (map fst effects)) as [Hi|Hn].
  - apply in_map_iff in Hi as ([k' tr] & E & Hi). cbn in E. subst k'.
    destruct (Hin1 k tr Hi) as (r & v & Hr & He & Hv).
    destruct (Hin2 k tr (Permutation_in _ Hp Hi)) as (r' & v' & Hr' & He' & Hv').
    rewrite Hr in Hr'. apply Ok_inj in Hr' as <-. rewrite He in He'. apply Ok_inj in He' as [= <-].
    rewrite Hv, Hv'. reflexivity.
  - rewrite (Hout1 k Hk Hn). symmetry. apply (Hout2 k Hk). intros Hi. apply Hn.
    apply (Permutation_in _ (Permutation_sym (Permutation_map fst Hp))). exact Hi.
Qed.
End commit_spec.

(** ** In-memory global states *)

Section in_memory_spec.
Context {hasher : Hasher} {hl : HasherLaws} {dbg : DebugText} (handle : Handle).
Implicit Types (data view : InMemoryData).

#[local] Abbreviation root_wf := (root_wf key_codec stored_value_codec handle key_valid stored_value_valid).

#[local] Opaque read write.

(** Committing a view publishes all of it. *)
Lemma in_memory_commit_le data view :
  store_le key_codec stored_value_codec handle view (in_memory_commit data view).
Proof.
  intros h tr. unfold at_hash, trie_store_get, store_get. cbn. unfold in_memory_read, in_memory_commit.
  destruct (view !! handle) as [m|] eqn:E; [|done].
  by rewrite (lookup_union_Some_l _ _ _ m E).
Qed.

Lemma block_new_valid : block_valid pointer_block_new.
Proof. split; [apply length_replicate|]. by apply Forall_replicate. Qed.

(** The empty state is well formed and holds no key. *)
Lemma global_state_empty_spec :
  exists data root, global_state_empty handle = Ok (data, root) /\ root_wf data root
    /\ forall k v, ~ value_at key_codec stored_value_codec handle data root k v.
Proof.
  destruct (trie_hash_node key_codec stored_value_codec pointer_block_new block_new_valid) as [h Hh].
  unfold global_state_empty, create_hashed_empty_trie.
  unfold trie_hash in Hh. destruct (trie_to_bytes _ _ _) as [bs|?|] eqn:Eb; try done.
  cbn [obind] in Hh. apply Ok_inj in Hh as <-. cbn [obind omap_err].
  destruct (trie_store_put key_codec stored_value_codec handle in_memory_default
    (blake2b_hash_new bs) (Node pointer_block_new)) as [txn|?|] eqn:Ep;
    [|by unfold trie_store_put, store_put in Ep; cbn [to_bytes trie_codec] in Ep; rewrite Eb in Ep ..].
  cbn [obind]. eexists _, _. split; [done|].
  destruct (trie_store_put_spec key_codec stored_value_codec handle key_valid stored_value_valid
    _ _ _ _ Ep block_new_valid) as (Hat & _ & _).
  pose proof (in_memory_commit_le in_memory_default txn _ _ Hat) as Hat'.
  assert (forall b ptr, ~ slot pointer_block_new b ptr) as Hno.
  { intros b ptr Hs. unfold slot, pointer_block_new in Hs. by apply lookup_replicate in Hs as [? _]. }
  split.
  - eexists. split; [exact Hat'|]. apply trie_wf_node; [apply _..|]. split; [exact block_new_valid|]. split.
    + intros k bs' (Hk & E & x & ->). destruct (trie_key_bytes k Hk) as (bs0 & E0 & Hne & _).
      rewrite E in E0. injection E0 as <-. destruct x; [done|]. cbn. lia.
    + intros b ptr _ Hs. by destruct (Hno b ptr).
  - intros k v (tr & Hat2 & Hl). rewrite (at_hash_fun _ _ _ _ _ _ _ Hat2 Hat') in Hl.
    inversion Hl as [|? b ptr ? ? ? Hs|]; subst. by destruct (Hno b ptr).
Qed.

(** An effect that cannot be applied ends the commit with an error. *)
Lemma effect_value_result {TE} k r tr result :
  effect_value (TE := TE) k r tr = Ok (inr result) ->
  match result with CR_RootNotFound | CR_Success _ _ => False | _ => True end.
Proof.
  unfold effect_value. destruct r as [c| |]; [| |discriminate].
  - destruct (apply_transform tr c) as [?|[?|?]|]; intros E; try discriminate E;
      injection E as <-; exact I.
  - destruct tr; intros E; try discriminate E; injection E as <-; exact I.
Qed.

(** The loop decides the outcome of a commit. *)
Lemma commit_outcome data root effects :
  root_wf data root ->
  commit handle data root effects =
    match commit_loop handle data root effects with
    | Ok (inl (view, root')) => Ok (in_memory_commit data view, CR_Success root' [])
    | Ok (inr result) => Ok (data, result)
    | Err e => Err e
    | Panic => Panic
    end.
Proof.
  intros (pb & Hat & _). unfold commit. cbn [create_read_write_txn in_memory_environment omap_err obind].
  unfold state_get. unfold at_hash in Hat. rewrite Hat. cbn [obind].
  destruct (commit_loop handle data root effects) as [[[view root']|result]|e|]; reflexivity.
Qed.

(** The outcomes of a commit. *)
Lemma commit_spec_holds data root effects :
  root_wf data root -> Forall effect_ok effects -> List.NoDup (map fst effects) ->
  commit_no_collision handle data root effects = true ->
  match commit handle data root effects with
  | Ok (data', CR_Success root' _) => committed handle data root effects data' root'
  | Ok (_, CR_RootNotFound) => False
  | Ok (data', result) => data' = data /\ exists k tr r, In (k, tr) effects
      /\ state_read handle data root k = Ok r
      /\ effect_value (TE := InMemoryError) k r tr = Ok (inr result)
  | Err e => exists se, e = SE_BytesRepr se
  | Panic => False
  end.
Proof.
  intros Hwf Hall Hnd Hnc. pose proof (commit_loop_spec handle data root effects Hwf Hall Hnd Hnc) as Hok.
  rewrite (commit_outcome data root effects Hwf).
  destruct (commit_loop handle data root effects) as [[[view root']|result]|[se|te]|].
  - exact (committed_le handle data root effects view root' _ (in_memory_commit_le data view) Hall Hok).
  - destruct Hok as (k & tr & r & Hin & Hr & He). pose proof (effect_value_result k r tr result He) as Hn.
    destruct result; try (destruct Hn; fail);
      (split; [reflexivity|]; exists k, tr, r; split; [exact Hin|]; split; [exact Hr|exact He]).
  - exists se. reflexivity.
  - destruct Hok as (t1 & h & bs & Hw). discriminate Hw.
  - exact Hok.
Qed.

(** C4: a commit onto a well-formed root never panics. When it succeeds, each
    effect was applied to the value its key had before the commit, every other
    key and every older root read as before; when an effect cannot be applied
    the environment is left as it was; and no other failure than a value too
    large to serialize is possible. *)
Theorem commit_correct data root effects :
  root_wf data root -> Forall effect_ok effects -> List.NoDup (map fst effects) ->
  commit_no_collision handle data root effects = true ->
  match commit handle data root effects with
  | Ok (data', CR_Success root' _) => committed handle data root effects data' root'
  | Ok (_, CR_RootNotFound) => False
  | Ok (data', result) => data' = data /\ exists k tr r, In (k, tr) effects
      /\ state_read handle data root k = Ok r
      /\ effect_value (TE := InMemoryError) k r tr = Ok (inr result)
  | Err e => exists se, e = SE_BytesRepr se
  | Panic => False
  end.
Proof. apply commit_spec_holds. Qed.

Lemma commit_success data root effects data' root' vs :
  root_wf data root -> Forall effect_ok effects -> List.NoDup (map fst effects) ->
  commit_no_collision handle data root effects = true ->
  commit handle data root effects = Ok (data', CR_Success root' vs) ->
  committed handle data root effects data' root'.
Proof.
  intros Hwf Hall Hnd Hnc E. pose proof (commit_loop_spec handle data root effects Hwf Hall Hnd Hnc) as Hok.
  rewrite (commit_outcome data root effects Hwf) in E.
  destruct (commit_loop handle data root effects) as [[[view r']|result]|e|]; try discriminate E.
  - injection E as <- <- _.
    exact (committed_le handle data root effects view r' _ (in_memory_commit_le data view) Hall Hok).
  - injection E as _ ->. destruct Hok as (k & tr & r & _ & _ & He).
    destruct (effect_value_result k r tr _ He).
Qed.

(** C5: the hash map of effects may yield them in any order: two commits of the
    same effects onto the same root that succeed give states that read alike
    at every key. *)
Theorem commit_order_irrelevant data root effects effects' data1 root1 vs1 data2 root2 vs2 k :
  root_wf data root -> Forall effect_ok effects -> List.NoDup (map fst effects) ->
  Permutation effects effects' ->
  commit_no_collision handle data root effects = true ->
  commit_no_collision handle data root effects' = true ->
  commit handle data root effects = Ok (data1, CR_Success root1 vs1) ->
  commit handle data root effects' = Ok (data2, CR_Success root2 vs2) ->
  key_valid k -> state_read handle data1 root1 k = state_read handle data2 root2 k.
Proof.
  intros Hwf Hall Hnd Hp Hnc1 Hnc2 E1 E2 Hk.
  apply (committed_fun handle data root effects effects' _ _ _ _ k Hp); [| |exact Hk].
  - exact (commit_success data root effects _ _ _ Hwf Hall Hnd Hnc1 E1).
  - refine (commit_success data root effects' _ _ _ Hwf _ _ Hnc2 E2);
      [exact (Permutation_Forall Hp Hall)|].
    exact (Permutation_NoDup (Permutation_map fst Hp) Hnd).
Qed.
End in_memory_spec.
