(* ===== verification/StoreSim.v ===== *)
(** Two implementations of transactions that hold the same bytes cannot be told
    apart by the operations on tries nor by a commit: the sources are generic in
    the transaction, and this file proves what that is worth.  The second
    implementation may fail on its own, as one on disk does. *)

From S2P Require Import Prelude BTreeMap Bytesrepr Uint Types CLValues Account StoredValue Transform.
From S2P Require Import Trie TrieStore GlobalState.

Section simulation.
Context {T1 H1 E1 : Type} `{!Transaction T1 H1 E1} {laws1 : TransactionLaws T1 H1 E1} {total1 : TransactionTotal T1 H1 E1}.
Context {T2 H2 E2 : Type} `{!Transaction T2 H2 E2} {laws2 : TransactionLaws T2 H2 E2}.
Context `{EqDecision H2} {hasher : Hasher}.

(** The handles of the same database, and of the one an operation works on; and
    what is known of the first transaction beside. *)
Context (same_handle : H1 -> H2 -> Prop) (P : T1 -> Prop) (h1 : H1) (h2 : H2).
Hypothesis same_handle_inj : forall a b, same_handle a b -> a = h1 <-> b = h2.
Hypothesis same_handle_here : same_handle h1 h2.
Hypothesis P_write : forall t k v t', P t -> txn_write t h1 k v = Ok t' -> P t'.

(** * The relation *)

(** The results of the two: unless the second fails on its own, both return
    related values, the same error of serialization, or both panic. *)
Definition sim {A B} (R : A -> B -> Prop) (o1 : outcome (StoreError E1) A) (o2 : outcome (StoreError E2) B) : Prop :=
  match o2 with
  | Ok b => exists a, o1 = Ok a /\ R a b
  | Err (SE_BytesRepr e) => o1 = Err (SE_BytesRepr e)
  | Err (SE_Transaction _) => True
  | Panic => o1 = Panic
  end.

(** The same bytes are read at every key of every database, where the second
    reads. *)
Definition same_reads (t1 : T1) (t2 : T2) : Prop :=
  forall a b k, same_handle a b ->
    match txn_read t2 b k with
    | Ok v => txn_read t1 a k = Ok v
    | Err _ => True
    | Panic => False
    end.

Definition same_store (t1 : T1) (t2 : T2) : Prop := P t1 /\ same_reads t1 t2.

Lemma sim_ok {A B} (R : A -> B -> Prop) a b : R a b -> sim R (Ok a) (Ok b).
Proof. cbn. eauto. Qed.

Lemma sim_panic {A B} (R : A -> B -> Prop) : sim R Panic Panic.
Proof. done. Qed.

Lemma sim_bind {A B C D} (R : A -> B -> Prop) (S : C -> D -> Prop) o1 o2 f g :
  sim R o1 o2 -> (forall a b, R a b -> sim S (f a) (g b)) -> sim S (obind o1 f) (obind o2 g).
Proof.
  intros Ho Hf. destruct o2 as [b|[e|e]|]; cbn in Ho; [|by subst | done | by subst].
  destruct Ho as (a & -> & Hab). by apply Hf.
Qed.

(** What does not use the transaction is the same on both sides. *)
Lemma sim_bytes {A} (o : outcome Bytesrepr.Error A) : sim eq (omap_err SE_BytesRepr o) (omap_err SE_BytesRepr o).
Proof. destruct o; cbn; eauto. Qed.

Lemma sim_block_index b i : sim eq (block_index b i) (block_index b i).
Proof. unfold block_index. repeat case_match; cbn; eauto. Qed.

Lemma sim_index {A} (l : list A) i : sim eq (index_or_panic l i) (index_or_panic l i).
Proof. unfold index_or_panic. repeat case_match; cbn; eauto. Qed.

Lemma sim_slice {A} (l : list A) i j : sim eq (slice l i j) (slice l i j).
Proof. unfold slice. repeat case_match; cbn; eauto. Qed.

Lemma same_store_write t1 t2 k v t1' t2' :
  same_store t1 t2 -> txn_write t1 h1 k v = Ok t1' -> txn_write t2 h2 k v = Ok t2' -> same_store t1' t2'.
Proof.
  intros [HP Hs] W1 W2. split; [by eapply P_write|]. intros a b k' Hab.
  destruct (decide (k' = k /\ b = h2)) as [[-> ->]|Hne].
  - assert (a = h1) as -> by (by apply (same_handle_inj a h2)).
    by rewrite (txn_read_written _ _ _ _ _ W1), (txn_read_written _ _ _ _ _ W2).
  - assert ((a, k') <> (h1, k)) as N1 by (intros [= -> ->]; apply Hne; split; [done|]; by apply (same_handle_inj h1 b)).
    assert ((b, k') <> (h2, k)) as N2 by (intros [= -> ->]; tauto).
    rewrite (txn_read_other _ _ _ _ _ a k' W1) by done. rewrite (txn_read_other _ _ _ _ _ b k' W2) by done. by apply Hs.
Qed.

(** * Stores *)

Section store.
Context {A B : Type} (ca : Codec A) (cb : Codec B).

Lemma sim_store_get t1 t2 k : same_store t1 t2 -> sim eq (store_get ca cb h1 t1 k) (store_get ca cb h2 t2 k).
Proof.
  intros Hs. unfold store_get. eapply sim_bind; [apply sim_bytes|]. intros kb _ <-.
  eapply (sim_bind eq).
  - pose proof (proj2 Hs h1 h2 kb same_handle_here) as Hk. destruct (txn_read t2 h2 kb) as [v|e|]; cbn; [rewrite Hk; cbn; eauto | done | done].
  - intros v _ <-. destruct v as [vb|]; [|by apply sim_ok]. eapply sim_bind; [apply sim_bytes|].
    intros x _ <-. by apply sim_ok.
Qed.

Lemma sim_store_put t1 t2 k v : same_store t1 t2 -> sim same_store (store_put ca cb h1 t1 k v) (store_put ca cb h2 t2 k v).
Proof.
  intros Hs. unfold store_put. eapply sim_bind; [apply sim_bytes|]. intros kb _ <-.
  eapply sim_bind; [apply sim_bytes|]. intros vb _ <-. destruct (txn_write_total t1 h1 kb vb) as [t1' W1].
  rewrite W1. destruct (txn_write t2 h2 kb vb) as [t2'|e|] eqn:W2; cbn; [|done|].
  - eexists. split; [done|]. by eapply same_store_write.
  - by destruct (txn_write_safe t2 h2 kb vb).
Qed.
End store.

(** * Tries *)

Section tries.
Context {K V : Type} `{EqDecision K, EqDecision V} (ck : Codec K) (cv : Codec V).

Lemma sim_trie_get t1 t2 h :
  same_store t1 t2 -> sim eq (trie_store_get ck cv h1 t1 h) (trie_store_get ck cv h2 t2 h).
Proof. apply sim_store_get. Qed.

Lemma sim_read_loop fuel t1 t2 key path depth current :
  same_store t1 t2 ->
  sim eq (read_loop ck cv h1 fuel t1 key path depth current) (read_loop ck cv h2 fuel t2 key path depth current).
Proof.
  intros Hs. revert depth current. induction fuel as [|fuel IH]; intros depth current; cbn [read_loop]; [done|].
  destruct current as [k v|b|affix p]; [by apply sim_ok | |].
  - eapply sim_bind; [apply sim_index|]. intros i _ <-. eapply sim_bind; [apply sim_block_index|]. intros mp _ <-.
    destruct mp as [p|]; [|by apply sim_ok]. eapply sim_bind; [by apply sim_trie_get|]. intros next _ <-.
    destruct next; [apply IH | done].
  - eapply sim_bind; [apply sim_slice|]. intros sub _ <-. destruct (decide (sub = affix)); [|by apply sim_ok].
    eapply sim_bind; [by apply sim_trie_get|]. intros next _ <-. destruct next; [apply IH | done].
Qed.

Lemma sim_read fuel t1 t2 root key :
  same_store t1 t2 -> sim eq (read ck cv h1 fuel t1 root key) (read ck cv h2 fuel t2 root key).
Proof.
  intros Hs. unfold read. eapply sim_bind; [apply sim_bytes|]. intros path _ <-.
  eapply sim_bind; [by apply sim_trie_get|]. intros r _ <-. destruct r; [by apply sim_read_loop | by apply sim_ok].
Qed.

Lemma sim_scan_loop fuel t1 t2 path depth acc current :
  same_store t1 t2 ->
  sim eq (scan_loop ck cv h1 fuel t1 path depth acc current) (scan_loop ck cv h2 fuel t2 path depth acc current).
Proof.
  intros Hs. revert depth acc current. induction fuel as [|fuel IH]; intros depth acc current; cbn [scan_loop]; [done|].
  destruct current as [k v|b|affix p]; [by apply sim_ok | |].
  - eapply sim_bind; [apply sim_index|]. intros i _ <-. eapply sim_bind; [apply sim_block_index|]. intros mp _ <-.
    destruct mp as [p|]; [|by apply sim_ok]. eapply sim_bind; [by apply sim_trie_get|]. intros next _ <-.
    destruct next; [apply IH | done].
  - eapply sim_bind; [apply sim_slice|]. intros sub _ <-. destruct (decide (sub = affix)); [|by apply sim_ok].
    eapply sim_bind; [by apply sim_trie_get|]. intros next _ <-. destruct next; [|done].
    eapply sim_bind; [apply sim_index|]. intros i _ <-. apply IH.
Qed.

(** A transaction and what else an operation returns. *)
Definition same_result {A} (a : T1 * A) (b : T2 * A) : Prop := same_store a.1 b.1 /\ a.2 = b.2.

Lemma sim_put_elements t1 t2 root l :
  same_store t1 t2 -> sim same_result (put_elements ck cv h1 t1 root l) (put_elements ck cv h2 t2 root l).
Proof.
  revert t1 t2 root. induction l as [|[h e] l IH]; intros t1 t2 root Hs; cbn [put_elements]; [by apply sim_ok|].
  eapply sim_bind; [by apply sim_store_put|]. intros t1' t2' Hs'. by apply IH.
Qed.

Lemma sim_write fuel t1 t2 root key value :
  same_store t1 t2 -> sim same_result (write ck cv h1 fuel t1 root key value) (write ck cv h2 fuel t2 root key value).
Proof.
  intros Hs. unfold write. eapply sim_bind; [by apply sim_trie_get|]. intros r _ <-. destruct r as [r|]; [|by apply sim_ok].
  eapply sim_bind; [apply sim_bytes|]. intros path _ <-. eapply sim_bind; [by apply sim_scan_loop|]. intros sc _ <-.
  eapply sim_bind; [apply sim_bytes|]. intros es _ <-. destruct es as [|e es]; [by apply sim_ok|].
  eapply sim_bind; [by apply sim_put_elements|]. intros [t1' r1] [t2' r2] [Hs' E]. cbn in E. subst. by apply sim_ok.
Qed.
End tries.

(** * Commits *)

Context {dbg : DebugText}.

Lemma sim_effect_value key r tr :
  sim eq (effect_value (TE := E1) key r tr) (effect_value (TE := E2) key r tr).
Proof. unfold effect_value. repeat case_match; cbn; eauto. Qed.

Definition same_commit (a : T1 * Blake2bHash + CommitResult) (b : T2 * Blake2bHash + CommitResult) : Prop :=
  match a, b with
  | inl x, inl y => same_result x y
  | inr x, inr y => x = y
  | _, _ => False
  end.

Lemma sim_commit_loop t1 t2 root effects :
  same_store t1 t2 -> sim same_commit (commit_loop h1 t1 root effects) (commit_loop h2 t2 root effects).
Proof.
  revert t1 t2 root. induction effects as [|[k tr] effects IH]; intros t1 t2 root Hs; cbn [commit_loop]; [by apply sim_ok|].
  eapply sim_bind; [by apply sim_read|]. intros r _ <-. eapply sim_bind; [apply sim_effect_value|]. intros v _ <-.
  destruct v as [v|res]; [|by apply sim_ok]. eapply sim_bind; [by apply sim_write|].
  intros [t1' w1] [t2' w2] [Hs' E]. cbn in E, Hs'. subst. destruct w2; [by apply IH | by apply IH | done].
Qed.

End simulation.

(** * Environments *)

Section environments.
Context {T1 H1 E1 : Type} `{!Transaction T1 H1 E1} {laws1 : TransactionLaws T1 H1 E1} {total1 : TransactionTotal T1 H1 E1}.
Context {T2 H2 E2 : Type} `{!Transaction T2 H2 E2} {laws2 : TransactionLaws T2 H2 E2}.
Context `{EqDecision H2} {hasher : Hasher} {dbg : DebugText}.
Context {Env1 Env2 : Type} `{!TransactionSource Env1 T1 E1, !TransactionSource Env2 T2 E2}.
Context (same_handle : H1 -> H2 -> Prop) (P : Env1 -> T1 -> Prop) (R : Env1 -> Env2 -> Prop).

(** Environments whose transactions start from the same bytes, and publish what
    they hold. *)
Record same_source : Prop := {
  source_handles a b a' b' : same_handle a b -> same_handle a' b' -> a = a' <-> b = b';
  source_write env h k v t t' : P env t -> txn_write t h k v = Ok t' -> P env t';
  source_begin env1 env2 : R env1 env2 ->
    exists t1, create_read_write_txn env1 = Ok t1
      /\ match create_read_write_txn env2 with
         | Ok t2 => same_store same_handle (P env1) t1 t2
         | Err _ => True
         | Panic => False
         end;
  source_commit env1 env2 t1 t2 : R env1 env2 -> same_store same_handle (P env1) t1 t2 ->
    exists env1', txn_commit env1 t1 = Ok env1'
      /\ match txn_commit env2 t2 with Ok env2' => R env1' env2' | Err _ => True | Panic => False end;
}.

Context (source : same_source).

(** Environments and what else an operation returns. *)
Definition same_env {A} (a : Env1 * A) (b : Env2 * A) : Prop := R a.1 b.1 /\ a.2 = b.2.

(** A commit on both ends in the same way, with the same root. *)
Lemma sim_commit h1 h2 env1 env2 root effects :
  same_handle h1 h2 -> R env1 env2 -> sim same_env (commit h1 env1 root effects) (commit h2 env2 root effects).
Proof.
  intros Hh Henv. pose proof (fun a b Hab => source_handles source a b h1 h2 Hab Hh) as Hinj.
  pose proof (fun t k v t' => source_write source env1 h1 k v t t') as Hw.
  unfold commit. destruct (source_begin source _ _ Henv) as (t1 & -> & Hb). cbn [omap_err obind].
  destruct (create_read_write_txn env2) as [t2|e|]; cbn [omap_err obind]; [|done|done].
  eapply sim_bind; [by eapply sim_store_get|]. intros r _ <-. destruct r; [|by apply sim_ok].
  eapply sim_bind; [by eapply (sim_commit_loop same_handle (P env1))|].
  intros [[t1' r1]|x] [[t2' r2]|y] Hc; try done; cbn in Hc.
  - destruct Hc as [Hs E]. cbn in Hs, E. subst. destruct (source_commit source _ _ _ _ Henv Hs) as (env1' & -> & Hc).
    cbn [omap_err obind]. destruct (txn_commit env2 t2') as [env2'|e|]; [by apply sim_ok | done | done].
  - subst. by apply sim_ok.
Qed.
End environments.
