(* ===== verification/TrackingCopy.v ===== *)
(** The tracking copy: the view one execution has of the global state, with its
    cache, the operations and transforms it records, queries along named keys
    and forks.  Sources: [engine-core/src/tracking_copy/mod.rs],
    [engine-core/src/tracking_copy/meter.rs],
    [engine-core/src/engine_state/execution_effect.rs]. *)

From stdpp Require Import gmap.
From S2P Require Import Prelude BTreeMap Bytesrepr Uint Types CLValues Account StoredValue Transform.

(** * The cache *)

(** The linked hash map of the [linked_hash_map] crate, seen through its
    entries, the least recently used one first. *)
Class LinkedHashMap (L : Type) := {
  lhm_new : L;
  lhm_entries : L -> list (Key * StoredValue);
  lhm_insert : Key -> StoredValue -> L -> L;
  lhm_pop_front : L -> option (Key * StoredValue * L);
  lhm_get_refresh : Key -> L -> option StoredValue * L;
}.

Definition entries_get (k : Key) (l : list (Key * StoredValue)) : option StoredValue :=
  option_map snd (List.find (fun e => bool_decide (e.1 = k)) l).

Definition entries_without (k : Key) (l : list (Key * StoredValue)) : list (Key * StoredValue) :=
  List.filter (fun e => negb (bool_decide (e.1 = k))) l.

(** What its documentation promises: an inserted or refreshed key becomes the
    most recently used one. *)
Class LinkedHashMapLaws (L : Type) `{LinkedHashMap L} : Prop := {
  lhm_new_law : lhm_entries lhm_new = [];
  lhm_insert_law : forall k v m, lhm_entries (lhm_insert k v m) = entries_without k (lhm_entries m) ++ [(k, v)];
  lhm_pop_front_law : forall m,
    match lhm_pop_front m with
    | None => lhm_entries m = []
    | Some (k, v, m') => lhm_entries m = (k, v) :: lhm_entries m'
    end;
  lhm_get_refresh_law : forall k m,
    match entries_get k (lhm_entries m) with
    | None => lhm_get_refresh k m = (None, m)
    | Some v => exists m', lhm_get_refresh k m = (Some v, m')
        /\ lhm_entries m' = entries_without k (lhm_entries m) ++ [(k, v)]
    end;
}.

(** [Meter]: the size of a pair. *)
Class Meter := measure : Key -> StoredValue -> Z.

Class MeterLaws `{Meter} : Prop := measure_nonneg : forall k v, 0 <= measure k v.

Record TrackingCopyCache (L : Type) := mk_cache {
  max_cache_size : Z;
  current_cache_size : Z;
  reads_cached : L;
  muts_cached : gmap Key StoredValue;
}.
Arguments mk_cache {L}.
Arguments max_cache_size {L}.
Arguments current_cache_size {L}.
Arguments reads_cached {L}.
Arguments muts_cached {L}.

Section cache.
Context {L : Type} `{LinkedHashMap L} {meter : Meter} {E : Type}.

Definition cache_new (max : Z) : TrackingCopyCache L := mk_cache max 0 lhm_new ∅.

(** The loop of [insert_read] that drops the least recently used reads. *)
Fixpoint evict (fuel : nat) (max current : Z) (reads : L) : outcome E (Z * L) :=
  if current <=? max then Ok (current, reads)
  else
    match lhm_pop_front reads with
    | None => Ok (current, reads)
    | Some (k, v, reads') =>
        match fuel with
        | O => Panic
        | S fuel' =>
            let? current' := uint_sub current (measure k v) in
            evict fuel' max current' reads'
        end
    end.

Definition insert_read (key : Key) (value : StoredValue) (cache : TrackingCopyCache L)
    : outcome E (TrackingCopyCache L) :=
  let element_size := measure key value in
  let reads := lhm_insert key value (reads_cached cache) in
  let? '(current, reads') :=
    evict (length (lhm_entries reads)) (max_cache_size cache)
      (current_cache_size cache + element_size) reads in
  Ok (mk_cache (max_cache_size cache) current reads' (muts_cached cache)).

Definition insert_write (key : Key) (value : StoredValue) (cache : TrackingCopyCache L)
    : TrackingCopyCache L :=
  mk_cache (max_cache_size cache) (current_cache_size cache) (reads_cached cache)
    (<[ key := value ]> (muts_cached cache)).

Definition cache_get (key : Key) (cache : TrackingCopyCache L)
    : option StoredValue * TrackingCopyCache L :=
  match muts_cached cache !! key with
  | Some value => (Some value, cache)
  | None =>
      let '(value, reads) := lhm_get_refresh key (reads_cached cache) in
      (value, mk_cache (max_cache_size cache) (current_cache_size cache) reads (muts_cached cache))
  end.
End cache.

(** * The tracking copy *)

(** The [max_cache_size] of a new tracking copy. *)
Definition CACHE_SIZE : Z := 1024 * 16.

Record TrackingCopy (L : Type) := mk_tracking_copy {
  tc_cache : TrackingCopyCache L;
  tc_ops : gmap Key Op;
  tc_fns : gmap Key Transform;
}.
Arguments mk_tracking_copy {L}.
Arguments tc_cache {L}.
Arguments tc_ops {L}.
Arguments tc_fns {L}.

Inductive AddResult :=
| Add_Success
| Add_KeyNotFound (key : Key)
| Add_TypeMismatch (m : TypeMismatch)
| Add_Serialization (e : Error).

(** [impl From<CLValueError> for AddResult]. *)
Definition add_result_from (e : CLValueError) : AddResult :=
  match e with
  | CLValue_Serialization error => Add_Serialization error
  | CLValue_Type m =>
      Add_TypeMismatch (mk_type_mismatch (cl_type_debug (clm_expected m)) (cl_type_debug (clm_found m)))
  end.

Inductive TrackingCopyQueryResult :=
| Query_Success (v : StoredValue)
| Query_ValueNotFound (msg : bytes).

(** The text of [{:?}] that queries put into their messages. *)
Class QueryText := {
  key_debug : Key -> bytes;
  stored_value_debug : StoredValue -> bytes;
}.

(** The transform that [add] applies for a value, or its result. *)
Definition add_numeric (X : NumType) (mk : Z -> Transform) (cl_value : CLValue)
    : outcome unit (Transform + AddResult) :=
  match into_t (clt_num X) cl_value with
  | Ok value => Ok (inl (mk value))
  | Err error => Ok (inr (add_result_from error))
  | Panic => Panic
  end.

Definition add_mismatch (value : StoredValue) : AddResult :=
  Add_TypeMismatch (mk_type_mismatch (str "I32, U64, U128, U256, U512 or (String, Key) tuple")
    (type_name value)).

Definition add_transform (value : StoredValue) : outcome unit (Transform + AddResult) :=
  match value with
  | SV_CLValue cl_value =>
      match cl_type cl_value with
      | CL_I32 => add_numeric NI32 AddInt32 cl_value
      | CL_U64 => add_numeric NU64 AddUInt64 cl_value
      | CL_U128 => add_numeric NU128 AddUInt128 cl_value
      | CL_U256 => add_numeric NU256 AddUInt256 cl_value
      | CL_U512 => add_numeric NU512 AddUInt512 cl_value
      | t =>
          if bool_decide (t = named_key_type) then
            match into_t clt_named_key cl_value with
            | Ok name_and_key => Ok (inl (AddKeys (bt_collect [name_and_key])))
            | Err error => Ok (inr (add_result_from error))
            | Panic => Panic
            end
          else Ok (inr (add_mismatch value))
      end
  | _ => Ok (inr (add_mismatch value))
  end.

Section tracking_copy.
Context {L : Type} `{LinkedHashMap L} {meter : Meter} {dbg : DebugText} {qtext : QueryText}.
Context {E : Type} (reader : Key -> outcome E (option StoredValue)).

#[local] Abbreviation TC := (TrackingCopy L).

Definition tracking_copy_new : TC := mk_tracking_copy (cache_new CACHE_SIZE) ∅ ∅.

Definition tc_with_cache (s : TC) (c : TrackingCopyCache L) : TC :=
  mk_tracking_copy c (tc_ops s) (tc_fns s).

(** [self.ops.insert_add(key, op); self.fns.insert_add(key, transform)]. *)
Definition tc_record (key : Key) (op : Op) (transform : Transform) (s : TC) : TC :=
  mk_tracking_copy (tc_cache s) (insert_add op_add op_default (tc_ops s) key op)
    (insert_add transform_add transform_default (tc_fns s) key transform).

Definition tc_get (key : Key) : eff TC E (option StoredValue) :=
  fun s =>
    let '(found, cache) := cache_get key (tc_cache s) in
    let s1 := tc_with_cache s cache in
    match found with
    | Some value => (Ok (Some value), s1)
    | None =>
        match reader key with
        | Ok (Some value) =>
            match insert_read key value cache with
            | Ok cache' => (Ok (Some value), tc_with_cache s cache')
            | Err e => (Err e, s1)
            | Panic => (Panic, s1)
            end
        | Ok None => (Ok None, s1)
        | Err e => (Err e, s1)
        | Panic => (Panic, s1)
        end
    end.

Definition tc_read (key : Key) : eff TC E (option StoredValue) :=
  let normalized_key := normalize key in
  let! found := tc_get normalized_key in
  match found with
  | Some value => fun s => (Ok (Some value), tc_record normalized_key Op_Read Identity s)
  | None => eret None
  end.

Definition tc_write (key : Key) (value : StoredValue) (s : TC) : TC :=
  let normalized_key := normalize key in
  tc_record normalized_key Op_Write (Write value)
    (tc_with_cache s (insert_write normalized_key value (tc_cache s))).

Definition tc_add (key : Key) (value : StoredValue) : eff TC E AddResult :=
  let normalized_key := normalize key in
  let! current := tc_get normalized_key in
  match current with
  | None => eret (Add_KeyNotFound normalized_key)
  | Some current_value =>
      match add_transform value with
      | Ok (inr result) => eret result
      | Ok (inl transform) =>
          match apply_transform transform current_value with
          | Ok new_value => fun s =>
              (Ok Add_Success,
               tc_record normalized_key Op_Add transform
                 (tc_with_cache s (insert_write normalized_key new_value (tc_cache s))))
          | Err (TE_TypeMismatch m) => eret (Add_TypeMismatch m)
          | Err (TE_Serialization error) => eret (Add_Serialization error)
          | Panic => elift Panic
          end
      | _ => elift Panic
      end
  end.

(** [effect]: what has been recorded. *)
Definition tc_effect (s : TC) : gmap Key Op * gmap Key Transform := (tc_ops s, tc_fns s).

(** [StateReader::read] of a reference to a tracking copy, the reader of a fork. *)
Definition fork_reader (s : TC) (key : Key) : outcome E (option StoredValue) :=
  match muts_cached (tc_cache s) !! key with
  | Some value => Ok (Some value)
  | None =>
      let? found := reader key in
      match found with
      | Some value => Ok (Some value)
      | None => Ok None
      end
  end.

(** ** Queries *)

Definition error_path_msg (key : Key) (path : list bytes) (missing_key : bytes) (missing_at_index : nat)
    : bytes :=
  fold_left (fun msg p => msg ++ str "/" ++ p) (take missing_at_index path)
    (missing_key ++ str " " ++ key_debug key).

(** The value at a key, or where and why the walk stops. *)
Definition read_key_or_stop (key : Key) (i : nat) : eff TC E (StoredValue + nat * bytes) :=
  let! found := tc_read key in
  match found with
  | Some value => eret (inl value)
  | None => eret (inr (i, str "Name " ++ key_debug key ++ str " not found: "))
  end.

Definition query_step (current_value : StoredValue) (i : nat) (name : bytes)
    : eff TC E (StoredValue + nat * bytes) :=
  match current_value with
  | SV_Account account =>
      match bt_get name (account_named_keys account) with
      | Some key => read_key_or_stop key i
      | None => eret (inr (i, str "Name " ++ name ++ str " not found in Account at path:"))
      end
  | SV_Contract contract =>
      match bt_get name (contract_named_keys contract) with
      | Some key => read_key_or_stop key i
      | None => eret (inr (i, str "Name " ++ name ++ str " not found in Contract at path:"))
      end
  | other =>
      eret (inr (i, str "Name " ++ name ++ str " cannot be followed from value "
        ++ stored_value_debug other
        ++ str " because it is neither an account nor contract. Value found at path:"))
  end.

Fixpoint query_walk (current_value : StoredValue) (i : nat) (path : list bytes)
    : eff TC E (StoredValue + nat * bytes) :=
  match path with
  | [] => eret (inl current_value)
  | name :: path' =>
      let! next := query_step current_value i name in
      match next with
      | inl value => query_walk value (S i) path'
      | inr stop => eret (inr stop)
      end
  end.

Definition tc_query (base_key : Key) (path : list bytes) : eff TC E TrackingCopyQueryResult :=
  let! base := tc_read base_key in
  match base with
  | None => eret (Query_ValueNotFound (error_path_msg base_key path [] 0))
  | Some base_value =>
      let! result := query_walk base_value 0 path in
      match result with
      | inl value => eret (Query_Success value)
      | inr (i, s) => eret (Query_ValueNotFound (error_path_msg base_key path s i))
      end
  end.
End tracking_copy.

(** * The invariant of the cache *)

Section cache_spec.
Context {L : Type} `{LinkedHashMapLaws L} `{MeterLaws}.
Implicit Types (l : list (Key * StoredValue)) (reads : L).

Fixpoint total_size l : Z :=
  match l with
  | [] => 0
  | e :: l' => measure e.1 e.2 + total_size l'
  end.

Lemma total_size_app l1 l2 : total_size (l1 ++ l2) = total_size l1 + total_size l2.
Proof. induction l1 as [|e l1 IH]; cbn; lia. Qed.

Lemma total_size_nonneg l : 0 <= total_size l.
Proof. induction l as [|e l IH]; cbn; [lia|]. pose proof (measure_nonneg e.1 e.2). lia. Qed.

Lemma entries_get_in k v l : entries_get k l = Some v -> In (k, v) l.
Proof.
  unfold entries_get. destruct (List.find _ l) as [[k' v']|] eqn:Ef; [|done]. intros [= <-].
  apply List.find_some in Ef as [Hin Hk]. breflect. cbn in Hk. by subst.
Qed.

Lemma entries_get_none k l : entries_get k l = None -> ~ In k (map fst l).
Proof.
  unfold entries_get. destruct (List.find _ l) eqn:Ef; [done|]. intros _ Hin.
  apply in_map_iff in Hin as (e & <- & Hin).
  pose proof (List.find_none _ _ Ef e Hin) as Hn. cbn in Hn. by rewrite bool_decide_eq_true_2 in Hn.
Qed.

Lemma entries_without_in k e l : In e (entries_without k l) <-> In e l /\ e.1 <> k.
Proof. unfold entries_without. rewrite filter_In, negb_true_iff, bool_decide_eq_false. done. Qed.

Lemma entries_without_id k l : ~ In k (map fst l) -> entries_without k l = l.
Proof.
  induction l as [|e l IH]; cbn; [done|]. intros Hn. rewrite bool_decide_eq_false_2 by tauto. cbn.
  f_equal. apply IH. tauto.
Qed.

Lemma moved_nodup k v l :
  List.NoDup (map fst l) -> List.NoDup (map fst (entries_without k l ++ [(k, v)])).
Proof.
  intros Hn. rewrite map_app. apply (Permutation_NoDup (Permutation_cons_append _ _)). constructor.
  - intros Hin. apply in_map_iff in Hin as (e & He & Hin). apply entries_without_in in Hin as [_ Hne]. done.
  - induction l as [|e l IH]; cbn; [constructor|]. inversion Hn as [|? ? Hnin Hn']; subst.
    destruct (negb _); [|by apply IH]. cbn. constructor; [|by apply IH].
    intros Hin. apply Hnin. apply in_map_iff in Hin as (e' & He & Hin).
    apply entries_without_in in Hin as [Hin _]. apply in_map_iff. eauto.
Qed.

Lemma moved_in k v l e :
  entries_get k l = Some v -> In e (entries_without k l ++ [(k, v)]) -> In e l.
Proof.
  intros Hg [Hin|[<-|[]]]%in_app_iff.
  - by apply entries_without_in in Hin as [? _].
  - by apply entries_get_in.
Qed.

(** A refreshed entry is moved, not counted twice. *)
Lemma moved_size k v l :
  List.NoDup (map fst l) -> entries_get k l = Some v ->
  total_size (entries_without k l ++ [(k, v)]) = total_size l.
Proof.
  intros Hn Hg. rewrite total_size_app. cbn. induction l as [|[k' v'] l IH]; [done|].
  inversion Hn as [|? ? Hnin Hn']; subst. unfold entries_get in Hg. cbn in Hg, Hnin |- *.
  case_bool_decide as Hk; cbn.
  - injection Hg as ->. subst k'. pose proof (entries_without_id k l Hnin) as Hid.
    unfold entries_without in Hid. rewrite Hid. lia.
  - specialize (IH Hn' Hg). unfold entries_without in IH. lia.
Qed.

Lemma evict_spec {E} fuel max current reads :
  0 <= max -> current = total_size (lhm_entries reads) ->
  (length (lhm_entries reads) <= fuel)%nat ->
  exists current' reads' dropped, evict (E := E) fuel max current reads = Ok (current', reads')
    /\ current' = total_size (lhm_entries reads') /\ current' <= max
    /\ lhm_entries reads = dropped ++ lhm_entries reads'.
Proof.
  intros Hmax. revert current reads. induction fuel as [|fuel IH]; intros current reads Hc Hf;
    cbn [evict]; destruct (Z.leb_spec current max) as [Hle|Hgt];
    try (exists current, reads, []; done).
  all: pose proof (lhm_pop_front_law reads) as Hp; destruct (lhm_pop_front reads) as [[[k v] reads']|].
  all: rewrite Hp in Hc, Hf; cbn in Hc, Hf; try lia.
  unfold uint_sub. pose proof (total_size_nonneg (lhm_entries reads')).
  rewrite (proj2 (Z.leb_le (measure k v) current)) by lia. cbn [obind].
  destruct (IH (current - measure k v) reads') as (c' & r' & d & E1 & E2 & E3 & E4); [lia | lia |].
  exists c', r', ((k, v) :: d). rewrite Hp, E4. done.
Qed.

Record cache_inv (reader : Key -> option StoredValue -> Prop) (c : TrackingCopyCache L) : Prop := {
  cache_reads : forall k v, In (k, v) (lhm_entries (reads_cached c)) -> reader k (Some v);
  cache_nodup : List.NoDup (map fst (lhm_entries (reads_cached c)));
  cache_size : current_cache_size c = total_size (lhm_entries (reads_cached c));
  cache_bound : current_cache_size c <= max_cache_size c;
  cache_max : max_cache_size c = CACHE_SIZE;
}.

Lemma insert_read_spec {E} reader k v c :
  cache_inv reader c -> reader k (Some v) -> ~ In k (map fst (lhm_entries (reads_cached c))) ->
  exists c', insert_read (E := E) k v c = Ok c' /\ cache_inv reader c'
    /\ muts_cached c' = muts_cached c.
Proof.
  intros [Hr Hn Hs Hb Hm] Hv Hnin. unfold insert_read.
  pose proof (lhm_insert_law k v (reads_cached c)) as Hi.
  destruct (evict_spec (E := E) (length (lhm_entries (lhm_insert k v (reads_cached c))))
    (max_cache_size c) (current_cache_size c + measure k v) (lhm_insert k v (reads_cached c)))
    as (cur & reads' & d & -> & Hcur & Hle & Hd); [by rewrite Hm | | done |].
  { rewrite Hi, total_size_app, entries_without_id by done. cbn. lia. }
  cbn [obind]. eexists. split; [done|]. rewrite Hi in Hd. split; [|done]. split; cbn; try done.
  - intros k' v' Hin. assert (In (k', v') (entries_without k (lhm_entries (reads_cached c)) ++ [(k, v)]))
      as Hin' by (rewrite Hd; apply in_app_iff; by right).
    apply in_app_iff in Hin' as [Hin'|[[= <- <-]|[]]]; [|done].
    apply entries_without_in in Hin' as [Hin' _]. by apply Hr.
  - pose proof (moved_nodup k v _ Hn) as Hn'. rewrite Hd, map_app in Hn'. by apply NoDup_app_remove_l in Hn'.
Qed.

Lemma cache_get_spec reader k c :
  cache_inv reader c ->
  exists c', cache_get k c =
      (match muts_cached c !! k with
       | Some v => Some v
       | None => entries_get k (lhm_entries (reads_cached c))
       end, c')
    /\ cache_inv reader c' /\ muts_cached c' = muts_cached c
    /\ (forall k', In k' (map fst (lhm_entries (reads_cached c'))) ->
          In k' (map fst (lhm_entries (reads_cached c)))).
Proof.
  intros Hc. pose proof Hc as [Hr Hn Hs Hb Hm]. unfold cache_get.
  destruct (muts_cached c !! k) as [v|]; [by exists c|].
  pose proof (lhm_get_refresh_law k (reads_cached c)) as Hg.
  destruct (entries_get k (lhm_entries (reads_cached c))) as [v|] eqn:Eg.
  - destruct Hg as (m' & -> & Em). eexists. split; [done|]. split; [|split; [done|]].
    + split; cbn; rewrite ?Em; try done.
      * intros k' v' Hin. apply Hr. by apply (moved_in k v).
      * by apply moved_nodup.
      * by rewrite moved_size.
    + cbn. rewrite Em. intros k' Hin. apply in_map_iff in Hin as (e & <- & Hin).
      apply in_map, (moved_in k v); done.
  - rewrite Hg. eexists. split; [done|]. split; [|done]. by destruct c.
Qed.
End cache_spec.

(** * What a tracking copy shows *)

Section view.
Context {L : Type} `{LinkedHashMapLaws L} `{MeterLaws} {dbg : DebugText} {qtext : QueryText}.
Context {E : Type} (reader : Key -> outcome E (option StoredValue)).

#[local] Abbreviation TC := (TrackingCopy L).
Implicit Types s : TC.

(** The state an execution sees: its own writes over what the reader has. *)
Definition tc_view s (k : Key) : outcome E (option StoredValue) :=
  match muts_cached (tc_cache s) !! k with
  | Some v => Ok (Some v)
  | None => reader k
  end.

Definition tc_inv s : Prop := cache_inv (fun k r => reader k = Ok r) (tc_cache s).

(** Two states that differ in what is kept of the reads only. *)
Definition same_muts s s' : Prop :=
  muts_cached (tc_cache s') = muts_cached (tc_cache s) /\ tc_ops s' = tc_ops s /\ tc_fns s' = tc_fns s.

Lemma same_muts_view s s' k : same_muts s s' -> tc_view s' k = tc_view s k.
Proof. intros (E1 & _). unfold tc_view. by rewrite E1. Qed.

Lemma tracking_copy_new_inv : tc_inv tracking_copy_new.
Proof.
  unfold tc_inv. split; cbn; rewrite ?lhm_new_law; cbn; try done; try lia. constructor.
Qed.

Lemma tc_get_spec k s :
  tc_inv s -> exists s', tc_get reader k s = (tc_view s k, s') /\ tc_inv s' /\ same_muts s s'.
Proof.
  intros Hi. destruct (cache_get_spec _ k _ Hi) as (c & Eg & Hc & Em & Hin).
  unfold tc_get, tc_view. rewrite Eg. destruct (muts_cached (tc_cache s) !! k) as [v|].
  { by exists (tc_with_cache s c). }
  destruct (entries_get k (lhm_entries (reads_cached (tc_cache s)))) as [v|] eqn:Er.
  - exists (tc_with_cache s c). split; [|split; [exact Hc | done]].
    by rewrite (cache_reads _ _ Hi k v (entries_get_in _ _ _ Er)).
  - destruct (reader k) as [[v|]|e|] eqn:Ek; try (by exists (tc_with_cache s c)).
    destruct (insert_read_spec (E := E) (fun k r => reader k = Ok r) k v c Hc Ek) as (c' & -> & Hc' & Em').
    { intros Hk. by apply (entries_get_none _ _ Er), Hin. }
    exists (tc_with_cache s c'). split; [done|]. split; [exact Hc'|]. split; [|done]. cbn. congruence.
Qed.

(** The state after a recorded change. *)
Lemma tc_record_inv k op tr s : tc_inv s -> tc_inv (tc_record k op tr s).
Proof. done. Qed.

Lemma tc_mutate_inv k v s : tc_inv s -> tc_inv (tc_with_cache s (insert_write k v (tc_cache s))).
Proof. intros [? ? ? ? ?]. by split. Qed.

Lemma tc_read_spec k s :
  tc_inv s -> exists s', tc_read reader k s = (tc_view s (normalize k), s') /\ tc_inv s'
    /\ muts_cached (tc_cache s') = muts_cached (tc_cache s)
    /\ tc_fns s' = match tc_view s (normalize k) with
                   | Ok (Some _) => insert_add transform_add transform_default (tc_fns s) (normalize k) Identity
                   | _ => tc_fns s
                   end.
Proof.
  intros Hi. destruct (tc_get_spec (normalize k) s Hi) as (s1 & Eg & Hi1 & Em & _ & Ef).
  unfold tc_read, ebind. rewrite Eg. destruct (tc_view s (normalize k)) as [[v|]|e|];
    eexists; (split; [done|]); (split; [done|]); cbn; by rewrite ?Ef.
Qed.

(** ** What [add] does *)

(** The outcome of adding to a value that is there. *)
Definition added (value current : StoredValue) : outcome unit (Transform * StoredValue + AddResult) :=
  match add_transform value with
  | Ok (inr result) => Ok (inr result)
  | Ok (inl tr) =>
      match apply_transform tr current with
      | Ok v => Ok (inl (tr, v))
      | Err (TE_TypeMismatch m) => Ok (inr (Add_TypeMismatch m))
      | Err (TE_Serialization e) => Ok (inr (Add_Serialization e))
      | Panic => Panic
      end
  | _ => Panic
  end.

Lemma tc_add_spec k value s :
  tc_inv s -> exists r s', tc_add reader k value s = (r, s') /\ tc_inv s'
    /\ match tc_view s (normalize k) with
       | Ok None => r = Ok (Add_KeyNotFound (normalize k)) /\ same_muts s s'
       | Err e => r = Err e /\ same_muts s s'
       | Panic => r = Panic /\ same_muts s s'
       | Ok (Some current) =>
           match added value current with
           | Ok (inl (tr, v)) => r = Ok Add_Success
               /\ muts_cached (tc_cache s') = <[ normalize k := v ]> (muts_cached (tc_cache s))
               /\ tc_fns s' = insert_add transform_add transform_default (tc_fns s) (normalize k) tr
           | Ok (inr result) => r = Ok result /\ same_muts s s'
           | _ => r = Panic /\ same_muts s s'
           end
       end.
Proof.
  intros Hi. destruct (tc_get_spec (normalize k) s Hi) as (s1 & Eg & Hi1 & Hm). pose proof Hm as (Em & _ & Ef).
  unfold tc_add, ebind. rewrite Eg. destruct (tc_view s (normalize k)) as [[current|]|e|];
    try (by eexists _, _).
  unfold added. destruct (add_transform value) as [[tr|result]|?|]; try (by eexists _, _).
  destruct (apply_transform tr current) as [v|[m|e]|]; try (by eexists _, _).
  eexists _, _. split; [done|]. split; [by apply tc_record_inv, tc_mutate_inv|].
  split; [done|]. cbn. by rewrite Em, Ef.
Qed.
(** What is seen after the value at a key is replaced. *)
Lemma muts_insert_view k v s s' :
  muts_cached (tc_cache s') = <[ normalize k := v ]> (muts_cached (tc_cache s)) ->
  forall k', tc_view s' k' = if decide (k' = normalize k) then Ok (Some v) else tc_view s k'.
Proof.
  intros Em k'. unfold tc_view. rewrite Em.
  case_decide; [subst; by rewrite lookup_insert_eq | by rewrite lookup_insert_ne].
Qed.

Lemma tc_write_view k v s :
  tc_inv s -> tc_inv (tc_write k v s) /\ forall k',
    tc_view (tc_write k v s) k' = if decide (k' = normalize k) then Ok (Some v) else tc_view s k'.
Proof. intros Hi. split; [by apply tc_record_inv, tc_mutate_inv | by apply muts_insert_view]. Qed.

(** C21: reading, writing and adding act on the view as on a finite map: a read
    returns the entry of the normalized key and changes no entry; a write sets
    it; an addition sets it to the sum if there is a value of a type that allows
    it, and otherwise reports the reason and changes nothing. A fork reads what
    the view shows. *)
Theorem tracking_copy_spec s k :
  tc_inv s ->
  (exists s', tc_read reader k s = (tc_view s (normalize k), s') /\ tc_inv s'
     /\ forall k', tc_view s' k' = tc_view s k')
  /\ (forall v, tc_inv (tc_write k v s) /\ forall k',
       tc_view (tc_write k v s) k' = if decide (k' = normalize k) then Ok (Some v) else tc_view s k')
  /\ (forall value, exists r s', tc_add reader k value s = (r, s') /\ tc_inv s'
      /\ match tc_view s (normalize k) with
         | Ok (Some current) =>
             match added value current with
             | Ok (inl (_, v)) => r = Ok Add_Success /\ forall k',
                 tc_view s' k' = if decide (k' = normalize k) then Ok (Some v) else tc_view s k'
             | Ok (inr result) => r = Ok result /\ forall k', tc_view s' k' = tc_view s k'
             | _ => r = Panic
             end
         | Ok None => r = Ok (Add_KeyNotFound (normalize k)) /\ forall k', tc_view s' k' = tc_view s k'
         | Err e => r = Err e /\ forall k', tc_view s' k' = tc_view s k'
         | Panic => r = Panic
         end)
  /\ forall k', fork_reader reader s k' = tc_view s k'.
Proof.
  intros Hi. split; [|split; [|split]].
  - destruct (tc_read_spec k s Hi) as (s' & Er & Hi' & Em & _). exists s'.
    split; [done|]. split; [done|]. intros k'. unfold tc_view. by rewrite Em.
  - intros v. by apply tc_write_view.
  - intros value. destruct (tc_add_spec k value s Hi) as (r & s' & Ea & Hi' & Hr). exists r, s'.
    split; [done|]. split; [done|].
    assert (same_muts s s' -> forall k', tc_view s' k' = tc_view s k') as Hsame
      by (intros Hm k'; by apply same_muts_view).
    destruct (tc_view s (normalize k)) as [[current|]|e|]; try (by destruct Hr; auto).
    destruct (added value current) as [[[tr v]|result]|?|]; try (by destruct Hr; auto).
    destruct Hr as (-> & Em & _). split; [done|]. by apply muts_insert_view.
  - intros k'. unfold fork_reader, tc_view. destruct (_ !! k'); [done|]. by destruct (reader k') as [[]|?|].
Qed.

(** ** Queries *)

(** The names of a value that can be followed. *)
Definition followed (v : StoredValue) (name : bytes) : option Key :=
  match v with
  | SV_Account a => bt_get name (account_named_keys a)
  | SV_Contract c => bt_get name (contract_named_keys c)
  | SV_CLValue _ => None
  end.

(** The value a path leads to. *)
Fixpoint resolve s (v : StoredValue) (path : list bytes) : option StoredValue :=
  match path with
  | [] => Some v
  | name :: path' =>
      match followed v name with
      | None => None
      | Some key =>
          match tc_view s (normalize key) with
          | Ok (Some v') => resolve s v' path'
          | _ => None
          end
      end
  end.

Definition same_view s s' : Prop := forall k, tc_view s' k = tc_view s k.

Lemma resolve_same s s' v path : same_view s s' -> resolve s' v path = resolve s v path.
Proof.
  intros Hv. revert v. induction path as [|name path IH]; intros v; cbn; [done|].
  destruct (followed v name) as [key|]; [|done]. rewrite Hv.
  destruct (tc_view s (normalize key)) as [[v'|]|?|]; [apply IH|done..].
Qed.

Lemma tc_read_view k s :
  tc_inv s -> exists s', tc_read reader k s = (tc_view s (normalize k), s') /\ tc_inv s' /\ same_view s s'.
Proof.
  intros Hi. destruct (tc_read_spec k s Hi) as (s' & Er & Hi' & Em & _). exists s'.
  split; [done|]. split; [done|]. intros k'. unfold tc_view. by rewrite Em.
Qed.

(** Every key reads as a well-formed value or as none. *)
Definition readable s : Prop := forall k, key_valid k ->
  exists r, tc_view s k = Ok r /\ option_valid stored_value_valid r.

Lemma readable_same s s' : same_view s s' -> readable s -> readable s'.
Proof. intros Hv Hr k Hk. rewrite Hv. by apply Hr. Qed.

(** The names of a well-formed value are those of well-formed keys. *)
Lemma followed_valid v name key : stored_value_valid v -> followed v name = Some key -> key_valid key.
Proof.
  assert (forall m, named_keys_valid m -> bt_get name m = Some key -> key_valid key) as Hm.
  { intros m [_ Hf] Hg%bt_get_in. rewrite List.Forall_forall in Hf. by apply (Hf (name, key)). }
  destruct v as [cl|a|c]; cbn; [done| |].
  - intros (_ & Hn & _). by apply Hm.
  - intros [Hn _]. by apply Hm.
Qed.

Lemma read_key_or_stop_spec key i s :
  readable s -> tc_inv s -> key_valid key ->
  exists r s', read_key_or_stop reader key i s = (Ok r, s') /\ tc_inv s' /\ same_view s s'
    /\ match r with
       | inl v' => stored_value_valid v' /\ tc_view s (normalize key) = Ok (Some v')
       | inr _ => tc_view s (normalize key) = Ok None
       end.
Proof.
  intros Ht Hi Hk. destruct (tc_read_view key s Hi) as (s' & Er & Hi' & Hv).
  unfold read_key_or_stop, ebind. rewrite Er.
  destruct (Ht (normalize key) (normalize_valid key Hk)) as (r & -> & Hr).
  destruct r as [v'|]; eexists _, s'; (split; [done|]); done.
Qed.

Lemma query_step_spec v i name s :
  readable s -> tc_inv s -> stored_value_valid v ->
  exists r s', query_step reader v i name s = (Ok r, s') /\ tc_inv s' /\ same_view s s'
    /\ match r with
       | inl v' => stored_value_valid v'
           /\ exists key, followed v name = Some key /\ tc_view s (normalize key) = Ok (Some v')
       | inr _ => match followed v name with
                  | None => True
                  | Some key => tc_view s (normalize key) = Ok None
                  end
       end.
Proof.
  intros Ht Hi Hv.
  pose proof (followed_valid v name) as Hf.
  destruct (followed v name) as [key|] eqn:Ef.
  - destruct (read_key_or_stop_spec key i s Ht Hi (Hf key Hv eq_refl)) as (r & s' & Er & Hi' & Hs & Hr).
    exists r, s'. split; [destruct v; cbn in *; [done|by rewrite Ef..]|]. do 2 (split; [done|]).
    destruct r; [|done]. destruct Hr. eauto.
  - assert (exists msg, query_step reader v i name s = (Ok (inr (i, msg)), s)) as [msg ->]
      by (destruct v; cbn in *; rewrite ?Ef; by eexists).
    eexists _, s. split; [done|]. split; [done|]. by split; [intros k|].
Qed.

Lemma query_walk_spec path v i s :
  readable s -> tc_inv s -> stored_value_valid v ->
  exists r s', query_walk reader v i path s = (Ok r, s') /\ tc_inv s' /\ same_view s s'
    /\ match r with inl v' => resolve s v path = Some v' | inr _ => resolve s v path = None end.
Proof.
  revert v i s. induction path as [|name path IH]; intros v i s Ht Hi Hv; cbn.
  - eexists _, s. split; [done|]. split; [done|]. split; [by intros k|done].
  - destruct (query_step_spec v i name s Ht Hi Hv) as (r & s1 & Es & Hi1 & Hv1 & Hr).
    unfold ebind. rewrite Es. destruct r as [v'|stop].
    + destruct Hr as (Hv' & key & -> & ->).
      destruct (IH v' (S i) s1 (readable_same s s1 Hv1 Ht) Hi1 Hv') as (r & s2 & -> & Hi2 & Hv2 & Hr).
      exists r, s2. split; [done|]. split; [done|]. rewrite (resolve_same s s1 v' path Hv1) in Hr.
      split; [|done]. intros k. by rewrite Hv2.
    + eexists _, s1. split; [done|]. split; [done|]. split; [done|].
      destruct (followed v name) as [key|]; [by rewrite Hr|done].
Qed.

(** The value a path of names leads to from a key. *)
Definition path_value s base_key path : option StoredValue :=
  match tc_view s (normalize base_key) with Ok (Some base) => resolve s base path | _ => None end.

Lemma tc_query_resolves s base_key path :
  readable s -> tc_inv s -> key_valid base_key ->
  exists r s', tc_query reader base_key path s = (Ok r, s') /\ tc_inv s' /\ same_view s s'
    /\ match path_value s base_key path with
       | Some v => r = Query_Success v
       | None => exists msg, r = Query_ValueNotFound msg
       end.
Proof.
  intros Ht Hi Hk. destruct (tc_read_view base_key s Hi) as (s1 & Er & Hi1 & Hv1).
  unfold tc_query, ebind, path_value. rewrite Er.
  destruct (Ht (normalize base_key) (normalize_valid base_key Hk)) as (r & -> & Hr).
  destruct r as [base|]; [|eexists _, s1; do 3 (split; [done|]); by eexists].
  destruct (query_walk_spec path base 0 s1 (readable_same s s1 Hv1 Ht) Hi1 Hr) as (r & s2 & -> & Hi2 & Hv2 & Hw).
  rewrite (resolve_same s s1 base path Hv1) in Hw.
  assert (same_view s s2) as Hv by (intros k; by rewrite Hv2).
  destruct r as [v'|[i msg]]; rewrite Hw; eexists _, s2; do 3 (split; [done|]); [done|by eexists].
Qed.
End view.

(** * What is recorded *)

Lemma named_key_decode_valid cl n k :
  into_t clt_named_key cl = Ok (n, k) -> utf8_valid n = true /\ key_valid k.
Proof.
  unfold into_t, deserialize. case_bool_decide; [|done]. cbn [clt_codec clt_named_key clt_tuple2 from_bytes].
  destruct (from_bytes (tuple2_codec _ _) (cl_bytes cl)) as [[nk [|? ?]]|?|] eqn:Ef; try done.
  intros [= ->]. cbn in Ef. unfold tuple2_from_bytes in Ef.
  apply obind_ok in Ef as ([n' rem] & Hs & Ef). apply obind_ok in Ef as ([k' rem'] & Hk & Ef).
  injection Ef as -> -> _. apply (key_exact rem k rem') in Hk as [Hk _]. split; [|done].
  cbn in Hs. unfold string_from_bytes in Hs. apply obind_ok in Hs as ([n' rem2] & _ & Hs).
  destruct (utf8_valid n') eqn:Eu; [|done]. by injection Hs as -> _.
Qed.

Lemma add_transform_valid value tr : add_transform value = Ok (inl tr) -> transform_valid tr.
Proof.
  destruct value as [cl|a|c]; cbn; try done.
  assert (forall X mk, (forall z, num_valid X z -> transform_valid (mk z)) ->
    add_numeric X mk cl = Ok (inl tr) -> transform_valid tr) as Hn.
  { intros X mk Hmk. unfold add_numeric. destruct (into_t (clt_num X) cl) as [z|?|] eqn:Ei; try done.
    intros [= <-]. by apply Hmk, (into_t_num_valid X cl). }
  assert (match into_t clt_named_key cl with
          | Ok name_and_key => Ok (inl (AddKeys (bt_collect [name_and_key])))
          | Err error => Ok (inr (add_result_from error))
          | Panic => Panic
          end = Ok (E := unit) (inl tr) -> transform_valid tr) as Hk.
  { destruct (into_t clt_named_key cl) as [[n k]|?|] eqn:Ei; try done. intros [= <-].
    destruct (named_key_decode_valid cl n k Ei). split; repeat constructor; done. }
  destruct (cl_type cl); try (by apply Hn); case_bool_decide; done.
Qed.

Section effects.
Context {L : Type} `{LinkedHashMapLaws L} `{MeterLaws} {dbg : DebugText} {qtext : QueryText}.
Context {E : Type} (reader : Key -> outcome E (option StoredValue)).

(** What is known of the base state: reads of valid keys succeed and return
    valid values. *)
Definition reader_ok : Prop := forall k, key_valid k ->
  exists r, reader k = Ok r /\ option_valid stored_value_valid r.

#[local] Abbreviation TC := (TrackingCopy L).
#[local] Abbreviation tc_view := (tc_view reader).
#[local] Abbreviation tc_inv := (tc_inv reader).
Implicit Types (s : TC) (tr : Transform).

(** A transform, applied to what the base state has at a key, gives a value. *)
Definition effect_gives (r : option StoredValue) tr (v : StoredValue) : Prop :=
  match r with
  | None => tr = Write v
  | Some c => apply_transform tr c = Ok v
  end.

Lemma effect_write r a c v : effect_gives r a c -> effect_gives r (transform_add a (Write v)) v.
Proof. destruct r as [b|]; cbn; [|by intros ->]. by destruct a. Qed.

Lemma effect_add r a b c v :
  transform_valid a -> transform_valid b -> option_valid stored_value_valid r ->
  (forall x, r = Some x -> sum_lossless a b x) ->
  effect_gives r a c -> apply_transform b c = Ok v -> effect_gives r (transform_add a b) v.
Proof.
  intros Ha Hb Hr Hl Hg Hv. destruct r as [x|]; cbn in *.
  - pose proof (transform_add_agree a b x c Ha Hb Hr (Hl x eq_refl) Hg) as Hag. rewrite Hv in Hag.
    destruct (apply_transform (transform_add a b) x); [by rewrite Hag|done..].
  - subst a. destruct b; cbn in *; try (by injection Hv as ->); try (by rewrite Hv); done.
Qed.

(** An addition whose sum with what is recorded loses nothing that the value in
    the base state can see. *)
Definition add_exact s (k : Key) (value : StoredValue) : bool :=
  match add_transform value, reader (normalize k) with
  | Ok (inl tr), Ok (Some c) => bool_decide (sum_lossless (default Identity (tc_fns s !! normalize k)) tr c)
  | _, _ => true
  end.

Definition lost_sums s k value (r : outcome E AddResult) (X : gset Key) : gset Key :=
  match r with
  | Ok Add_Success => if add_exact s k value then X else {[ normalize k ]} ∪ X
  | _ => X
  end.

(** The operations of an execution, with the keys at which a sum of effects lost
    something. *)
Inductive tc_step : TC * gset Key -> TC * gset Key -> Prop :=
| tc_step_read k r s s' X :
    key_valid k -> tc_read reader k s = (r, s') -> tc_step (s, X) (s', X)
| tc_step_write k v s X :
    key_valid k -> stored_value_valid v -> tc_step (s, X) (tc_write k v s, X)
| tc_step_add k value r s s' X :
    key_valid k -> tc_add reader k value s = (r, s') -> tc_step (s, X) (s', lost_sums s k value r X).

(** An execution: the tracking copy and the keys with lost sums it ends with. *)
Definition tc_run s (X : gset Key) : Prop := rtc tc_step (tracking_copy_new, ∅) (s, X).

(** What is recorded for a key leads from the base state to the view, unless a sum
    lost something; then the base state has a value at the key. *)
Definition effect_exact (X : gset Key) s k tr : Prop :=
  exists r v, reader k = Ok r /\ tc_view s k = Ok (Some v)
    /\ if decide (k ∈ X) then is_Some r else effect_gives r tr v.

Definition effects_inv (X : gset Key) s : Prop := forall k,
  match tc_fns s !! k with
  | None => muts_cached (tc_cache s) !! k = None /\ (k ∈ X -> exists c, reader k = Ok (Some c))
  | Some tr => key_valid k /\ transform_valid tr /\ effect_exact X s k tr
  end.

(** What is recorded for the key of a step, and what the view was. *)
Lemma effects_at X s k :
  reader_ok -> effects_inv X s -> key_valid k ->
  exists r, reader k = Ok r /\ option_valid stored_value_valid r
    /\ transform_valid (default Identity (tc_fns s !! k))
    /\ match tc_view s k with
       | Ok (Some c) => if decide (k ∈ X) then is_Some r else effect_gives r (default Identity (tc_fns s !! k)) c
       | Ok None => r = None /\ tc_fns s !! k = None /\ k ∉ X
       | _ => False
       end.
Proof.
  intros Hr He Hk. destruct (Hr k Hk) as (r & Er & Hv). exists r. split; [done|]. split; [done|].
  specialize (He k). destruct (tc_fns s !! k) as [tr|] eqn:Ef; cbn.
  - destruct He as (_ & Ht & r' & v & Er' & -> & Hg). rewrite Er in Er'. injection Er' as <-. done.
  - destruct He as [He Hn]. split; [done|]. unfold TrackingCopy.tc_view. rewrite He, Er.
    destruct r; [by case_decide|]. split_and!; [done..|]. intros Hk'. destruct (Hn Hk') as [c Ec]. congruence.
Qed.

Lemma insert_add_lookup {V} (add : V -> V -> V) d (m : gmap Key V) k x k' :
  insert_add add d m k x !! k' = if decide (k' = k) then Some (add (default d (m !! k)) x) else m !! k'.
Proof.
  unfold insert_add. case_decide as Hd; [subst; rewrite lookup_insert_eq; by destruct (m !! k)|].
  by rewrite lookup_insert_ne.
Qed.

(** One more effect at one key. *)
Lemma effects_inv_record X X' s s' k b v :
  reader_ok -> effects_inv X s -> key_valid k -> transform_valid b ->
  (forall k', k' <> k -> k' ∈ X' <-> k' ∈ X) ->
  tc_fns s' = insert_add transform_add transform_default (tc_fns s) k b ->
  (forall k', k' <> k -> muts_cached (tc_cache s') !! k' = muts_cached (tc_cache s) !! k') ->
  tc_view s' k = Ok (Some v) ->
  (forall r, reader k = Ok r ->
    if decide (k ∈ X') then is_Some r else effect_gives r (transform_add (default Identity (tc_fns s !! k)) b) v) ->
  effects_inv X' s'.
Proof.
  intros Hr He Hk Hb HX Ef Hm Hv Hg k'. rewrite Ef, insert_add_lookup.
  destruct (effects_at X s k Hr He Hk) as (r & Er & _ & Ht & _).
  destruct (decide (k' = k)) as [->|Hd].
  - split; [done|]. split; [by apply transform_add_valid|]. exists r, v. specialize (Hg r Er). done.
  - specialize (He k'). unfold effect_exact, TrackingCopy.tc_view in *. rewrite (Hm k' Hd).
    destruct (tc_fns s !! k'); [|by rewrite HX].
    destruct He as (? & ? & r' & v' & ? & ? & Hd'). split; [done|]. split; [done|]. exists r', v'.
    split; [done|]. split; [done|]. specialize (HX k' Hd). repeat case_decide; tauto.
Qed.

Lemma effects_inv_same X s s' : same_muts s s' -> effects_inv X s -> effects_inv X s'.
Proof.
  intros (Em & _ & Ef) He k. specialize (He k). unfold effect_exact, TrackingCopy.tc_view in *.
  by rewrite Ef, Em.
Qed.

Lemma add_identity a : transform_add a Identity = a.
Proof. by destruct a. Qed.

Lemma tc_read_effects X k s r s' :
  reader_ok -> tc_inv s -> effects_inv X s -> key_valid k -> tc_read reader k s = (r, s') ->
  tc_inv s' /\ effects_inv X s'.
Proof.
  intros Hr Hi He Hk E1. destruct (tc_read_spec reader k s Hi) as (s1 & E2 & Hi' & Em & Ef).
  rewrite E1 in E2. injection E2 as _ <-. split; [done|].
  destruct (effects_at X s (normalize k) Hr He (normalize_valid k Hk)) as (r0 & Er & Hv & _ & Hw).
  destruct (tc_view s (normalize k)) as [[c|]|?|] eqn:Ew; try done.
  - apply (effects_inv_record X X s s' (normalize k) Identity c); try done; [by apply normalize_valid|by rewrite Em| |].
    + unfold TrackingCopy.tc_view in *. by rewrite Em.
    + intros r1 Er1. rewrite Er in Er1. injection Er1 as <-. by rewrite add_identity.
  - intros k'. specialize (He k'). unfold effect_exact, TrackingCopy.tc_view in *. by rewrite Ef, Em.
Qed.

Lemma tc_write_effects X k v s :
  reader_ok -> tc_inv s -> effects_inv X s -> key_valid k -> stored_value_valid v ->
  tc_inv (tc_write k v s) /\ effects_inv X (tc_write k v s).
Proof.
  intros Hr Hi He Hk Hv. split; [by apply tc_record_inv, tc_mutate_inv|].
  destruct (effects_at X s (normalize k) Hr He (normalize_valid k Hk)) as (r & Er & _ & _ & Hw).
  apply (effects_inv_record X X s _ (normalize k) (Write v) v); try done.
  - by apply normalize_valid.
  - intros k' Hne. cbn. by rewrite lookup_insert_ne.
  - unfold TrackingCopy.tc_view. cbn. by rewrite lookup_insert_eq.
  - intros r1 Er1. rewrite Er in Er1. injection Er1 as <-.
    destruct (tc_view s (normalize k)) as [[c|]|?|]; try done.
    + case_decide; [done|by apply (effect_write r _ c)].
    + destruct Hw as (-> & -> & Hn). by rewrite decide_False.
Qed.

Lemma lost_sums_at X s k value r r0 :
  reader (normalize k) = Ok r0 ->
  (forall k', k' <> normalize k -> k' ∈ lost_sums s k value r X <-> k' ∈ X)
  /\ X ⊆ lost_sums s k value r X
  /\ (normalize k ∈ lost_sums s k value r X -> normalize k ∈ X \/ is_Some r0).
Proof.
  intros Er. unfold lost_sums. destruct r as [[]|?|]; try (by split_and!; auto).
  unfold add_exact. rewrite Er. destruct (add_transform value) as [[tr|?]|?|]; try (by split_and!; auto).
  destruct r0 as [c|]; [|by split_and!; auto]. case_bool_decide; [by split_and!; auto|].
  split_and!; [set_solver..|eauto].
Qed.

(** Nothing recorded. *)
Lemma effects_inv_grow X s k value r r0 s' :
  reader (normalize k) = Ok r0 -> same_muts s s' -> effects_inv X s -> effects_inv (lost_sums s k value r X) s'.
Proof.
  intros Er Hs He. destruct (lost_sums_at X s k value r r0 Er) as (Hne & Hsub & Hat).
  apply (effects_inv_same _ s); [done|]. intros k'. specialize (He k'). specialize (Hne k').
  destruct (decide (k' = normalize k)) as [->|Hd]; [|destruct (tc_fns s !! k')].
  - destruct (tc_fns s !! normalize k).
    + destruct He as (? & ? & r1 & v & E1 & Hv & Hg). split; [done|]. split; [done|]. exists r1, v.
      rewrite E1 in Er. injection Er as ->. split; [done|]. split; [done|].
      destruct (decide (normalize k ∈ X)); [by rewrite decide_True by set_solver|]. case_decide; [|done]. tauto.
    + destruct He as [? He]. split; [done|]. intros Hin. destruct (Hat Hin) as [?|[c ->]]; eauto.
  - destruct He as (? & ? & r1 & v & E1 & Hv & Hg). split; [done|]. split; [done|]. exists r1, v.
    split; [done|]. split; [done|]. specialize (Hne Hd). repeat case_decide; tauto.
  - rewrite Hne by done. done.
Qed.

Lemma tc_add_effects X k value s r s' :
  reader_ok -> tc_inv s -> effects_inv X s -> key_valid k -> tc_add reader k value s = (r, s') ->
  tc_inv s' /\ effects_inv (lost_sums s k value r X) s'.
Proof.
  intros Hr Hi He Hk E1. destruct (tc_add_spec reader k value s Hi) as (r1 & s1 & E2 & Hi' & Hs).
  rewrite E1 in E2. injection E2 as <- <-. split; [done|].
  destruct (effects_at X s (normalize k) Hr He (normalize_valid k Hk)) as (r0 & Er & Hv & Ht & Hw).
  destruct (tc_view s (normalize k)) as [[c|]|?|] eqn:Ew; try done;
    [|by apply (effects_inv_grow X s k value r r0); [|apply Hs|]].
  unfold added in Hs. destruct (add_transform value) as [[tr|result]|?|] eqn:Ea;
    try (by apply (effects_inv_grow X s k value r r0); [|apply Hs|]).
  destruct (apply_transform tr c) as [v|[m|e]|] eqn:Ev;
    try (by apply (effects_inv_grow X s k value r r0); [|apply Hs|]).
  destruct Hs as (-> & Em & Ef). destruct (lost_sums_at X s k value (Ok Add_Success) r0 Er) as (Hne & Hsub & Hat).
  apply (effects_inv_record X _ s s' (normalize k) tr v); try done.
  - by apply normalize_valid.
  - by apply (add_transform_valid value).
  - intros k' Hd. rewrite Em. by rewrite lookup_insert_ne.
  - unfold TrackingCopy.tc_view. by rewrite Em, lookup_insert_eq.
  - intros r2 Er2. rewrite Er in Er2. injection Er2 as <-.
    destruct (decide (normalize k ∈ X)) as [HX|HX]; [by rewrite decide_True by set_solver|].
    case_decide as HX'; [tauto|]. apply (effect_add r0 _ tr c v); try done; [by apply (add_transform_valid value)|].
    intros x ->. unfold lost_sums, add_exact in HX'. rewrite Ea, Er in HX'. case_bool_decide; [done|set_solver].
Qed.

Lemma tc_steps_inv s X :
  reader_ok -> tc_run s X -> tc_inv s /\ effects_inv X s.
Proof.
  intros Hr Hs. unfold tc_run in Hs.
  enough (forall x y, rtc tc_step x y -> tc_inv x.1 /\ effects_inv x.2 x.1 -> tc_inv y.1 /\ effects_inv y.2 y.1) as Hn.
  { apply (Hn _ _ Hs). split; [apply tracking_copy_new_inv | by intros k]. }
  clear s X Hs. intros x y Hs. induction Hs as [|x y z Hst _ IH]; [done|]. intros [Hi He]. apply IH.
  destruct Hst as [k r s s' X Hk E1|k v s X Hk Hv|k value r s s' X Hk E1]; cbn in *.
  - by apply (tc_read_effects X k s r).
  - by apply tc_write_effects.
  - by apply (tc_add_effects X k value s r).
Qed.

(** What an execution writes and adds is well formed. *)
Definition muts_valid s : Prop := map_Forall (fun _ v => stored_value_valid v) (muts_cached (tc_cache s)).

Lemma muts_valid_readable s : reader_ok -> muts_valid s -> readable reader s.
Proof.
  intros Hr Hm k Hk. unfold TrackingCopy.tc_view. destruct (_ !! k) as [v|] eqn:Ek; [|by apply Hr].
  exists (Some v). split; [done|]. by apply (Hm k).
Qed.

Lemma tc_add_muts_valid k value s r s' :
  reader_ok -> tc_inv s -> muts_valid s -> key_valid k -> tc_add reader k value s = (r, s') -> muts_valid s'.
Proof.
  intros Hr Hi Hm Hk E1. destruct (tc_add_spec reader k value s Hi) as (r1 & s1 & E2 & _ & Hs).
  rewrite E1 in E2. injection E2 as <- <-.
  assert (same_muts s s' -> muts_valid s') as Hsame by (intros (Em & _); unfold muts_valid; by rewrite Em).
  destruct (muts_valid_readable s Hr Hm (normalize k) (normalize_valid k Hk)) as (c & Ec & Hc). rewrite Ec in Hs.
  destruct c as [c|]; [|by apply Hsame, Hs]. unfold added in Hs.
  destruct (add_transform value) as [[tr|result]|?|] eqn:Ea; try (by apply Hsame, Hs).
  destruct (apply_transform tr c) as [v|[m|e]|] eqn:Ev; try (by apply Hsame, Hs).
  destruct Hs as (_ & Em & _). unfold muts_valid. rewrite Em. apply map_Forall_insert_2; [|done].
  by apply (apply_valid tr c v); [apply (add_transform_valid value)| |].
Qed.

Lemma tc_run_muts_valid s X : reader_ok -> tc_run s X -> tc_inv s /\ muts_valid s.
Proof.
  intros Hr Hs. unfold tc_run in Hs.
  enough (forall x y, rtc tc_step x y -> tc_inv x.1 /\ muts_valid x.1 -> tc_inv y.1 /\ muts_valid y.1) as Hn.
  { apply (Hn _ _ Hs). split; [apply tracking_copy_new_inv | apply map_Forall_empty]. }
  clear s X Hs. intros x y Hs. induction Hs as [|x y z Hst _ IH]; [done|]. intros [Hi Hm]. apply IH.
  destruct Hst as [k r s s' X Hk E1|k v s X Hk Hv|k value r s s' X Hk E1]; cbn in *.
  - destruct (tc_read_spec reader k s Hi) as (s1 & E2 & Hi' & Em & _). rewrite E1 in E2. injection E2 as _ <-.
    split; [done|]. unfold muts_valid. by rewrite Em.
  - split; [by apply tc_record_inv, tc_mutate_inv|]. unfold muts_valid. cbn. by apply map_Forall_insert_2.
  - split; [|by apply (tc_add_muts_valid k value s r)].
    destruct (tc_add_spec reader k value s Hi) as (r1 & s1 & E2 & Hi' & _). rewrite E1 in E2. by injection E2 as _ <-.
Qed.

(** C35: at any point of an execution over a well-formed state, a query for a path
    of names from a well-formed key ends without an error; it returns the value
    that the path leads to through the named keys of accounts and contracts, in
    the state as the execution sees it, or reports that the value is not found
    where the path leads to none; and it changes no value. *)
Theorem tc_query_spec s X base_key path :
  reader_ok -> tc_run s X -> key_valid base_key ->
  exists r s', tc_query reader base_key path s = (Ok r, s') /\ tc_inv s' /\ same_view reader s s'
    /\ match path_value reader s base_key path with
       | Some v => r = Query_Success v
       | None => exists msg, r = Query_ValueNotFound msg
       end.
Proof.
  intros Hr Hs Hk. destruct (tc_run_muts_valid s X Hr Hs) as [Hi Hm].
  by apply tc_query_resolves; [apply muts_valid_readable| |].
Qed.

(** Whatever an execution reads, the reads it keeps never take more than the
    size of the cache, and the size it accounts for is theirs: dropping old
    reads never counts below zero. *)
Theorem tracking_copy_cache s X :
  reader_ok -> tc_run s X ->
  current_cache_size (tc_cache s) = total_size (lhm_entries (reads_cached (tc_cache s)))
  /\ total_size (lhm_entries (reads_cached (tc_cache s))) <= CACHE_SIZE.
Proof.
  intros Hr Hs. destruct (tc_steps_inv s X Hr Hs) as [[_ _ Hsz Hb Hm] _].
  split; [done|]. by rewrite <- Hsz, <- Hm.
Qed.
End effects.
