(* ===== verification/ByteSize.v ===== *)
(** The sizes the tracking copy accounts for: the traits [ByteSize] and
    [HeapSizeOf], and the meter built on them.  Sources:
    [engine-core/src/tracking_copy/byte_size.rs], [meter.rs]. *)

From S2P Require Import Prelude BTreeMap Bytesrepr Types CLValues Account StoredValue TrackingCopy.

(** [mem::size_of] of the types involved, as the compiler lays them out, and
    [String::capacity]. *)
Class Sizes := {
  size_of_key : Z;
  size_of_string : Z;
  size_of_account : Z;
  size_of_contract : Z;
  size_of_stored_value : Z;
  size_of_btreemap : Z;
  capacity : bytes -> Z;
}.

(** Relied on: sizes are not negative, and a string has room for its bytes. *)
Class SizesLaws `{Sizes} : Prop := {
  sizes_nonneg : 0 <= size_of_key /\ 0 <= size_of_string /\ 0 <= size_of_account /\ 0 <= size_of_contract
    /\ 0 <= size_of_stored_value /\ 0 <= size_of_btreemap;
  capacity_length s : zlen s <= capacity s;
}.

(** The two traits. *)
Class HeapSizeOf (A : Type) := heap_size : A -> Z.
Class ByteSize (A : Type) := byte_size : A -> Z.

Section sizes.
Context `{Sizes}.

#[export] Instance key_heap_size : HeapSizeOf Key := fun _ => 0.
#[export] Instance string_heap_size : HeapSizeOf bytes := fun s => capacity s.

(** The nodes of the tree are not counted. *)
#[export] Instance btreemap_heap_size {K V} `{!HeapSizeOf K, !HeapSizeOf V} : HeapSizeOf (BTreeMap K V) :=
  fun m => fold_left (fun sum '(k, v) => sum + heap_size k + heap_size v) m 0.

#[export] Instance account_heap_size : HeapSizeOf Account := fun a => heap_size (account_named_keys a).

#[export] Instance contract_heap_size : HeapSizeOf Contract :=
  fun c => heap_size (contract_named_keys c) + zlen (contract_bytes c).

#[export] Instance key_byte_size : ByteSize Key := fun k => size_of_key + heap_size k.
#[export] Instance string_byte_size : ByteSize bytes := fun s => size_of_string + heap_size s.

(** Maps from names to keys, the only ones that are measured. *)
#[export] Instance named_keys_byte_size : ByteSize (BTreeMap bytes Key) :=
  fun m => size_of_btreemap + heap_size m + zlen m * (size_of_string + size_of_key).

#[export] Instance account_byte_size : ByteSize Account :=
  fun a => size_of_account + heap_size a + byte_size (account_named_keys a).

#[export] Instance contract_byte_size : ByteSize Contract :=
  fun c => size_of_contract + heap_size c + byte_size (contract_named_keys c) + zlen (contract_bytes c).

#[export] Instance stored_value_byte_size : ByteSize StoredValue := fun v =>
  size_of_stored_value + match v with
                         | SV_CLValue cl_value => cl_value_serialized_len cl_value
                         | SV_Account account => heap_size account
                         | SV_Contract contract => heap_size contract
                         end.

(** A slice of elements whose type has the given size. *)
Definition slice_byte_size {T} `{!HeapSizeOf T} (size_of_T : Z) (l : list T) : Z :=
  fold_left (fun sum el => sum + size_of_T + heap_size el) l 0.

(** [heap_meter::HeapSize]. *)
Definition heap_meter : Meter := fun _ v => size_of_stored_value + byte_size v.
End sizes.

(** * The meter is one *)

Section laws.
Context `{SizesLaws}.

Lemma btreemap_heap_size_from (m : BTreeMap bytes Key) z :
  zlen (concat (map fst m)) + z <= fold_left (fun sum '(k, v) => sum + heap_size k + heap_size v) m z.
Proof.
  revert z. induction m as [|[k v] m IH]; intros z; [unfold zlen; cbn; lia|]. cbn [map concat fst fold_left]. rewrite zlen_app.
  etransitivity; [|apply IH]. pose proof (capacity_length k). unfold heap_size, string_heap_size, key_heap_size. lia.
Qed.

(** The names of a map are counted in full. *)
Lemma named_keys_heap_size (m : BTreeMap bytes Key) : zlen (concat (map fst m)) <= heap_size m.
Proof. pose proof (btreemap_heap_size_from m 0). unfold heap_size, btreemap_heap_size. lia. Qed.

(** The code of a contract and the bytes of a typed value are counted in full, so
    the cache holds no more bytes of them than its size. *)
Lemma measure_covers k v :
  match v with
  | SV_CLValue cl_value => zlen (cl_bytes cl_value)
  | SV_Account a => zlen (concat (map fst (account_named_keys a)))
  | SV_Contract c => zlen (contract_bytes c) + zlen (concat (map fst (contract_named_keys c)))
  end <= @measure heap_meter k v.
Proof.
  pose proof sizes_nonneg. unfold measure, heap_meter, byte_size, stored_value_byte_size. destruct v as [v|a|c].
  - unfold cl_value_serialized_len, U32_SERIALIZED_LENGTH. pose proof (cl_type_enc_len (cl_type v)). unfold zlen in *. lia.
  - unfold heap_size at 1, account_heap_size. pose proof (named_keys_heap_size (account_named_keys a)). lia.
  - unfold heap_size at 1, contract_heap_size. pose proof (named_keys_heap_size (contract_named_keys c)). lia.
Qed.

#[export] Instance heap_meter_laws : @MeterLaws heap_meter.
Proof.
  intros k v. etransitivity; [|apply measure_covers]. unfold zlen. destruct v; lia.
Qed.
End laws.
