(* ===== verification/Execution.v ===== *)
(** One execution on the global state: a tracking copy over the view of a root,
    and the commit of the effects it recorded.  Sources:
    [engine-core/src/tracking_copy/mod.rs],
    [engine-storage/src/global_state/mod.rs],
    [engine-storage/src/global_state/in_memory.rs]. *)

From stdpp Require Import gmap.
From S2P Require Import Prelude BTreeMap Bytesrepr Uint Types CLValues Account StoredValue Transform.
From S2P Require Import Trie TrieStore TrieSpec TrieWrite GlobalState TrackingCopy.

Section execution.
Context {hasher : Hasher} {hl : HasherLaws} {dbg : DebugText} {qtext : QueryText} (handle : Handle).
Context {L : Type} `{LinkedHashMapLaws L} `{MeterLaws}.
Implicit Types (data : InMemoryData) (s : TrackingCopy L).

#[local] Abbreviation root_wf := (root_wf key_codec stored_value_codec handle key_valid stored_value_valid).
#[local] Abbreviation reader data root := (view_read handle data root).
#[local] Abbreviation state_read := (state_read handle).

#[local] Opaque read write.

(** The effects of an execution, as the commit takes them. *)
Definition execution_effects s : list (Key * Transform) := map_to_list (tc_fns s).

(** Reads of a well-formed root, as a reader. *)
Lemma view_read_ok data root k :
  root_wf data root -> key_valid k ->
  exists r, view_read handle data root k = Ok r /\ option_valid stored_value_valid r
    /\ state_read data root k = Ok (match r with Some v => Found v | None => NotFound end).
Proof.
  intros Hwf Hk. destruct (state_read_total handle data root k Hwf Hk) as (r & Hr & Hn).
  unfold view_read. rewrite Hr. cbn [obind]. destruct r as [v| |]; [| |done].
  - exists (Some v). split; [done|]. split; [|done].
    exact (read_valid key_codec stored_value_codec handle key_valid stored_value_valid
      KEY_FUEL data root k v Hwf Hk (key_enough k Hk) Hr).
  - exists None. done.
Qed.

Lemma view_reader_ok data root : root_wf data root -> reader_ok (reader data root).
Proof. intros Hwf k Hk. destruct (view_read_ok data root k Hwf Hk) as (r & ? & ? & _). eauto. Qed.

Lemma view_read_state data root data' root' k :
  state_read data' root' k = state_read data root k ->
  view_read handle data' root' k = view_read handle data root k.
Proof. unfold view_read. by intros ->. Qed.

Lemma execution_effects_in s k tr : In (k, tr) (execution_effects s) <-> tc_fns s !! k = Some tr.
Proof. unfold execution_effects. rewrite <- list_elem_of_In. apply elem_of_map_to_list. Qed.

Lemma execution_effects_ok data root s X :
  effects_inv (reader data root) X s ->
  Forall effect_ok (execution_effects s) /\ List.NoDup (map fst (execution_effects s)).
Proof.
  intros He. split.
  - rewrite List.Forall_forall. intros [k tr] Hin. apply execution_effects_in in Hin.
    specialize (He k). rewrite Hin in He. by destruct He as (? & ? & _).
  - apply NoDup_ListNoDup. apply NoDup_fst_map_to_list.
Qed.

(** A recorded effect can be applied to what the root has, unless a sum of effects
    lost something; then the root has a value at the key. *)
Lemma effect_value_gives {TE} data root s X k tr r :
  effects_inv (reader data root) X s -> root_wf data root -> tc_fns s !! k = Some tr ->
  state_read data root k = Ok r ->
  if decide (k ∈ X) then exists c, r = Found c /\ reader data root k = Ok (Some c)
  else exists v, effect_value (TE := TE) k r tr = Ok (inl v) /\ tc_view (reader data root) s k = Ok (Some v).
Proof.
  intros He Hwf Hf Hr. specialize (He k). rewrite Hf in He. destruct He as (Hk & _ & r0 & v & Er & Hv & Hg).
  destruct (view_read_ok data root k Hwf Hk) as (r1 & Er1 & _ & Hs). rewrite Er in Er1. injection Er1 as <-.
  rewrite Hs in Hr. injection Hr as <-. case_decide.
  - destruct Hg as [c ->]. eauto.
  - exists v. split; [|done]. destruct r0 as [c|]; cbn in Hg |- *; by rewrite Hg.
Qed.

(** What a commit rejects is a sum that lost something. *)
Lemma rejected_sum data root s X data' result :
  effects_inv (reader data root) X s -> root_wf data root ->
  (data' = data /\ exists k tr r, In (k, tr) (execution_effects s) /\ state_read data root k = Ok r
     /\ effect_value (TE := InMemoryError) k r tr = Ok (inr result)) ->
  data' = data /\ exists k tr c e, k ∈ X /\ tc_fns s !! k = Some tr
    /\ reader data root k = Ok (Some c) /\ apply_transform tr c = Err e
    /\ result = commit_result_from_error e.
Proof.
  intros He Hwf (-> & k & tr & r & Hin & Hr & Hv). split; [done|]. apply execution_effects_in in Hin.
  pose proof (effect_value_gives (TE := InMemoryError) data root s X k tr r He Hwf Hin Hr) as Hg.
  case_decide; [|destruct Hg as (v & E & _); congruence]. destruct Hg as (c & -> & Hc). cbn in Hv.
  destruct (apply_transform tr c) as [?|e|] eqn:Ea; [congruence| |congruence].
  exists k, tr, c, e. split_and!; [done..|]. by injection Hv as <-.
Qed.

End execution.
