(* ===== verification/Mint.v ===== *)
(** The mint: purses, balances and transfers.  Sources: [mint/src/lib.rs],
    [mint/src/storage_provider.rs], [mint/src/runtime_provider.rs],
    [contracts/system/mint-token/src/contract_storage.rs],
    [types/src/system_contract_errors/mint.rs]. *)

From stdpp Require Import gmap.
From S2P Require Import Prelude BTreeMap Bytesrepr Uint Types CLValues Account StoredValue Transform.

(** * Errors *)

Inductive MintError :=
| InsufficientFunds
| SourceNotFound
| DestNotFound
| InvalidURef
| InvalidAccessRights
| InvalidNonEmptyPurseCreation
| StorageError
| PurseNotFound
| Mint_MissingArgument
| Mint_InvalidArgument.

#[global] Instance mint_error_eq_dec : EqDecision MintError.
Proof. solve_decision. Defined.

(** The discriminants. *)
Definition mint_error_to_u8 (e : MintError) : Z :=
  match e with
  | InsufficientFunds => 0
  | SourceNotFound => 1
  | DestNotFound => 2
  | InvalidURef => 3
  | InvalidAccessRights => 4
  | InvalidNonEmptyPurseCreation => 5
  | StorageError => 6
  | PurseNotFound => 7
  | Mint_MissingArgument => 102
  | Mint_InvalidArgument => 103
  end.

(** [TryFrom<u8> for Error]. *)
Definition mint_error_try_from (value : Z) : option MintError :=
  if value =? mint_error_to_u8 InsufficientFunds then Some InsufficientFunds
  else if value =? mint_error_to_u8 SourceNotFound then Some SourceNotFound
  else if value =? mint_error_to_u8 DestNotFound then Some DestNotFound
  else if value =? mint_error_to_u8 InvalidURef then Some InvalidURef
  else if value =? mint_error_to_u8 InvalidAccessRights then Some InvalidAccessRights
  else if value =? mint_error_to_u8 Mint_MissingArgument then Some Mint_MissingArgument
  else if value =? mint_error_to_u8 Mint_InvalidArgument then Some Mint_InvalidArgument
  else if value =? mint_error_to_u8 InvalidNonEmptyPurseCreation then Some InvalidNonEmptyPurseCreation
  else None.

Definition mint_error_to_bytes (e : MintError) : outcome Error bytes :=
  u8_to_bytes (mint_error_to_u8 e).

Definition mint_error_from_bytes (bs : bytes) : outcome Error (MintError * bytes) :=
  let? '(value, rem) := u8_from_bytes bs in
  let? error := ok_or (mint_error_try_from value) FormattingError in
  Ok (error, rem).

Definition mint_error_codec : Codec MintError := mk_codec mint_error_to_bytes mint_error_from_bytes.

(** * The interfaces of the mint *)

(** [StorageProvider], at the types the mint uses it with. *)
Class StorageProvider (S : Type) := {
  new_uref_u512 : Z -> eff S MintError URef;
  new_uref_unit : eff S MintError URef;
  write_local : bytes -> Key -> eff S MintError unit;
  read_local : bytes -> eff S MintError (option Key);
  storage_read : URef -> eff S MintError (option Z);
  storage_write : URef -> Z -> eff S MintError unit;
  storage_add : URef -> Z -> eff S MintError unit;
}.

Class RuntimeProvider (S : Type) := {
  get_caller : eff S MintError PublicKey;
  put_key : bytes -> Key -> eff S MintError unit;
}.

Definition SYSTEM_ACCOUNT : PublicKey := replicate 32 x00.

(** [TryFrom<Key> for URef] with [map_err(|_| Error::InvalidAccessRights)]. *)
Definition balance_uref_of (k : Key) : outcome MintError URef :=
  ok_or (key_into_uref k) InvalidAccessRights.

(** * Operations *)

Section mint.
Context {S : Type} `{StorageProvider S, RuntimeProvider S} (encode_lower : bytes -> bytes).

Definition mint (initial_balance : Z) : eff S MintError URef :=
  let! caller := get_caller in
  if negb (initial_balance =? 0) && negb (bool_decide (caller = SYSTEM_ACCOUNT))
  then elift (Err InvalidNonEmptyPurseCreation)
  else
    let! balance_uref := new_uref_u512 initial_balance in
    let! purse_key := new_uref_unit in
    let purse_uref_name := uref_as_string encode_lower (remove_access_rights purse_key) in
    let! _ := put_key purse_uref_name (Key_URef balance_uref) in
    let! _ := write_local (uref_addr purse_key) (Key_URef balance_uref) in
    eret purse_key.

Definition balance (purse : URef) : eff S MintError (option Z) :=
  let! key := read_local (uref_addr purse) in
  match key with
  | None => eret None
  | Some key =>
      let! balance_uref := elift (balance_uref_of key) in
      let! value := storage_read balance_uref in
      match value with
      | Some v => eret (Some v)
      | None => elift (Err PurseNotFound)
      end
  end.

Definition transfer (source dest : URef) (amount : Z) : eff S MintError unit :=
  if negb (uref_is_writeable source) || negb (uref_is_addable dest)
  then elift (Err InvalidAccessRights)
  else
    let! source_key := read_local (uref_addr source) in
    match source_key with
    | None => elift (Err SourceNotFound)
    | Some key =>
        let! source_bal := elift (balance_uref_of key) in
        let! value := storage_read source_bal in
        match value with
        | None => elift (Err SourceNotFound)
        | Some source_value =>
            if amount >? source_value then elift (Err InsufficientFunds)
            else
              let! dest_key := read_local (uref_addr dest) in
              match dest_key with
              | None => elift (Err DestNotFound)
              | Some key =>
                  let! dest_bal := elift (balance_uref_of key) in
                  let! rest := elift (uint_sub source_value amount) in
                  let! _ := storage_write source_bal rest in
                  let! _ := storage_add dest_bal amount in
                  eret tt
              end
        end
    end.
End mint.

(** * What the mint relies on *)

(** The state as the mint sees it: the number cells behind urefs, the local
    keys, and the addresses handed out. *)
Class StorageView (S : Type) := {
  cells : S -> gmap bytes Z;
  locals : S -> gmap bytes Key;
  allocated : S -> gset bytes;
  caller : S -> PublicKey;
}.

Definition full (u : URef) : Prop := uref_access_rights u = Some READ_ADD_WRITE.

Lemma full_rights u :
  full u -> uref_is_readable u = true /\ uref_is_writeable u = true /\ uref_is_addable u = true.
Proof.
  unfold full, uref_is_readable, uref_is_writeable, uref_is_addable. by intros ->.
Qed.

Class StorageLaws (S : Type) `{StorageProvider S, RuntimeProvider S, StorageView S} : Prop := {
  get_caller_law : forall s, get_caller s = (Ok (caller s), s);
  read_local_law : forall a s, read_local a s = (Ok (locals s !! a), s);
  storage_read_law : forall u s x, full u -> cells s !! uref_addr u = Some x ->
    storage_read u s = (Ok (Some x), s);
  storage_write_law : forall u v s, full u -> is_unsigned 512 v ->
    exists s', storage_write u v s = (Ok tt, s')
      /\ cells s' = <[ uref_addr u := v ]> (cells s) /\ locals s' = locals s
      /\ allocated s' = allocated s;
  storage_add_law : forall u v s x, full u -> is_unsigned 512 v -> cells s !! uref_addr u = Some x ->
    exists s', storage_add u v s = (Ok tt, s')
      /\ cells s' = <[ uref_addr u := wrap_unsigned 512 (x + v) ]> (cells s)
      /\ locals s' = locals s /\ allocated s' = allocated s;
  new_uref_u512_law : forall v s, is_unsigned 512 v ->
    exists u s', new_uref_u512 v s = (Ok u, s') /\ full u /\ uref_addr u ∉ allocated s
      /\ cells s' = <[ uref_addr u := v ]> (cells s) /\ locals s' = locals s
      /\ allocated s' = {[ uref_addr u ]} ∪ allocated s;
  new_uref_unit_law : forall s,
    exists u s', new_uref_unit s = (Ok u, s') /\ full u /\ uref_addr u ∉ allocated s
      /\ cells s' = delete (uref_addr u) (cells s) /\ locals s' = locals s
      /\ allocated s' = {[ uref_addr u ]} ∪ allocated s;
  write_local_law : forall a k s,
    exists s', write_local a k s = (Ok tt, s')
      /\ cells s' = cells s /\ locals s' = <[ a := k ]> (locals s) /\ allocated s' = allocated s;
  put_key_law : forall n k s,
    exists s', put_key n k s = (Ok tt, s')
      /\ cells s' = cells s /\ locals s' = locals s /\ allocated s' = allocated s;
}.

(** * Sums over cells *)

Definition sum_cells (m : gmap bytes Z) : Z := map_fold (fun _ v acc => v + acc) 0 m.

Lemma sum_cells_insert m a v : m !! a = None -> sum_cells (<[ a := v ]> m) = v + sum_cells m.
Proof. intros E. unfold sum_cells. rewrite map_fold_insert_L; [done| |done]. intros. lia. Qed.

Lemma sum_cells_replace m a v x : m !! a = Some x -> sum_cells (<[ a := v ]> m) = sum_cells m - x + v.
Proof.
  intros E. rewrite <- (insert_delete_id m a x E) at 2.
  rewrite <- insert_delete_eq, !sum_cells_insert by apply lookup_delete_eq. lia.
Qed.

Lemma sum_cells_ge m a x :
  (forall b y, m !! b = Some y -> 0 <= y) -> m !! a = Some x -> 0 <= sum_cells m - x.
Proof.
  intros Hpos E. rewrite <- (insert_delete_id m a x E).
  rewrite sum_cells_insert by apply lookup_delete_eq.
  assert (forall b y, delete a m !! b = Some y -> 0 <= y) as Hd.
  { intros b y Hb. apply lookup_delete_Some in Hb as [_ Hb]. by eapply Hpos. }
  revert Hd. generalize (delete a m). clear. intros m Hd.
  enough (0 <= sum_cells m) by lia. induction m as [|b y m Hb IH] using map_ind.
  - unfold sum_cells. by rewrite map_fold_empty.
  - rewrite sum_cells_insert by done. specialize (Hd b y) as Hy. rewrite lookup_insert_eq in Hy.
    specialize (Hy eq_refl). enough (0 <= sum_cells m) by lia. apply IH. intros b' y' Hb'.
    apply (Hd b'). rewrite lookup_insert_ne; [done|]. intros ->. congruence.
Qed.

(** * The invariant of the mint *)

Section mint_spec.
Context {S : Type} `{StorageLaws S}.
Implicit Types (s : S) (purse : URef).

Definition total_supply s : Z := sum_cells (cells s).

(** The cell of a purse, and what it holds. *)
Definition purse_cell s (purse : bytes) : option bytes :=
  match locals s !! purse with
  | Some (Key_URef u) => Some (uref_addr u)
  | _ => None
  end.

Definition purse_balance s (purse : bytes) : option Z :=
  match purse_cell s purse with
  | Some a => cells s !! a
  | None => None
  end.

Record mint_inv s : Prop := {
  inv_purses : forall p k, locals s !! p = Some k ->
    exists u x, k = Key_URef u /\ full u /\ cells s !! uref_addr u = Some x;
  inv_distinct : forall p1 p2 a, purse_cell s p1 = Some a -> purse_cell s p2 = Some a -> p1 = p2;
  inv_cells : forall a x, cells s !! a = Some x -> 0 <= x /\ a ∈ allocated s;
  inv_locals : forall p k, locals s !! p = Some k -> p ∈ allocated s;
  inv_total : total_supply s < 2 ^ 512;
}.

Lemma purse_balance_inv s p :
  mint_inv s ->
  match locals s !! p with
  | Some k => exists u x, k = Key_URef u /\ full u /\ cells s !! uref_addr u = Some x
      /\ purse_balance s p = Some x /\ purse_cell s p = Some (uref_addr u) /\ 0 <= x < 2 ^ 512
  | None => purse_balance s p = None
  end.
Proof.
  intros Hinv. unfold purse_balance, purse_cell. destruct (locals s !! p) as [k|] eqn:E; [|done].
  destruct (inv_purses s Hinv p k E) as (u & x & -> & Hu & Hx). exists u, x.
  do 5 (split; [done|]). destruct (inv_cells s Hinv _ _ Hx) as [Hx0 _].
  pose proof (inv_total s Hinv) as Ht. unfold total_supply in Ht.
  pose proof (sum_cells_ge (cells s) (uref_addr u) x) as Hge.
  assert (0 <= sum_cells (cells s) - x) by (apply Hge; [|done]; intros; by eapply inv_cells). lia.
Qed.

(** A state in which one purse cell was given a new value. *)
Lemma purse_balance_update s s' p a v :
  mint_inv s -> locals s' = locals s -> cells s' = <[ a := v ]> (cells s) ->
  purse_cell s p = Some a ->
  purse_balance s' p = Some v /\ (forall q, q <> p -> purse_balance s' q = purse_balance s q).
Proof.
  intros Hinv Hl Hc Hp. unfold purse_balance, purse_cell in *. rewrite Hl, Hc. split.
  - destruct (locals s !! p) as [[| |u|]|]; try done. injection Hp as ->. apply lookup_insert_eq.
  - intros q Hq. destruct (locals s !! q) as [[| |u|]|] eqn:Eq; try done.
    apply lookup_insert_ne. intros ->. apply Hq. apply (inv_distinct s Hinv q p (uref_addr u)).
    + unfold purse_cell. by rewrite Eq.
    + done.
Qed.

(** Changing the value of an existing cell keeps the invariant. *)
Lemma mint_inv_cell s s' a x v :
  mint_inv s -> cells s !! a = Some x -> 0 <= v -> sum_cells (cells s) - x + v < 2 ^ 512 ->
  locals s' = locals s -> allocated s' = allocated s -> cells s' = <[ a := v ]> (cells s) ->
  mint_inv s'.
Proof.
  intros [Hp Hd Hc Hl Ht] Hx Hv Hs El Ea Ec.
  assert (forall p, purse_cell s' p = purse_cell s p) as Epc
    by (intros; unfold purse_cell; by rewrite El).
  split.
  - intros p k Hk. rewrite El in Hk. destruct (Hp p k Hk) as (u & y & -> & Hu & Hy).
    exists u. rewrite Ec. destruct (decide (uref_addr u = a)) as [->|Hne].
    + exists v. by rewrite lookup_insert_eq.
    + exists y. by rewrite lookup_insert_ne.
  - intros p1 p2 b. rewrite !Epc. apply Hd.
  - intros b y. rewrite Ec, Ea. intros [[<- <-]|[Hne Hy]]%lookup_insert_Some; [|by apply Hc].
    split; [done|]. by eapply Hc.
  - intros p k. rewrite El, Ea. apply Hl.
  - unfold total_supply. rewrite Ec, (sum_cells_replace _ _ _ x Hx). done.
Qed.

(** ** Transfers *)

(** The effect of a transfer that succeeds. *)
Definition transferred s (source dest : bytes) (amount : Z) s' : Prop :=
  mint_inv s' /\ total_supply s' = total_supply s
  /\ (forall p x, purse_balance s p = Some x ->
        purse_balance s' p = Some (x - (if decide (p = source) then amount else 0)
                                     + (if decide (p = dest) then amount else 0)))
  /\ (forall p, purse_balance s p = None -> purse_balance s' p = None).

Lemma transfer_cells s us ud xs xd amount ps pd :
  mint_inv s -> full us -> full ud ->
  purse_cell s ps = Some (uref_addr us) -> purse_cell s pd = Some (uref_addr ud) ->
  cells s !! uref_addr us = Some xs -> cells s !! uref_addr ud = Some xd -> 0 <= amount <= xs ->
  xs < 2 ^ 512 ->
  exists s', (let! _ := storage_write us (xs - amount) in
              let! _ := storage_add ud amount in eret tt) s = (Ok tt, s')
    /\ transferred s ps pd amount s'.
Proof.
  intros Hinv Hus Hud Hps Hpd Hxs Hxd Ham Hlt.
  destruct (storage_write_law us (xs - amount) s Hus) as (s1 & E1 & C1 & L1 & A1);
    [unfold is_unsigned; lia|].
  pose proof (inv_total s Hinv) as Ht. unfold total_supply in Ht.
  assert (mint_inv s1) as Hinv1 by (apply (mint_inv_cell s s1 (uref_addr us) xs (xs - amount)); try done; lia).
  destruct (purse_balance_update s s1 ps _ _ Hinv L1 C1 Hps) as [Bs1 Bo1].
  assert (exists y, cells s1 !! uref_addr ud = Some y) as [y Hy].
  { rewrite C1. destruct (decide (uref_addr ud = uref_addr us)) as [->|Hne];
      [rewrite lookup_insert_eq | rewrite lookup_insert_ne by done]; eauto. }
  destruct (storage_add_law ud amount s1 y Hud) as (s2 & E2 & C2 & L2 & A2);
    [unfold is_unsigned; lia | done|].
  assert (sum_cells (cells s1) = sum_cells (cells s) - amount) as Hsum.
  { rewrite C1, (sum_cells_replace _ _ _ xs Hxs). lia. }
  assert (0 <= sum_cells (cells s1) - y) as Hge.
  { apply (sum_cells_ge _ (uref_addr ud)); [|done]. intros b z Hz. by apply (inv_cells s1 Hinv1 b z). }
  assert (0 <= y) as Hy0 by (by apply (inv_cells s1 Hinv1 (uref_addr ud) y)).
  assert (wrap_unsigned 512 (y + amount) = y + amount) as Hw
    by (apply wrap_unsigned_small; unfold is_unsigned; lia).
  rewrite Hw in C2.
  assert (purse_cell s1 pd = Some (uref_addr ud)) as Hpd1 by (unfold purse_cell in *; by rewrite L1).
  destruct (purse_balance_update s1 s2 pd _ _ Hinv1 L2 C2 Hpd1) as [Bd2 Bo2].
  exists s2. split; [unfold ebind; by rewrite E1, E2|]. split; [|split; [|split]].
  - apply (mint_inv_cell s1 s2 (uref_addr ud) y (y + amount)); try done; lia.
  - unfold total_supply. rewrite C2, (sum_cells_replace _ _ _ y Hy). lia.
  - intros p x Hp.
    assert (purse_balance s1 pd = Some y) as By.
    { unfold purse_balance. by rewrite Hpd1. }
    destruct (decide (p = pd)) as [->|Hnd].
    + rewrite Bd2. f_equal. destruct (decide (pd = ps)) as [->|Hns].
      * assert (x = xs) as -> by (unfold purse_balance in Hp; rewrite Hps in Hp; congruence).
        rewrite By in Bs1. injection Bs1 as ->. lia.
      * rewrite Bo1, Hp in By by done. injection By as ->. lia.
    + rewrite Bo2 by done. destruct (decide (p = ps)) as [->|Hns].
      * assert (x = xs) as -> by (unfold purse_balance in Hp; rewrite Hps in Hp; congruence).
        rewrite Bs1. f_equal. lia.
      * rewrite Bo1, Hp by done. f_equal. lia.
  - intros p Hp. assert (p <> pd) as Hnd.
    { intros ->. unfold purse_balance in Hp. rewrite Hpd in Hp. congruence. }
    assert (p <> ps) as Hns.
    { intros ->. unfold purse_balance in Hp. rewrite Hps in Hp. congruence. }
    by rewrite Bo2, Bo1.
Qed.

Lemma balance_uref_run {A} u (f : URef -> eff S MintError A) s :
  (let! v := elift (balance_uref_of (Key_URef u)) in f v) s = f u s.
Proof. done. Qed.

(** C14: a transfer checks, in this order, the rights on both purses, the source
    purse, its funds and the target purse, and reports each failure with its
    own error and without touching the state. Otherwise it moves exactly the
    amount between the two balances (nothing at all when they are the same
    purse), leaves every other purse alone and conserves the total supply. *)
Theorem mint_transfer_spec s (source dest : URef) amount :
  mint_inv s -> 0 <= amount ->
  if negb (uref_is_writeable source && uref_is_addable dest)
  then transfer source dest amount s = (Err InvalidAccessRights, s)
  else match purse_balance s (uref_addr source) with
       | None => transfer source dest amount s = (Err SourceNotFound, s)
       | Some x =>
           if amount >? x then transfer source dest amount s = (Err InsufficientFunds, s)
           else match purse_balance s (uref_addr dest) with
                | None => transfer source dest amount s = (Err DestNotFound, s)
                | Some _ => exists s', transfer source dest amount s = (Ok tt, s')
                    /\ transferred s (uref_addr source) (uref_addr dest) amount s'
                end
       end.
Proof.
  intros Hinv Ham. rewrite negb_andb.
  destruct (negb (uref_is_writeable source) || negb (uref_is_addable dest)) eqn:G;
    [unfold transfer; by rewrite G|].
  pose proof (purse_balance_inv s (uref_addr source) Hinv) as Hs.
  pose proof (purse_balance_inv s (uref_addr dest) Hinv) as Hd.
  assert (forall r s', (let! source_key := read_local (uref_addr source) in _) s = (r, s') ->
    transfer source dest amount s = (r, s')) as Hrun
    by (intros r s'; unfold transfer; rewrite G; intros E; exact E).
  destruct (locals s !! uref_addr source) as [ks|] eqn:Es.
  2: { rewrite Hs. apply Hrun. by rewrite (ebind_run _ _ _ _ _ (read_local_law _ _)), Es. }
  destruct Hs as (us & xs & -> & Hus & Hxs & -> & Hps & Hrs).
  destruct (amount >? xs) eqn:Ea.
  { apply Hrun. rewrite (ebind_run _ _ _ _ _ (read_local_law _ _)), Es, balance_uref_run.
    rewrite (ebind_run _ _ _ _ _ (storage_read_law us s xs Hus Hxs)), Ea. done. }
  destruct (locals s !! uref_addr dest) as [kd|] eqn:Ed.
  2: { rewrite Hd. apply Hrun. rewrite (ebind_run _ _ _ _ _ (read_local_law _ _)), Es, balance_uref_run.
    rewrite (ebind_run _ _ _ _ _ (storage_read_law us s xs Hus Hxs)), Ea.
    by rewrite (ebind_run _ _ _ _ _ (read_local_law _ _)), Ed. }
  destruct Hd as (ud & xd & -> & Hud & Hxd & -> & Hpd & Hrd).
  pose proof Ea as Ea'. rewrite Z.gtb_ltb in Ea'. apply Z.ltb_ge in Ea'.
  destruct (transfer_cells s us ud xs xd amount _ _ Hinv Hus Hud Hps Hpd Hxs Hxd) as (s' & E & Ht);
    [lia | lia |].
  exists s'. split; [|done]. apply Hrun.
  rewrite (ebind_run _ _ _ _ _ (read_local_law _ _)), Es, balance_uref_run.
  rewrite (ebind_run _ _ _ _ _ (storage_read_law us s xs Hus Hxs)), Ea.
  rewrite (ebind_run _ _ _ _ _ (read_local_law _ _)), Ed, balance_uref_run.
  unfold uint_sub. rewrite (proj2 (Z.leb_le amount xs)), elift_run by lia. exact E.
Qed.

(** ** Creation of purses *)

(** A state with one more cell and one more purse. *)
Lemma mint_inv_new s s' ub purse v :
  mint_inv s -> full ub -> 0 <= v -> total_supply s + v < 2 ^ 512 ->
  uref_addr ub ∉ allocated s -> uref_addr purse ∉ {[ uref_addr ub ]} ∪ allocated s ->
  cells s' = <[ uref_addr ub := v ]> (cells s) ->
  locals s' = <[ uref_addr purse := Key_URef ub ]> (locals s) ->
  allocated s' = {[ uref_addr purse ]} ∪ ({[ uref_addr ub ]} ∪ allocated s) ->
  mint_inv s' /\ total_supply s' = total_supply s + v
  /\ purse_balance s (uref_addr purse) = None /\ purse_balance s' (uref_addr purse) = Some v
  /\ (forall p, p <> uref_addr purse -> purse_balance s' p = purse_balance s p).
Proof.
  intros [Hp Hd Hc Hl Ht] Hub Hv Hs Hfb Hfp Ec El Ea.
  assert (cells s !! uref_addr ub = None) as Nb.
  { destruct (cells s !! uref_addr ub) as [x|] eqn:E; [|done]. by destruct (Hc _ _ E). }
  assert (locals s !! uref_addr purse = None) as Np.
  { destruct (locals s !! uref_addr purse) as [k|] eqn:E; [|done]. apply Hl in E. set_solver. }
  assert (forall p, p <> uref_addr purse -> purse_cell s' p = purse_cell s p) as Epc.
  { intros p Hne. unfold purse_cell. rewrite El. by rewrite lookup_insert_ne. }
  assert (purse_cell s' (uref_addr purse) = Some (uref_addr ub)) as Epn.
  { unfold purse_cell. by rewrite El, lookup_insert_eq. }
  assert (forall p a, purse_cell s p = Some a -> a <> uref_addr ub) as Hold.
  { intros p a Hpc ->. unfold purse_cell in Hpc. destruct (locals s !! p) as [k|] eqn:E; [|done].
    destruct (Hp p k E) as (u & x & -> & _ & Hx). injection Hpc as Hu. congruence. }
  assert (total_supply s' = total_supply s + v) as Et.
  { unfold total_supply. rewrite Ec, sum_cells_insert by done. lia. }
  split; [split|split; [done|split; [|split]]].
  - intros p k. rewrite El, Ec. intros [[<- <-]|[Hne Hk]]%lookup_insert_Some.
    + exists ub, v. by rewrite lookup_insert_eq.
    + destruct (Hp p k Hk) as (u & x & -> & Hu & Hx). exists u, x.
      rewrite lookup_insert_ne by congruence. done.
  - intros p1 p2 a.
    destruct (decide (p1 = uref_addr purse)) as [->|N1], (decide (p2 = uref_addr purse)) as [->|N2];
      rewrite ?Epn, ?Epc by done; try done.
    + intros [= <-] Hpc. by destruct (Hold _ _ Hpc).
    + intros Hpc [= <-]. by destruct (Hold _ _ Hpc).
    + apply Hd.
  - intros b y. rewrite Ec, Ea. intros [[<- <-]|[Hne Hy]]%lookup_insert_Some; [set_solver|].
    destruct (Hc b y Hy). set_solver.
  - intros p k. rewrite El, Ea. intros [[<- _]|[Hne Hk]]%lookup_insert_Some; [set_solver|].
    apply Hl in Hk. set_solver.
  - by rewrite Et.
  - unfold purse_balance, purse_cell. by rewrite Np.
  - unfold purse_balance. by rewrite Epn, Ec, lookup_insert_eq.
  - intros p Hne. unfold purse_balance. rewrite Epc by done.
    destruct (purse_cell s p) as [a|] eqn:E; [|done]. rewrite Ec. apply lookup_insert_ne.
    intros E'. by destruct (Hold p a E).
Qed.

(** C15: only the system account creates money. A purse is created with exactly
    the requested balance at an address that was no purse before, no other
    purse changes, and the total supply grows by that balance; any other
    caller that asks for a non-empty purse is refused without effect. *)
Theorem mint_creates (encode_lower : bytes -> bytes) s initial_balance :
  mint_inv s -> 0 <= initial_balance -> total_supply s + initial_balance < 2 ^ 512 ->
  if negb (initial_balance =? 0) && negb (bool_decide (caller s = SYSTEM_ACCOUNT))
  then mint encode_lower initial_balance s = (Err InvalidNonEmptyPurseCreation, s)
  else exists purse s', mint encode_lower initial_balance s = (Ok purse, s') /\ full purse
    /\ mint_inv s' /\ total_supply s' = total_supply s + initial_balance
    /\ purse_balance s (uref_addr purse) = None
    /\ purse_balance s' (uref_addr purse) = Some initial_balance
    /\ (forall p, p <> uref_addr purse -> purse_balance s' p = purse_balance s p).
Proof.
  intros Hinv Hv Ht. unfold mint. rewrite (ebind_run _ _ _ _ _ (get_caller_law s)).
  destruct (negb (initial_balance =? 0) && _); [done|].
  assert (0 <= total_supply s) as Hpos.
  { unfold total_supply. destruct (decide (cells s = ∅)) as [->|Hne];
      [unfold sum_cells; by rewrite map_fold_empty|].
    apply map_choose in Hne as (a & x & E).
    pose proof (sum_cells_ge (cells s) a x (fun b y Hb => proj1 (inv_cells s Hinv b y Hb)) E).
    pose proof (proj1 (inv_cells s Hinv a x E)). lia. }
  destruct (new_uref_u512_law initial_balance s) as (ub & s1 & E1 & Hub & Hfb & C1 & L1 & A1);
    [unfold is_unsigned; lia|].
  destruct (new_uref_unit_law s1) as (purse & s2 & E2 & Hpu & Hfp & C2 & L2 & A2).
  destruct (put_key_law (uref_as_string encode_lower (remove_access_rights purse)) (Key_URef ub) s2)
    as (s3 & E3 & C3 & L3 & A3).
  destruct (write_local_law (uref_addr purse) (Key_URef ub) s3) as (s4 & E4 & C4 & L4 & A4).
  exists purse, s4. split.
  { rewrite (ebind_run _ _ _ _ _ E1), (ebind_run _ _ _ _ _ E2), (ebind_run _ _ _ _ _ E3).
    by rewrite (ebind_run _ _ _ _ _ E4). }
  split; [done|]. rewrite A1 in Hfp.
  apply (mint_inv_new s s4 ub purse initial_balance); try done.
  - rewrite C4, C3, C2, C1. apply delete_id. rewrite lookup_insert_ne by set_solver.
    destruct (cells s !! uref_addr purse) as [x|] eqn:E; [|done].
    destruct (inv_cells s Hinv _ _ E). set_solver.
  - by rewrite L4, L3, L2, L1.
  - by rewrite A4, A3, A2, A1.
Qed.

(** The balance of a purse is the one the transfers keep, and a purse that
    does not exist is reported as absent, not as an error. *)
Theorem mint_balance_spec s purse :
  mint_inv s -> balance purse s = (Ok (purse_balance s (uref_addr purse)), s).
Proof.
  intros Hinv. pose proof (purse_balance_inv s (uref_addr purse) Hinv) as Hp.
  unfold balance. rewrite (ebind_run _ _ _ _ _ (read_local_law _ _)).
  destruct (locals s !! uref_addr purse) as [k|]; [|by rewrite Hp].
  destruct Hp as (u & x & -> & Hu & Hx & -> & _). rewrite balance_uref_run.
  by rewrite (ebind_run _ _ _ _ _ (storage_read_law u s x Hu Hx)).
Qed.
End mint_spec.

(** * Error codes *)

(** The error codes that cross the contract boundary are decoded to the
    error that was encoded, except the codes of [StorageError] and
    [PurseNotFound], which the reader does not know. *)
Theorem mint_error_codes e rest :
  (let? bs := mint_error_to_bytes e in mint_error_from_bytes (bs ++ rest)) =
    match e with
    | StorageError | PurseNotFound => Err FormattingError
    | _ => Ok (e, rest)
    end.
Proof. by destruct e. Qed.

(** * The storage of the deployed mint *)

Module ContractStorage.

(** What the mint keeps behind a uref. *)
Inductive CellValue :=
| Cell_U512 (z : Z)
| Cell_Unit.

(** The part of the host's state the contract reaches: the values behind its
    urefs, its local keys, its named keys, and how many addresses the host's
    generator has handed out. *)
Record HostState := mk_host_state {
  host_cells : gmap bytes CellValue;
  host_locals : gmap bytes Key;
  host_named_keys : gmap bytes Key;
  host_caller : PublicKey;
  host_next : nat;
}.

(** The host's generator of addresses. *)
Class AddressGenerator := address : nat -> bytes.

Class AddressLaws `{AddressGenerator} : Prop := address_inj : forall n m, address n = address m -> n = m.

Definition with_cells (s : HostState) (c : gmap bytes CellValue) : HostState :=
  mk_host_state c (host_locals s) (host_named_keys s) (host_caller s) (host_next s).

(** [TURef::from_uref] with its error mapped. *)
Definition turef_from_uref (u : URef) : outcome MintError URef :=
  match uref_access_rights u with
  | Some _ => Ok u
  | None => Err InvalidAccessRights
  end.

Section contract_storage.
Context {gen : AddressGenerator}.

(** The host allocates an address that has not been used. *)
Definition new_turef (init : CellValue) : eff HostState MintError URef :=
  fun s =>
    let a := address (host_next s) in
    (Ok (uref_new a READ_ADD_WRITE),
     mk_host_state (<[ a := init ]> (host_cells s)) (host_locals s) (host_named_keys s)
       (host_caller s) (S (host_next s))).

Definition contract_write_local (key : bytes) (value : Key) : eff HostState MintError unit :=
  fun s => (Ok tt, mk_host_state (host_cells s) (<[ key := value ]> (host_locals s))
                     (host_named_keys s) (host_caller s) (host_next s)).

Definition contract_read_local (key : bytes) : eff HostState MintError (option Key) :=
  fun s => (Ok (host_locals s !! key), s).

(** A value of another type does not deserialize; the host traps a read
    without the right to it. *)
Definition contract_read (uref : URef) : eff HostState MintError (option Z) :=
  let! turef := elift (turef_from_uref uref) in
  fun s =>
    if negb (uref_is_readable turef) then (Panic, s)
    else match host_cells s !! uref_addr turef with
         | None => (Ok None, s)
         | Some (Cell_U512 z) => (Ok (Some z), s)
         | Some Cell_Unit => (Err StorageError, s)
         end.

Definition contract_write (uref : URef) (value : Z) : eff HostState MintError unit :=
  let! turef := elift (turef_from_uref uref) in
  fun s =>
    if negb (uref_is_writeable turef) then (Panic, s)
    else (Ok tt, with_cells s (<[ uref_addr turef := Cell_U512 value ]> (host_cells s))).

Definition contract_add (uref : URef) (value : Z) : eff HostState MintError unit :=
  let! turef := elift (turef_from_uref uref) in
  fun s =>
    if negb (uref_is_addable turef) then (Panic, s)
    else match host_cells s !! uref_addr turef with
         | Some (Cell_U512 z) =>
             (Ok tt, with_cells s (<[ uref_addr turef := Cell_U512 (num_wrapping_add NU512 z value) ]>
                                     (host_cells s)))
         | _ => (Panic, s)
         end.

#[export] Instance contract_storage : StorageProvider HostState := {
  new_uref_u512 v := new_turef (Cell_U512 v);
  new_uref_unit := new_turef Cell_Unit;
  write_local := contract_write_local;
  read_local := contract_read_local;
  storage_read := contract_read;
  storage_write := contract_write;
  storage_add := contract_add;
}.

#[export] Instance contract_runtime : RuntimeProvider HostState := {
  get_caller s := (Ok (host_caller s), s);
  put_key name key s :=
    (Ok tt, mk_host_state (host_cells s) (host_locals s) (<[ name := key ]> (host_named_keys s))
              (host_caller s) (host_next s));
}.

#[export] Instance contract_view : StorageView HostState := {
  cells s := omap (fun c => match c with Cell_U512 z => Some z | Cell_Unit => None end) (host_cells s);
  locals := host_locals;
  allocated s := list_to_set (map address (seq 0 (host_next s)));
  caller := host_caller;
}.

Lemma allocated_next (s s' : HostState) :
  host_next s' = S (host_next s) -> allocated s' = {[ address (host_next s) ]} ∪ allocated s.
Proof.
  intros E. cbn [allocated contract_view]. rewrite E, seq_S, map_app, list_to_set_app_L. cbn. set_solver.
Qed.

#[export] Instance contract_storage_laws {al : AddressLaws} : StorageLaws HostState.
Proof.
  assert (forall s : HostState, address (host_next s) ∉ allocated s) as Hfresh.
  { intros s. cbn [allocated contract_view].
    rewrite elem_of_list_to_set, list_elem_of_In, in_map_iff.
    intros (n & E & Hn). apply address_inj in E. apply in_seq in Hn. lia. }
  split.
  - done.
  - done.
  - intros u s x Hu Hx. cbn in *. apply lookup_omap_Some in Hx as (c & Hc & Ec).
    destruct (full_rights u Hu) as (Hr & _ & _).
    unfold contract_read, turef_from_uref, ebind, elift. rewrite Hu, Hr. cbn. rewrite Ec. destruct c; [|done]. by injection Hc as ->.
  - intros u v s Hu _. cbn. destruct (full_rights u Hu) as (_ & Hw & _).
    unfold contract_write, turef_from_uref, ebind, elift. rewrite Hu, Hw. cbn. eexists. split; [done|]. cbn. by rewrite omap_insert_Some with (y := v).
  - intros u v s x Hu _ Hx. cbn in *. apply lookup_omap_Some in Hx as (c & Hc & Ec).
    destruct (full_rights u Hu) as (_ & _ & Ha).
    unfold contract_add, turef_from_uref, ebind, elift. rewrite Hu, Ha. cbn. rewrite Ec.
    destruct c as [z|]; [|done]. injection Hc as ->. eexists. split; [done|]. cbn.
    by rewrite omap_insert_Some with (y := num_wrapping_add NU512 x v).
  - intros v s _. eexists _, _. split; [done|]. split; [done|]. split; [apply Hfresh|].
    split; [cbn; by rewrite omap_insert_Some with (y := v)|]. split; [done|]. by apply allocated_next.
  - intros s. eexists _, _. split; [done|]. split; [done|]. split; [apply Hfresh|].
    split; [|split; [done | by apply allocated_next]].
    cbn. by rewrite omap_insert_None.
  - intros a k s. by eexists.
  - intros n k s. by eexists.
Qed.
End contract_storage.
End ContractStorage.
