(* ===== verification/Stakes.v ===== *)
(** Stakes and the queues of pending bonding and unbonding requests.  Sources:
    [proof-of-stake/src/queue.rs], [proof-of-stake/src/stakes.rs],
    [types/src/system_contract_errors/pos.rs]. *)

From S2P Require Import Prelude BTreeMap Bytesrepr Uint Types.

(** * Errors *)

Inductive PosError :=
| NotBonded
| TooManyEventsInQueue
| CannotUnbondLastValidator
| SpreadTooHigh
| MultipleRequests
| BondTooSmall
| BondTooLarge
| UnbondTooLarge
| BondTransferFailed
| UnbondTransferFailed
| Pos_MissingArgument
| Pos_InvalidArgument
| TimeWentBackwards
| StakesNotFound
| PaymentPurseNotFound
| PaymentPurseKeyUnexpectedType
| PaymentPurseBalanceNotFound
| BondingPurseNotFound
| BondingPurseKeyUnexpectedType
| RefundPurseKeyUnexpectedType
| RewardsPurseNotFound
| RewardsPurseKeyUnexpectedType
| QueueNotStoredAsByteArray
| QueueDeserializationFailed
| QueueDeserializationExtraBytes
| StakesKeyDeserializationFailed
| StakesDeserializationFailed
| SystemFunctionCalledByUserAccount
| InsufficientPaymentForAmountSpent
| FailedTransferToRewardsPurse
| FailedTransferToAccountPurse
| SetRefundPurseCalledOutsidePayment.

#[global] Instance pos_error_eq_dec : EqDecision PosError.
Proof. solve_decision. Defined.

Inductive PurseLookupError := KeyNotFound | KeyUnexpectedType.

Definition purse_lookup_bonding (err : PurseLookupError) : PosError :=
  match err with
  | KeyNotFound => BondingPurseNotFound
  | KeyUnexpectedType => BondingPurseKeyUnexpectedType
  end.

Definition purse_lookup_payment (err : PurseLookupError) : PosError :=
  match err with
  | KeyNotFound => PaymentPurseNotFound
  | KeyUnexpectedType => PaymentPurseKeyUnexpectedType
  end.

Definition purse_lookup_rewards (err : PurseLookupError) : PosError :=
  match err with
  | KeyNotFound => RewardsPurseNotFound
  | KeyUnexpectedType => RewardsPurseKeyUnexpectedType
  end.

(** * Queues *)

Record QueueEntry := mk_queue_entry {
  entry_validator : PublicKey;
  entry_amount : Z;
  entry_timestamp : BlockTime;
}.

Definition queue_entry_to_bytes (e : QueueEntry) : outcome Error bytes :=
  let? b1 := to_bytes public_key_codec (entry_validator e) in
  let? b2 := to_bytes u512_codec (entry_amount e) in
  let? b3 := to_bytes blocktime_codec (entry_timestamp e) in
  Ok (b1 ++ b2 ++ b3).

Definition queue_entry_from_bytes (bs : bytes) : outcome Error (QueueEntry * bytes) :=
  let? '(validator, bs1) := from_bytes public_key_codec bs in
  let? '(amount, bs2) := from_bytes u512_codec bs1 in
  let? '(timestamp, bs3) := from_bytes blocktime_codec bs2 in
  Ok (mk_queue_entry validator amount timestamp, bs3).

Definition queue_entry_codec : Codec QueueEntry :=
  mk_codec queue_entry_to_bytes queue_entry_from_bytes.

Definition Queue : Type := list QueueEntry.

Definition queue_push (self : Queue) (validator : PublicKey) (amount : Z) (timestamp : BlockTime)
    : outcome PosError Queue :=
  if existsb (fun entry => bool_decide (entry_validator entry = validator)) self
  then Err MultipleRequests
  else
    let? _ :=
      match last self with
      | Some entry => oguard (entry_timestamp entry >? timestamp) TimeWentBackwards
      | None => Ok tt
      end in
    Ok (self ++ [mk_queue_entry validator amount timestamp]).

(** The entries that are due, and the queue that remains. *)
Definition queue_pop_due (self : Queue) (timestamp : BlockTime) : list QueueEntry * Queue :=
  (List.filter (fun entry => entry_timestamp entry <=? timestamp) self,
   List.filter (fun entry => negb (entry_timestamp entry <=? timestamp)) self).

Definition queue_to_bytes (self : Queue) : outcome Error bytes :=
  let? len := u64_to_bytes (zlen self) in
  let? entries := write_all queue_entry_codec self in
  Ok (len ++ entries).

Definition queue_from_bytes (bs : bytes) : outcome Error (Queue * bytes) :=
  let? '(len, bs1) := u64_from_bytes bs in
  read_n queue_entry_codec (Z.to_nat len) bs1.

Definition queue_codec : Codec Queue := mk_codec queue_to_bytes queue_from_bytes.

(** * Stakes *)

Definition MAX_SPREAD : Z := U512_MAX.
Definition MAX_INCREASE : Z := U512_MAX.
Definition MAX_DECREASE : Z := U512_MAX.
Definition MAX_REL_INCREASE : Z := 1000000000.
Definition MAX_REL_DECREASE : Z := 900000.

Definition Stakes : Type := BTreeMap PublicKey Z.

(** The stakes of the other validators. *)
Definition others (self : Stakes) (validator : PublicKey) : list Z :=
  map snd (List.filter (fun e => negb (bool_decide (e.1 = validator))) self).

Definition list_min (l : list Z) : option Z :=
  match l with
  | [] => None
  | x :: l' => Some (fold_left Z.min l' x)
  end.

Definition list_max (l : list Z) : option Z :=
  match l with
  | [] => None
  | x :: l' => Some (fold_left Z.max l' x)
  end.

Definition min_without (self : Stakes) (validator : PublicKey) : option Z := list_min (others self validator).

Definition max_without (self : Stakes) (validator : PublicKey) : option Z := list_max (others self validator).

Definition stakes_sum (self : Stakes) : Z :=
  fold_left (fun sum s => saturating_add 512 sum s) (bt_values self) 0.

(** The stakes are changed in place: the result is the payout and the stakes
    after the call. A caller that gets an error drops the stakes. *)
Definition stakes_unbond (self : Stakes) (validator : PublicKey) (maybe_amount : option Z)
    : outcome PosError (Z * Stakes) :=
  let min := saturating_sub (match max_without self validator with Some m => m | None => 0 end) MAX_SPREAD in
  let? product := uint_mul 512 (stakes_sum self) MAX_REL_DECREASE in
  let max_decrease := Z.min MAX_DECREASE (product / 1000000) in
  let remove :=
    if zlen self =? 1 then Err CannotUnbondLastValidator
    else
      let? stake := ok_or (bt_get validator self) NotBonded in
      let? _ :=
        match maybe_amount with
        | Some amount => oguard (amount >? stake) UnbondTooLarge
        | None => Ok tt
        end in
      if (stake >? saturating_add 512 min max_decrease) && (stake >? max_decrease)
      then Err UnbondTooLarge
      else Ok (stake, bt_remove validator self) in
  match maybe_amount with
  | Some amount =>
      let? stake := ok_or (bt_get validator self) NotBonded in
      if stake >? amount then
        let? rest := uint_sub stake amount in
        if rest <? min then Err SpreadTooHigh
        else if amount >? max_decrease then Err UnbondTooLarge
        else Ok (amount, bt_insert validator rest self)
      else remove
  | None => remove
  end.

Definition stakes_bond (self : Stakes) (validator : PublicKey) (amount : Z) : outcome PosError Stakes :=
  match bt_get validator self with
  | Some x => let? x' := uint_add 512 x amount in Ok (bt_insert validator x' self)
  | None => Ok (bt_insert validator amount self)
  end.

Definition validate_bonding (self : Stakes) (validator : PublicKey) (amount : Z) : outcome PosError unit :=
  let max := saturating_add 512
    (match min_without self validator with Some m => m | None => U512_MAX end) MAX_SPREAD in
  let min := saturating_sub (match max_without self validator with Some m => m | None => 0 end) MAX_SPREAD in
  let? stake := match bt_get validator self with Some s => uint_add 512 s amount | None => Ok amount end in
  if (stake >? max) || (stake <? min) then Err SpreadTooHigh
  else
    let? product := uint_mul 512 (stakes_sum self) MAX_REL_INCREASE in
    let max_increase := Z.min MAX_INCREASE (product / 1000000) in
    if ((stake =? 0) && (amount >? saturating_add 512 min max_increase))
       || (negb (stake =? 0) && (amount >? max_increase))
    then Err BondTooLarge
    else Ok tt.

(** * Queues are ordered by time, with one request per validator *)

Definition queue_inv (q : Queue) : Prop :=
  StronglySorted (fun a b => entry_timestamp a <= entry_timestamp b) q
  /\ List.NoDup (map entry_validator q).

Fixpoint queue_total (q : list QueueEntry) : Z :=
  match q with
  | [] => 0
  | e :: q' => entry_amount e + queue_total q'
  end.

Lemma queue_total_app q1 q2 : queue_total (q1 ++ q2) = queue_total q1 + queue_total q2.
Proof. induction q1 as [|e q1 IH]; cbn; [done|]. lia. Qed.

Lemma existsb_validator (q : Queue) v :
  existsb (fun entry => bool_decide (entry_validator entry = v)) q = false ->
  ~ In v (map entry_validator q).
Proof.
  intros E Hin. apply in_map_iff in Hin as (e & <- & Hin).
  assert (existsb (fun entry => bool_decide (entry_validator entry = entry_validator e)) q = true)
    by (apply existsb_exists; exists e; split; [done|]; by apply bool_decide_eq_true_2).
  congruence.
Qed.

Lemma StronglySorted_snoc {A} (R : A -> A -> Prop) l x :
  StronglySorted R l -> Forall (fun y => R y x) l -> StronglySorted R (l ++ [x]).
Proof.
  intros Hs. induction Hs as [|a l Hs IH Hf]; intros Hx; cbn; [by repeat constructor|].
  inversion Hx; subst. constructor; [auto|]. apply Forall_app. auto.
Qed.

Lemma sorted_last (q : Queue) e :
  StronglySorted (fun a b => entry_timestamp a <= entry_timestamp b) q -> last q = Some e ->
  Forall (fun y => entry_timestamp y <= entry_timestamp e) q.
Proof.
  intros Hs. induction Hs as [|a q Hs IH Hf]; intros El; [done|].
  rewrite last_cons in El. destruct (last q) as [z|] eqn:Eq.
  - injection El as ->. constructor; [|by apply IH]. rewrite List.Forall_forall in Hf. apply Hf.
    by apply last_Some_elem_of, list_elem_of_In in Eq.
  - injection El as ->. constructor; [lia|]. by apply last_None in Eq as ->.
Qed.

Lemma queue_push_ok (q : Queue) v amount ts q' :
  queue_inv q -> queue_push q v amount ts = Ok q' ->
  q' = q ++ [mk_queue_entry v amount ts] /\ queue_inv q'.
Proof.
  intros [Hs Hn] H. unfold queue_push in H. destruct (existsb _ _) eqn:Ex; [done|].
  apply obind_ok in H as ([] & Hg & <-%Ok_inj). split; [done|]. split.
  - apply StronglySorted_snoc; [done|]. cbn. destruct (last q) as [e|] eqn:El.
    + unfold oguard in Hg. destruct (_ >? _) eqn:Et; [done|]. breflect.
      eapply List.Forall_impl; [|by apply (sorted_last q e)]. cbn. lia.
    + by apply last_None in El as ->.
  - rewrite map_app. apply existsb_validator in Ex. cbn.
    apply (Permutation_NoDup (l := v :: map entry_validator q));
      [apply Permutation_cons_append | by constructor].
Qed.

(** Popping a sorted queue cuts it in two. *)
Lemma queue_pop_due_split (q : Queue) ts due rest :
  queue_inv q -> queue_pop_due q ts = (due, rest) ->
  q = due ++ rest /\ Forall (fun e => entry_timestamp e <= ts) due
  /\ Forall (fun e => ts < entry_timestamp e) rest.
Proof.
  intros [Hs _] H. injection H as <- <-. induction Hs as [|e q Hs IH Hf]; [done|]. cbn.
  destruct (entry_timestamp e <=? ts) eqn:Et; cbn; breflect.
  - destruct IH as (E & F1 & F2). split; [by f_equal|]. auto.
  - assert (Forall (fun e' => ts < entry_timestamp e') q) as Hall
      by (eapply List.Forall_impl; [|exact Hf]; cbn; lia).
    assert (List.filter (fun entry => entry_timestamp entry <=? ts) q = []) as ->.
    { clear -Hall. induction Hall as [|e q He _ IH]; [done|]. cbn.
      by rewrite (proj2 (Z.leb_gt _ _)). }
    assert (List.filter (fun entry => negb (entry_timestamp entry <=? ts)) q = q) as ->.
    { clear -Hall. induction Hall as [|e q He _ IH]; [done|]. cbn.
      rewrite (proj2 (Z.leb_gt _ _)) by lia. cbn. by rewrite IH. }
    split; [done|]. auto.
Qed.

Lemma queue_inv_app q1 q2 : queue_inv (q1 ++ q2) -> queue_inv q1 /\ queue_inv q2.
Proof.
  intros [Hs Hn]. rewrite map_app in Hn. split; split.
  - clear Hn. induction q1 as [|e q1 IH]; [constructor|]. cbn in Hs.
    apply StronglySorted_inv in Hs as [Hs Hf]. constructor; [auto|]. by apply Forall_app in Hf as [? _].
  - by apply NoDup_app_remove_r in Hn.
  - clear Hn. induction q1 as [|e q1 IH]; [done|]. cbn in Hs. apply StronglySorted_inv in Hs as [Hs _]. auto.
  - by apply NoDup_app_remove_l in Hn.
Qed.

(** Pushing keeps a queue ordered by time with one request per validator,
    and appends exactly the request; popping returns exactly the requests that
    are due, oldest first, and leaves the others in order. *)
Theorem queue_spec (q : Queue) v amount ts :
  queue_inv q ->
  (forall q', queue_push q v amount ts = Ok q' ->
     q' = q ++ [mk_queue_entry v amount ts] /\ queue_inv q')
  /\ (queue_push q v amount ts = Err MultipleRequests <-> In v (map entry_validator q))
  /\ forall due rest, queue_pop_due q ts = (due, rest) ->
       q = due ++ rest /\ Forall (fun e => entry_timestamp e <= ts) due
       /\ Forall (fun e => ts < entry_timestamp e) rest /\ queue_inv rest.
Proof.
  intros Hq. split; [|split].
  - intros q' E. by apply queue_push_ok in E.
  - unfold queue_push. destruct (existsb _ q) eqn:Ex.
    + split; [|done]. intros _. apply existsb_exists in Ex as (e & Hin & He).
      apply bool_decide_eq_true in He as <-. by apply in_map.
    + split; [|by intros ?%(existsb_validator q v Ex)].
      destruct (last q); cbn; [|done]. unfold oguard. by destruct (_ >? _).
  - intros due rest E. destruct (queue_pop_due_split q ts due rest Hq E) as (-> & F1 & F2).
    split; [done|]. split; [done|]. split; [done|]. by apply queue_inv_app in Hq as [_ ?].
Qed.

(** * Stakes *)

Fixpoint total_stakes (m : list (PublicKey * Z)) : Z :=
  match m with
  | [] => 0
  | e :: m' => e.2 + total_stakes m'
  end.

Definition stakes_inv (m : Stakes) : Prop := bt_wf m /\ Forall (fun e => 0 <= e.2) m.

Lemma total_stakes_nonneg m : Forall (fun e => 0 <= e.2) m -> 0 <= total_stakes m.
Proof. induction 1 as [|e m He _ IH]; cbn; lia. Qed.

(** The saturating sum is the sum, cut at the largest [U512]. *)
Lemma stakes_sum_spec (m : Stakes) :
  Forall (fun e => 0 <= e.2) m -> stakes_sum m = Z.min (total_stakes m) U512_MAX.
Proof.
  intros Hm. unfold stakes_sum, bt_values.
  assert (forall acc, 0 <= acc <= U512_MAX ->
    fold_left (fun sum s => saturating_add 512 sum s) (map snd m) acc
      = Z.min (acc + total_stakes m) U512_MAX) as Hgen.
  { induction Hm as [|e m He Hm IH]; intros acc Hacc; cbn [map fold_left total_stakes].
    - lia.
    - pose proof (total_stakes_nonneg m Hm).
      rewrite IH; unfold saturating_add; unfold U512_MAX in *; lia. }
  rewrite Hgen; [f_equal; lia|]. unfold U512_MAX. lia.
Qed.

Lemma total_stakes_remove (m : Stakes) v x :
  bt_get v m = Some x -> total_stakes (bt_remove v m) = total_stakes m - x.
Proof.
  induction m as [|[k y] m IH]; cbn; [done|]. destruct (ord_cmp v k); [|done|].
  - intros [= ->]. lia.
  - intros E. cbn. rewrite IH by done. lia.
Qed.

Lemma total_stakes_update (m : Stakes) v x y :
  bt_get v m = Some x -> total_stakes (bt_insert v y m) = total_stakes m - x + y.
Proof.
  induction m as [|[k z] m IH]; cbn; [done|]. destruct (ord_cmp v k); [|done|].
  - intros [= ->]. cbn. lia.
  - intros E. cbn. rewrite IH by done. lia.
Qed.

Lemma total_stakes_new (m : Stakes) v y :
  bt_get v m = None -> total_stakes (bt_insert v y m) = total_stakes m + y.
Proof.
  induction m as [|[k z] m IH]; cbn; [lia|]. destruct (ord_cmp v k); [done| |].
  - intros _. cbn. lia.
  - intros E. cbn. rewrite IH by done. lia.
Qed.

Lemma stake_bounds (m : Stakes) v x :
  Forall (fun e => 0 <= e.2) m -> bt_get v m = Some x -> 0 <= x <= total_stakes m.
Proof.
  intros Hm E. pose proof (total_stakes_remove m v x E).
  pose proof (total_stakes_nonneg _ (bt_remove_Forall _ v m Hm)).
  apply bt_get_in in E. rewrite List.Forall_forall in Hm. specialize (Hm _ E). cbn in Hm. lia.
Qed.

Lemma length_remove (m : Stakes) v x :
  bt_get v m = Some x -> zlen (bt_remove v m) = zlen m - 1.
Proof.
  unfold zlen. induction m as [|[k z] m IH]; cbn [bt_get bt_remove]; [done|].
  destruct (ord_cmp v k); [|done|]; cbn [length]; [lia|]. intros E. rewrite Nat2Z.inj_succ, IH by done. lia.
Qed.

(** The result of an unbonding that is allowed. *)
Definition unbonded (m : Stakes) v (payout : Z) (m' : Stakes) : Prop :=
  exists stake, bt_get v m = Some stake /\ 0 <= payout <= stake
    /\ m' = (if stake =? payout then bt_remove v m else bt_insert v (stake - payout) m).

Lemma unbonded_inv m v payout m' :
  stakes_inv m -> unbonded m v payout m' ->
  stakes_inv m' /\ total_stakes m' = total_stakes m - payout
  /\ forall w, w <> v -> bt_get w m' = bt_get w m.
Proof.
  intros [Hw Hp] (stake & E & Hle & ->). destruct (Z.eqb_spec stake payout) as [->|Hne].
  - split; [split; [by apply bt_wf_remove | by apply bt_remove_Forall]|].
    split; [by apply total_stakes_remove|]. intros w Hne. by apply bt_get_remove_ne.
  - split; [split; [by apply bt_wf_insert | apply bt_insert_Forall; [cbn; lia | done]]|].
    split; [rewrite (total_stakes_update m v stake) by done; lia|].
    intros w Hw'. by apply bt_get_insert_ne.
Qed.

Lemma list_max_in l x : list_max l = Some x -> In x l.
Proof.
  destruct l as [|y l]; [done|]. cbn. intros [= <-]. revert y.
  induction l as [|z l IH]; intros y; cbn; [by left|].
  destruct (IH (Z.max y z)) as [E|Hin]; [|by right; right].
  rewrite <- E. destruct (Z.max_spec y z) as [[_ ->]|[_ ->]]; [by right; left | by left].
Qed.

(** The spread never forbids anything: no stake exceeds the largest [U512]. *)
Lemma spread_min_zero (m : Stakes) v :
  stakes_inv m -> total_stakes m <= U512_MAX ->
  saturating_sub (match max_without m v with Some x => x | None => 0 end) MAX_SPREAD = 0.
Proof.
  intros [Hw Hp] Ht. unfold saturating_sub, MAX_SPREAD.
  destruct (max_without m v) as [x|] eqn:E; [|unfold U512_MAX; lia].
  apply list_max_in, in_map_iff in E as ([w y] & <- & Hin). apply filter_In in Hin as [Hin _].
  apply (bt_in_get w y m Hw), (stake_bounds m w y Hp) in Hin. cbn. lia.
Qed.

Lemma stakes_unbond_ok m v maybe_amount payout m' :
  stakes_inv m -> option_valid (fun a => 0 <= a) maybe_amount ->
  stakes_unbond m v maybe_amount = Ok (payout, m') ->
  unbonded m v payout m' /\ m' <> []
  /\ (match maybe_amount with Some a => payout = a | None => bt_get v m = Some payout end)
  /\ payout * 10 <= total_stakes m * 9.
Proof.
  intros Hinv Ha H. pose proof Hinv as [Hw Hp]. unfold stakes_unbond in H.
  apply obind_ok in H as (product & Hmul & H). unfold uint_mul in Hmul.
  destruct (_ <? _) eqn:Em; [|done]. apply Ok_inj in Hmul as <-. breflect.
  rewrite stakes_sum_spec in * by done. pose proof (total_stakes_nonneg m Hp) as Ht.
  assert (total_stakes m < U512_MAX) as Hlt by (unfold MAX_REL_DECREASE, U512_MAX in *; lia).
  rewrite (Z.min_l (total_stakes m) U512_MAX) in * by lia. rewrite spread_min_zero in H by (done || lia).
  set (max_decrease := Z.min MAX_DECREASE (total_stakes m * MAX_REL_DECREASE / 1000000)) in *.
  assert (forall p, p <= max_decrease -> p * 10 <= total_stakes m * 9) as Hcap.
  { intros p Hle. unfold max_decrease, MAX_REL_DECREASE in Hle.
    pose proof (Z.mul_div_le (total_stakes m * 900000) 1000000 ltac:(lia)). lia. }
  clearbody max_decrease. set (remove := if zlen m =? 1 then _ else _) in H.
  assert (remove = Ok (payout, m') -> bt_get v m = Some payout /\ m' = bt_remove v m /\ m' <> []
    /\ payout <= max_decrease /\ option_valid (fun a => a <= payout) maybe_amount) as Hrem.
  { subst remove. destruct (zlen m =? 1) eqn:E1; [done|]. intros Hr. breflect.
    apply obind_ok in Hr as (stake & Hs & Hr). destruct (bt_get v m) as [x|] eqn:Eg; [|done].
    apply Ok_inj in Hs as ->. apply obind_ok in Hr as ([] & Hg & Hr).
    destruct ((stake >? _) && _) eqn:Ec; [done|]. injection Hr as <- <-.
    split; [done|]. split; [done|]. split; [|split].
    - intros E. pose proof (length_remove m v stake Eg) as El. rewrite E in El. unfold zlen in *. cbn in El. lia.
    - apply andb_false_iff in Ec. rewrite !Z.gtb_ltb, !Z.ltb_ge in Ec. destruct Ec as [Ec|Ec]; [|done].
      unfold saturating_add in Ec. lia.
    - destruct maybe_amount as [a|]; cbn; [|done]. cbn in Hg. unfold oguard in Hg.
      destruct (a >? stake) eqn:E; [done|]. breflect. lia. }
  assert (forall x, bt_get v m = Some x -> x <= payout -> remove = Ok (payout, m') ->
    unbonded m v payout m' /\ m' <> [] /\ bt_get v m = Some payout /\ payout <= max_decrease) as Hfull.
  { intros x Hx Hle Hr. destruct (Hrem Hr) as (Eg & -> & Hne & Hdec & _).
    split; [|done]. exists payout. rewrite Z.eqb_refl. split; [done|]. split; [|done].
    pose proof (stake_bounds m v payout Hp Eg). lia. }
  destruct maybe_amount as [amount|].
  - apply obind_ok in H as (stake & Hs & H). destruct (bt_get v m) as [x|] eqn:Eg; [|done].
    apply Ok_inj in Hs as ->. destruct (stake >? amount) eqn:Es; breflect.
    + unfold uint_sub in H. rewrite (proj2 (Z.leb_le _ _)) in H by lia. cbn [obind] in H.
      destruct (_ <? 0); [done|]. destruct (amount >? max_decrease) eqn:Ed; [done|]. breflect.
      injection H as <- <-. split; [|split; [|split; [done|by apply Hcap]]].
      * exists stake. cbn in Ha. split; [done|]. split; [lia|].
        destruct (Z.eqb_spec stake amount); [lia|done].
      * destruct m as [|[k y] m]; [done|]. cbn. by destruct (ord_cmp v k).
    + destruct (Hrem H) as (Eg' & _ & _ & _ & Hap). cbn in Hap. injection Eg' as ->.
      destruct (Hfull payout eq_refl ltac:(lia) H) as (Hu & Hne & _ & Hd).
      split; [done|]. split; [done|]. split; [lia|by apply Hcap].
  - destruct (Hrem H) as (Eg & _). destruct (Hfull payout Eg ltac:(lia) H) as (Hu & Hne & _ & Hd).
    split; [done|]. split; [done|]. split; [done|by apply Hcap].
Qed.

Lemma stakes_bond_ok m v amount m' :
  stakes_inv m -> 0 <= amount -> stakes_bond m v amount = Ok m' ->
  stakes_inv m' /\ total_stakes m' = total_stakes m + amount /\ m' <> []
  /\ forall w, bt_get w m' =
       if decide (w = v) then Some (amount + match bt_get v m with Some x => x | None => 0 end)
       else bt_get w m.
Proof.
  intros [Hw Hp] Ha. unfold stakes_bond, uint_add.
  assert (forall y, bt_insert v y m <> []) as Hne.
  { intros y. destruct m as [|[k z] m]; [done|]. cbn. by destruct (ord_cmp v k). }
  assert (forall y, 0 <= y -> stakes_inv (bt_insert v y m)) as Hi.
  { intros y Hy. split; [by apply bt_wf_insert | by apply bt_insert_Forall]. }
  assert (forall y w, bt_get w (bt_insert v y m) = if decide (w = v) then Some y else bt_get w m) as Hg.
  { intros y w. destruct (decide (w = v)) as [->|Hn]; [apply bt_get_insert_eq|].
    apply bt_get_insert_ne. congruence. }
  destruct (bt_get v m) as [x|] eqn:E.
  - destruct (_ <? _); [|done]. cbn. intros <-%Ok_inj. pose proof (stake_bounds m v x Hp E).
    split; [apply Hi; lia|]. split; [rewrite (total_stakes_update m v x) by done; lia|].
    split; [done|]. intros w. rewrite Hg. by rewrite Z.add_comm.
  - intros <-%Ok_inj. split; [by apply Hi|]. split; [by rewrite total_stakes_new|].
    split; [done|]. intros w. rewrite Hg. by rewrite Z.add_0_r.
Qed.

(** An unbonding that is allowed takes exactly the requested amount, or the
    whole stake, from that validator and from nobody else; it pays out at most
    nine tenths of all stakes, and the last validator stays. *)
Theorem stakes_unbond_spec m v maybe_amount payout m' :
  stakes_inv m -> option_valid (fun a => 0 <= a) maybe_amount ->
  stakes_unbond m v maybe_amount = Ok (payout, m') ->
  stakes_inv m' /\ m' <> [] /\ total_stakes m' = total_stakes m - payout
  /\ (match maybe_amount with Some a => payout = a | None => bt_get v m = Some payout end)
  /\ payout * 10 <= total_stakes m * 9
  /\ forall w, w <> v -> bt_get w m' = bt_get w m.
Proof.
  intros Hm Ha E. destruct (stakes_unbond_ok m v maybe_amount payout m' Hm Ha E) as (Hu & Hne & Hp & Hc).
  destruct (unbonded_inv m v payout m' Hm Hu) as (? & ? & ?). done.
Qed.
