(* ===== verification/ProofOfStake.v ===== *)
(** The proof-of-stake contract: bonding, unbonding, the step that applies due
    requests, payment purses and the settlement of payments.  Sources:
    [proof-of-stake/src/lib.rs], [proof-of-stake/src/mint_provider.rs],
    [proof-of-stake/src/queue_provider.rs], [proof-of-stake/src/runtime_provider.rs],
    [proof-of-stake/src/stakes_provider.rs]. *)

From stdpp Require Import gmap.
From S2P Require Import Prelude BTreeMap Bytesrepr Uint Types Stakes.

(** * The interfaces of the contract *)

(** [MintProvider], [QueueProvider], [StakesProvider] and [RuntimeProvider]. *)
Class PosProviders (S : Type) := {
  transfer_from_purse_to_account : URef -> PublicKey -> Z -> eff S unit unit;
  transfer_from_purse_to_purse : URef -> URef -> Z -> eff S unit unit;
  get_balance : URef -> eff S PosError (option Z);
  read_bonding : eff S PosError Queue;
  read_unbonding : eff S PosError Queue;
  write_bonding : Queue -> eff S PosError unit;
  write_unbonding : Queue -> eff S PosError unit;
  stakes_read : eff S PosError Stakes;
  stakes_write : Stakes -> eff S PosError unit;
  get_key : bytes -> eff S PosError (option Key);
  put_key : bytes -> Key -> eff S PosError unit;
  remove_key : bytes -> eff S PosError unit;
  get_phase : eff S PosError Phase;
  get_block_time : eff S PosError BlockTime;
  get_caller : eff S PosError PublicKey;
}.

Definition SYSTEM_ACCOUNT : PublicKey := replicate 32 x00.
Definition BONDING_PURSE_KEY : bytes := str "pos_bonding_purse".
Definition PAYMENT_PURSE_KEY : bytes := str "pos_payment_purse".
Definition REWARDS_PURSE_KEY : bytes := str "pos_rewards_purse".
Definition REFUND_PURSE_KEY : bytes := str "pos_refund_purse".
Definition BOND_DELAY : Z := 0.
Definition UNBOND_DELAY : Z := 0.
Definition MAX_BOND_LEN : Z := 100.
Definition MAX_UNBOND_LEN : Z := 1000.

(** Adding the entries of a queue to the stakes, one after the other. *)
Fixpoint bond_all (stakes : Stakes) (l : list QueueEntry) : outcome PosError Stakes :=
  match l with
  | [] => Ok stakes
  | entry :: l' =>
      let? stakes' := stakes_bond stakes (entry_validator entry) (entry_amount entry) in
      bond_all stakes' l'
  end.

Section proof_of_stake.
Context {S : Type} `{PosProviders S}.

(** * [mod internal] *)

Definition internal_bond (amount : Z) (validator : PublicKey) (timestamp : BlockTime)
    : eff S PosError unit :=
  let! queue := read_bonding in
  if zlen queue >=? MAX_BOND_LEN then elift (Err TooManyEventsInQueue)
  else
    let! stakes := stakes_read in
    let! stakes' := elift (bond_all stakes queue) in
    let! _ := elift (validate_bonding stakes' validator amount) in
    let! queue' := elift (queue_push queue validator amount timestamp) in
    write_bonding queue'.

Definition internal_unbond (maybe_amount : option Z) (validator : PublicKey) (timestamp : BlockTime)
    : eff S PosError unit :=
  let! queue := read_unbonding in
  if zlen queue >=? MAX_UNBOND_LEN then elift (Err TooManyEventsInQueue)
  else
    let! stakes := stakes_read in
    let! r := elift (stakes_unbond stakes validator maybe_amount) in
    let! _ := stakes_write r.2 in
    let! queue' := elift (queue_push queue validator r.1 timestamp) in
    write_unbonding queue'.

Definition internal_step (timestamp : BlockTime) : eff S PosError (list QueueEntry) :=
  let! bonding_queue := read_bonding in
  let! unbonding_queue := read_unbonding in
  let '(bonds, bonding_rest) := queue_pop_due bonding_queue (blocktime_saturating_sub timestamp BOND_DELAY) in
  let '(unbonds, unbonding_rest) :=
    queue_pop_due unbonding_queue (blocktime_saturating_sub timestamp UNBOND_DELAY) in
  let! _ := match unbonds with [] => eret tt | _ => write_unbonding unbonding_rest end in
  let! _ :=
    match bonds with
    | [] => eret tt
    | _ =>
        let! _ := write_bonding bonding_rest in
        let! stakes := stakes_read in
        let! stakes' := elift (bond_all stakes bonds) in
        stakes_write stakes'
    end in
  eret unbonds.

Definition get_purse_id (name : bytes) : eff S PosError (URef + PurseLookupError) :=
  let! key := get_key name in
  eret (match key with
        | None => inr KeyNotFound
        | Some (Key_URef uref) => inl uref
        | Some _ => inr KeyUnexpectedType
        end).

(** [get_purse_id(name).map_err(f)?]. *)
Definition get_purse (name : bytes) (f : PurseLookupError -> PosError) : eff S PosError URef :=
  let! r := get_purse_id name in
  match r with
  | inl purse => eret purse
  | inr err => elift (Err (f err))
  end.

Definition internal_get_payment_purse : eff S PosError URef :=
  get_purse PAYMENT_PURSE_KEY purse_lookup_payment.

Definition internal_get_bonding_purse : eff S PosError URef :=
  get_purse BONDING_PURSE_KEY purse_lookup_bonding.

Definition internal_get_rewards_purse : eff S PosError URef :=
  get_purse REWARDS_PURSE_KEY purse_lookup_rewards.

Definition internal_set_refund (purse_id : URef) : eff S PosError unit :=
  let! phase := get_phase in
  match phase with
  | Phase_Payment => put_key REFUND_PURSE_KEY (Key_URef purse_id)
  | _ => elift (Err SetRefundPurseCalledOutsidePayment)
  end.

Definition internal_get_refund_purse : eff S PosError (option URef) :=
  let! r := get_purse_id REFUND_PURSE_KEY in
  match r with
  | inl purse_id => eret (Some purse_id)
  | inr KeyNotFound => eret None
  | inr KeyUnexpectedType => elift (Err RefundPurseKeyUnexpectedType)
  end.

Definition refund_to_account (payment_purse : URef) (account : PublicKey) (amount : Z)
    : eff S PosError unit :=
  let! r := etry (transfer_from_purse_to_account payment_purse account amount) in
  match r with
  | inl _ => eret tt
  | inr _ => elift (Err FailedTransferToAccountPurse)
  end.

Definition internal_finalize_payment (amount_spent : Z) (account : PublicKey) : eff S PosError unit :=
  let! caller := get_caller in
  if negb (bool_decide (caller = SYSTEM_ACCOUNT)) then elift (Err SystemFunctionCalledByUserAccount)
  else
    let! payment_purse := internal_get_payment_purse in
    let! balance := get_balance payment_purse in
    match balance with
    | None => elift (Err PaymentPurseBalanceNotFound)
    | Some total =>
        if total <? amount_spent then elift (Err InsufficientPaymentForAmountSpent)
        else
          let! refund_amount := elift (uint_sub total amount_spent) in
          let! rewards_purse := internal_get_rewards_purse in
          let! refund_purse := internal_get_refund_purse in
          let! _ := remove_key REFUND_PURSE_KEY in
          let! _ := emap_err (fun _ => FailedTransferToRewardsPurse)
                      (transfer_from_purse_to_purse payment_purse rewards_purse amount_spent) in
          if refund_amount =? 0 then eret tt
          else
            match refund_purse with
            | None => refund_to_account payment_purse account refund_amount
            | Some refund_purse =>
                let! r := etry (transfer_from_purse_to_purse payment_purse refund_purse refund_amount) in
                match r with
                | inr _ => refund_to_account payment_purse account refund_amount
                | inl _ => eret tt
                end
            end
    end.

(** * [trait ProofOfStake] *)

(** The payouts of the entries; [f] is the error a failed one is turned into. *)
Definition pay_out (pos_purse : URef) (f : PosError) (entry : QueueEntry) : eff S PosError unit :=
  emap_err (fun _ => f)
    (transfer_from_purse_to_account pos_purse (entry_validator entry) (entry_amount entry)).

Definition pos_bond (validator : PublicKey) (amount : Z) (source : URef) : eff S PosError unit :=
  if amount =? 0 then elift (Err BondTooSmall)
  else
    let! pos_purse := internal_get_bonding_purse in
    let! timestamp := get_block_time in
    let! _ := emap_err (fun _ => BondTransferFailed) (transfer_from_purse_to_purse source pos_purse amount) in
    let! _ := internal_bond amount validator timestamp in
    let! unbonds := internal_step timestamp in
    efor_each (pay_out pos_purse BondTransferFailed) unbonds.

Definition pos_unbond (validator : PublicKey) (maybe_amount : option Z) : eff S PosError unit :=
  let! pos_purse := internal_get_bonding_purse in
  let! timestamp := get_block_time in
  let! _ := internal_unbond maybe_amount validator timestamp in
  let! unbonds := internal_step timestamp in
  efor_each (pay_out pos_purse UnbondTransferFailed) unbonds.

Definition pos_step : eff S PosError unit :=
  let! pos_purse := internal_get_bonding_purse in
  let! timestamp := get_block_time in
  let! unbonds := internal_step timestamp in
  efor_each (fun entry =>
    let! _ := etry (transfer_from_purse_to_account pos_purse (entry_validator entry) (entry_amount entry)) in
    eret tt) unbonds.

Definition pos_get_payment_purse : eff S PosError URef :=
  let! purse := internal_get_payment_purse in
  eret (uref_new (uref_addr purse) READ_ADD).

Definition pos_set_refund_purse (purse_id : URef) : eff S PosError unit := internal_set_refund purse_id.

Definition pos_get_refund_purse : eff S PosError (option URef) :=
  let! maybe_purse := internal_get_refund_purse in
  eret (option_map remove_access_rights maybe_purse).

Definition pos_finalize_payment (amount_spent : Z) (account : PublicKey) : eff S PosError unit :=
  internal_finalize_payment amount_spent account.
End proof_of_stake.

(** * What the contract relies on *)

(** The state as the contract sees it. [v_keys] holds the named keys other than
    the names that encode stakes; [v_balance] is the balance of a purse by its
    address. *)
Class PosView (S : Type) := {
  v_bonding : S -> Queue;
  v_unbonding : S -> Queue;
  v_stakes : S -> Stakes;
  v_keys : S -> gmap bytes Key;
  v_balance : S -> bytes -> option Z;
  v_phase : S -> Phase;
  v_time : S -> BlockTime;
  v_caller : S -> PublicKey;
}.

Section frames.
Context {S : Type} `{PosView S}.

(** The part of the state that a call other than a transfer leaves alone. *)
Definition same_env (s s' : S) : Prop :=
  v_phase s' = v_phase s /\ v_time s' = v_time s /\ v_caller s' = v_caller s.

Definition same_book (s s' : S) : Prop :=
  v_bonding s' = v_bonding s /\ v_unbonding s' = v_unbonding s /\ v_stakes s' = v_stakes s.

Definition same_money (s s' : S) : Prop := forall p, v_balance s' p = v_balance s p.
End frames.

(** What the providers promise. The host may trap any of these calls. *)
Class PosLaws (S : Type) `{PosProviders S, PosView S} : Prop := {
  transfer_to_purse_law : forall src dst amount s r s',
    transfer_from_purse_to_purse src dst amount s = (r, s') -> r <> Panic ->
    same_env s s' /\ same_book s s' /\ v_keys s' = v_keys s
    /\ match r with
       | Ok _ => exists x y, v_balance s (uref_addr src) = Some x /\ v_balance s (uref_addr dst) = Some y
           /\ amount <= x
           /\ (uref_addr src = uref_addr dst -> same_money s s')
           /\ (uref_addr src <> uref_addr dst ->
               v_balance s' (uref_addr src) = Some (x - amount)
               /\ v_balance s' (uref_addr dst) = Some (y + amount)
               /\ forall p, p <> uref_addr src -> p <> uref_addr dst -> v_balance s' p = v_balance s p)
       | _ => same_money s s'
       end;
  (** The purses of the contract are no account's main purse; no purse but the
      source loses anything. *)
  transfer_to_account_law : forall src target amount s r s',
    transfer_from_purse_to_account src target amount s = (r, s') -> r <> Panic ->
    same_env s s' /\ same_book s s' /\ v_keys s' = v_keys s
    /\ match r with
       | Ok _ => exists x, v_balance s (uref_addr src) = Some x /\ amount <= x
           /\ v_balance s' (uref_addr src) = Some (x - amount)
           /\ (0 <= amount -> forall p y, p <> uref_addr src -> v_balance s p = Some y ->
                 exists y', v_balance s' p = Some y' /\ y <= y')
       | _ => same_money s s'
       end;
  get_balance_law : forall p s, get_balance p s = (Ok (v_balance s (uref_addr p)), s);
  read_bonding_law : forall s, read_bonding s = (Ok (v_bonding s), s);
  read_unbonding_law : forall s, read_unbonding s = (Ok (v_unbonding s), s);
  write_bonding_law : forall q s, exists s', write_bonding q s = (Ok tt, s')
    /\ same_env s s' /\ v_bonding s' = q /\ v_unbonding s' = v_unbonding s
    /\ v_stakes s' = v_stakes s /\ v_keys s' = v_keys s /\ same_money s s';
  write_unbonding_law : forall q s, exists s', write_unbonding q s = (Ok tt, s')
    /\ same_env s s' /\ v_bonding s' = v_bonding s /\ v_unbonding s' = q
    /\ v_stakes s' = v_stakes s /\ v_keys s' = v_keys s /\ same_money s s';
  stakes_read_law : forall s,
    stakes_read s = (match v_stakes s with [] => Err StakesNotFound | m => Ok m end, s);
  stakes_write_law : forall m s, exists s', stakes_write m s = (Ok tt, s')
    /\ same_env s s' /\ v_bonding s' = v_bonding s /\ v_unbonding s' = v_unbonding s
    /\ v_stakes s' = m /\ v_keys s' = v_keys s /\ same_money s s';
  get_key_law : forall n s, get_key n s = (Ok (v_keys s !! n), s);
  put_key_law : forall n k s, exists s', put_key n k s = (Ok tt, s')
    /\ same_env s s' /\ same_book s s' /\ v_keys s' = <[ n := k ]> (v_keys s) /\ same_money s s';
  remove_key_law : forall n s, exists s', remove_key n s = (Ok tt, s')
    /\ same_env s s' /\ same_book s s' /\ v_keys s' = delete n (v_keys s) /\ same_money s s';
  get_phase_law : forall s, get_phase s = (Ok (v_phase s), s);
  get_block_time_law : forall s, get_block_time s = (Ok (v_time s), s);
  get_caller_law : forall s, get_caller s = (Ok (v_caller s), s);
}.

(** * Solvency *)

Definition amounts_ok (q : list QueueEntry) : Prop := Forall (fun e => 0 <= entry_amount e) q.

Lemma bond_all_ok stakes l stakes' :
  stakes_inv stakes -> amounts_ok l -> bond_all stakes l = Ok stakes' ->
  stakes_inv stakes' /\ total_stakes stakes' = total_stakes stakes + queue_total l.
Proof.
  intros Hs Hl. revert stakes Hs. induction Hl as [|e l He _ IH]; intros stakes Hs E; cbn in *.
  - injection E as ->. split; [done|]. lia.
  - apply obind_ok in E as (m & Em & E). destruct (stakes_bond_ok _ _ _ _ Hs He Em) as (Hm & Ht & _).
    destruct (IH m Hm E) as [? Ht']. split; [done|]. lia.
Qed.

Section solvency.
Context {S : Type} `{PosLaws S}.
Implicit Types s : S.

Record book_inv s : Prop := {
  book_stakes : stakes_inv (v_stakes s);
  book_bonding : queue_inv (v_bonding s);
  book_unbonding : queue_inv (v_unbonding s);
  book_bonding_amounts : amounts_ok (v_bonding s);
  book_unbonding_amounts : amounts_ok (v_unbonding s);
}.

(** What the contract owes: the stakes, the requests to bond and the requests to
    unbond that are not paid out. *)
Definition obligations s : Z :=
  total_stakes (v_stakes s) + queue_total (v_bonding s) + queue_total (v_unbonding s).

Lemma book_inv_same s s' : same_book s s' -> book_inv s -> book_inv s' /\ obligations s' = obligations s.
Proof.
  intros (E1 & E2 & E3) [? ? ? ? ?]. unfold obligations. rewrite E1, E2, E3.
  split; [split; by rewrite ?E1, ?E2, ?E3 | done].
Qed.

Lemma pop_due_ok q ts due rest :
  queue_inv q -> amounts_ok q -> queue_pop_due q ts = (due, rest) ->
  queue_inv rest /\ amounts_ok rest /\ amounts_ok due /\ queue_total q = queue_total due + queue_total rest.
Proof.
  intros Hq Ha E. destruct (queue_pop_due_split q ts due rest Hq E) as (-> & _ & _).
  apply queue_inv_app in Hq as [_ Hr]. apply Forall_app in Ha as [? ?].
  split; [done|]. split; [done|]. split; [done|]. apply queue_total_app.
Qed.

(** A due request to bond becomes a stake, a due request to unbond is handed
    back to be paid. *)
Lemma internal_step_ok ts s unbonds s' :
  book_inv s -> internal_step ts s = (Ok unbonds, s') ->
  book_inv s' /\ amounts_ok unbonds /\ obligations s = obligations s' + queue_total unbonds
  /\ same_env s s' /\ v_keys s' = v_keys s /\ same_money s s'.
Proof.
  intros [Hs Hb Hu Hba Hua] E. unfold internal_step in E.
  rewrite (ebind_run _ _ _ _ _ (read_bonding_law s)), (ebind_run _ _ _ _ _ (read_unbonding_law s)) in E.
  destruct (queue_pop_due (v_bonding s) _) as [bonds brest] eqn:Eb.
  destruct (queue_pop_due (v_unbonding s) _) as [due urest] eqn:Eu.
  destruct (pop_due_ok _ _ _ _ Hb Hba Eb) as (Hb' & Hba' & Hbd & Tb).
  destruct (pop_due_ok _ _ _ _ Hu Hua Eu) as (Hu' & Hua' & Hud & Tu).
  apply ebind_ok in E as ([] & s1 & E1 & E). apply ebind_ok in E as ([] & s2 & E2 & E).
  injection E as <- <-.
  assert (same_env s s1 /\ v_bonding s1 = v_bonding s /\ v_unbonding s1 = urest
    /\ v_stakes s1 = v_stakes s /\ v_keys s1 = v_keys s /\ same_money s s1) as (N1 & B1 & U1 & S1 & K1 & M1).
  { destruct due as [|d due].
    - injection E1 as <-. cbn in Tu. split; [done|]. split; [done|]. split; [|done].
      destruct (queue_pop_due_split _ _ _ _ Hu Eu) as (-> & _ & _). done.
    - destruct (write_unbonding_law urest s) as (s1' & E1' & ?). rewrite E1 in E1'. injection E1' as <-. tauto. }
  assert (same_env s1 s2 /\ v_bonding s2 = brest /\ v_unbonding s2 = urest
    /\ stakes_inv (v_stakes s2) /\ total_stakes (v_stakes s2) = total_stakes (v_stakes s) + queue_total bonds
    /\ v_keys s2 = v_keys s1 /\ same_money s1 s2) as (N2 & B2 & U2 & I2 & T2 & K2 & M2).
  { rewrite <- S1 in *. destruct bonds as [|d bonds].
    - injection E2 as <-. cbn. rewrite Z.add_0_r. split; [done|]. split; [|done].
      destruct (queue_pop_due_split _ _ _ _ Hb Eb) as (Ebq & _ & _). by rewrite B1, Ebq.
    - destruct (write_bonding_law brest s1) as (s3 & E3 & N3 & B3 & U3 & S3 & K3 & M3).
      rewrite (ebind_run _ _ _ _ _ E3) in E2. apply ebind_ok in E2 as (m & s4 & E4 & E2).
      rewrite stakes_read_law in E4. injection E4 as Em <-.
      assert (m = v_stakes s1) as -> by (rewrite S3 in Em; destruct (v_stakes s1); congruence).
      apply ebind_ok in E2 as (m' & s5 & E5 & E2). injection E5 as E5 <-.
      destruct (bond_all_ok _ _ _ Hs Hbd E5) as [Im Tm].
      destruct (stakes_write_law m' s3) as (s6 & E6 & N6 & B6 & U6 & S6 & K6 & M6).
      rewrite E2 in E6. injection E6 as <-. rewrite B6, U6, S6, K6, B3, U3, K3.
      split; [destruct N3 as (? & ? & ?), N6 as (? & ? & ?); repeat split; congruence|].
      split; [done|]. split; [done|]. split; [done|]. split; [done|]. split; [done|].
      intros p. by rewrite M6, M3. }
  split; [split; by rewrite ?B2, ?U2|]. split; [done|]. split.
  - unfold obligations. rewrite B2, U2. lia.
  - split; [destruct N1 as (? & ? & ?), N2 as (? & ? & ?); repeat split; congruence|].
    split; [congruence|]. intros p. by rewrite M2, M1.
Qed.

(** The contract's own purse, its balance, and the books. *)
Definition holds s (u : URef) (b : Z) : Prop :=
  v_keys s !! BONDING_PURSE_KEY = Some (Key_URef u) /\ v_balance s (uref_addr u) = Some b.

Lemma get_bonding_purse_ok s u b :
  holds s u b -> internal_get_bonding_purse s = (Ok u, s).
Proof.
  intros [Hk _]. unfold internal_get_bonding_purse, get_purse, get_purse_id.
  unfold ebind at 1. rewrite (ebind_run _ _ _ _ _ (get_key_law _ _)), Hk. done.
Qed.

(** Payouts that must succeed take exactly their sum from the purse. *)
Lemma pay_out_all u f l s s' b :
  v_balance s (uref_addr u) = Some b -> efor_each (pay_out u f) l s = (Ok tt, s') ->
  v_balance s' (uref_addr u) = Some (b - queue_total l) /\ same_book s s' /\ v_keys s' = v_keys s.
Proof.
  revert s b. induction l as [|e l IH]; intros s b Hb E; cbn [efor_each] in E.
  - injection E as <-. cbn. by rewrite Z.sub_0_r.
  - apply ebind_ok in E as ([] & s1 & E1 & E). unfold pay_out, emap_err in E1.
    destruct (transfer_from_purse_to_account _ _ _ s) as [r s1'] eqn:Et.
    destruct r as [[]|?|]; try done. injection E1 as <-.
    destruct (transfer_to_account_law _ _ _ _ _ _ Et ltac:(done)) as (_ & (B1 & U1 & S1) & K1 & x & Hx & Hle & Hx' & _).
    rewrite Hb in Hx. injection Hx as <-.
    destruct (IH s1' _ Hx' E) as (Hb' & (B2 & U2 & S2) & K2). cbn.
    split; [rewrite Hb'; f_equal; lia|]. split; [repeat split; congruence|congruence].
Qed.

(** Payouts whose failures are ignored take at most their sum. *)
Lemma pay_out_some u l s s' b :
  amounts_ok l -> v_balance s (uref_addr u) = Some b ->
  efor_each (fun entry =>
    let! _ := etry (F := PosError)
      (transfer_from_purse_to_account u (entry_validator entry) (entry_amount entry)) in
    eret tt) l s = (Ok tt, s') ->
  (exists b', v_balance s' (uref_addr u) = Some b' /\ b - queue_total l <= b')
  /\ same_book s s' /\ v_keys s' = v_keys s.
Proof.
  intros Hl. revert s b. induction Hl as [|e l He _ IH]; intros s b Hb E; cbn [efor_each] in E.
  - injection E as <-. cbn. split; [|done]. exists b. split; [done|]. lia.
  - apply ebind_ok in E as ([] & s1 & E1 & E). apply ebind_ok in E1 as (r & s2 & E1 & Er).
    injection Er as <-. unfold etry in E1.
    destruct (transfer_from_purse_to_account _ _ _ s) as [r1 s3] eqn:Et.
    assert (r1 <> Panic) as Hr1 by (by destruct r1). assert (s3 = s2) as -> by (by destruct r1; injection E1).
    destruct (transfer_to_account_law _ _ _ _ _ _ Et Hr1) as (_ & (B1 & U1 & S1) & K1 & Hr).
    assert (exists b1, v_balance s2 (uref_addr u) = Some b1 /\ b - entry_amount e <= b1) as (b1 & Hb1 & Hle).
    { destruct r1 as [[]|?|]; [|exists b|done].
      - destruct Hr as (x & Hx & _ & Hx' & _). rewrite Hb in Hx. injection Hx as <-. eexists. split; [done|]. lia.
      - rewrite Hr. split; [done|]. lia. }
    destruct (IH s2 b1 Hb1 E) as ((b' & Hb' & Hle') & (B2 & U2 & S2) & K2). cbn.
    split; [exists b'; split; [done|lia]|]. split; [repeat split; congruence|congruence].
Qed.

Lemma same_book_trans s1 s2 s3 : same_book s1 s2 -> same_book s2 s3 -> same_book s1 s3.
Proof. intros (? & ? & ?) (? & ? & ?). repeat split; congruence. Qed.

(** A request to bond is owed from the moment it is queued. *)
Lemma internal_bond_ok amount v ts s s' :
  book_inv s -> 0 <= amount -> internal_bond amount v ts s = (Ok tt, s') ->
  book_inv s' /\ obligations s' = obligations s + amount /\ v_keys s' = v_keys s /\ same_money s s'.
Proof.
  intros [Hs Hb Hu Hba Hua] Ha E. unfold internal_bond in E.
  rewrite (ebind_run _ _ _ _ _ (read_bonding_law s)) in E. destruct (_ >=? _); [done|].
  apply ebind_ok in E as (m & s1 & E1 & E). rewrite stakes_read_law in E1. injection E1 as Em <-.
  apply ebind_ok in E as (m' & s1 & E1 & E). injection E1 as E1 <-.
  apply ebind_ok in E as ([] & s1 & E2 & E). injection E2 as E2 <-.
  apply ebind_ok in E as (q & s1 & E3 & E). injection E3 as E3 <-.
  destruct (queue_push_ok _ _ _ _ _ Hb E3) as [-> Hq].
  destruct (write_bonding_law (v_bonding s ++ [mk_queue_entry v amount ts]) s)
    as (s1 & Ew & _ & B1 & U1 & S1 & K1 & M1).
  rewrite E in Ew. injection Ew as <-.
  split; [split; rewrite ?B1, ?U1, ?S1; try done; by apply Forall_app; repeat constructor|].
  split; [|done]. unfold obligations. rewrite B1, U1, S1, queue_total_app. cbn. lia.
Qed.

(** Unbonding moves a stake to the queue of payouts. *)
Lemma internal_unbond_ok maybe_amount v ts s s' :
  book_inv s -> option_valid (fun a => 0 <= a) maybe_amount ->
  internal_unbond maybe_amount v ts s = (Ok tt, s') ->
  book_inv s' /\ obligations s' = obligations s /\ v_keys s' = v_keys s /\ same_money s s'.
Proof.
  intros [Hs Hb Hu Hba Hua] Ha E. unfold internal_unbond in E.
  rewrite (ebind_run _ _ _ _ _ (read_unbonding_law s)) in E. destruct (_ >=? _); [done|].
  apply ebind_ok in E as (m & s1 & E1 & E). rewrite stakes_read_law in E1. injection E1 as Em <-.
  assert (m = v_stakes s) as -> by (destruct (v_stakes s); congruence).
  apply ebind_ok in E as ([payout m'] & s1 & E1 & E). injection E1 as E1 <-.
  destruct (stakes_unbond_ok _ _ _ _ _ Hs Ha E1) as (Hub & _ & _ & _).
  destruct (unbonded_inv _ _ _ _ Hs Hub) as (Hs' & Ht & _). destruct Hub as (? & _ & Hpay & _).
  destruct (stakes_write_law m' s) as (s1 & Ew & _ & B1 & U1 & S1 & K1 & M1).
  rewrite (ebind_run _ _ _ _ _ Ew) in E. cbn [fst snd] in E.
  apply ebind_ok in E as (q & s2 & E3 & E). injection E3 as E3 <-.
  destruct (queue_push_ok _ _ _ _ _ Hu E3) as [-> Hq].
  destruct (write_unbonding_law (v_unbonding s ++ [mk_queue_entry v payout ts]) s1)
    as (s2 & Ew2 & _ & B2 & U2 & S2 & K2 & M2).
  rewrite E in Ew2. injection Ew2 as <-.
  split.
  { split; rewrite ?B2, ?U2, ?S2, ?B1, ?S1; try done.
    apply Forall_app. split; [done|]. repeat constructor. cbn. lia. }
  split; [unfold obligations; rewrite B2, U2, S2, B1, S1, queue_total_app; cbn; lia|].
  split; [congruence|]. intros p. by rewrite M2, M1.
Qed.

(** A step followed by payouts that must succeed changes what is owed and what
    is held by the same sum. *)
Lemma step_pay_ok ts f u b s s' :
  book_inv s -> holds s u b ->
  (let! unbonds := internal_step ts in efor_each (pay_out u f) unbonds) s = (Ok tt, s') ->
  book_inv s' /\ exists b', holds s' u b' /\ b' - obligations s' = b - obligations s.
Proof.
  intros Hi [Hk Hb] E. apply ebind_ok in E as (unbonds & s1 & E1 & E).
  destruct (internal_step_ok _ _ _ _ Hi E1) as (Hi1 & Hua & Ho & _ & K1 & M1).
  destruct (pay_out_all u f unbonds s1 s' b) as (Hb' & Hsame & K2); [by rewrite M1 | done|].
  destruct (book_inv_same _ _ Hsame Hi1) as [Hi2 Ho2]. split; [done|].
  exists (b - queue_total unbonds). split; [split; [congruence|done]|]. lia.
Qed.

(** A transfer into the purse moves the amount there, unless it comes from there. *)
Lemma bond_transfer_ok {F} source u amount (f : unit -> F) s b s' :
  book_inv s -> holds s u b ->
  emap_err f (transfer_from_purse_to_purse source u amount) s = (Ok tt, s') ->
  book_inv s' /\ obligations s' = obligations s
  /\ holds s' u (b + if decide (uref_addr source = uref_addr u) then 0 else amount).
Proof.
  intros Hi [Hk Hb] E. unfold emap_err in E. destruct (transfer_from_purse_to_purse _ _ _ s) as [r s1] eqn:Et.
  destruct r as [[]|?|]; try done. injection E as <-.
  destruct (transfer_to_purse_law _ _ _ _ _ _ Et ltac:(done)) as (_ & Hsame & K1 & x & y & _ & Hy & _ & Hself & Hother).
  rewrite Hb in Hy. injection Hy as <-. destruct (book_inv_same _ _ Hsame Hi) as [Hi1 Ho1]. do 2 (split; [done|]).
  split; [congruence|]. case_decide as Hd; [by rewrite (Hself Hd), Hb, Z.add_0_r | by apply (Hother Hd)].
Qed.

(** C17: what the contract's purse holds beyond what the contract owes does not
    change when a validator bonds from another purse or unbonds, and never shrinks
    in a step: staked motes, queued bonds and queued payouts stay covered. The
    code does not refuse the contract's own purse as the source of a bond: such a
    bond, which only a caller with rights to that purse can ask for, moves nothing
    and the surplus falls by its amount. *)
Theorem pos_surplus s u b :
  book_inv s -> holds s u b ->
  (forall v amount source s', 0 <= amount -> pos_bond v amount source s = (Ok tt, s') ->
     book_inv s' /\ exists b', holds s' u b' /\ b' - obligations s' =
       b - obligations s - if decide (uref_addr source = uref_addr u) then amount else 0)
  /\ (forall v maybe_amount s', option_valid (fun a => 0 <= a) maybe_amount ->
     pos_unbond v maybe_amount s = (Ok tt, s') ->
     book_inv s' /\ exists b', holds s' u b' /\ b' - obligations s' = b - obligations s)
  /\ (forall s', pos_step s = (Ok tt, s') ->
     book_inv s' /\ exists b', holds s' u b' /\ b - obligations s <= b' - obligations s').
Proof.
  intros Hi Hh. pose proof (get_bonding_purse_ok s u b Hh) as Hp. pose proof Hh as [Hk Hb].
  split; [|split].
  - intros v amount source s' Ha E. unfold pos_bond in E. destruct (amount =? 0); [done|].
    rewrite (ebind_run _ _ _ _ _ Hp), (ebind_run _ _ _ _ _ (get_block_time_law s)) in E.
    apply ebind_ok in E as ([] & s1 & E1 & E).
    destruct (bond_transfer_ok _ _ _ _ _ _ _ Hi Hh E1) as (Hi1 & Ho1 & K1 & Hb1).
    apply ebind_ok in E as ([] & s2 & E2 & E).
    destruct (internal_bond_ok _ _ _ _ _ Hi1 Ha E2) as (Hi2 & Ho2 & K2 & M2).
    edestruct (step_pay_ok (v_time s) BondTransferFailed u) as (Hi3 & b' & Hh' & Hs);
      [exact Hi2 | split; [congruence | by rewrite M2] | exact E |].
    split; [done|]. exists b'. split; [done|]. case_decide; lia.
  - intros v maybe_amount s' Ha E. unfold pos_unbond in E.
    rewrite (ebind_run _ _ _ _ _ Hp), (ebind_run _ _ _ _ _ (get_block_time_law s)) in E.
    apply ebind_ok in E as ([] & s2 & E2 & E).
    destruct (internal_unbond_ok _ _ _ _ _ Hi Ha E2) as (Hi2 & Ho2 & K2 & M2).
    destruct (step_pay_ok (v_time s) UnbondTransferFailed u b s2 s') as (Hi3 & b' & Hh' & Hs);
      [done | split; [congruence | by rewrite M2] | done|].
    split; [done|]. exists b'. split; [done|]. lia.
  - intros s' E. unfold pos_step in E.
    rewrite (ebind_run _ _ _ _ _ Hp), (ebind_run _ _ _ _ _ (get_block_time_law s)) in E.
    apply ebind_ok in E as (unbonds & s1 & E1 & E).
    destruct (internal_step_ok _ _ _ _ Hi E1) as (Hi1 & Hua & Ho & _ & K1 & M1).
    destruct (pay_out_some u unbonds s1 s' b Hua) as ((b' & Hb' & Hle) & Hsame & K2); [by rewrite M1 | done|].
    destruct (book_inv_same _ _ Hsame Hi1) as [Hi2 Ho2]. split; [done|]. exists b'.
    split; [split; [congruence|done]|]. lia.
Qed.
End solvency.

(** * Payments *)

Section payments.
Context {S : Type} `{PosLaws S}.
Implicit Types s : S.

Lemma get_purse_run name f s :
  get_purse name f s =
    (match v_keys s !! name with
     | Some (Key_URef u) => Ok u
     | Some _ => Err (f KeyUnexpectedType)
     | None => Err (f KeyNotFound)
     end, s).
Proof.
  unfold get_purse, get_purse_id. unfold ebind at 1. rewrite (ebind_run _ _ _ _ _ (get_key_law _ _)).
  by destruct (v_keys s !! name) as [[]|].
Qed.

Lemma get_refund_purse_run s :
  internal_get_refund_purse s =
    (match v_keys s !! REFUND_PURSE_KEY with
     | Some (Key_URef u) => Ok (Some u)
     | Some _ => Err RefundPurseKeyUnexpectedType
     | None => Ok None
     end, s).
Proof.
  unfold internal_get_refund_purse, get_purse_id. unfold ebind at 1.
  rewrite (ebind_run _ _ _ _ _ (get_key_law _ _)). by destruct (v_keys s !! REFUND_PURSE_KEY) as [[]|].
Qed.

(** The purses of a contract, apart from [p], keep at least what they have. *)
Definition not_shrunk (p : bytes) s s' : Prop :=
  forall q y, q <> p -> v_balance s q = Some y -> exists y', v_balance s' q = Some y' /\ y <= y'.

Lemma refund_to_account_ok u account amount s s' b :
  0 <= amount -> v_balance s (uref_addr u) = Some b -> refund_to_account u account amount s = (Ok tt, s') ->
  v_balance s' (uref_addr u) = Some (b - amount) /\ same_book s s' /\ v_keys s' = v_keys s
  /\ not_shrunk (uref_addr u) s s'.
Proof.
  intros Ha Hb E. apply ebind_ok in E as (r & s1 & E1 & E). unfold etry in E1.
  destruct (transfer_from_purse_to_account _ _ _ s) as [r1 s2] eqn:Et.
  destruct r1 as [[]|[]|]; [|injection E1 as <- <-; discriminate E|discriminate E1].
  injection E1 as <- <-. injection E as <-.
  destruct (transfer_to_account_law _ _ _ _ _ _ Et ltac:(done)) as (_ & Hsame & K & x & Hx & _ & Hx' & Ho).
  rewrite Hb in Hx. injection Hx as <-. split; [done|]. split; [done|]. split; [done|].
  intros q y Hq Hy. by apply (Ho Ha).
Qed.

Lemma same_money_not_shrunk p s s' : same_money s s' -> not_shrunk p s s'.
Proof. intros Hm q y _ Hy. exists y. rewrite Hm. split; [done|lia]. Qed.

(** Refunding empties the purse, except into itself. *)
Definition refunded (u : URef) (maybe : option URef) b s s' : Prop :=
  same_book s s' /\ v_keys s' = v_keys s /\ not_shrunk (uref_addr u) s s'
  /\ (v_balance s' (uref_addr u) = Some 0
      \/ exists rp, maybe = Some rp /\ uref_addr rp = uref_addr u /\ v_balance s' (uref_addr u) = Some b).

Lemma refund_to_account_refunded u maybe account b s s' :
  0 <= b -> v_balance s (uref_addr u) = Some b -> refund_to_account u account b s = (Ok tt, s') ->
  refunded u maybe b s s'.
Proof.
  intros Hp Hb E. destruct (refund_to_account_ok _ _ _ _ _ _ Hp Hb E) as (Hb' & ? & ? & ?).
  split; [done|]. split; [done|]. split; [done|]. left. rewrite Hb'. f_equal. lia.
Qed.

Lemma refund_ok u maybe account b s s' :
  0 <= b -> v_balance s (uref_addr u) = Some b ->
  (match maybe with
   | None => refund_to_account u account b
   | Some rp =>
       let! r := etry (transfer_from_purse_to_purse u rp b) in
       match r with
       | inr _ => refund_to_account u account b
       | inl _ => eret tt
       end
   end) s = (Ok tt, s') ->
  refunded u maybe b s s'.
Proof.
  intros Hp Hb E. destruct maybe as [rp|]; [|by eapply refund_to_account_refunded].
  apply ebind_ok in E as (r & s1 & E1 & E). unfold etry in E1.
  destruct (transfer_from_purse_to_purse _ _ _ s) as [r1 s2] eqn:Et.
  assert (r1 <> Panic) as Hr1 by (by destruct r1).
  destruct (transfer_to_purse_law _ _ _ _ _ _ Et Hr1) as (_ & Hsame & K & Hr).
  destruct r1 as [[]|[]|]; [| |done]; injection E1 as <- <-.
  - injection E as <-. destruct Hr as (x & y & Hx & Hy & _ & Hself & Hother).
    rewrite Hb in Hx. injection Hx as <-.
    split; [done|]. split; [done|]. destruct (decide (uref_addr rp = uref_addr u)) as [Eq|Hne].
    + specialize (Hself (eq_sym Eq)). split; [by apply same_money_not_shrunk|].
      right. exists rp. by rewrite Hself.
    + destruct (Hother (not_eq_sym Hne)) as (Hs' & Hd' & Ho). split; [|left; rewrite Hs'; f_equal; lia].
      intros q z Hq Hz. destruct (decide (q = uref_addr rp)) as [->|Hq2].
      * exists (y + b). rewrite Hy in Hz. injection Hz as <-. split; [done|lia].
      * exists z. rewrite Ho by done. split; [done|lia].
  - assert (v_balance s2 (uref_addr u) = Some b) as Hb2 by (by rewrite Hr).
    destruct (refund_to_account_refunded u (Some rp) account b s2 s' Hp Hb2 E)
      as ((B & U & St) & K2 & Hn & Hend).
    destruct Hsame as (B1 & U1 & St1). split; [repeat split; congruence|]. split; [congruence|].
    split; [|done]. intros q y Hq Hy. apply (Hn q y Hq). by rewrite Hr.
Qed.

(** The purse of the next deploy. *)
Definition payment_purses s (payment rewards : URef) (total : Z) : Prop :=
  v_keys s !! PAYMENT_PURSE_KEY = Some (Key_URef payment)
  /\ v_keys s !! REWARDS_PURSE_KEY = Some (Key_URef rewards)
  /\ uref_addr rewards <> uref_addr payment
  /\ v_balance s (uref_addr payment) = Some total.

(** C19: only the system settles a payment, and never one larger than what was
    paid; both refusals leave the state alone. A settlement moves at least the
    amount spent to the rewards purse, forgets the refund purse, leaves the
    books alone and empties the payment purse, unless the payment purse itself
    was chosen as the refund purse: then the unspent part may stay in it. *)
Theorem pos_finalize_spec s payment rewards total rewards_total amount_spent account :
  payment_purses s payment rewards total -> v_balance s (uref_addr rewards) = Some rewards_total ->
  0 <= amount_spent ->
  (v_caller s <> SYSTEM_ACCOUNT ->
     pos_finalize_payment amount_spent account s = (Err SystemFunctionCalledByUserAccount, s))
  /\ (v_caller s = SYSTEM_ACCOUNT -> total < amount_spent ->
     pos_finalize_payment amount_spent account s = (Err InsufficientPaymentForAmountSpent, s))
  /\ forall s', pos_finalize_payment amount_spent account s = (Ok tt, s') ->
     v_caller s = SYSTEM_ACCOUNT /\ amount_spent <= total
     /\ v_keys s' = delete REFUND_PURSE_KEY (v_keys s) /\ same_book s s'
     /\ (exists b, v_balance s' (uref_addr rewards) = Some b /\ rewards_total + amount_spent <= b)
     /\ (v_balance s' (uref_addr payment) = Some 0
         \/ exists refund, v_keys s !! REFUND_PURSE_KEY = Some (Key_URef refund)
              /\ uref_addr refund = uref_addr payment
              /\ v_balance s' (uref_addr payment) = Some (total - amount_spent)).
Proof.
  intros (Hp & Hr & Hne & Hb) Hrb Ha. unfold pos_finalize_payment, internal_finalize_payment.
  rewrite (ebind_run _ _ _ _ _ (get_caller_law s)).
  destruct (bool_decide_reflect (v_caller s = SYSTEM_ACCOUNT)) as [Hc|Hc]; cbn [negb].
  2: { split; [done|]. split; [done|]. intros s' E. discriminate E. }
  split; [done|]. unfold internal_get_payment_purse.
  assert (get_purse PAYMENT_PURSE_KEY purse_lookup_payment s = (Ok payment, s)) as Ep
    by (by rewrite get_purse_run, Hp).
  rewrite (ebind_run _ _ _ _ _ Ep), (ebind_run _ _ _ _ _ (get_balance_law payment s)), Hb.
  destruct (Z.ltb_spec total amount_spent) as [Hlt|Hge]; [split; [done|]; intros s' E; discriminate E|].
  split; [lia|]. intros s' E.
  unfold uint_sub in E. rewrite (proj2 (Z.leb_le amount_spent total)) in E by lia.
  unfold internal_get_rewards_purse in E.
  assert (get_purse REWARDS_PURSE_KEY purse_lookup_rewards s = (Ok rewards, s)) as Er
    by (by rewrite get_purse_run, Hr).
  rewrite elift_run, (ebind_run _ _ _ _ _ Er) in E.
  apply ebind_ok in E as (maybe & s0 & Em & E). rewrite get_refund_purse_run in Em. injection Em as Em <-.
  destruct (remove_key_law REFUND_PURSE_KEY s) as (s1 & E1 & _ & (B1 & U1 & S1) & K1 & M1).
  rewrite (ebind_run _ _ _ _ _ E1) in E. apply ebind_ok in E as ([] & s2 & E2 & E).
  unfold emap_err in E2. destruct (transfer_from_purse_to_purse _ _ _ s1) as [r2 s2'] eqn:Et.
  destruct r2 as [[]|?|]; try discriminate E2. injection E2 as <-.
  destruct (transfer_to_purse_law _ _ _ _ _ _ Et ltac:(discriminate))
    as (_ & (B2 & U2 & S2) & K2 & x & y & Hx & Hy & _ & _ & Hmv).
  rewrite M1 in Hx, Hy. rewrite Hb in Hx. rewrite Hrb in Hy. injection Hx as <-. injection Hy as <-.
  destruct (Hmv (not_eq_sym Hne)) as (Hx' & Hy' & _).
  assert (refunded payment maybe (total - amount_spent) s2' s') as ((B3 & U3 & S3) & K3 & Hns & Hend).
  { destruct (Z.eqb_spec (total - amount_spent) 0) as [Ez|Hnz].
    - injection E as <-. split; [done|]. split; [done|]. split; [by apply same_money_not_shrunk|].
      left. by rewrite Hx', Ez.
    - apply (refund_ok payment maybe account); [lia | done | done]. }
  split; [done|]. split; [lia|]. split; [congruence|]. split; [repeat split; congruence|].
  split; [by apply (Hns (uref_addr rewards) _ Hne)|].
  destruct Hend as [Hz|(rp & -> & Hrp & Hz)]; [by left|]. right. exists rp.
  split; [|done]. destruct (v_keys s !! REFUND_PURSE_KEY) as [[]|]; congruence.
Qed.

(** A refund purse is accepted only while a payment is made; it reads back
    without the rights it was given with, and the payment purse is handed out
    without the right to take from it. *)
Theorem pos_purses_spec s purse :
  match v_phase s with
  | Phase_Payment => exists s', pos_set_refund_purse purse s = (Ok tt, s')
      /\ pos_get_refund_purse s' = (Ok (Some (remove_access_rights purse)), s')
      /\ same_book s s' /\ same_money s s'
  | _ => pos_set_refund_purse purse s = (Err SetRefundPurseCalledOutsidePayment, s)
  end
  /\ forall payment s', pos_get_payment_purse s = (Ok payment, s') ->
       s' = s /\ uref_is_addable payment = true /\ uref_is_writeable payment = false
       /\ exists u, v_keys s !! PAYMENT_PURSE_KEY = Some (Key_URef u) /\ uref_addr u = uref_addr payment.
Proof.
  split.
  - unfold pos_set_refund_purse, internal_set_refund. rewrite (ebind_run _ _ _ _ _ (get_phase_law s)).
    destruct (v_phase s); try done.
    destruct (put_key_law REFUND_PURSE_KEY (Key_URef purse) s) as (s1 & E1 & _ & Hsame & K1 & M1).
    exists s1. split; [done|]. split; [|done]. unfold pos_get_refund_purse.
    unfold ebind. rewrite get_refund_purse_run, K1, lookup_insert_eq. done.
  - intros payment s' E. unfold pos_get_payment_purse, internal_get_payment_purse in E.
    apply ebind_ok in E as (u & s1 & E1 & E). rewrite get_purse_run in E1. injection E1 as Eu <-.
    injection E as <- <-. do 3 (split; [done|]). exists u.
    destruct (v_keys s !! PAYMENT_PURSE_KEY) as [[]|]; try discriminate Eu. by injection Eu as ->.
Qed.
End payments.
