(* ===== verification/PosProgress.v ===== *)
(** Progress of proof of stake: a step serves every request that is due.
    Source: [proof-of-stake/src/lib.rs]. *)

From stdpp Require Import gmap.
From S2P Require Import Prelude BTreeMap Bytesrepr Uint Types CLValues Account Stakes ProofOfStake.

(** The stake of a validator, and what it has asked to bond. *)
Definition stake_of (v : PublicKey) (m : Stakes) : Z := match bt_get v m with Some x => x | None => 0 end.

Definition requested (v : PublicKey) (q : list QueueEntry) : Z :=
  queue_total (List.filter (fun e => bool_decide (entry_validator e = v)) q).

Lemma amounts_total_nonneg q : amounts_ok q -> 0 <= queue_total q.
Proof. induction 1; cbn; lia. Qed.

Lemma stakes_bond_run m v amount :
  stakes_inv m -> 0 <= amount -> total_stakes m + amount < 2 ^ 512 ->
  exists m', stakes_bond m v amount = Ok m'.
Proof.
  intros [_ Hp] Ha Ht. unfold stakes_bond, uint_add. destruct (bt_get v m) as [x|] eqn:E; [|by eexists].
  pose proof (stake_bounds m v x Hp E). rewrite (proj2 (Z.ltb_lt _ _)) by lia. by eexists.
Qed.

(** Bonds that fit are all added, each to its validator. *)
Lemma bond_all_run l m :
  amounts_ok l -> stakes_inv m -> total_stakes m + queue_total l < 2 ^ 512 ->
  exists m', bond_all m l = Ok m' /\ forall v, stake_of v m' = stake_of v m + requested v l.
Proof.
  intros Hl. revert m. induction Hl as [|e l He Hl IH]; intros m Hm Ht; cbn [bond_all queue_total] in *.
  { exists m. split; [done|]. intros v. cbn. lia. }
  pose proof (amounts_total_nonneg l Hl).
  destruct (stakes_bond_run m (entry_validator e) (entry_amount e) Hm He) as (m1 & Em); [lia|].
  destruct (stakes_bond_ok _ _ _ _ Hm He Em) as (Hm1 & Ht1 & _ & Hg).
  destruct (IH m1 Hm1) as (m' & Em' & Hs); [lia|]. exists m'. rewrite Em. split; [done|]. intros v. rewrite Hs.
  unfold stake_of, requested. rewrite Hg. cbn. repeat case_decide; rewrite ?bool_decide_decide; case_decide; cbn;
    subst; try congruence; lia.
Qed.

Section progress.
Context {S : Type} `{PosLaws S}.
Implicit Types s : S.

(** The stakes are there, and with all that is to be bonded they fit an amount. *)
Definition books_fit s : Prop :=
  book_inv s /\ v_stakes s <> [] /\ total_stakes (v_stakes s) + queue_total (v_bonding s) < 2 ^ 512.

(** What a step at a time leaves: the requests that are not due, and the stakes
    with the due bonds. *)
Definition served ts s s' : Prop :=
  v_bonding s' = (queue_pop_due (v_bonding s) (blocktime_saturating_sub ts BOND_DELAY)).2
  /\ v_unbonding s' = (queue_pop_due (v_unbonding s) (blocktime_saturating_sub ts UNBOND_DELAY)).2
  /\ forall v, stake_of v (v_stakes s') = stake_of v (v_stakes s)
       + requested v (queue_pop_due (v_bonding s) (blocktime_saturating_sub ts BOND_DELAY)).1.

(** Writing back a queue only when something was due changes it as if always. *)
Lemma write_unbonding_due q ts s :
  queue_inv q -> v_unbonding s = q ->
  exists s1, match (queue_pop_due q ts).1 with
             | [] => eret tt
             | _ => write_unbonding (queue_pop_due q ts).2
             end s = (Ok tt, s1)
    /\ v_unbonding s1 = (queue_pop_due q ts).2 /\ v_bonding s1 = v_bonding s /\ v_stakes s1 = v_stakes s.
Proof.
  intros Hq Hs. destruct (queue_pop_due q ts) as [due rest] eqn:E.
  destruct (queue_pop_due_split q ts due rest Hq E) as (Eq & _ & _). cbn. destruct due as [|d due].
  - exists s. by rewrite Hs.
  - destruct (write_unbonding_law rest s) as (s1 & E1 & _ & B & U & St & _). by exists s1.
Qed.

Lemma bond_due ts s :
  books_fit s ->
  exists s1, match (queue_pop_due (v_bonding s) ts).1 with
             | [] => eret tt
             | _ =>
                 let! _ := write_bonding (queue_pop_due (v_bonding s) ts).2 in
                 let! stakes := stakes_read in
                 let! stakes' := elift (bond_all stakes (queue_pop_due (v_bonding s) ts).1) in
                 stakes_write stakes'
             end s = (Ok tt, s1)
    /\ v_bonding s1 = (queue_pop_due (v_bonding s) ts).2 /\ v_unbonding s1 = v_unbonding s
    /\ forall v, stake_of v (v_stakes s1) = stake_of v (v_stakes s) + requested v (queue_pop_due (v_bonding s) ts).1.
Proof.
  intros ([Hs Hb _ Ha _] & Hne & Hfit). destruct (queue_pop_due (v_bonding s) ts) as [due rest] eqn:E.
  destruct (queue_pop_due_split _ ts due rest Hb E) as (Eq & _ & _).
  destruct (pop_due_ok _ ts due rest Hb Ha E) as (_ & Hra & Hda & Ht). cbn [fst snd].
  pose proof (amounts_total_nonneg rest Hra).
  destruct (bond_all_run due (v_stakes s) Hda Hs) as (m' & Em & Hm); [lia|].
  destruct due as [|d due].
  - exists s. rewrite Eq. split_and!; try done. intros v. cbn. lia.
  - destruct (write_bonding_law rest s) as (s1 & E1 & _ & B1 & U1 & S1 & _).
    destruct (stakes_write_law m' s1) as (s2 & E2 & _ & B2 & U2 & S2 & _). exists s2.
    rewrite (ebind_run _ _ _ _ _ E1). unfold ebind. rewrite stakes_read_law, S1.
    destruct (v_stakes s) as [|e0 st0] eqn:Est; [done|]. unfold elift. rewrite Em, E2. split_and!; try done; [congruence|congruence|].
    intros v. rewrite S2. apply Hm.
Qed.

Lemma internal_step_run ts s :
  books_fit s ->
  exists s', internal_step ts s
      = (Ok (queue_pop_due (v_unbonding s) (blocktime_saturating_sub ts UNBOND_DELAY)).1, s') /\ served ts s s'.
Proof.
  intros Hf. pose proof Hf as ([Hs Hb Hu Ha Hua] & Hne & Hfit). unfold internal_step.
  rewrite (ebind_run _ _ _ _ _ (read_bonding_law s)), (ebind_run _ _ _ _ _ (read_unbonding_law s)).
  destruct (write_unbonding_due (v_unbonding s) (blocktime_saturating_sub ts UNBOND_DELAY) s Hu eq_refl)
    as (s1 & E1 & U1 & B1 & S1).
  destruct (bond_due (blocktime_saturating_sub ts BOND_DELAY) s1) as (s2 & E2 & B2 & U2 & S2).
  { split; [|by rewrite S1, B1]. split; rewrite ?S1, ?B1; try done; rewrite U1.
    - destruct (queue_pop_due (v_unbonding s) _) as [d r] eqn:E. by destruct (pop_due_ok _ _ d r Hu Hua E).
    - destruct (queue_pop_due (v_unbonding s) _) as [d r] eqn:E. by destruct (pop_due_ok _ _ d r Hu Hua E) as (_ & ? & _). }
  rewrite B1, S1, U1 in *. exists s2. split; [|by split_and!].
  destruct (queue_pop_due (v_bonding s) _) as [bd br]. destruct (queue_pop_due (v_unbonding s) _) as [ud ur].
  cbn [fst snd] in *. rewrite (ebind_run _ _ _ _ _ E1), (ebind_run _ _ _ _ _ E2). done.
Qed.

(** The host lets the payouts of a purse through, or refuses them. *)
Definition transfers_return u : Prop :=
  forall target amount s, (transfer_from_purse_to_account u target amount s).1 <> Panic.

Lemma payouts_run u l s :
  transfers_return u ->
  exists s', efor_each (fun entry =>
    let! _ := etry (F := PosError)
      (transfer_from_purse_to_account u (entry_validator entry) (entry_amount entry)) in
    eret tt) l s = (Ok tt, s') /\ same_book s s'.
Proof.
  intros Ht. revert s. induction l as [|e l IH]; intros s; [by exists s|]. cbn [efor_each].
  unfold ebind at 1 2, etry. specialize (Ht (entry_validator e) (entry_amount e) s).
  destruct (transfer_from_purse_to_account _ _ _ s) as [r s1] eqn:Et. cbn in Ht.
  destruct (transfer_to_account_law _ _ _ _ _ _ Et Ht) as (_ & (B1 & U1 & S1) & _).
  destruct (IH s1) as (s2 & E2 & B2 & U2 & S2). exists s2.
  destruct r; try done; cbn; (split; [exact E2|]); repeat split; congruence.
Qed.

Lemma not_due (q : Queue) ts e : In e (queue_pop_due q ts).2 <-> In e q /\ ts < entry_timestamp e.
Proof. cbn. rewrite filter_In, negb_true_iff, Z.leb_gt. done. Qed.

(** C18: requests are served. When the stakes are there and fit an amount, and the
    host returns from payouts, the step of a block succeeds; no request that is
    due is left in either queue and none that is not due is lost, and the stake
    of each validator grows by exactly what its due requests ask for. So a request
    is served by the first block whose time has passed its delay. *)
Theorem requests_served s u b :
  books_fit s -> holds s u b -> transfers_return u ->
  exists s', pos_step s = (Ok tt, s')
  /\ (forall e, In e (v_bonding s') <->
        In e (v_bonding s) /\ blocktime_saturating_sub (v_time s) BOND_DELAY < entry_timestamp e)
  /\ (forall e, In e (v_unbonding s') <->
        In e (v_unbonding s) /\ blocktime_saturating_sub (v_time s) UNBOND_DELAY < entry_timestamp e)
  /\ forall v, stake_of v (v_stakes s') = stake_of v (v_stakes s)
       + requested v (queue_pop_due (v_bonding s) (blocktime_saturating_sub (v_time s) BOND_DELAY)).1.
Proof.
  intros Hf Hh Ht. destruct (internal_step_run (v_time s) s Hf) as (s1 & E1 & B1 & U1 & S1).
  destruct (payouts_run u (queue_pop_due (v_unbonding s) (blocktime_saturating_sub (v_time s) UNBOND_DELAY)).1 s1 Ht)
    as (s2 & E2 & B2 & U2 & S2).
  exists s2. split.
  - unfold pos_step. rewrite (ebind_run _ _ _ _ _ (get_bonding_purse_ok s u b Hh)).
    rewrite (ebind_run _ _ _ _ _ (get_block_time_law s)), (ebind_run _ _ _ _ _ E1). exact E2.
  - rewrite B2, U2, S2, B1, U1. split_and!; [apply not_due | apply not_due | exact S1].
Qed.
End progress.
