(* ===== verification/ApiError.v ===== *)
(** The errors a contract sees, their codes at the boundary between the host and
    Wasm, and the small enumerations that cross it.  Sources:
    [types/src/api_error.rs], [types/src/system_contract_type.rs],
    [types/src/transfer_result.rs], [types/src/system_contract_errors/mod.rs],
    [types/src/system_contract_errors/pos.rs]. *)

From S2P Require Import Prelude BTreeMap Bytesrepr Uint Types CLValues Mint Stakes.

(** [RESERVED_ERROR_MAX] is [u16::MAX]; the ranges of the two system contracts
    lie at its end. *)
Definition RESERVED_ERROR_MAX : Z := 65535.
Definition POS_ERROR_OFFSET : Z := RESERVED_ERROR_MAX - u8_max.
Definition MINT_ERROR_OFFSET : Z := (POS_ERROR_OFFSET - 1) - u8_max.

Inductive ApiError :=
| Api_None
| Api_MissingArgument
| Api_InvalidArgument
| Api_Deserialize
| Api_Read
| Api_ValueNotFound
| Api_ContractNotFound
| Api_GetKey
| Api_UnexpectedKeyVariant
| Api_UnexpectedValueVariant
| Api_UnexpectedContractRefVariant
| Api_InvalidPurseName
| Api_InvalidPurse
| Api_UpgradeContractAtURef
| Api_Transfer
| Api_NoAccessRights
| Api_ValueConversion
| Api_CLTypeMismatch
| Api_EarlyEndOfStream
| Api_FormattingError
| Api_LeftOverBytes
| Api_OutOfMemoryError
| Api_MaxKeysLimit
| Api_DuplicateKey
| Api_PermissionDenied
| Api_MissingKey
| Api_ThresholdViolation
| Api_KeyManagementThresholdError
| Api_DeploymentThresholdError
| Api_PermissionDeniedError
| Api_InsufficientTotalWeight
| Api_InvalidSystemContract
| Api_PurseNotCreated
| Api_Unhandled
| Api_BufferTooSmall
| Api_HostBufferEmpty
| Api_HostBufferFull
| Api_Mint (code : Z)
| Api_ProofOfStake (code : Z)
| Api_User (code : Z).

#[global] Instance api_error_eq_dec : EqDecision ApiError.
Proof. solve_decision. Defined.

(** ** Conversions from the errors of the components *)

Definition api_from_bytesrepr (error : Error) : ApiError :=
  match error with
  | EarlyEndOfStream => Api_EarlyEndOfStream
  | FormattingError => Api_FormattingError
  | LeftOverBytes => Api_LeftOverBytes
  | OutOfMemoryError => Api_OutOfMemoryError
  end.

Definition api_from_add_key (error : AddKeyFailure) : ApiError :=
  match error with
  | MaxKeysLimit => Api_MaxKeysLimit
  | DuplicateKey => Api_DuplicateKey
  | AddKey_PermissionDenied => Api_PermissionDenied
  end.

Definition api_from_update_key (error : UpdateKeyFailure) : ApiError :=
  match error with
  | UpdateKey_MissingKey => Api_MissingKey
  | UpdateKey_PermissionDenied => Api_PermissionDenied
  | UpdateKey_ThresholdViolation => Api_ThresholdViolation
  end.

Definition api_from_remove_key (error : RemoveKeyFailure) : ApiError :=
  match error with
  | RemoveKey_MissingKey => Api_MissingKey
  | RemoveKey_PermissionDenied => Api_PermissionDenied
  | RemoveKey_ThresholdViolation => Api_ThresholdViolation
  end.

Definition api_from_set_threshold (error : SetThresholdFailure) : ApiError :=
  match error with
  | KeyManagementThresholdError => Api_KeyManagementThresholdError
  | DeploymentThresholdError => Api_DeploymentThresholdError
  | SetThreshold_PermissionDeniedError => Api_PermissionDeniedError
  | InsufficientTotalWeight => Api_InsufficientTotalWeight
  end.

Definition api_from_cl_value (error : CLValueError) : ApiError :=
  match error with
  | CLValue_Serialization bytesrepr_error => api_from_bytesrepr bytesrepr_error
  | CLValue_Type _ => Api_CLTypeMismatch
  end.

Definition api_from_try_from_int (_ : TryFromIntError) : ApiError := Api_Unhandled.

(** The discriminants of [pos::Error]. *)
Definition pos_error_to_u8 (e : PosError) : Z :=
  match e with
  | NotBonded => 0
  | TooManyEventsInQueue => 1
  | CannotUnbondLastValidator => 2
  | SpreadTooHigh => 3
  | MultipleRequests => 4
  | BondTooSmall => 5
  | BondTooLarge => 6
  | UnbondTooLarge => 7
  | BondTransferFailed => 8
  | UnbondTransferFailed => 9
  | Pos_MissingArgument => 10
  | Pos_InvalidArgument => 11
  | TimeWentBackwards => 12
  | StakesNotFound => 13
  | PaymentPurseNotFound => 14
  | PaymentPurseKeyUnexpectedType => 15
  | PaymentPurseBalanceNotFound => 16
  | BondingPurseNotFound => 17
  | BondingPurseKeyUnexpectedType => 18
  | RefundPurseKeyUnexpectedType => 19
  | RewardsPurseNotFound => 20
  | RewardsPurseKeyUnexpectedType => 21
  | QueueNotStoredAsByteArray => 22
  | QueueDeserializationFailed => 23
  | QueueDeserializationExtraBytes => 24
  | StakesKeyDeserializationFailed => 25
  | StakesDeserializationFailed => 26
  | SystemFunctionCalledByUserAccount => 27
  | InsufficientPaymentForAmountSpent => 28
  | FailedTransferToRewardsPurse => 29
  | FailedTransferToAccountPurse => 30
  | SetRefundPurseCalledOutsidePayment => 31
  end.

Definition api_from_mint (error : MintError) : ApiError := Api_Mint (mint_error_to_u8 error).

Definition api_from_pos (error : PosError) : ApiError := Api_ProofOfStake (pos_error_to_u8 error).

(** [system_contract_errors::Error]. *)
Inductive SystemContractError :=
| System_MintError (e : MintError)
| System_PosError (e : PosError).

(** ** Codes *)

(** [impl From<ApiError> for u32]. *)
Definition api_error_to_u32 (error : ApiError) : Z :=
  match error with
  | Api_None => 1
  | Api_MissingArgument => 2
  | Api_InvalidArgument => 3
  | Api_Deserialize => 4
  | Api_Read => 5
  | Api_ValueNotFound => 6
  | Api_ContractNotFound => 7
  | Api_GetKey => 8
  | Api_UnexpectedKeyVariant => 9
  | Api_UnexpectedValueVariant => 10
  | Api_UnexpectedContractRefVariant => 11
  | Api_InvalidPurseName => 12
  | Api_InvalidPurse => 13
  | Api_UpgradeContractAtURef => 14
  | Api_Transfer => 15
  | Api_NoAccessRights => 16
  | Api_ValueConversion => 17
  | Api_CLTypeMismatch => 18
  | Api_EarlyEndOfStream => 19
  | Api_FormattingError => 20
  | Api_LeftOverBytes => 21
  | Api_OutOfMemoryError => 22
  | Api_MaxKeysLimit => 23
  | Api_DuplicateKey => 24
  | Api_PermissionDenied => 25
  | Api_MissingKey => 26
  | Api_ThresholdViolation => 27
  | Api_KeyManagementThresholdError => 28
  | Api_DeploymentThresholdError => 29
  | Api_PermissionDeniedError => 30
  | Api_InsufficientTotalWeight => 31
  | Api_InvalidSystemContract => 32
  | Api_PurseNotCreated => 33
  | Api_Unhandled => 34
  | Api_BufferTooSmall => 35
  | Api_HostBufferEmpty => 36
  | Api_HostBufferFull => 37
  | Api_Mint value => MINT_ERROR_OFFSET + value
  | Api_ProofOfStake value => POS_ERROR_OFFSET + value
  | Api_User value => RESERVED_ERROR_MAX + 1 + value
  end.

(** The result as the [i32] that a host function returns. *)
Definition i32_from (result : unit + ApiError) : Z :=
  match result with
  | inl _ => 0
  | inr error => wrap_signed 32 (api_error_to_u32 error)
  end.

Definition result_from (value : Z) : unit + ApiError :=
  match value with
  | 0 => inl tt
  | 1 => inr Api_None
  | 2 => inr Api_MissingArgument
  | 3 => inr Api_InvalidArgument
  | 4 => inr Api_Deserialize
  | 5 => inr Api_Read
  | 6 => inr Api_ValueNotFound
  | 7 => inr Api_ContractNotFound
  | 8 => inr Api_GetKey
  | 9 => inr Api_UnexpectedKeyVariant
  | 10 => inr Api_UnexpectedValueVariant
  | 11 => inr Api_UnexpectedContractRefVariant
  | 12 => inr Api_InvalidPurseName
  | 13 => inr Api_InvalidPurse
  | 14 => inr Api_UpgradeContractAtURef
  | 15 => inr Api_Transfer
  | 16 => inr Api_NoAccessRights
  | 17 => inr Api_ValueConversion
  | 18 => inr Api_CLTypeMismatch
  | 19 => inr Api_EarlyEndOfStream
  | 20 => inr Api_FormattingError
  | 21 => inr Api_LeftOverBytes
  | 22 => inr Api_OutOfMemoryError
  | 23 => inr Api_MaxKeysLimit
  | 24 => inr Api_DuplicateKey
  | 25 => inr Api_PermissionDenied
  | 26 => inr Api_MissingKey
  | 27 => inr Api_ThresholdViolation
  | 28 => inr Api_KeyManagementThresholdError
  | 29 => inr Api_DeploymentThresholdError
  | 30 => inr Api_PermissionDeniedError
  | 31 => inr Api_InsufficientTotalWeight
  | 32 => inr Api_InvalidSystemContract
  | 33 => inr Api_PurseNotCreated
  | 34 => inr Api_Unhandled
  | 35 => inr Api_BufferTooSmall
  | 36 => inr Api_HostBufferEmpty
  | 37 => inr Api_HostBufferFull
  | _ =>
      if (value >? RESERVED_ERROR_MAX) && (value <=? 2 * RESERVED_ERROR_MAX + 1) then
        inr (Api_User (wrap_unsigned 16 value))
      else if (value >=? POS_ERROR_OFFSET) && (value <=? RESERVED_ERROR_MAX) then
        inr (Api_ProofOfStake (wrap_unsigned 8 value))
      else if (value >=? MINT_ERROR_OFFSET) && (value <? POS_ERROR_OFFSET) then
        inr (Api_Mint (wrap_unsigned 8 value))
      else inr Api_Unhandled
  end.

(** * System contracts and transfers *)

Inductive SystemContractType := System_Mint | System_ProofOfStake.

Definition system_contract_type_into (t : SystemContractType) : Z :=
  match t with System_Mint => 0 | System_ProofOfStake => 1 end.

Definition system_contract_type_try_from (value : Z) : outcome ApiError SystemContractType :=
  if value =? 0 then Ok System_Mint
  else if value =? 1 then Ok System_ProofOfStake
  else Err Api_InvalidSystemContract.

Inductive TransferredTo := ExistingAccount | NewAccount.

Definition TransferResult : Type := TransferredTo + ApiError.

Definition transferred_to_code (t : TransferredTo) : Z :=
  match t with ExistingAccount => 0 | NewAccount => 1 end.

Definition transfer_result_from (value : Z) : TransferResult :=
  if value =? transferred_to_code ExistingAccount then inl ExistingAccount
  else if value =? transferred_to_code NewAccount then inl NewAccount
  else inr Api_Transfer.

Definition transfer_i32_from (result : TransferResult) : Z :=
  match result with
  | inl transferred_to => transferred_to_code transferred_to
  | inr _ => 2
  end.

(** * Properties *)

(** The payload of an error is an unsigned integer of its type. *)
Definition api_error_valid (e : ApiError) : Prop :=
  match e with
  | Api_Mint c | Api_ProofOfStake c => is_unsigned 8 c
  | Api_User c => is_unsigned 16 c
  | _ => True
  end.

(** The integers above the table of named errors are split by range. *)
Lemma result_from_range value :
  37 < value ->
  result_from value =
    if (value >? RESERVED_ERROR_MAX) && (value <=? 2 * RESERVED_ERROR_MAX + 1) then
      inr (Api_User (wrap_unsigned 16 value))
    else if (value >=? POS_ERROR_OFFSET) && (value <=? RESERVED_ERROR_MAX) then
      inr (Api_ProofOfStake (wrap_unsigned 8 value))
    else if (value >=? MINT_ERROR_OFFSET) && (value <? POS_ERROR_OFFSET) then
      inr (Api_Mint (wrap_unsigned 8 value))
    else inr Api_Unhandled.
Proof.
  intros Hv. unfold result_from.
  destruct value as [|p|p]; [lia | | lia].
  do 6 (destruct p as [p|p|]; try lia; try reflexivity).
Qed.

Lemma api_error_code_range e : api_error_valid e -> 0 < api_error_to_u32 e <= 2 * RESERVED_ERROR_MAX + 1.
Proof.
  unfold RESERVED_ERROR_MAX. destruct e; cbn; try lia; unfold is_unsigned; cbn;
    unfold MINT_ERROR_OFFSET, POS_ERROR_OFFSET, RESERVED_ERROR_MAX, u8_max; lia.
Qed.

Ltac range_case :=
  rewrite result_from_range; unfold MINT_ERROR_OFFSET, POS_ERROR_OFFSET, RESERVED_ERROR_MAX, u8_max; [|lia];
  repeat match goal with
  | |- context [(?a >? ?b) && (?c <=? ?d)] =>
      first [ replace ((a >? b) && (c <=? d)) with true by (symmetry; apply andb_true_iff; lia)
            | replace ((a >? b) && (c <=? d)) with false by (symmetry; apply andb_false_iff; lia) ]
  | |- context [(?a >=? ?b) && (?c <=? ?d)] =>
      first [ replace ((a >=? b) && (c <=? d)) with true by (symmetry; apply andb_true_iff; lia)
            | replace ((a >=? b) && (c <=? d)) with false by (symmetry; apply andb_false_iff; lia) ]
  | |- context [(?a >=? ?b) && (?c <? ?d)] =>
      replace ((a >=? b) && (c <? d)) with true by (symmetry; apply andb_true_iff; lia)
  end; do 2 f_equal.

(** What a host function returns as an [i32], the contract reads back as the same
    result: the named errors, both system ranges and the user range are disjoint
    and complete. *)
Theorem api_error_roundtrip r :
  match r with inl _ => True | inr e => api_error_valid e end ->
  result_from (i32_from r) = r.
Proof.
  destruct r as [[]|e]; [done|]. intros Hv. cbn.
  pose proof (api_error_code_range e Hv) as Hr. unfold RESERVED_ERROR_MAX in Hr.
  rewrite wrap_signed_small by (split; lia).
  destruct e as [ | | | | | | | | | | | | | | | | | | | | | | | | | | | | | | | | | | | | | c|c|c];
    try reflexivity; cbn in Hv; unfold is_unsigned in Hv; cbn in Hv; cbn [api_error_to_u32].
  - range_case. unfold wrap_unsigned. replace (65535 - 255 - 1 - 255 + c) with (c + 254 * 2 ^ 8) by lia.
    rewrite Z_mod_plus_full. apply Z.mod_small. lia.
  - range_case. unfold wrap_unsigned. replace (65535 - 255 + c) with (c + 255 * 2 ^ 8) by lia.
    rewrite Z_mod_plus_full. apply Z.mod_small. lia.
  - range_case. unfold wrap_unsigned. replace (65535 + 1 + c) with (c + 1 * 2 ^ 16) by lia.
    rewrite Z_mod_plus_full. apply Z.mod_small. lia.
Qed.
