(* ===== verification/ProtocolData.v ===== *)
(** The cost table and the system contracts of a protocol version, and the two
    units of account of the engine.  Sources:
    [engine-wasm-prep/src/wasm_costs.rs], [engine-storage/src/protocol_data.rs],
    [engine-shared/src/gas.rs], [engine-shared/src/motes.rs]. *)

From S2P Require Import Prelude BTreeMap Bytesrepr Uint Types.

(** * Gas and motes: numbers of 512 bits *)

Definition Gas : Type := Z.
Definition Motes : Type := Z.

(** [checked_div]: no result for a divisor of zero. *)
Definition checked_div (a b : Z) : option Z := if b =? 0 then None else Some (a / b).

Definition checked_mul (w a b : Z) : option Z := if a * b <? 2 ^ w then Some (a * b) else None.

Definition gas_from_motes (motes : Motes) (conv_rate : Z) : option Gas := checked_div motes conv_rate.

Definition gas_checked_add (self rhs : Gas) : option Gas := checked_add 512 self rhs.

Definition gas_add {E} (self rhs : Gas) : outcome E Gas := uint_add 512 self rhs.

Definition gas_sub {E} (self rhs : Gas) : outcome E Gas := uint_sub self rhs.

(** The operator [/] panics on zero. *)
Definition gas_div {E} (self rhs : Gas) : outcome E Gas := if rhs =? 0 then Panic else Ok (self / rhs).

Definition gas_mul {E} (self rhs : Gas) : outcome E Gas := uint_mul 512 self rhs.

Definition motes_checked_add (self rhs : Motes) : option Motes := checked_add 512 self rhs.

Definition motes_from_gas (gas : Gas) (conv_rate : Z) : option Motes := checked_mul 512 gas conv_rate.

Definition motes_add {E} (self rhs : Motes) : outcome E Motes := uint_add 512 self rhs.

Definition motes_sub {E} (self rhs : Motes) : outcome E Motes := uint_sub self rhs.

Definition motes_div {E} (self rhs : Motes) : outcome E Motes := if rhs =? 0 then Panic else Ok (self / rhs).

Definition motes_mul {E} (self rhs : Motes) : outcome E Motes := uint_mul 512 self rhs.

(** * The cost table *)

Record WasmCosts := mk_wasm_costs {
  wc_regular : Z;
  wc_div : Z;
  wc_mul : Z;
  wc_mem : Z;
  wc_initial_mem : Z;
  wc_grow_mem : Z;
  wc_memcpy : Z;
  wc_max_stack_height : Z;
  wc_opcodes_mul : Z;
  wc_opcodes_div : Z;
}.

#[global] Instance wasm_costs_eq_dec : EqDecision WasmCosts.
Proof. solve_decision. Defined.

Definition wasm_costs_default : WasmCosts := mk_wasm_costs 0 0 0 0 0 0 0 0 0 0.

Definition wasm_costs_to_bytes (c : WasmCosts) : outcome Error bytes :=
  let? b0 := u32_to_bytes (wc_regular c) in
  let? b1 := u32_to_bytes (wc_div c) in
  let? b2 := u32_to_bytes (wc_mul c) in
  let? b3 := u32_to_bytes (wc_mem c) in
  let? b4 := u32_to_bytes (wc_initial_mem c) in
  let? b5 := u32_to_bytes (wc_grow_mem c) in
  let? b6 := u32_to_bytes (wc_memcpy c) in
  let? b7 := u32_to_bytes (wc_max_stack_height c) in
  let? b8 := u32_to_bytes (wc_opcodes_mul c) in
  let? b9 := u32_to_bytes (wc_opcodes_div c) in
  Ok (b0 ++ b1 ++ b2 ++ b3 ++ b4 ++ b5 ++ b6 ++ b7 ++ b8 ++ b9).

Definition wasm_costs_from_bytes (bs : bytes) : outcome Error (WasmCosts * bytes) :=
  let? '(regular, r0) := u32_from_bytes bs in
  let? '(div, r1) := u32_from_bytes r0 in
  let? '(mul, r2) := u32_from_bytes r1 in
  let? '(mem, r3) := u32_from_bytes r2 in
  let? '(initial_mem, r4) := u32_from_bytes r3 in
  let? '(grow_mem, r5) := u32_from_bytes r4 in
  let? '(memcpy, r6) := u32_from_bytes r5 in
  let? '(max_stack_height, r7) := u32_from_bytes r6 in
  let? '(opcodes_mul, r8) := u32_from_bytes r7 in
  let? '(opcodes_div, r9) := u32_from_bytes r8 in
  Ok (mk_wasm_costs regular div mul mem initial_mem grow_mem memcpy max_stack_height opcodes_mul
        opcodes_div, r9).

Definition wasm_costs_codec : Codec WasmCosts := mk_codec wasm_costs_to_bytes wasm_costs_from_bytes.

(** * Protocol data *)

Record ProtocolData := mk_protocol_data {
  pd_wasm_costs : WasmCosts;
  pd_mint : URef;
  pd_proof_of_stake : URef;
}.

(** The address of a system contract that is not installed. *)
Definition ZERO_ADDR : bytes := replicate 32 x00.

Definition protocol_data_default : ProtocolData :=
  mk_protocol_data wasm_costs_default (uref_new ZERO_ADDR READ) (uref_new ZERO_ADDR READ).

Definition system_contracts (self : ProtocolData) : list URef :=
  (if bool_decide (uref_addr (pd_mint self) <> ZERO_ADDR) then [pd_mint self] else [])
  ++ (if bool_decide (uref_addr (pd_proof_of_stake self) <> ZERO_ADDR)
      then [pd_proof_of_stake self] else []).

Definition protocol_data_to_bytes (self : ProtocolData) : outcome Error bytes :=
  let? b0 := wasm_costs_to_bytes (pd_wasm_costs self) in
  let? b1 := uref_to_bytes (pd_mint self) in
  let? b2 := uref_to_bytes (pd_proof_of_stake self) in
  Ok (b0 ++ b1 ++ b2).

Definition protocol_data_from_bytes (bs : bytes) : outcome Error (ProtocolData * bytes) :=
  let? '(wasm_costs, rem) := wasm_costs_from_bytes bs in
  let? '(mint_reference, rem') := uref_from_bytes rem in
  let? '(proof_of_stake_reference, rem'') := uref_from_bytes rem' in
  Ok (mk_protocol_data wasm_costs mint_reference proof_of_stake_reference, rem'').

Definition protocol_data_codec : Codec ProtocolData :=
  mk_codec protocol_data_to_bytes protocol_data_from_bytes.

(** * Lemmas *)

Definition wasm_costs_valid (c : WasmCosts) : Prop :=
  is_unsigned 32 (wc_regular c) /\ is_unsigned 32 (wc_div c) /\ is_unsigned 32 (wc_mul c)
  /\ is_unsigned 32 (wc_mem c) /\ is_unsigned 32 (wc_initial_mem c) /\ is_unsigned 32 (wc_grow_mem c)
  /\ is_unsigned 32 (wc_memcpy c) /\ is_unsigned 32 (wc_max_stack_height c)
  /\ is_unsigned 32 (wc_opcodes_mul c) /\ is_unsigned 32 (wc_opcodes_div c).

Definition protocol_data_valid (p : ProtocolData) : Prop :=
  wasm_costs_valid (pd_wasm_costs p) /\ uref_valid (pd_mint p) /\ uref_valid (pd_proof_of_stake p).

#[global] Instance wasm_costs_laws : CodecLaws wasm_costs_codec wasm_costs_valid.
Proof.
  intros [] bs rest Hv H. cbn in *. unfold wasm_costs_valid in Hv. cbn in Hv. apply Ok_inj in H as <-.
  unfold wasm_costs_from_bytes. rewrite <- !app_assoc.
  do 10 (rewrite u32_prefix by tauto; cbn [obind]). done.
Qed.

#[global] Instance protocol_data_laws : CodecLaws protocol_data_codec protocol_data_valid.
Proof.
  intros [c m p] bs rest (Hc & Hm & Hp) H. cbn in Hc, Hm, Hp. cbn [to_bytes protocol_data_codec] in H.
  unfold protocol_data_to_bytes in H. cbn [pd_wasm_costs pd_mint pd_proof_of_stake] in H.
  apply obind_ok in H as (b0 & H0 & H). apply obind_ok in H as (b1 & H1 & H).
  apply obind_ok in H as (b2 & H2 & <-%Ok_inj). cbn. unfold protocol_data_from_bytes.
  rewrite <- !app_assoc.
  pose proof (wasm_costs_laws c b0 (b1 ++ b2 ++ rest) Hc H0) as E0. cbn in E0. rewrite E0. cbn [obind].
  pose proof (uref_laws m b1 (b2 ++ rest) Hm H1) as E1. cbn in E1. rewrite E1. cbn [obind].
  pose proof (uref_laws p b2 rest Hp H2) as E2. cbn in E2. by rewrite E2.
Qed.

(** What a gas price can buy: converting motes to gas and back never yields more
    than was paid, and loses less than one unit of gas. *)
Lemma gas_motes_conversion motes rate gas :
  0 < rate -> 0 <= motes < 2 ^ 512 -> gas_from_motes motes rate = Some gas ->
  exists back, motes_from_gas gas rate = Some back /\ back <= motes < back + rate.
Proof.
  unfold gas_from_motes, motes_from_gas, checked_div, checked_mul. intros Hr Hm.
  destruct (Z.eqb_spec rate 0); [lia|]. intros [= <-].
  assert (motes / rate * rate <= motes < motes / rate * rate + rate) as Hd
    by (pose proof (Z.mod_pos_bound motes rate Hr); pose proof (Z.div_mod motes rate); lia).
  exists (motes / rate * rate). destruct (Z.ltb_spec (motes / rate * rate) (2 ^ 512)); [done|lia].
Qed.
