(* ===== verification/ExecutionError.v ===== *)
(** The errors of executing a contract and of the engine around it.  Sources:
    [engine-core/src/execution/error.rs], [engine-core/src/resolvers/error.rs],
    [engine-core/src/engine_state/error.rs],
    [engine-wasm-prep/src/lib.rs]. *)

From S2P Require Import Prelude BTreeMap Bytesrepr Uint Types CLValues Mint Stakes StoredValue ApiError.

(** The error types of the libraries under the engine. *)
Class ForeignErrors := {
  WasmiOther : Type;
  ParityError : Type;
  ParitySerializationError : Type;
  StorageError : Type;
  RandError : Type;
}.

Inductive ResolverError :=
| UnknownProtocolVersion (v : ProtocolVersion)
| NoImportedMemory.

(** [execution::Error], with the errors of the interpreter that carry one: a trap
    raised by a host function, or another error of [wasmi]. *)
Inductive ExecError {F : ForeignErrors} : Type :=
| EE_Interpreter (e : InterpreterError)
| EE_Storage (e : StorageError)
| EE_BytesRepr (e : Error)
| EE_KeyNotFound (k : Key)
| EE_AccountNotFound (k : Key)
| EE_TypeMismatch (m : TypeMismatch)
| EE_InvalidAccess (required : AccessRights)
| EE_ForgedReference (u : URef)
| EE_URefNotFound (msg : bytes)
| EE_FunctionNotFound (msg : bytes)
| EE_ParityWasm (e : ParityError)
| EE_GasLimit
| EE_Ret (urefs : list URef)
| EE_Rng (e : RandError)
| EE_ResolverError (e : ResolverError)
| EE_Revert (status : Z)
| EE_AddKeyFailure (e : AddKeyFailure)
| EE_RemoveKeyFailure (e : RemoveKeyFailure)
| EE_UpdateKeyFailure (e : UpdateKeyFailure)
| EE_SetThresholdFailure (e : SetThresholdFailure)
| EE_SystemContractError (e : SystemContractError)
| EE_DeploymentAuthorizationFailure
| EE_ExpectedReturnValue
| EE_UnexpectedReturnValue
| EE_InvalidContext
| EE_IncompatibleProtocolMajorVersion (expected actual : Z)
| EE_CLValue (e : CLValueError)
| EE_HostBufferEmpty
with InterpreterError {F : ForeignErrors} : Type :=
| IE_Host (e : ExecError)
| IE_Unreachable
| IE_Other (e : WasmiOther).

Inductive PreprocessingError :=
| DeserializeError (msg : bytes)
| OperationForbiddenByGasRules
| StackLimiterError.

(** [engine_state::Error]. *)
Inductive EngineError {F : ForeignErrors} : Type :=
| ES_InvalidHashLength (expected actual : Z)
| ES_InvalidPublicKeyLength (expected actual : Z)
| ES_InvalidProtocolVersion (v : ProtocolVersion)
| ES_InvalidUpgradeConfig
| ES_WasmPreprocessingError (e : PreprocessingError)
| ES_WasmSerializationError (e : ParitySerializationError)
| ES_ExecError (e : ExecError)
| ES_StorageError (e : StorageError)
| ES_AuthorizationError
| ES_InsufficientPaymentError
| ES_DeployError
| ES_FinalizationError
| ES_MissingSystemContractError (name : bytes)
| ES_SerializationError (e : Error)
| ES_MintError (e : MintError).
