(* ===== verification/RuntimeContext.v ===== *)
(** The context a contract runs in: the named keys and the access rights it has,
    the entity it acts for, and the state it reads and changes through them.
    Sources: [engine-core/src/runtime_context/mod.rs],
    [engine-core/src/execution/address_generator.rs]. *)

From stdpp Require Import gmap.
From S2P Require Import Prelude BTreeMap Bytesrepr Uint Types CLValues Account StoredValue Transform.
From S2P Require Import Trie TrackingCopy ApiError ProtocolData ExecutionError.

(** * Generating addresses *)

(** The generator of the [rand_chacha] crate. *)
Class Rng (G : Type) := {
  rng_from_seed : bytes -> G;
  fill_bytes : nat -> G -> bytes * G;
}.

Definition ADDRESS_LENGTH : nat := 32.

Section address_generator.
Context {G : Type} `{Rng G} {hasher : Hasher}.

(** [AddressGeneratorBuilder::build]: the bytes collected by [seed_with], hashed. *)
Definition generator_build (data : bytes) : G := rng_from_seed (blake2b_hash_new data).

Definition address_generator_new (hash : bytes) (phase : Phase) : G :=
  generator_build (hash ++ [byte_of_Z (phase_to_u8 phase)]).

Definition create_address (g : G) : bytes * G := fill_bytes ADDRESS_LENGTH g.
End address_generator.

(** * The context *)

(** [SYSTEM_ACCOUNT_ADDR]. *)
Definition SYSTEM_ACCOUNT_ADDR : bytes := replicate 32 x00.

Definition attenuate_uref_for_account (account : Account) (uref : URef) : URef :=
  if bool_decide (account_public_key account = SYSTEM_ACCOUNT_ADDR) then into_read_add_write uref
  else into_read uref.

(** [HashMap<Address, HashSet<AccessRights>>]. *)
Abbreviation RightsMap := (gmap bytes (gset Z)).

Record RuntimeContext (L G : Type) := mk_context {
  rc_state : TrackingCopy L;
  rc_named_keys : BTreeMap bytes Key;
  rc_access_rights : RightsMap;
  rc_account : Account;
  rc_args : list CLValue;
  rc_authorization_keys : list PublicKey;
  rc_base_key : Key;
  rc_blocktime : BlockTime;
  rc_deploy_hash : bytes;
  rc_gas_limit : Gas;
  rc_gas_counter : Gas;
  rc_fn_store_id : Z;
  rc_address_generator : G;
  rc_protocol_version : ProtocolVersion;
  rc_phase : Phase;
  rc_protocol_data : ProtocolData;
}.
Arguments mk_context {L G}.
Arguments rc_state {L G}.
Arguments rc_named_keys {L G}.
Arguments rc_access_rights {L G}.
Arguments rc_account {L G}.
Arguments rc_args {L G}.
Arguments rc_authorization_keys {L G}.
Arguments rc_base_key {L G}.
Arguments rc_blocktime {L G}.
Arguments rc_deploy_hash {L G}.
Arguments rc_gas_limit {L G}.
Arguments rc_gas_counter {L G}.
Arguments rc_fn_store_id {L G}.
Arguments rc_address_generator {L G}.
Arguments rc_protocol_version {L G}.
Arguments rc_phase {L G}.
Arguments rc_protocol_data {L G}.

(** The text of [{:?}] of a type mismatch. *)
Class MismatchText := type_mismatch_debug : TypeMismatch -> bytes.

Section setters.
Context {L G : Type}.
Implicit Types c : RuntimeContext L G.

(** The fields an operation assigns to. *)
Definition set_fields c (state : TrackingCopy L) (named_keys : BTreeMap bytes Key) (rights : RightsMap)
    (gas_counter : Gas) (fn_store_id : Z) (g : G) : RuntimeContext L G :=
  mk_context state named_keys rights (rc_account c) (rc_args c) (rc_authorization_keys c)
    (rc_base_key c) (rc_blocktime c) (rc_deploy_hash c) (rc_gas_limit c) gas_counter fn_store_id g
    (rc_protocol_version c) (rc_phase c) (rc_protocol_data c).

Definition set_state (s : TrackingCopy L) c : RuntimeContext L G :=
  set_fields c s (rc_named_keys c) (rc_access_rights c) (rc_gas_counter c) (rc_fn_store_id c)
    (rc_address_generator c).

Definition set_named_keys (m : BTreeMap bytes Key) c : RuntimeContext L G :=
  set_fields c (rc_state c) m (rc_access_rights c) (rc_gas_counter c) (rc_fn_store_id c)
    (rc_address_generator c).

Definition set_access_rights (r : RightsMap) c : RuntimeContext L G :=
  set_fields c (rc_state c) (rc_named_keys c) r (rc_gas_counter c) (rc_fn_store_id c)
    (rc_address_generator c).

Definition set_gas_counter (g : Gas) c : RuntimeContext L G :=
  set_fields c (rc_state c) (rc_named_keys c) (rc_access_rights c) g (rc_fn_store_id c)
    (rc_address_generator c).

Definition set_fn_store_id (n : Z) c : RuntimeContext L G :=
  set_fields c (rc_state c) (rc_named_keys c) (rc_access_rights c) (rc_gas_counter c) n
    (rc_address_generator c).

Definition set_address_generator (g : G) c : RuntimeContext L G :=
  set_fields c (rc_state c) (rc_named_keys c) (rc_access_rights c) (rc_gas_counter c)
    (rc_fn_store_id c) g.
End setters.

Section runtime_context.
Context {L G : Type} `{LinkedHashMap L, Rng G} {meter : Meter} {dbg : DebugText} {qtext : QueryText}.
Context {mtext : MismatchText} {hasher : Hasher} {F : ForeignErrors} {E : Type}.
Context (reader : Key -> outcome E (option StoredValue)) (into_error : E -> ExecError).
Context (overflow_checks : bool).

#[local] Abbreviation RC := (RuntimeContext L G).
#[local] Abbreviation M A := (eff RC ExecError A).

(** A question about the context, with [?] on its answer. *)
Definition ask {A} (f : RC -> outcome ExecError A) : M A := fun c => (f c, c).

(** An assignment to fields of the context. *)
Definition assign (f : RC -> RC) : M unit := fun c => (Ok tt, f c).

(** A fallible operation on the tracking copy, its error converted. *)
Definition on_state {A} (m : eff (TrackingCopy L) E A) : M A :=
  fun c => let '(o, s) := m (rc_state c) in (omap_err into_error o, set_state s c).

(** [self.state.borrow_mut().write(key, value)]. *)
Definition write_state (key : Key) (value : StoredValue) : M unit :=
  assign (fun c => set_state (tc_write key value (rc_state c)) c).

(** ** Validation *)

Definition validate_uref (uref : URef) (c : RC) : outcome ExecError unit :=
  let purse := account_purse_id (rc_account c) in
  let purse_allows :=
    bool_decide (uref_addr purse = uref_addr uref)
    && match uref_access_rights purse, uref_access_rights uref with
       | Some rights, Some uref_rights => rights_enough rights uref_rights
       | _, _ => false
       end in
  if purse_allows then Ok tt
  else
    match rc_access_rights c !! uref_addr uref with
    | Some known_rights =>
        match uref_access_rights uref with
        | Some new_rights =>
            if existsb (fun right => rights_enough right new_rights) (elements known_rights) then Ok tt
            else Err (EE_ForgedReference uref)
        | None => Ok tt
        end
    | None => Err (EE_ForgedReference uref)
    end.

Definition validate_key (key : Key) (c : RC) : outcome ExecError unit :=
  match key with
  | Key_URef uref => validate_uref uref c
  | _ => Ok tt
  end.

Definition validate_value (value : StoredValue) (c : RC) : outcome ExecError unit :=
  match value with
  | SV_CLValue cl_value =>
      match cl_type cl_value with
      | CL_Key =>
          let? key := omap_err EE_CLValue (into_t clt_key cl_value) in
          validate_key key c
      | CL_URef =>
          let? uref := omap_err EE_CLValue (into_t clt_uref cl_value) in
          validate_uref uref c
      | CL_Tuple2 _ _ as tuple =>
          if bool_decide (tuple = named_key_type) then
            let? '(_, key) := omap_err EE_CLValue (into_t clt_named_key cl_value) in
            validate_key key c
          else Ok tt
      | _ => Ok tt
      end
  | SV_Account account =>
      try_for_each (fun key => validate_key key c) (bt_values (account_named_keys account))
  | SV_Contract contract =>
      try_for_each (fun key => validate_key key c) (bt_values (contract_named_keys contract))
  end.

Definition is_readable (key : Key) (c : RC) : bool :=
  match key with
  | Key_Account _ => bool_decide (rc_base_key c = key)
  | Key_Hash _ => true
  | Key_URef uref => uref_is_readable uref
  | Key_Local _ => false
  end.

Definition is_addable (key : Key) (c : RC) : bool :=
  match key with
  | Key_Account _ | Key_Hash _ => bool_decide (rc_base_key c = key)
  | Key_URef uref => uref_is_addable uref
  | Key_Local _ => false
  end.

Definition is_writeable (key : Key) (c : RC) : bool :=
  match key with
  | Key_Account _ | Key_Hash _ => false
  | Key_URef uref => uref_is_writeable uref
  | Key_Local _ => false
  end.

Definition validate_readable (key : Key) (c : RC) : outcome ExecError unit :=
  if is_readable key c then Ok tt else Err (EE_InvalidAccess READ).

Definition validate_addable (key : Key) (c : RC) : outcome ExecError unit :=
  if is_addable key c then Ok tt else Err (EE_InvalidAccess ADD).

Definition validate_writeable (key : Key) (c : RC) : outcome ExecError unit :=
  if is_writeable key c then Ok tt else Err (EE_InvalidAccess WRITE).

Definition is_valid_context (c : RC) : bool :=
  bool_decide (rc_base_key c = Key_Account (account_public_key (rc_account c))).

Definition account_to_validated_value (account : Account) (c : RC) : outcome ExecError StoredValue :=
  let value := SV_Account account in
  let? _ := validate_value value c in
  Ok value.

Definition deserialize_keys {alloc : Allocator} (bs : bytes) (c : RC) : outcome ExecError (list Key) :=
  let? keys := omap_err EE_BytesRepr
    (deserialize (mk_codec (vec_to_bytes key_codec) (vec_from_bytes key_codec)) bs) in
  let? _ := try_for_each (fun k => validate_key k c) keys in
  Ok keys.

Definition deserialize_urefs {alloc : Allocator} (bs : bytes) (c : RC) : outcome ExecError (list URef) :=
  let? keys := omap_err EE_BytesRepr
    (deserialize (mk_codec (vec_to_bytes uref_codec) (vec_from_bytes uref_codec)) bs) in
  let? _ := try_for_each (fun k => validate_uref k c) keys in
  Ok keys.

(** ** Simple accessors *)

Definition named_keys_get (name : bytes) (c : RC) : option Key := bt_get name (rc_named_keys c).

Definition named_keys_contains_key (name : bytes) (c : RC) : bool :=
  bt_contains_key name (rc_named_keys c).

Definition get_caller (c : RC) : PublicKey := account_public_key (rc_account c).

Definition seed (c : RC) : bytes :=
  match rc_base_key c with
  | Key_Account bytes => bytes
  | Key_Hash bytes => bytes
  | Key_URef uref => uref_addr uref
  | Key_Local hash => hash
  end.

Definition attenuate_uref (uref : URef) (c : RC) : URef := attenuate_uref_for_account (rc_account c) uref.

Definition get_main_purse (c : RC) : outcome ExecError PurseId :=
  if negb (is_valid_context c) then Err EE_InvalidContext
  else Ok (account_purse_id (rc_account c)).

(** [HashMap::extend]: an entry replaces the one the map has. *)
Definition access_rights_extend (rights : RightsMap) (c : RC) : RC :=
  set_access_rights (rights ∪ rc_access_rights c) c.

(** ** Names and references *)

Definition insert_uref (uref : URef) (c : RC) : RC :=
  match uref_access_rights uref with
  | Some rights =>
      let entry := match rc_access_rights c !! uref_addr uref with Some s => s | None => ∅ end in
      set_access_rights (<[ uref_addr uref := {[ rights ]} ∪ entry ]> (rc_access_rights c)) c
  | None => c
  end.

Definition insert_key (name : bytes) (key : Key) (c : RC) : RC :=
  let c' := match key with Key_URef uref => insert_uref uref c | _ => c end in
  set_named_keys (bt_insert name key (rc_named_keys c')) c'.

(** ** Reading *)

Definition read_gs_direct (key : Key) : M (option StoredValue) := on_state (tc_read reader key).

Definition read_gs (key : Key) : M (option StoredValue) :=
  let! _ := ask (validate_readable key) in
  let! _ := ask (validate_key key) in
  on_state (tc_read reader key).

Definition read_gs_typed {T} (try_into : StoredValue -> outcome TypeMismatch T) (key : Key) : M T :=
  let! found := read_gs key in
  match found with
  | None => elift (Err (EE_KeyNotFound key))
  | Some value =>
      elift (omap_err (fun error => EE_FunctionNotFound
        (str "Type mismatch for value under " ++ key_debug key ++ str ": " ++ type_mismatch_debug error))
        (try_into value))
  end.

Definition read_ls_with_seed (seed key_bytes : bytes) : M (option CLValue) :=
  let key := key_local blake2b_hash_new seed key_bytes in
  let! maybe_stored_value := on_state (tc_read reader key) in
  match maybe_stored_value with
  | Some stored_value =>
      elift (let? v := omap_err EE_TypeMismatch (try_into_cl_value stored_value) in Ok (Some v))
  | None => eret None
  end.

Definition read_ls (key : bytes) : M (option CLValue) :=
  fun c => read_ls_with_seed (seed c) key c.

Definition read_account (key : Key) : M (option StoredValue) :=
  match key with
  | Key_Account _ =>
      let! _ := ask (validate_key key) in
      on_state (tc_read reader key)
  | _ => elift Panic
  end.

(** ** Writing *)

Definition write_gs (key : Key) (value : StoredValue) : M unit :=
  let! _ := ask (validate_writeable key) in
  let! _ := ask (validate_key key) in
  let! _ := ask (validate_value value) in
  write_state key value.

Definition write_ls (key_bytes : bytes) (cl_value : CLValue) : M unit :=
  fun c => write_state (key_local blake2b_hash_new (seed c) key_bytes) (SV_CLValue cl_value) c.

Definition write_account (key : Key) (account : Account) : M unit :=
  match key with
  | Key_Account _ =>
      let! _ := ask (validate_key key) in
      let! account_value := ask (account_to_validated_value account) in
      write_state key account_value
  | _ => elift Panic
  end.

Definition add_unsafe (key : Key) (value : StoredValue) : M unit :=
  let! result := on_state (tc_add reader key value) in
  match result with
  | Add_Success => eret tt
  | Add_KeyNotFound key => elift (Err (EE_KeyNotFound key))
  | Add_TypeMismatch type_mismatch => elift (Err (EE_TypeMismatch type_mismatch))
  | Add_Serialization error => elift (Err (EE_BytesRepr error))
  end.

Definition add_gs (key : Key) (value : StoredValue) : M unit :=
  let! _ := ask (validate_addable key) in
  let! _ := ask (validate_key key) in
  let! _ := ask (validate_value value) in
  add_unsafe key value.

Definition add_ls (key_bytes : bytes) (cl_value : CLValue) : M unit :=
  fun c => add_unsafe (key_local blake2b_hash_new (seed c) key_bytes) (SV_CLValue cl_value) c.

(** ** New references and functions *)

Definition new_uref (value : StoredValue) : M Key :=
  fun c =>
    let '(addr, g) := create_address (rc_address_generator c) in
    let uref := uref_new addr READ_ADD_WRITE in
    let key := Key_URef uref in
    (let! _ := assign (insert_uref uref) in
     let! _ := write_gs key value in
     eret key) (set_address_generator g c).

Definition inc_fn_store_id : M unit :=
  fun c =>
    match u32_add overflow_checks (rc_fn_store_id c) 1 with
    | Ok n => (Ok tt, set_fn_store_id n c)
    | Err e => (Err e, c)
    | Panic => (Panic, c)
    end.

Definition new_function_address : M bytes :=
  let! id_bytes := ask (fun c => omap_err EE_BytesRepr (u32_to_bytes (rc_fn_store_id c))) in
  let! pre_hash_bytes := ask (fun c => Ok (rc_deploy_hash c ++ id_bytes)) in
  let! _ := inc_fn_store_id in
  eret (blake2b_hash_new pre_hash_bytes).

Definition store_function (contract : StoredValue) : M bytes :=
  let! _ := ask (validate_value contract) in
  let! key := new_uref contract in
  match key with
  | Key_URef contract_ref => eret (uref_addr contract_ref)
  | _ => elift Panic
  end.

Definition store_function_at_hash (contract : StoredValue) : M bytes :=
  let! new_hash := new_function_address in
  let! _ := ask (validate_value contract) in
  let! _ := write_state (Key_Hash new_hash) contract in
  eret new_hash.

Definition upgrade_contract_at_uref (key : Key) (code : bytes) (named_keys : BTreeMap bytes Key) : M unit :=
  let! protocol_version := ask (fun c => Ok (rc_protocol_version c)) in
  let contract := SV_Contract (mk_contract code named_keys protocol_version) in
  let! _ := ask (validate_writeable key) in
  let! _ := ask (validate_key key) in
  write_state key contract.

(** ** Named keys *)

Definition put_key (name : bytes) (key : Key) : M unit :=
  let! cl_value := elift (omap_err EE_CLValue (from_t clt_named_key (name, key))) in
  let named_key_value := SV_CLValue cl_value in
  let! _ := ask (validate_value named_key_value) in
  let! base_key := ask (fun c => Ok (rc_base_key c)) in
  let! _ := add_unsafe base_key named_key_value in
  assign (insert_key name key).

Definition remove_named_key (name : bytes) (c : RC) : RC :=
  set_named_keys (bt_remove name (rc_named_keys c)) c.

Definition remove_key_from_contract (key : Key) (contract : Contract) (name : bytes) : M unit :=
  let contract' := contract_with_named_keys contract (bt_remove name (contract_named_keys contract)) in
  write_state key (SV_Contract contract').

Definition remove_key (name : bytes) : M unit :=
  let! base_key := ask (fun c => Ok (rc_base_key c)) in
  match base_key with
  | Key_Account _ =>
      let! account := read_gs_typed try_into_account base_key in
      let account' := with_named_keys account (bt_remove name (account_named_keys account)) in
      let! _ := assign (remove_named_key name) in
      let! account_value := ask (account_to_validated_value account') in
      write_state base_key account_value
  | Key_URef _ =>
      let! found := on_state (tc_read reader base_key) in
      let! value := elift (ok_or found (EE_KeyNotFound base_key)) in
      let! contract := elift (omap_err EE_TypeMismatch (try_into_contract value)) in
      let! _ := assign (remove_named_key name) in
      remove_key_from_contract base_key contract name
  | Key_Hash _ | Key_Local _ =>
      let! contract := read_gs_typed try_into_contract base_key in
      let! _ := assign (remove_named_key name) in
      remove_key_from_contract base_key contract name
  end.

(** ** Key management *)

(** The common course of the operations on the keys of the account: only in the
    account's own context, with enough weight, and on its stored value. *)
Definition manage_account (denied : ExecError) (change : Account -> outcome ExecError Account) : M unit :=
  let! valid := ask (fun c => Ok (is_valid_context c)) in
  if negb valid then elift (Err denied)
  else
    let! allowed := ask (fun c => Ok (can_manage_keys_with (rc_account c) (rc_authorization_keys c))) in
    if negb allowed then elift (Err denied)
    else
      let! key := ask (fun c => Ok (Key_Account (account_public_key (rc_account c)))) in
      let! account := read_gs_typed try_into_account key in
      let! account' := elift (change account) in
      let! account_value := ask (account_to_validated_value account') in
      write_state key account_value.

Definition context_add_associated_key (public_key : PublicKey) (weight : Weight) : M unit :=
  manage_account (EE_AddKeyFailure AddKey_PermissionDenied)
    (fun account => omap_err EE_AddKeyFailure (add_associated_key account public_key weight)).

Definition context_remove_associated_key (public_key : PublicKey) : M unit :=
  manage_account (EE_RemoveKeyFailure RemoveKey_PermissionDenied)
    (fun account => omap_err EE_RemoveKeyFailure (remove_associated_key account public_key)).

Definition context_update_associated_key (public_key : PublicKey) (weight : Weight) : M unit :=
  manage_account (EE_UpdateKeyFailure UpdateKey_PermissionDenied)
    (fun account => omap_err EE_UpdateKeyFailure (update_associated_key account public_key weight)).

Definition context_set_action_threshold (action_type : ActionType) (threshold : Weight) : M unit :=
  manage_account (EE_SetThresholdFailure SetThreshold_PermissionDeniedError)
    (fun account => omap_err EE_SetThresholdFailure (set_action_threshold account action_type threshold)).
End runtime_context.
