(* ===== verification/ContextSafety.v ===== *)
(** What a contract can do through its context: it cannot come by rights it was
    not given, and it changes nothing but its own entity, its own local state and
    the cells it has rights for.  Sources:
    [engine-core/src/runtime_context/mod.rs]. *)

From stdpp Require Import gmap.
From S2P Require Import Prelude BTreeMap Bytesrepr Uint Types CLValues Account StoredValue Transform.
From S2P Require Import Trie TrieStore TrieSpec TrieWrite GlobalState TrackingCopy Execution ApiError ProtocolData.
From S2P Require Import ExecutionError RuntimeContext.

(** * Frames of the tracking copy

    What its operations leave alone, whatever the state of the cache. *)

Section frames.
Context {L : Type} `{LinkedHashMap L} {meter : Meter} {dbg : DebugText}.
Context {E : Type} (reader : Key -> outcome E (option StoredValue)).
Implicit Types s : TrackingCopy L.

Lemma cache_get_muts k (c : TrackingCopyCache L) r c' :
  cache_get k c = (r, c') -> muts_cached c' = muts_cached c.
Proof.
  unfold cache_get. destruct (muts_cached c !! k); [by intros [= _ <-]|].
  destruct (lhm_get_refresh k (reads_cached c)). by intros [= _ <-].
Qed.

Lemma insert_read_muts k v (c c' : TrackingCopyCache L) :
  insert_read (E := E) k v c = Ok c' -> muts_cached c' = muts_cached c.
Proof. unfold insert_read. intros H1. obind_inv. done. Qed.

Lemma tc_get_frame k s o s' : tc_get reader k s = (o, s') -> same_muts s s'.
Proof.
  unfold tc_get. destruct (cache_get k (tc_cache s)) as [found c] eqn:Ec. apply cache_get_muts in Ec.
  destruct found as [v|]; [by intros [= _ <-]|].
  destruct (reader k) as [[v|]|e|]; try (by intros [= _ <-]).
  destruct (insert_read k v c) as [c'|e|] eqn:Ei; try (by intros [= _ <-]).
  intros [= _ <-]. apply insert_read_muts in Ei. split; [|done]. cbn. congruence.
Qed.

Lemma transform_add_identity tr : transform_add tr Identity = tr.
Proof. by destruct tr. Qed.

(** Recording a read changes at most a missing transform. *)
Definition reads_only (m m' : gmap Key Transform) : Prop :=
  forall k, m' !! k = m !! k \/ (m !! k = None /\ m' !! k = Some Identity).

Lemma tc_read_frame k s o s' :
  tc_read reader k s = (o, s') ->
  muts_cached (tc_cache s') = muts_cached (tc_cache s) /\ reads_only (tc_fns s) (tc_fns s').
Proof.
  unfold tc_read, ebind. destruct (tc_get reader (normalize k) s) as [og s1] eqn:Eg.
  apply tc_get_frame in Eg as (Em & _ & Ef).
  destruct og as [[v|]|e|]; intros [= _ <-]; cbn; (split; [done|]); rewrite ?Ef; intros k'; try (by left).
  unfold insert_add. destruct (decide (k' = normalize k)) as [->|Hne]; [|left; by rewrite lookup_insert_ne].
  rewrite lookup_insert_eq, transform_add_identity. destruct (tc_fns s !! normalize k); [by left | by right].
Qed.

(** Where a write or an addition may have changed the state. *)
Definition changed_at (k : Key) s s' : Prop :=
  (forall k', k' <> k -> muts_cached (tc_cache s') !! k' = muts_cached (tc_cache s) !! k')
  /\ (forall k', k' <> k -> tc_fns s' !! k' = tc_fns s !! k').

Lemma tc_write_frame k v s : changed_at (normalize k) s (tc_write k v s).
Proof.
  split; intros k' Hne; cbn; unfold insert_add; by rewrite lookup_insert_ne.
Qed.

Lemma tc_add_frame k value s o s' : tc_add reader k value s = (o, s') -> changed_at (normalize k) s s'.
Proof.
  unfold tc_add, ebind. destruct (tc_get reader (normalize k) s) as [og s1] eqn:Eg.
  apply tc_get_frame in Eg as (Em & _ & Ef).
  assert (changed_at (normalize k) s s1) as H1 by (by split; intros k' _; rewrite ?Em, ?Ef).
  destruct og as [[v|]|e|]; try (by intros [= _ <-]).
  destruct (add_transform value) as [[tr|r]|e|]; try (by intros [= _ <-]).
  destruct (apply_transform tr v) as [nv|[m|err]|]; try (by intros [= _ <-]).
  intros [= _ <-]. destruct H1 as [A B].
  split; intros k' Hne; cbn; unfold insert_add; rewrite lookup_insert_ne by done; auto.
Qed.
End frames.

(** * Authority *)

Section safety.
Context {L G : Type} `{LinkedHashMap L, Rng G} {meter : Meter} {dbg : DebugText} {qtext : QueryText}.
Context {mtext : MismatchText} {hasher : Hasher} {F : ForeignErrors} {E : Type}.
Context (reader : Key -> outcome E (option StoredValue)) (into_error : E -> ExecError).
Context (overflow_checks : bool).

#[local] Abbreviation RC := (RuntimeContext L G).
#[local] Abbreviation M A := (eff RC ExecError A).
Implicit Types c : RC.

(** The rights a context has over an address: those of the account's purse, and
    those it knows of. *)
Definition may c (addr : bytes) (r : AccessRights) : Prop :=
  (exists held, uref_addr (account_purse_id (rc_account c)) = addr
     /\ uref_access_rights (account_purse_id (rc_account c)) = Some held /\ rights_enough held r = true)
  \/ (exists known held, rc_access_rights c !! addr = Some known /\ held ∈ known
     /\ rights_enough held r = true).

(** The generator after [n] addresses. *)
Fixpoint advance (n : nat) (g : G) : G :=
  match n with
  | O => g
  | S n' => advance n' (create_address g).2
  end.

(** An address the generator of the context is going to return. *)
Definition upcoming c (addr : bytes) : Prop :=
  exists n, addr = (create_address (advance n (rc_address_generator c))).1.

(** The keys of the state a context may change. *)
Inductive touchable c : Key -> Prop :=
| touch_base : touchable c (normalize (rc_base_key c))
| touch_local key_bytes : touchable c (key_local blake2b_hash_new (seed c) key_bytes)
| touch_function id : touchable c (Key_Hash (blake2b_hash_new (rc_deploy_hash c ++ to_le_bytes 4 id)))
| touch_cell addr r :
    rights_is_writeable r = true \/ rights_is_addable r = true -> may c addr r ->
    touchable c (Key_URef (mk_uref addr None))
| touch_new addr : upcoming c addr -> touchable c (Key_URef (mk_uref addr None)).

(** The parts of a context that no operation assigns to. *)
Definition fixed c :=
  (rc_account c, rc_args c, rc_authorization_keys c, rc_base_key c, rc_blocktime c, rc_deploy_hash c,
   rc_gas_limit c, rc_protocol_version c, rc_phase c, rc_protocol_data c).

(** One context comes from another without new rights and without changes
    elsewhere. *)
Record confined c c' : Prop := {
  cf_fixed : fixed c' = fixed c;
  cf_generator : exists n, rc_address_generator c' = advance n (rc_address_generator c);
  cf_rights : forall addr r, may c' addr r -> may c addr r \/ upcoming c addr;
  cf_kept : forall addr r, may c addr r -> may c' addr r;
  cf_muts : forall k, muts_cached (tc_cache (rc_state c')) !! k = muts_cached (tc_cache (rc_state c)) !! k
    \/ touchable c k;
  cf_fns : forall k, tc_fns (rc_state c') !! k = tc_fns (rc_state c) !! k
    \/ (tc_fns (rc_state c) !! k = None /\ tc_fns (rc_state c') !! k = Some Identity)
    \/ touchable c k;
}.

Lemma advance_add n m g : advance (n + m) g = advance m (advance n g).
Proof. revert g. induction n as [|n IH]; intros g; [done|apply IH]. Qed.

Lemma upcoming_later c c' addr :
  (exists n, rc_address_generator c' = advance n (rc_address_generator c)) ->
  upcoming c' addr -> upcoming c addr.
Proof. intros (n & Eg) (m & ->). exists (n + m)%nat. by rewrite Eg, advance_add. Qed.

Lemma touchable_later c c' k : confined c c' -> touchable c' k -> touchable c k.
Proof.
  intros [Hf Hg Hr _ _ _] Ht. unfold fixed in Hf. injection Hf as Ea Eg Eu Eb _ Ed _ _ _ _.
  destruct Ht as [|kb|ib|addr r Hw Hm|addr Hu].
  - rewrite Eb. constructor.
  - replace (seed c') with (seed c) by (unfold seed; by rewrite Eb). constructor.
  - rewrite Ed. constructor.
  - destruct (Hr addr r Hm) as [Hm'|Hu]; [by apply (touch_cell c addr r) | by constructor].
  - constructor. by apply (upcoming_later c c').
Qed.

Lemma confined_refl c : confined c c.
Proof. split; auto. by exists 0%nat. Qed.

Lemma confined_trans c1 c2 c3 : confined c1 c2 -> confined c2 c3 -> confined c1 c3.
Proof.
  intros H1 H2. pose proof (fun k => touchable_later c1 c2 k H1) as Ht.
  destruct H1 as [F1 G1 R1 K1 M1 T1], H2 as [F2 G2 R2 K2 M2 T2]. split.
  - congruence.
  - destruct G1 as [n E1], G2 as [m E2]. exists (n + m)%nat. by rewrite advance_add, <- E1.
  - intros addr r [Hm|Hu]%R2; [by apply R1 | right; by apply (upcoming_later c1 c2)].
  - auto.
  - intros k. destruct (M2 k) as [->|]; [apply M1 | right; auto].
  - intros k. destruct (T2 k) as [->|[[E1 E2]|]]; [apply T1 | | right; right; auto].
    rewrite E2. destruct (T1 k) as [E3|[[E3 E4]|]]; [right; left; split; congruence | congruence | auto].
Qed.

(** ** Runs from a context *)

Definition safe_from {A} (m : M A) c : Prop := forall o c', m c = (o, c') -> confined c c'.

Lemma safe_bind {A B} (m : M A) (f : A -> M B) c :
  safe_from m c -> (forall a c', m c = (Ok a, c') -> safe_from (f a) c') -> safe_from (ebind m f) c.
Proof.
  intros Hm Hf o c'. unfold ebind. destruct (m c) as [[a|e|] c1] eqn:Em; intros Hr.
  - apply (confined_trans c c1); [by apply (Hm (Ok a)) | by apply (Hf a c1 eq_refl o)].
  - injection Hr as <- <-. by apply (Hm (Err e)).
  - injection Hr as <- <-. by apply (Hm Panic).
Qed.

Lemma safe_pure {A} (o : outcome ExecError A) c : safe_from (fun c => (o, c)) c.
Proof. intros o' c' [= _ <-]. apply confined_refl. Qed.

Lemma safe_ret {A} (a : A) c : safe_from (eret a) c.
Proof. apply safe_pure. Qed.

Lemma safe_lift {A} (o : outcome ExecError A) c : safe_from (elift o) c.
Proof. apply safe_pure. Qed.

Lemma safe_ask {A B} (f : RC -> outcome ExecError A) (k : A -> M B) c :
  (forall a, f c = Ok a -> safe_from (k a) c) -> safe_from (ebind (ask f) k) c.
Proof.
  intros Hk. apply safe_bind; [intros ? ? [= _ <-]; apply confined_refl|].
  intros a c' [= Hf <-]. by apply Hk.
Qed.

Lemma safe_lift_bind {A B} (o : outcome ExecError A) (k : A -> M B) c :
  (forall a, o = Ok a -> safe_from (k a) c) -> safe_from (ebind (elift o) k) c.
Proof. intros Hk. apply safe_bind; [apply safe_lift|]. intros a c' [= Ho <-]. by apply Hk. Qed.

Lemma safe_case_option {A B} (o : option A) (f : A -> M B) (g : M B) c :
  (forall a, safe_from (f a) c) -> safe_from g c ->
  safe_from (match o with Some a => f a | None => g end) c.
Proof. by destruct o. Qed.

(** ** Assignments *)

(** Only the state changes. *)
Lemma state_confined c s :
  (forall k, muts_cached (tc_cache s) !! k = muts_cached (tc_cache (rc_state c)) !! k \/ touchable c k) ->
  (forall k, tc_fns s !! k = tc_fns (rc_state c) !! k
    \/ (tc_fns (rc_state c) !! k = None /\ tc_fns s !! k = Some Identity) \/ touchable c k) ->
  confined c (set_state s c).
Proof. intros Hm Hf. split; auto. by exists 0%nat. Qed.

Lemma changed_confined c s k :
  touchable c k -> changed_at k (rc_state c) s -> confined c (set_state s c).
Proof.
  intros Ht [Hm Hf].
  apply state_confined; intros k'; (destruct (decide (k' = k)) as [->|Hne]; [auto|left; auto]).
Qed.

Lemma safe_read k c : safe_from (on_state into_error (tc_read reader k)) c.
Proof.
  intros o c'. unfold on_state. destruct (tc_read reader k (rc_state c)) as [r s] eqn:Er.
  intros [= _ <-]. apply tc_read_frame in Er as [Em Ef].
  apply state_confined; intros k'; [left; by rewrite Em|]. destruct (Ef k') as [->|]; auto.
Qed.

Lemma safe_write k v c : touchable c (normalize k) -> safe_from (write_state k v) c.
Proof.
  intros Ht o c' [= _ <-]. apply (changed_confined c _ (normalize k) Ht). apply tc_write_frame.
Qed.

Lemma safe_add k v c :
  touchable c (normalize k) -> safe_from (add_unsafe reader into_error k v) c.
Proof.
  intros Ht. apply safe_bind.
  - intros o c'. unfold on_state. destruct (tc_add reader k v (rc_state c)) as [r s] eqn:Ea.
    intros [= _ <-]. apply (changed_confined c _ (normalize k) Ht). by apply (tc_add_frame reader k v _ r).
  - intros [| | |] c' _; first [apply safe_ret | apply safe_lift].
Qed.

(** Names are no rights. *)
Lemma named_keys_confined c m : confined c (set_named_keys m c).
Proof. split; auto. by exists 0%nat. Qed.

Lemma fn_store_id_confined c n : confined c (set_fn_store_id n c).
Proof. split; auto. by exists 0%nat. Qed.

Lemma gas_counter_confined c n : confined c (set_gas_counter n c).
Proof. split; auto. by exists 0%nat. Qed.

Lemma generator_confined c : confined c (set_address_generator (create_address (rc_address_generator c)).2 c).
Proof. split; auto. by exists 1%nat. Qed.

(** ** What validation means *)

Lemma validate_uref_may c addr r :
  validate_uref (mk_uref addr (Some r)) c = Ok tt <-> may c addr r.
Proof.
  unfold validate_uref, may. cbn.
  destruct (bool_decide_reflect (uref_addr (account_purse_id (rc_account c)) = addr)) as [Ea|Ea]; cbn.
  1: destruct (uref_access_rights (account_purse_id (rc_account c))) as [held|] eqn:Eh; cbn.
  1: destruct (rights_enough held r) eqn:Er; [split; [intros _; left; eauto | done]|].
  all: destruct (rc_access_rights c !! addr) as [known|] eqn:Ek;
    [ destruct (existsb (fun right => rights_enough right r) (elements known)) eqn:Ex | ].
  all: split; [try discriminate; intros _; right | intros [(h & A & B & D)|(kn & h & A & B & D)]; try congruence].
  all: try (apply existsb_exists in Ex as (h & Hin & Hh); exists known, h; split; [done|];
    split; [by apply elem_of_elements, list_elem_of_In | done]).
  all: exfalso; assert (existsb (fun right => rights_enough right r) (elements known) = true) as Hx;
    [apply existsb_exists; exists h; injection A as ->; split; [by apply list_elem_of_In, elem_of_elements | done] | congruence].
Qed.

Lemma may_weaken c addr r r' : may c addr r -> rights_enough r r' = true -> may c addr r'.
Proof.
  intros [(h & A & B & D)|(kn & h & A & B & D)] He; [left | right];
    repeat eexists; eauto using rights_enough_trans.
Qed.

Lemma validate_key_may c u r :
  validate_key (Key_URef u) c = Ok tt -> uref_access_rights u = Some r -> may c (uref_addr u) r.
Proof. destruct u as [addr o]. cbn. intros Hv ->. by apply validate_uref_may. Qed.

Lemma writeable_touchable c k :
  validate_writeable k c = Ok tt -> validate_key k c = Ok tt -> touchable c (normalize k).
Proof.
  unfold validate_writeable. destruct k as [a|h|u|h]; cbn; try done.
  unfold uref_is_writeable. destruct (uref_access_rights u) as [r|] eqn:Er; [|done].
  destruct (rights_is_writeable r) eqn:Ew; [|done]. intros _ Hv.
  apply (touch_cell c _ r); [by left | by apply (validate_key_may c u r)].
Qed.

Lemma addable_touchable c k :
  validate_addable k c = Ok tt -> validate_key k c = Ok tt -> touchable c (normalize k).
Proof.
  unfold validate_addable. destruct k as [a|h|u|h]; cbn; try done.
  1, 2: case_bool_decide as Hb; [|done]; intros _ _.
  1: change (touchable c (normalize (Key_Account a))); rewrite <- Hb; constructor.
  1: change (touchable c (normalize (Key_Hash h))); rewrite <- Hb; constructor.
  unfold uref_is_addable. destruct (uref_access_rights u) as [r|] eqn:Er; [|done].
  destruct (rights_is_addable r) eqn:Ew; [|done]. intros _ Hv.
  apply (touch_cell c _ r); [by right | by apply (validate_key_may c u r)].
Qed.

(** ** References *)

Lemma insert_uref_may c addr r addr' r' :
  may (insert_uref (uref_new addr r) c) addr' r' <->
  may c addr' r' \/ (addr' = addr /\ rights_enough r r' = true).
Proof.
  unfold may, insert_uref. cbn. split.
  - intros [Hp|(kn & h & A & B & D)]; [by left; left|].
    destruct (decide (addr' = addr)) as [->|Hne].
    + rewrite lookup_insert_eq in A. injection A as <-. apply elem_of_union in B as [B|B].
      * apply elem_of_singleton in B as ->. by right.
      * left. right. destruct (rc_access_rights c !! addr) as [s|] eqn:Es; [by exists s, h|set_solver].
    + rewrite lookup_insert_ne in A by done. left. right. by exists kn, h.
  - intros [[Hp|(kn & h & A & B & D)]|[-> He]]; [by left | | ]; right.
    + destruct (decide (addr' = addr)) as [->|Hne].
      * exists ({[r]} ∪ kn), h. rewrite lookup_insert_eq, A. split; [done|]. split; [set_solver|done].
      * exists kn, h. by rewrite lookup_insert_ne.
    + exists ({[r]} ∪ match rc_access_rights c !! addr with Some s => s | None => ∅ end), r.
      rewrite lookup_insert_eq. split; [done|]. split; [set_solver|done].
Qed.

(** A right one has may be written down. *)
Lemma insert_uref_confined c addr r : may c addr r -> confined c (insert_uref (uref_new addr r) c).
Proof.
  intros Hm. split; try (by left); [done | by exists 0%nat | | ].
  - intros a' r' [?|[-> He]]%insert_uref_may; left; [done | by apply (may_weaken c addr r)].
  - intros a' r' Hm'. apply insert_uref_may. by left.
Qed.

Lemma new_reference_confined c addr g :
  create_address (rc_address_generator c) = (addr, g) ->
  confined c (insert_uref (uref_new addr READ_ADD_WRITE) (set_address_generator g c)).
Proof.
  intros Ec. assert (upcoming c addr) as Hu by (exists 0%nat; cbn; by rewrite Ec).
  split; try (by left); [done | exists 1%nat; cbn; by rewrite Ec | | ].
  - intros a' r' [?|[-> _]]%insert_uref_may; [by left | by right].
  - intros a' r' Hm. apply insert_uref_may. by left.
Qed.

(** The rights a key carries are rights the context has. *)
Definition entitled c (k : Key) : Prop :=
  match k with
  | Key_URef u => match uref_access_rights u with Some r => may c (uref_addr u) r | None => True end
  | _ => True
  end.

Lemma validate_entitled c k : validate_key k c = Ok tt -> entitled c k.
Proof. destruct k as [a|h|[addr [r|]]|h]; try done. apply validate_uref_may. Qed.

Lemma entitled_kept c c' k : confined c c' -> entitled c k -> entitled c' k.
Proof. intros Hc. destruct k as [a|h|[addr [r|]]|h]; try done. apply (cf_kept c c' Hc). Qed.

Lemma insert_key_confined c name k : entitled c k -> confined c (insert_key name k c).
Proof.
  intros Hv. unfold insert_key. destruct k as [a|h|[addr [r|]]|h]; try apply named_keys_confined.
  apply (confined_trans c (insert_uref (uref_new addr r) c)); [|apply named_keys_confined].
  by apply insert_uref_confined.
Qed.

(** ** The operations *)

#[local] Hint Resolve safe_read safe_ret safe_lift safe_pure : casper.

Lemma base_touchable c k : rc_base_key c = k -> touchable c (normalize k).
Proof. intros <-. constructor. Qed.

Lemma safe_assign f c : confined c (f c) -> safe_from (assign f) c.
Proof. by intros Hf o c' [= _ <-]. Qed.

Lemma safe_read_gs k c : safe_from (read_gs reader into_error k) c.
Proof. unfold read_gs. apply safe_ask. intros _ _. apply safe_ask. auto with casper. Qed.

Lemma safe_read_typed {T} (f : StoredValue -> outcome TypeMismatch T) k c :
  safe_from (read_gs_typed reader into_error f k) c.
Proof.
  unfold read_gs_typed. apply safe_bind; [apply safe_read_gs|].
  intros [v|] c' _; auto with casper.
Qed.

Lemma safe_read_seed sd k c : safe_from (read_ls_with_seed reader into_error sd k) c.
Proof. apply safe_bind; auto with casper. intros [v|] c' _; auto with casper. Qed.

Lemma safe_write_gs k v c : safe_from (write_gs k v) c.
Proof.
  unfold write_gs. apply safe_ask. intros [] Hw. apply safe_ask. intros [] Hk. apply safe_ask. intros _ _.
  by apply safe_write, writeable_touchable.
Qed.

Lemma safe_add_gs k v c : safe_from (add_gs reader into_error k v) c.
Proof.
  unfold add_gs. apply safe_ask. intros [] Hw. apply safe_ask. intros [] Hk. apply safe_ask. intros _ _.
  by apply safe_add, addable_touchable.
Qed.

Lemma safe_write_ls k v c : safe_from (write_ls k v) c.
Proof. intros o c'. apply safe_write. cbn. constructor. Qed.

Lemma safe_add_ls k v c : safe_from (add_ls reader into_error k v) c.
Proof. intros o c'. apply safe_add. cbn. constructor. Qed.

Lemma safe_new_uref v c : safe_from (new_uref v) c.
Proof.
  intros o c'. unfold new_uref. destruct (create_address (rc_address_generator c)) as [addr g] eqn:Ec.
  cbn. intros Hr. apply (confined_trans c (insert_uref (uref_new addr READ_ADD_WRITE) (set_address_generator g c))).
  { by apply new_reference_confined. }
  revert Hr. apply (safe_bind (write_gs _ v)); [apply safe_write_gs | auto with casper].
Qed.

Lemma safe_inc_fn_store_id c : safe_from (inc_fn_store_id overflow_checks) c.
Proof.
  intros o c'. unfold inc_fn_store_id. destruct (u32_add overflow_checks (rc_fn_store_id c) 1);
    intros [= _ <-]; [apply fn_store_id_confined | apply confined_refl ..].
Qed.

Lemma safe_store_function v c : safe_from (store_function v) c.
Proof.
  unfold store_function. apply safe_ask. intros _ _. apply safe_bind; [apply safe_new_uref|].
  intros [] c' _; auto with casper.
Qed.

Lemma safe_store_at_hash v c : safe_from (store_function_at_hash overflow_checks v) c.
Proof.
  unfold store_function_at_hash, new_function_address. apply safe_bind.
  - apply safe_ask. intros ib _. apply safe_ask. intros pre _. apply safe_bind; [apply safe_inc_fn_store_id|].
    auto with casper.
  - intros h c' Hh. apply safe_ask. intros _ _. apply safe_bind; [|auto with casper].
    apply safe_write. cbn.
    cbn in Hh. unfold inc_fn_store_id, ebind in Hh. cbn in Hh.
    destruct (u32_add overflow_checks (rc_fn_store_id c) 1); try discriminate Hh.
    injection Hh as <- <-. apply (touch_function (set_fn_store_id _ c) (rc_fn_store_id c)).
Qed.

Lemma safe_upgrade k code nk c : safe_from (upgrade_contract_at_uref k code nk) c.
Proof.
  unfold upgrade_contract_at_uref. apply safe_ask. intros v _. apply safe_ask. intros [] Hw.
  apply safe_ask. intros [] Hk. by apply safe_write, writeable_touchable.
Qed.

(** What a stored name grants was validated. *)
Lemma validate_named_key name k cl_value c :
  utf8_valid name = true -> key_valid k -> from_t clt_named_key (name, k) = Ok cl_value ->
  validate_value (SV_CLValue cl_value) c = Ok tt -> validate_key k c = Ok tt.
Proof.
  intros Hn Hk Hf. unfold from_t in Hf. apply obind_ok in Hf as (bs & Hb & <-%Ok_inj).
  unfold validate_value. cbn [cl_type].
  destruct (to_bytes (clt_codec clt_named_key) (name, k)) as [b|e|] eqn:Eb; try discriminate Hb.
  injection Hb as <-.
  assert (into_t clt_named_key (mk_cl_value (clt_type clt_named_key) b) = Ok (name, k)) as ->.
  { unfold into_t. rewrite bool_decide_eq_true_2 by done. cbn [cl_bytes].
    rewrite (deserialize_serialize (clt_codec clt_named_key)
      (pair_valid (fun s => utf8_valid s = true) key_valid) (name, k) b); done. }
  cbn. by case_bool_decide.
Qed.

Lemma safe_put_key name k c :
  utf8_valid name = true -> key_valid k -> safe_from (put_key reader into_error name k) c.
Proof.
  intros Hn Hk. unfold put_key. apply safe_lift_bind. intros v Hv. apply safe_ask. intros [] Hval.
  assert (entitled c k) as Hent.
  { apply validate_entitled. destruct (from_t clt_named_key (name, k)) as [w|e|] eqn:Ef; try discriminate Hv.
    injection Hv as <-. by apply (validate_named_key name k w c). }
  apply safe_ask. intros b [= <-]. apply safe_bind; [apply safe_add; constructor|].
  intros a c' Ha. apply safe_assign, insert_key_confined. revert Hent. apply entitled_kept.
  revert Ha. apply safe_add. constructor.
Qed.

Lemma fixed_base c c' : confined c c' -> rc_base_key c' = rc_base_key c.
Proof. intros [Hf _ _ _ _ _]. unfold fixed in Hf. congruence. Qed.

(** The last steps of removing a name. *)
Lemma safe_remove_tail c c' name (m : M unit) :
  confined c c' -> (forall c2, rc_base_key c2 = rc_base_key c -> safe_from m c2) ->
  safe_from (let! _ := assign (remove_named_key name) in m) c'.
Proof.
  intros Hc Hm. apply safe_bind; [apply safe_assign, named_keys_confined|].
  intros a c2 [= _ <-]. apply Hm. by rewrite <- (fixed_base c c' Hc).
Qed.

Lemma safe_write_base c k v : rc_base_key c = k -> safe_from (write_state k v) c.
Proof. intros Hb. by apply safe_write, base_touchable. Qed.

Lemma safe_remove_key name c : safe_from (remove_key reader into_error name) c.
Proof.
  unfold remove_key. apply safe_ask. intros b [= <-].
  destruct (rc_base_key c) as [a|h|u|h] eqn:Eb.
  3: apply safe_bind; [auto with casper|]; intros found c1 E1; apply safe_lift_bind; intros v _;
     apply safe_lift_bind; intros ct _.
  1, 2, 4: apply safe_bind; [apply safe_read_typed|]; intros x c1 E1.
  all: apply (safe_remove_tail c c1);
    [ first [ by apply (safe_read _ c _ _ E1) | by apply (safe_read_typed _ _ c _ _ E1) ]
    | intros c2 Hb; rewrite Eb in Hb ].
  1: apply safe_ask; intros v _.
  all: by apply safe_write_base.
Qed.

Lemma safe_manage denied change c : safe_from (manage_account reader into_error denied change) c.
Proof.
  unfold manage_account. apply safe_ask. intros valid [= <-].
  destruct (is_valid_context c) eqn:Ev; cbn; [|auto with casper]. unfold is_valid_context in Ev. breflect.
  apply safe_ask. intros allowed _. destruct allowed; cbn; [|auto with casper].
  apply safe_ask. intros k [= <-]. rewrite <- Ev. apply safe_bind; [apply safe_read_typed|]. intros account c' E1.
  apply safe_lift_bind. intros a' _. apply safe_ask. intros v _. apply safe_write_base, fixed_base.
  by apply (safe_read_typed _ _ c _ _ E1).
Qed.

(** ** Runs of a contract *)

(** The operations that host functions call on the context, those of transfers to
    accounts aside. *)
Inductive ContextCall :=
| Call_read_gs (key : Key)
| Call_read_ls (key_bytes : bytes)
| Call_read_account (key : Key)
| Call_write_gs (key : Key) (value : StoredValue)
| Call_write_ls (key_bytes : bytes) (value : CLValue)
| Call_add_gs (key : Key) (value : StoredValue)
| Call_add_ls (key_bytes : bytes) (value : CLValue)
| Call_new_uref (value : StoredValue)
| Call_put_key (name : bytes) (key : Key)
| Call_remove_key (name : bytes)
| Call_store_function (contract : StoredValue)
| Call_store_function_at_hash (contract : StoredValue)
| Call_upgrade_contract (key : Key) (code : bytes) (named_keys : BTreeMap bytes Key)
| Call_add_associated_key (public_key : PublicKey) (weight : Weight)
| Call_remove_associated_key (public_key : PublicKey)
| Call_update_associated_key (public_key : PublicKey) (weight : Weight)
| Call_set_action_threshold (action_type : ActionType) (threshold : Weight)
| Call_set_gas_counter (gas : Gas).

(** The context after a call, whether it succeeds or not. *)
Definition after (call : ContextCall) (c : RC) : RC :=
  match call with
  | Call_read_gs k => (read_gs reader into_error k c).2
  | Call_read_ls k => (read_ls reader into_error k c).2
  | Call_read_account k => (read_account reader into_error k c).2
  | Call_write_gs k v => (write_gs k v c).2
  | Call_write_ls k v => (write_ls k v c).2
  | Call_add_gs k v => (add_gs reader into_error k v c).2
  | Call_add_ls k v => (add_ls reader into_error k v c).2
  | Call_new_uref v => (new_uref v c).2
  | Call_put_key n k => (put_key reader into_error n k c).2
  | Call_remove_key n => (remove_key reader into_error n c).2
  | Call_store_function v => (store_function v c).2
  | Call_store_function_at_hash v => (store_function_at_hash overflow_checks v c).2
  | Call_upgrade_contract k code nk => (upgrade_contract_at_uref k code nk c).2
  | Call_add_associated_key pk w => (context_add_associated_key reader into_error pk w c).2
  | Call_remove_associated_key pk => (context_remove_associated_key reader into_error pk c).2
  | Call_update_associated_key pk w => (context_update_associated_key reader into_error pk w c).2
  | Call_set_action_threshold t w => (context_set_action_threshold reader into_error t w c).2
  | Call_set_gas_counter g => set_gas_counter g c
  end.

(** Names are UTF-8 text and the parts of a key have their lengths, as the types
    of the source enforce. *)
Definition call_wf (call : ContextCall) : Prop :=
  match call with
  | Call_put_key n k => utf8_valid n = true /\ key_valid k
  | _ => True
  end.

Definition context_step c c' : Prop := exists call, call_wf call /\ c' = after call c.

Lemma safe_after {A} (m : M A) c : safe_from m c -> confined c (m c).2.
Proof. destruct (m c) as [o c'] eqn:Em. intros Hm. by apply (Hm o). Qed.

Lemma context_step_confined c c' : context_step c c' -> confined c c'.
Proof.
  intros (call & Hwf & ->). destruct call; cbn [after]; try apply gas_counter_confined; apply safe_after.
  - apply safe_read_gs.
  - intros o c'. apply safe_read_seed.
  - destruct key; try apply safe_lift. apply safe_ask. intros _ _. apply safe_read.
  - apply safe_write_gs.
  - apply safe_write_ls.
  - apply safe_add_gs.
  - apply safe_add_ls.
  - apply safe_new_uref.
  - destruct Hwf. by apply safe_put_key.
  - apply safe_remove_key.
  - apply safe_store_function.
  - apply safe_store_at_hash.
  - apply safe_upgrade.
  - apply safe_manage.
  - apply safe_manage.
  - apply safe_manage.
  - apply safe_manage.
Qed.

Lemma context_run_confined c c' : rtc context_step c c' -> confined c c'.
Proof.
  induction 1 as [|c1 c2 c3 H1 _ IH]; [apply confined_refl|].
  apply (confined_trans c1 c2); [by apply context_step_confined | exact IH].
Qed.

(** C10: a contract cannot forge references by itself. Whatever it reads, writes,
    stores or names through its context, calls of other contracts aside, a reference that passes validation afterwards
    passed it before, or its address is one the context's own generator had
    yet to hand out; and what was valid stays valid. *)
Theorem context_authority c c' addr r :
  rtc context_step c c' ->
  (validate_uref (uref_new addr r) c' = Ok tt ->
     validate_uref (uref_new addr r) c = Ok tt \/ upcoming c addr)
  /\ (validate_uref (uref_new addr r) c = Ok tt -> validate_uref (uref_new addr r) c' = Ok tt).
Proof.
  intros Hr. apply context_run_confined in Hr as [_ _ Hnew Hkept _ _].
  unfold uref_new. rewrite !validate_uref_may. split; [apply Hnew | apply Hkept].
Qed.
End safety.
