(* ===== verification/ExtractURefs.v ===== *)
(** References that cross a call: the rights that a list of keys grants, and the
    references found in an argument or in a returned value.  Sources:
    [engine-core/src/execution/runtime/mod.rs]. *)

From stdpp Require Import gmap.
From S2P Require Import Prelude BTreeMap Bytesrepr Uint Types CLValues Account StoredValue Transform.
From S2P Require Import TrackingCopy ApiError ExecutionError RuntimeContext.

(** * Access rights of keys *)

Definition key_to_tuple (key : Key) : option (bytes * option AccessRights) :=
  match key with
  | Key_URef uref => Some (uref_addr uref, uref_access_rights uref)
  | _ => None
  end.

(** [Itertools::group_by]: runs of neighbours with one key, in order. *)
Fixpoint group_by {A B} `{EqDecision A} (l : list (A * B)) : list (A * list B) :=
  match l with
  | [] => []
  | (a, b) :: l' =>
      match group_by l' with
      | (a', bs) :: gs => if decide (a = a') then (a, b :: bs) :: gs else (a, [b]) :: (a', bs) :: gs
      | [] => [(a, [b])]
      end
  end.

(** [filter_map(|(_, x)| x).collect::<HashSet<_>>()]. *)
Definition collect_rights (group : list (option AccessRights)) : gset Z := list_to_set (omap id group).

(** Collecting pairs into a [HashMap]: the last pair of a key stays. *)
Definition collect_groups (groups : list (bytes * list (option AccessRights))) : RightsMap :=
  fold_left (fun m g => <[ g.1 := collect_rights g.2 ]> m) groups ∅.

Definition extract_access_rights_from_urefs (input : list URef) : RightsMap :=
  collect_groups (group_by (map (fun uref => (uref_addr uref, uref_access_rights uref)) input)).

Definition extract_access_rights_from_keys (input : list Key) : RightsMap :=
  collect_groups (group_by (omap key_to_tuple input)).

(** * References in a value *)

(** A type without parts, with the references a value of it holds. *)
Record Leaf := mk_leaf {
  leaf_carrier : Type;
  leaf_ord : Ord leaf_carrier;
  leaf_typed : CLTyped leaf_carrier;
  leaf_urefs : leaf_carrier -> list URef;
}.
#[global] Existing Instance leaf_ord.

Definition plain_leaf {A} `{Ord A} (T : CLTyped A) : Leaf := mk_leaf A _ T (fun _ => []).

(** [key.into_uref().into_iter().collect()]. *)
Definition key_urefs (key : Key) : list URef := option_list (key_into_uref key).

Definition key_leaf : Leaf := mk_leaf Key _ clt_key key_urefs.

Definition uref_leaf : Leaf := mk_leaf URef _ clt_uref (fun uref => [uref]).

(** The types named in the arms of the nested matches. *)
Definition leaf_of (t : CLType) : option Leaf :=
  match t with
  | CL_Bool => Some (plain_leaf clt_bool)
  | CL_I32 => Some (plain_leaf clt_i32)
  | CL_I64 => Some (plain_leaf clt_i64)
  | CL_U8 => Some (plain_leaf clt_u8)
  | CL_U32 => Some (plain_leaf clt_u32)
  | CL_U64 => Some (plain_leaf clt_u64)
  | CL_U128 => Some (plain_leaf clt_u128)
  | CL_U256 => Some (plain_leaf clt_u256)
  | CL_U512 => Some (plain_leaf clt_u512)
  | CL_Unit => Some (plain_leaf clt_unit)
  | CL_String => Some (plain_leaf clt_string)
  | CL_Key => Some key_leaf
  | CL_URef => Some uref_leaf
  | _ => None
  end.

Definition is_reference (t : CLType) : bool :=
  match t with CL_Key | CL_URef => true | _ => false end.

(** The leaf of [CL_Key] or [CL_URef], for the arms that take only these. *)
Definition reference_of (t : CLType) : option Leaf :=
  match t with
  | CL_Key => Some key_leaf
  | CL_URef => Some uref_leaf
  | _ => None
  end.

(** Two leaves of which one is a reference: the pairs the nested matches list. *)
Definition reference_pair (t1 t2 : CLType) : option (Leaf * Leaf) :=
  if is_reference t1 || is_reference t2 then
    match leaf_of t1, leaf_of t2 with
    | Some l1, Some l2 => Some (l1, l2)
    | _, _ => None
    end
  else None.

(** The sizes of arrays that have an arm. *)
Definition array_size_listed (n : Z) : bool :=
  ((1 <=? n) && (n <=? 32)) || (n =? 64) || (n =? 128) || (n =? 256) || (n =? 512).

(** [size_of] of an element, which the compiler chooses. *)
Class Layout := size_of_element : CLType -> Z.

Section extract.
Context {alloc : Allocator} {layout : Layout} {F : ForeignErrors}.

#[local] Abbreviation R := (outcome ExecError (list URef)).

Definition clt_vec {A} (T : CLTyped A) : CLTyped (list A) :=
  mk_cl_typed (CL_List (clt_type T)) (mk_codec (vec_to_bytes (clt_codec T)) (vec_from_bytes (clt_codec T))).

Definition clt_array {A} (n : Z) (T : CLTyped A) : CLTyped (list A) :=
  mk_cl_typed (CL_FixedList (clt_type T) n)
    (array_codec (size_of_element (clt_type T)) (Z.to_nat n) (clt_codec T)).

Definition clt_tuple1 {A} (T : CLTyped A) : CLTyped A :=
  mk_cl_typed (CL_Tuple1 (clt_type T)) (tuple1_codec (clt_codec T)).

(** [cl_value.to_owned().into_t()?], then the references of the result. *)
Definition decode_urefs {A} (T : CLTyped A) (urefs : A -> list URef) (cl_value : CLValue) : R :=
  let? v := omap_err EE_CLValue (into_t T cl_value) in
  Ok (urefs v).

Definition extract_option (ty : CLType) (cl_value : CLValue) : R :=
  match reference_of ty with
  | Some l =>
      decode_urefs (clt_option (leaf_typed l))
        (fun opt => match opt with Some x => leaf_urefs l x | None => [] end) cl_value
  | None => Ok []
  end.

Definition extract_list (ty : CLType) (cl_value : CLValue) : R :=
  match reference_of ty with
  | Some l => decode_urefs (clt_vec (leaf_typed l)) (flat_map (leaf_urefs l)) cl_value
  | None => Ok []
  end.

Definition extract_fixed_list (ty : CLType) (n : Z) (cl_value : CLValue) : R :=
  if array_size_listed n then
    match reference_of ty with
    | Some l => decode_urefs (clt_array n (leaf_typed l)) (flat_map (leaf_urefs l)) cl_value
    | None => Ok []
    end
  else Ok [].

Definition extract_result (ok err : CLType) (cl_value : CLValue) : R :=
  match reference_pair ok err with
  | Some (l1, l2) =>
      decode_urefs (clt_result (leaf_typed l1) (leaf_typed l2))
        (fun res => match res with inl x => leaf_urefs l1 x | inr y => leaf_urefs l2 y end) cl_value
  | None => Ok []
  end.

(** The references of the keys, then those of the values. *)
Definition extract_map (key value : CLType) (cl_value : CLValue) : R :=
  match reference_pair key value with
  | Some (l1, l2) =>
      decode_urefs (clt_map (leaf_typed l1) (leaf_typed l2))
        (fun m => flat_map (leaf_urefs l1) (bt_keys m) ++ flat_map (leaf_urefs l2) (bt_values m)) cl_value
  | None => Ok []
  end.

Definition extract_tuple1 (ty : CLType) (cl_value : CLValue) : R :=
  match reference_of ty with
  | Some l => decode_urefs (clt_tuple1 (leaf_typed l)) (leaf_urefs l) cl_value
  | None => Ok []
  end.

Definition extract_tuple2 (ty1 ty2 : CLType) (cl_value : CLValue) : R :=
  match reference_pair ty1 ty2 with
  | Some (l1, l2) =>
      decode_urefs (clt_tuple2 (leaf_typed l1) (leaf_typed l2))
        (fun val => leaf_urefs l1 val.1 ++ leaf_urefs l2 val.2) cl_value
  | None => Ok []
  end.

Definition extract_urefs (cl_value : CLValue) : R :=
  match cl_type cl_value with
  | CL_Option ty => extract_option ty cl_value
  | CL_List ty => extract_list ty cl_value
  | CL_FixedList ty n => extract_fixed_list ty n cl_value
  | CL_Result ok err => extract_result ok err cl_value
  | CL_Map key value => extract_map key value cl_value
  | CL_Tuple1 ty => extract_tuple1 ty cl_value
  | CL_Tuple2 ty1 ty2 => extract_tuple2 ty1 ty2 cl_value
  | CL_Tuple3 _ _ _ => Ok []
  | CL_Key => decode_urefs clt_key key_urefs cl_value
  | CL_URef => decode_urefs clt_uref (fun uref => [uref]) cl_value
  | _ => Ok []
  end.
End extract.

(** * What the rights map holds *)

Section rights.
Implicit Types (l pre run post : list (bytes * option AccessRights)).
Implicit Types (gs : list (bytes * list (option AccessRights))) (addr : bytes).

Lemma group_by_concat {A B} `{EqDecision A} (l : list (A * B)) :
  flat_map (fun g => map (pair g.1) g.2) (group_by l) = l.
Proof.
  induction l as [|[a b] l IH]; cbn; [done|]. destruct (group_by l) as [|[a' bs] gs]; cbn in *.
  - by rewrite <- IH.
  - destruct (decide (a = a')) as [<-|]; cbn; by rewrite <- IH.
Qed.

Lemma group_by_nonempty {A B} `{EqDecision A} (l : list (A * B)) a bs :
  In (a, bs) (group_by l) -> bs <> [].
Proof.
  revert a bs. induction l as [|[x y] l IH]; intros a bs; cbn; [done|].
  destruct (group_by l) as [|[a' bs'] gs]; cbn.
  - by intros [[= <- <-]|[]].
  - destruct (decide (x = a')); cbn; intros [[= <- <-]|Hin]; try done; [|by apply (IH a)].
    apply (IH a). by right.
Qed.

(** A run is cut off from what comes before it by another key. *)
Lemma group_by_cut {A B} `{EqDecision A} (pre l : list (A * B)) x y :
  last pre = Some x -> head l = Some y -> x.1 <> y.1 ->
  group_by (pre ++ l) = group_by pre ++ group_by l.
Proof.
  revert x. induction pre as [|[a b] pre IH]; intros x Hl Hh Hne; [done|].
  destruct pre as [|p pre].
  - injection Hl as <-. destruct l as [|[c d] l]; [done|]. injection Hh as <-. cbn in Hne.
    cbn [app]. change (group_by ((a, b) :: (c, d) :: l)) with
      (match group_by ((c, d) :: l) with
       | (a', bs) :: gs => if decide (a = a') then (a, b :: bs) :: gs else (a, [b]) :: (a', bs) :: gs
       | [] => [(a, [b])] end).
    destruct (group_by ((c, d) :: l)) as [|[a' bs] gs] eqn:Eg; [done|].
    assert (a' = c) as -> by (cbn in Eg; destruct (group_by l) as [|[? ?] ?]; [|destruct (decide _)]; congruence).
    by rewrite decide_False.
  - cbn [app]. change (group_by ((a, b) :: p :: pre ++ l)) with
      (match group_by ((p :: pre) ++ l) with
       | (a', bs) :: gs => if decide (a = a') then (a, b :: bs) :: gs else (a, [b]) :: (a', bs) :: gs
       | [] => [(a, [b])] end).
    rewrite (IH x Hl Hh Hne).
    change (group_by ((a, b) :: p :: pre)) with
      (match group_by (p :: pre) with
       | (a', bs) :: gs => if decide (a = a') then (a, b :: bs) :: gs else (a, [b]) :: (a', bs) :: gs
       | [] => [(a, [b])] end).
    destruct (group_by (p :: pre)) as [|[a' bs] gs] eqn:Eg.
    { exfalso. destruct p as [c d]. cbn in Eg. destruct (group_by pre) as [|[? ?] ?]; [|destruct (decide _)]; done. }
    cbn. by destruct (decide (a = a')).
Qed.

Lemma group_by_run {A B} `{EqDecision A} (a : A) (bs : list B) :
  bs <> [] -> group_by (map (pair a) bs) = [(a, bs)].
Proof.
  induction bs as [|b bs IH]; [done|]. intros _. destruct bs as [|b' bs]; [done|].
  change (map (pair a) (b :: b' :: bs)) with ((a, b) :: map (pair a) (b' :: bs)). cbn [group_by].
  rewrite IH by done. by rewrite decide_True.
Qed.

(** Collecting: the last group of an address decides. *)
Lemma collect_app gs gs' (m : RightsMap) :
  fold_left (fun m g => <[ g.1 := collect_rights g.2 ]> m) (gs ++ gs') m =
  fold_left (fun m g => <[ g.1 := collect_rights g.2 ]> m) gs'
    (fold_left (fun m g => <[ g.1 := collect_rights g.2 ]> m) gs m).
Proof. apply fold_left_app. Qed.

Lemma collect_other gs (m : RightsMap) addr :
  ~ In addr (map fst gs) ->
  fold_left (fun m g => <[ g.1 := collect_rights g.2 ]> m) gs m !! addr = m !! addr.
Proof.
  revert m. induction gs as [|[a bs] gs IH]; intros m Hno; cbn in *; [done|].
  rewrite IH by tauto. apply lookup_insert_ne. tauto.
Qed.

Lemma group_by_keys {A B} `{EqDecision A} (l : list (A * B)) a :
  In a (map fst (group_by l)) <-> In a (map fst l).
Proof.
  rewrite <- (group_by_concat l) at 2. rewrite in_map_iff. split.
  - intros ([a' bs] & <- & Hin). pose proof (group_by_nonempty l a' bs Hin) as Hne.
    destruct bs as [|b bs]; [done|]. apply in_map_iff. exists (a', b). split; [done|].
    apply in_flat_map. exists (a', b :: bs). split; [done | by left].
  - intros Hin. apply in_map_iff in Hin as ([a' b] & <- & Hin). apply in_flat_map in Hin as ([a2 bs] & Hg & Hb).
    apply in_map_iff in Hb as (b' & [= -> ->] & _). by exists (a', bs).
Qed.

(** The rights that count are those of the last run of an address. *)
Lemma collect_last_run pre (rs : list (option AccessRights)) post addr :
  rs <> [] -> ~ In addr (map fst post) -> (forall x, last pre = Some x -> x.1 <> addr) ->
  collect_groups (group_by (pre ++ map (pair addr) rs ++ post)) !! addr = Some (collect_rights rs).
Proof.
  intros Hne Hpost Hpre.
  assert (group_by (map (pair addr) rs ++ post) = [(addr, rs)] ++ group_by post) as Etail.
  { destruct post as [|[c d] post]; [by rewrite app_nil_r, group_by_run|].
    destruct (last (map (pair addr) rs)) as [x|] eqn:El.
    - rewrite (group_by_cut _ ((c, d) :: post) x (c, d) El eq_refl); [by rewrite group_by_run|].
      apply last_Some_elem_of, list_elem_of_In, in_map_iff in El as (r & <- & _). cbn.
      intros ->. apply Hpost. by left.
    - apply last_None in El. by destruct rs. }
  assert (exists gs, group_by (pre ++ map (pair addr) rs ++ post) = gs ++ [(addr, rs)] ++ group_by post) as (gs & ->).
  { destruct (last pre) as [x|] eqn:El.
    - exists (group_by pre). rewrite <- Etail. destruct rs as [|r rs]; [done|].
      apply (group_by_cut _ (map (pair addr) (r :: rs) ++ post) x (addr, r) El eq_refl). by apply Hpre.
    - apply last_None in El as ->. by exists []. }
  unfold collect_groups. rewrite collect_app. cbn [app fold_left].
  rewrite collect_other by (by rewrite group_by_keys). apply lookup_insert_eq.
Qed.

Lemma collect_sound gs (m : RightsMap) addr rights :
  fold_left (fun m g => <[ g.1 := collect_rights g.2 ]> m) gs m !! addr = Some rights ->
  m !! addr = Some rights \/ exists rs, In (addr, rs) gs /\ rights = collect_rights rs.
Proof.
  revert m. induction gs as [|[a bs] gs IH]; intros m; cbn; [by left|].
  intros [Hm|(rs & Hin & ->)]%IH; [|right; eauto].
  destruct (decide (a = addr)) as [->|Hne].
  - rewrite lookup_insert_eq in Hm. injection Hm as <-. right. eauto.
  - rewrite lookup_insert_ne in Hm by done. by left.
Qed.

Lemma collect_rights_in rs r : r ∈ collect_rights rs <-> In (Some r) rs.
Proof.
  unfold collect_rights. rewrite elem_of_list_to_set, list_elem_of_omap. split.
  - intros ([x|] & Hin & Hx); [|done]. injection Hx as ->. by apply list_elem_of_In.
  - intros Hin. exists (Some r). split; [by apply list_elem_of_In | done].
Qed.

(** The rights that a list of references grants. No right is invented: each
    one is written on a reference of the list. What counts for an address is the
    last unbroken run of references to it: when another address comes between
    two references to one address, the rights of the earlier ones are lost. *)
Theorem access_rights_extracted input addr :
  (forall rights r, extract_access_rights_from_urefs input !! addr = Some rights -> r ∈ rights ->
     In (uref_new addr r) input)
  /\ (forall (pre : list URef) rs (post : list URef), input = pre ++ map (mk_uref addr) rs ++ post ->
        rs <> [] -> ~ In addr (map uref_addr post) -> (forall u, last pre = Some u -> uref_addr u <> addr) ->
        extract_access_rights_from_urefs input !! addr = Some (collect_rights rs)).
Proof.
  unfold extract_access_rights_from_urefs. split.
  - intros rights r Hl Hr. apply collect_sound in Hl as [Hm|(rs & Hin & ->)]; [done|].
    apply collect_rights_in in Hr.
    assert (In (addr, Some r) (map (fun uref => (uref_addr uref, uref_access_rights uref)) input)) as Hi.
    { rewrite <- (group_by_concat (map _ input)). apply in_flat_map. exists (addr, rs). split; [done|].
      apply in_map_iff. eauto. }
    apply in_map_iff in Hi as ([a o] & [= -> ->] & Hi). done.
  - intros pre rs post -> Hne Hpost Hpre. rewrite !map_app, map_map. cbn [uref_addr uref_access_rights].
    apply collect_last_run; [done | by rewrite map_map | ].
    intros x. rewrite fmap_last. destruct (last pre) as [u|]; [|done]. intros [= <-]. by apply Hpre.
Qed.
End rights.

(** * Extraction finds the references *)

Section exact.
Context {alloc : Allocator} {layout : Layout} {F : ForeignErrors}.

(** One of the listed leaves, with its values and its laws. *)
Record LeafSpec := mk_leaf_spec {
  ls_leaf :> Leaf;
  ls_valid : leaf_carrier ls_leaf -> Prop;
  ls_ord : OrdLaws (leaf_carrier ls_leaf);
  ls_laws : CodecLaws (clt_codec (leaf_typed ls_leaf)) ls_valid;
  ls_listed : leaf_of (clt_type (leaf_typed ls_leaf)) = Some ls_leaf;
}.
#[local] Existing Instances ls_ord ls_laws.

Definition leaf_bool := mk_leaf_spec (plain_leaf clt_bool) (fun _ => True) _ bool_laws eq_refl.
Definition leaf_i32 := mk_leaf_spec (plain_leaf clt_i32) (is_signed 32) _ i32_laws eq_refl.
Definition leaf_i64 := mk_leaf_spec (plain_leaf clt_i64) (is_signed 64) _ i64_laws eq_refl.
Definition leaf_u8 := mk_leaf_spec (plain_leaf clt_u8) (is_unsigned 8) _ u8_laws eq_refl.
Definition leaf_u32 := mk_leaf_spec (plain_leaf clt_u32) (is_unsigned 32) _ u32_laws eq_refl.
Definition leaf_u64 := mk_leaf_spec (plain_leaf clt_u64) (is_unsigned 64) _ u64_laws eq_refl.
Definition leaf_u128 := mk_leaf_spec (plain_leaf clt_u128) (is_unsigned 128) _ u128_laws eq_refl.
Definition leaf_u256 := mk_leaf_spec (plain_leaf clt_u256) (is_unsigned 256) _ u256_laws eq_refl.
Definition leaf_u512 := mk_leaf_spec (plain_leaf clt_u512) (is_unsigned 512) _ u512_laws eq_refl.
Definition leaf_unit := mk_leaf_spec (plain_leaf clt_unit) (fun _ => True) _ unit_laws eq_refl.
Definition leaf_string :=
  mk_leaf_spec (plain_leaf clt_string) (fun s => utf8_valid s = true) _ string_laws eq_refl.
Definition leaf_key := mk_leaf_spec key_leaf key_valid _ key_laws eq_refl.
Definition leaf_uref := mk_leaf_spec uref_leaf uref_valid _ uref_laws eq_refl.

(** The types of arguments and results that may hand over references. *)
Inductive Shape :=
| Shape_leaf (l : LeafSpec)
| Shape_option (l : LeafSpec)
| Shape_list (l : LeafSpec)
| Shape_array (n : Z) (l : LeafSpec)
| Shape_result (l1 l2 : LeafSpec)
| Shape_map (l1 l2 : LeafSpec)
| Shape_tuple1 (l : LeafSpec)
| Shape_tuple2 (l1 l2 : LeafSpec).

Definition shape_carrier (s : Shape) : Type :=
  match s with
  | Shape_leaf l | Shape_tuple1 l => leaf_carrier l
  | Shape_option l => option (leaf_carrier l)
  | Shape_list l | Shape_array _ l => list (leaf_carrier l)
  | Shape_result l1 l2 => leaf_carrier l1 + leaf_carrier l2
  | Shape_map l1 l2 => BTreeMap (leaf_carrier l1) (leaf_carrier l2)
  | Shape_tuple2 l1 l2 => leaf_carrier l1 * leaf_carrier l2
  end.

Definition shape_typed (s : Shape) : CLTyped (shape_carrier s) :=
  match s with
  | Shape_leaf l => leaf_typed l
  | Shape_option l => clt_option (leaf_typed l)
  | Shape_list l => clt_vec (leaf_typed l)
  | Shape_array n l => clt_array n (leaf_typed l)
  | Shape_result l1 l2 => clt_result (leaf_typed l1) (leaf_typed l2)
  | Shape_map l1 l2 => clt_map (leaf_typed l1) (leaf_typed l2)
  | Shape_tuple1 l => clt_tuple1 (leaf_typed l)
  | Shape_tuple2 l1 l2 => clt_tuple2 (leaf_typed l1) (leaf_typed l2)
  end.

(** The references a value holds, keys of a map before its values. *)
Definition shape_urefs (s : Shape) : shape_carrier s -> list URef :=
  match s with
  | Shape_leaf l | Shape_tuple1 l => leaf_urefs l
  | Shape_option l => fun o => match o with Some x => leaf_urefs l x | None => [] end
  | Shape_list l | Shape_array _ l => flat_map (leaf_urefs l)
  | Shape_result l1 l2 => fun r => match r with inl x => leaf_urefs l1 x | inr y => leaf_urefs l2 y end
  | Shape_map l1 l2 => fun m => flat_map (leaf_urefs l1) (bt_keys m) ++ flat_map (leaf_urefs l2) (bt_values m)
  | Shape_tuple2 l1 l2 => fun v => leaf_urefs l1 v.1 ++ leaf_urefs l2 v.2
  end.

Definition shape_valid (s : Shape) : shape_carrier s -> Prop :=
  match s with
  | Shape_leaf l | Shape_tuple1 l => ls_valid l
  | Shape_option l => option_valid (ls_valid l)
  | Shape_list l => fun v => list_valid (ls_valid l) v /\ try_reserve_exact (length v) = true
  | Shape_array n l => fun v => length v = Z.to_nat n /\ Forall (ls_valid l) v
  | Shape_result l1 l2 => sum_valid (ls_valid l1) (ls_valid l2)
  | Shape_map l1 l2 => btreemap_valid (ls_valid l1) (ls_valid l2)
  | Shape_tuple2 l1 l2 => pair_valid (ls_valid l1) (ls_valid l2)
  end.

#[local] Abbreviation ref l := (is_reference (clt_type (leaf_typed (ls_leaf l)))).

(** The shapes the code looks into. *)
Definition shape_listed (s : Shape) : bool :=
  match s with
  | Shape_leaf l | Shape_option l | Shape_list l | Shape_tuple1 l => ref l
  | Shape_array n l => array_size_listed n && ref l
  | Shape_result l1 l2 | Shape_map l1 l2 | Shape_tuple2 l1 l2 => ref l1 || ref l2
  end.

Lemma array_size_range n : array_size_listed n = true -> 1 <= n <= 512.
Proof.
  unfold array_size_listed. rewrite !orb_true_iff, andb_true_iff, !Z.leb_le, !Z.eqb_eq. lia.
Qed.

Lemma shape_laws s : shape_listed s = true -> CodecLaws (clt_codec (shape_typed s)) (shape_valid s).
Proof.
  destruct s as [l|l|l|n l|l1 l2|l1 l2|l|l1 l2]; cbn [shape_listed shape_typed shape_valid shape_carrier];
    intros Hl; try apply _.
  - intros v bs rest [Hv Ha] Hb. by apply (vec_roundtrip _ (ls_valid l)).
  - apply andb_true_iff in Hl as [Hn _]. apply array_size_range in Hn.
    apply array_laws; [apply _ | unfold u32_max; lia].
Qed.

Lemma decode_urefs_exact {A} (T : CLTyped A) valid (f : A -> list URef) a v :
  CodecLaws (clt_codec T) valid -> valid a -> from_t T a = Ok v -> decode_urefs T f v = Ok (f a).
Proof.
  intros Hlaws Hv Hf. unfold from_t in Hf. apply obind_ok in Hf as (bs & Hb & <-%Ok_inj).
  destruct (to_bytes (clt_codec T) a) as [b|e|] eqn:Eb; try discriminate Hb. injection Hb as <-.
  unfold decode_urefs, into_t. cbn [cl_type cl_bytes]. rewrite bool_decide_eq_true_2 by done.
  by rewrite (deserialize_serialize (clt_codec T) valid a b).
Qed.

Lemma reference_leaf (l : LeafSpec) : ref l = true -> reference_of (clt_type (leaf_typed l)) = Some (ls_leaf l).
Proof.
  pose proof (ls_listed l) as Hl. destruct (clt_type (leaf_typed l)); try done; cbn in *; congruence.
Qed.

Lemma reference_pair_leaf (l1 l2 : LeafSpec) :
  ref l1 || ref l2 = true ->
  reference_pair (clt_type (leaf_typed l1)) (clt_type (leaf_typed l2)) = Some (ls_leaf l1, ls_leaf l2).
Proof. unfold reference_pair. intros ->. by rewrite !ls_listed. Qed.

(** A value that a contract passes or returns hands over exactly the
    references in it, in order, for every listed type: a reference or a key, an
    option, a vector, a one-tuple or an array of a listed size of these, and a
    result, a map or a pair of plain types of which one is a reference or a key. *)
Theorem extract_urefs_exact s (a : shape_carrier s) v :
  shape_listed s = true -> shape_valid s a -> from_t (shape_typed s) a = Ok v ->
  extract_urefs v = Ok (shape_urefs s a).
Proof.
  intros Hl Hv Hf.
  pose proof (decode_urefs_exact (shape_typed s) (shape_valid s) (shape_urefs s) a v (shape_laws s Hl) Hv Hf) as Hd.
  assert (cl_type v = clt_type (shape_typed s)) as Ht.
  { unfold from_t in Hf. apply obind_ok in Hf as (bs & _ & <-%Ok_inj). done. }
  rewrite <- Hd. unfold extract_urefs. rewrite Ht.
  destruct s as [l|l|l|n l|l1 l2|l1 l2|l|l1 l2]; cbn [shape_typed clt_type shape_listed] in *;
    cbn [clt_option clt_vec clt_array clt_result clt_map clt_tuple1 clt_tuple2 clt_type].
  - pose proof (reference_leaf l Hl) as Hr.
    destruct (clt_type (leaf_typed l)) eqn:Et; try discriminate Hl; cbn in Hr; injection Hr as Hr.
    + clear -Hr. cbn. by rewrite <- Hr.
    + clear -Hr. cbn. by rewrite <- Hr.
  - unfold extract_option. by rewrite (reference_leaf l Hl).
  - unfold extract_list. by rewrite (reference_leaf l Hl).
  - apply andb_true_iff in Hl as [Hn Hl]. unfold extract_fixed_list. by rewrite Hn, (reference_leaf l Hl).
  - unfold extract_result. by rewrite (reference_pair_leaf l1 l2 Hl).
  - unfold extract_map. by rewrite (reference_pair_leaf l1 l2 Hl).
  - unfold extract_tuple1. by rewrite (reference_leaf l Hl).
  - unfold extract_tuple2. by rewrite (reference_pair_leaf l1 l2 Hl).
Qed.
End exact.
