(* ===== verification/Runtime.v ===== *)
(** The runtime: the host functions a contract calls, and the calls between
    contracts.  The Wasm interpreter, its memory and the modules it runs are
    parameters.  Sources: [engine-core/src/execution/runtime/mod.rs],
    [engine-core/src/resolvers/mod.rs],
    [engine-core/src/engine_state/system_contract_cache.rs],
    [contract/src/args_parser.rs]. *)

From stdpp Require Import gmap.
From S2P Require Import Prelude BTreeMap Bytesrepr Uint Types CLValues Account StoredValue Transform.
From S2P Require Import Trie TrackingCopy Mint Stakes ApiError ProtocolData ExecutionError RuntimeContext.
From S2P Require Import ExtractURefs.

(** * The platform under the runtime *)

(** What the runtime uses of [wasmi], [parity_wasm] and [pwasm_utils]. *)
Class Platform (Mem Module : Type) {F : ForeignErrors} := {
  (** [MemoryRef::get] and [MemoryRef::set]. *)
  mem_get : Z -> Z -> Mem -> outcome WasmiOther bytes;
  mem_set : Z -> bytes -> Mem -> outcome WasmiOther Mem;
  (** The fields of the export section, and their assignment by position. *)
  export_fields : Module -> list bytes;
  set_export_field : nat -> bytes -> Module -> Module;
  (** [pwasm_utils::optimize]. *)
  pwasm_optimize : Module -> list bytes -> option Module;
  (** [parity_wasm::serialize] and [deserialize_buffer]. *)
  module_serialize : Module -> outcome ParityError bytes;
  module_deserialize : bytes -> outcome ParityError Module;
  (** [from_parity_wasm_module], and the memory of a new instance when the module
      imports one. *)
  WasmiModule : Type;
  from_parity_wasm_module : Module -> outcome WasmiOther WasmiModule;
  module_instance : WasmiModule -> outcome WasmiOther (option Mem);
}.

(** * The cache of system contracts *)

Section cache.
Context {Module : Type}.

Definition SystemContractCache : Type := gmap URef Module.

Definition contract_cache_has (uref : URef) (cache : SystemContractCache) : bool :=
  match cache !! remove_access_rights uref with Some _ => true | None => false end.

Definition contract_cache_insert (uref : URef) (contract : Module) (cache : SystemContractCache)
    : SystemContractCache := <[ remove_access_rights uref := contract ]> cache.

Definition contract_cache_get (uref : URef) (cache : SystemContractCache) : option Module :=
  cache !! remove_access_rights uref.
End cache.
Arguments SystemContractCache : clear implicits.

(** * Resolvers *)

(** The derived order of versions. *)
Definition version_le (a b : ProtocolVersion) : bool :=
  match ord_cmp (major a, (minor a, patch a)) (major b, (minor b, patch b)) with Gt => false | _ => true end.

Definition V1_0_0 : ProtocolVersion := mk_semver 1 0 0.

Definition create_module_resolver (protocol_version : ProtocolVersion) : outcome ResolverError unit :=
  if version_le V1_0_0 protocol_version then Ok tt else Err (UnknownProtocolVersion protocol_version).

(** * The state of a running contract *)

Record Runtime (L G Mem Module : Type) := mk_runtime {
  rt_cache : SystemContractCache Module;
  rt_memory : Mem;
  rt_module : Module;
  rt_host_buf : option CLValue;
  rt_context : RuntimeContext L G;
}.
Arguments mk_runtime {L G Mem Module}.
Arguments rt_cache {L G Mem Module}.
Arguments rt_memory {L G Mem Module}.
Arguments rt_module {L G Mem Module}.
Arguments rt_host_buf {L G Mem Module}.
Arguments rt_context {L G Mem Module}.

Definition MINT_NAME : bytes := str "mint".
Definition POS_NAME : bytes := str "pos".

Definition clt_mint_error : CLTyped MintError := mk_cl_typed CL_U8 mint_error_codec.

Section runtime.
Context {L G Mem Module : Type} `{LinkedHashMap L, Rng G} {meter : Meter} {dbg : DebugText} {qtext : QueryText}.
Context {mtext : MismatchText} {hasher : Hasher} {F : ForeignErrors} `{!Platform Mem Module}.
Context {alloc : Allocator} {layout : Layout} {E : Type}.
Context (reader : Key -> outcome E (option StoredValue)) (into_error : E -> ExecError).
Context (overflow_checks : bool).

#[local] Abbreviation RT := (Runtime L G Mem Module).
#[local] Abbreviation X A := (eff RT ExecError A).
#[local] Abbreviation T A := (eff RT InterpreterError A).

(** The behaviour of the function [call] of an instance of a module. *)
Context (invoke_call : Module -> T unit).

(** ** Plumbing *)

Definition set_host_buf (b : option CLValue) (rt : RT) : RT :=
  mk_runtime (rt_cache rt) (rt_memory rt) (rt_module rt) b (rt_context rt).

Definition set_memory (m : Mem) (rt : RT) : RT :=
  mk_runtime (rt_cache rt) m (rt_module rt) (rt_host_buf rt) (rt_context rt).

Definition set_context (c : RuntimeContext L G) (rt : RT) : RT :=
  mk_runtime (rt_cache rt) (rt_memory rt) (rt_module rt) (rt_host_buf rt) c.

(** A question about the runtime, with [?] on its answer. *)
Definition look {A Er} (f : RT -> outcome Er A) : eff RT Er A := fun rt => (f rt, rt).

(** A call on the context. *)
Definition on_context {A} (m : eff (RuntimeContext L G) ExecError A) : X A :=
  fun rt => let '(o, c) := m (rt_context rt) in (o, set_context c rt).

(** [?] in a function that returns a [Trap]. *)
Definition trap {A} (m : X A) : T A := emap_err IE_Host m.

(** [self.memory.set(ptr, bytes)] with [Error::Interpreter] on its error. *)
Definition write_mem (ptr : Z) (bs : bytes) : X unit :=
  fun rt =>
    match mem_set ptr bs (rt_memory rt) with
    | Ok m => (Ok tt, set_memory m rt)
    | Err e => (Err (EE_Interpreter (IE_Other e)), rt)
    | Panic => (Panic, rt)
    end.

Definition bytes_from_mem (ptr size : Z) : X bytes :=
  look (fun rt => omap_err (fun e => EE_Interpreter (IE_Other e)) (mem_get ptr size (rt_memory rt))).

(** [bytesrepr::deserialize(self.bytes_from_mem(ptr, size)?)?]. *)
Definition value_from_mem {A} (c : Codec A) (ptr size : Z) : X A :=
  let! bs := bytes_from_mem ptr size in
  elift (omap_err EE_BytesRepr (deserialize c bs)).

Definition key_from_mem (key_ptr key_size : Z) : X Key := value_from_mem key_codec key_ptr key_size.

Definition cl_value_from_mem (ptr size : Z) : X CLValue := value_from_mem cl_value_codec ptr size.

Definition string_from_mem (ptr size : Z) : T bytes := trap (value_from_mem string_codec ptr size).

(** [value.into_bytes().map_err(Error::BytesRepr)?] written at [ptr]. *)
Definition write_value {A} (c : Codec A) (v : A) (ptr : Z) : X unit :=
  let! bs := elift (omap_err EE_BytesRepr (to_bytes c v)) in
  write_mem ptr bs.

(** ** Gas *)

Definition charge_gas (amount : Gas) (rt : RT) : bool * RT :=
  let prev := rc_gas_counter (rt_context rt) in
  match gas_checked_add prev amount with
  | None => (false, rt)
  | Some val =>
      if val >? rc_gas_limit (rt_context rt) then (false, rt)
      else (true, set_context (set_gas_counter val (rt_context rt)) rt)
  end.

Definition gas (amount : Gas) : T unit :=
  fun rt =>
    match charge_gas amount rt with
    | (true, rt') => (Ok tt, rt')
    | (false, rt') => (Err (IE_Host EE_GasLimit), rt')
    end.

(** ** The host buffer *)

Definition take_host_buf (rt : RT) : option CLValue * RT := (rt_host_buf rt, set_host_buf None rt).

Definition can_write_to_host_buf (rt : RT) : bool :=
  match rt_host_buf rt with None => true | Some _ => false end.

(** The data when the buffer is empty; otherwise an error. *)
Definition write_host_buf {Er} (data : CLValue) : eff RT Er (unit + ApiError) :=
  fun rt =>
    match rt_host_buf rt with
    | Some _ => (Ok (inr Api_HostBufferFull), rt)
    | None => (Ok (inl tt), set_host_buf (Some data) rt)
    end.

(** Puts a value into the buffer and its size into memory. *)
Definition return_in_host_buf (cl_value : CLValue) (size_ptr : Z) : X (unit + ApiError) :=
  let size := wrap_unsigned 32 (zlen (cl_bytes cl_value)) in
  let! written := write_host_buf cl_value in
  match written with
  | inr error => eret (inr error)
  | inl _ =>
      let! _ := write_mem size_ptr (to_le_bytes 4 size) in
      eret (inl tt)
  end.

(** Exits early if the host buffer is occupied. *)
Definition with_empty_buf {Er} (k : eff RT Er (unit + ApiError)) : eff RT Er (unit + ApiError) :=
  fun rt => if can_write_to_host_buf rt then k rt else (Ok (inr Api_HostBufferFull), rt).

Definition read_host_buffer (dest_ptr dest_size bytes_written_ptr : Z) : X (unit + ApiError) :=
  let! taken := fun rt => let '(b, rt') := take_host_buf rt in (Ok b, rt') in
  match taken with
  | None => eret (inr Api_HostBufferEmpty)
  | Some cl_value =>
      let serialized_value := cl_bytes cl_value in
      if zlen serialized_value >? u32_max then eret (inr Api_OutOfMemoryError)
      else if zlen serialized_value >? dest_size then eret (inr Api_BufferTooSmall)
      else
        let sliced_buf := take (Z.to_nat (Z.min dest_size (zlen serialized_value))) serialized_value in
        let! _ := write_mem dest_ptr sliced_buf in
        let! _ := write_mem bytes_written_ptr (to_le_bytes 4 (wrap_unsigned 32 (zlen sliced_buf))) in
        eret (inl tt)
  end.

(** ** Arguments *)

Definition get_arg_size (index size_ptr : Z) : X (unit + ApiError) :=
  let! arg := look (fun rt => Ok (rc_args (rt_context rt) !! Z.to_nat index)) in
  match arg with
  | None => eret (inr Api_MissingArgument)
  | Some arg =>
      if zlen (cl_bytes arg) >? u32_max then eret (inr Api_OutOfMemoryError)
      else
        let! _ := write_mem size_ptr (to_le_bytes 4 (zlen (cl_bytes arg))) in
        eret (inl tt)
  end.

(** The slice [..output_size] panics when the size exceeds the length. *)
Definition get_arg (index output_ptr output_size : Z) : X (unit + ApiError) :=
  let! arg := look (fun rt => Ok (rc_args (rt_context rt) !! Z.to_nat index)) in
  match arg with
  | None => eret (inr Api_MissingArgument)
  | Some arg =>
      if zlen (cl_bytes arg) >? output_size then eret (inr Api_OutOfMemoryError)
      else
        let! slice := elift (if output_size <=? zlen (cl_bytes arg)
                             then Ok (take (Z.to_nat output_size) (cl_bytes arg)) else Panic) in
        let! _ := write_mem output_ptr slice in
        eret (inl tt)
  end.

(** ** Modules *)

(** The position of the first export with a name. *)
Fixpoint export_position (name : bytes) (fields : list bytes) : option nat :=
  match fields with
  | [] => None
  | f :: fields' => if decide (f = name) then Some O else S <$> export_position name fields'
  end.

Definition rename_export_to_call (module : Module) (name : bytes) : outcome ExecError Module :=
  match export_position name (export_fields module) with
  | Some i => Ok (set_export_field i (str "call") module)
  | None => Panic
  end.

Definition get_function_by_name (name_ptr name_size : Z) : T bytes :=
  let! name := string_from_mem name_ptr name_size in
  let! module := look (fun rt => Ok (rt_module rt)) in
  match export_position name (export_fields module) with
  | Some _ =>
      match pwasm_optimize module [name] with
      | None => elift Panic
      | Some module' =>
          trap (elift (let? renamed := rename_export_to_call module' name in
                       omap_err EE_ParityWasm (module_serialize renamed)))
      end
  | None => elift (Err (IE_Host (EE_FunctionNotFound name)))
  end.

Definition instance_and_memory (module : Module) (protocol_version : ProtocolVersion) : outcome ExecError Mem :=
  let? wm := omap_err (fun e => EE_Interpreter (IE_Other e)) (from_parity_wasm_module module) in
  let? _ := omap_err EE_ResolverError (create_module_resolver protocol_version) in
  let? memory := omap_err (fun e => EE_Interpreter (IE_Other e)) (module_instance wm) in
  ok_or memory (EE_ResolverError NoImportedMemory).

(** ** System contracts *)

Definition get_mint_contract_uref (rt : RT) : URef :=
  attenuate_uref (pd_mint (rc_protocol_data (rt_context rt))) (rt_context rt).

Definition get_pos_contract_uref (rt : RT) : URef :=
  attenuate_uref (pd_proof_of_stake (rc_protocol_data (rt_context rt))) (rt_context rt).

(** ** Calls between contracts *)

(** [ArgsParser::parse(args)?.into_bytes()?]. *)
Definition args_into_bytes (args : list (outcome CLValueError CLValue)) : outcome ExecError bytes :=
  let? values := omap_err EE_CLValue (try_collect id args) in
  omap_err EE_BytesRepr (vec_cl_value_to_bytes values).

(** The context of the callee: its own names, the rights these and the arguments
    grant, and the caller's account, limits and state. *)
Definition callee_context (args : list CLValue) (named_keys : BTreeMap bytes Key) (key : Key)
    (extra_urefs : list Key) (protocol_version : ProtocolVersion) (rt : RT) : RuntimeContext L G :=
  let c := rt_context rt in
  let access_rights := extract_access_rights_from_keys
    (bt_values named_keys ++ extra_urefs
     ++ [Key_URef (get_mint_contract_uref rt); Key_URef (get_pos_contract_uref rt)]) in
  mk_context (rc_state c) named_keys access_rights (rc_account c) args (rc_authorization_keys c) key
    (rc_blocktime c) (rc_deploy_hash c) (rc_gas_limit c) (rc_gas_counter c) (rc_fn_store_id c)
    (rc_address_generator c) protocol_version (rc_phase c) (rc_protocol_data c).

(** The tracking copy and the address generator are shared with the callee. *)
Definition after_call (callee rt : RT) : RT :=
  set_context (set_address_generator (rc_address_generator (rt_context callee))
    (set_state (rc_state (rt_context callee)) (rt_context rt))) rt.

Definition sub_call (module : Module) (args : list CLValue) (named_keys : BTreeMap bytes Key) (key : Key)
    (extra_urefs : list Key) (protocol_version : ProtocolVersion) : X CLValue :=
  let! memory := elift (instance_and_memory module protocol_version) in
  fun rt =>
    let callee := mk_runtime (rt_cache rt) memory module None
      (callee_context args named_keys key extra_urefs protocol_version rt) in
    let '(result, callee') := invoke_call module callee in
    let rt' := after_call callee' rt in
    match result with
    | Ok _ =>
        match rt_host_buf callee' with
        | Some v => (Ok v, rt')
        | None => (omap_err EE_CLValue (from_t clt_unit tt), rt')
        end
    | Err (IE_Host (EE_Ret ret_urefs)) =>
        (ok_or (rt_host_buf callee') EE_ExpectedReturnValue,
         set_context (access_rights_extend (extract_access_rights_from_urefs ret_urefs) (rt_context rt')) rt')
    | Err (IE_Host (EE_Revert status)) => (Err (EE_Revert status), rt')
    | Err (IE_Host EE_InvalidContext) => (Err EE_InvalidContext, rt')
    | Err e => (Err (EE_Interpreter e), rt')
    | Panic => (Panic, rt')
    end.

Definition not_a_contract (key : Key) : ExecError :=
  EE_FunctionNotFound (str "Value at " ++ key_debug key ++ str " is not a contract").

Definition call_contract (key : Key) (args_bytes : bytes) : X CLValue :=
  let! found := on_context (read_gs reader into_error key) in
  let! contract := elift match found with
                         | Some (SV_Contract contract) => Ok contract
                         | Some _ => Err (not_a_contract key)
                         | None => Err (EE_KeyNotFound key)
                         end in
  let contract_version := contract_protocol_version contract in
  let! current_version := look (fun rt => Ok (rc_protocol_version (rt_context rt))) in
  if negb (is_compatible_with contract_version current_version) then
    elift (Err (EE_IncompatibleProtocolMajorVersion (major contract_version) (major current_version)))
  else
    let! args := elift (omap_err EE_BytesRepr
      (deserialize (mk_codec vec_cl_value_to_bytes vec_cl_value_from_bytes) args_bytes)) in
    let! maybe_module := look (fun rt => Ok match key with
                                            | Key_URef uref => contract_cache_get uref (rt_cache rt)
                                            | _ => None
                                            end) in
    let! module := elift match maybe_module with
                         | Some module => Ok module
                         | None => omap_err EE_ParityWasm (module_deserialize (contract_bytes contract))
                         end in
    let! urefs := elift (try_collect extract_urefs args) in
    let extra_urefs := map Key_URef (concat urefs) in
    let! _ := look (fun rt => try_for_each (fun k => validate_key k (rt_context rt)) extra_urefs) in
    sub_call module args (contract_named_keys contract) key extra_urefs contract_version.

Definition call_contract_host_buf (key : Key) (args_bytes : bytes) (result_size_ptr : Z) : X (unit + ApiError) :=
  with_empty_buf
    (let! result := call_contract key args_bytes in
     return_in_host_buf result result_size_ptr).

(** [ret] always traps; the references of the value it leaves go to the caller. *)
Definition ret (value_ptr value_size : Z) : T unit :=
  let! _ := fun rt => (Ok tt, set_host_buf None rt) in
  let! buf := trap (bytes_from_mem value_ptr value_size) in
  match deserialize cl_value_codec buf with
  | Panic => elift Panic
  | Err _ => elift (Err (IE_Host (EE_Ret [])))
  | Ok value =>
      let! _ := fun rt => (Ok tt, set_host_buf (Some value) rt) in
      match extract_urefs value with
      | Ok urefs => elift (Err (IE_Host (EE_Ret urefs)))
      | Err e => elift (Err (IE_Host e))
      | Panic => elift Panic
      end
  end.

Definition revert (status : Z) : T unit := elift (Err (IE_Host (EE_Revert status))).

(** ** Names *)

Definition is_valid_uref (uref_ptr uref_size : Z) : T bool :=
  let! uref := trap (value_from_mem uref_codec uref_ptr uref_size) in
  look (fun rt => match validate_key (Key_URef uref) (rt_context rt) with
                  | Ok _ => Ok true
                  | Err _ => Ok false
                  | Panic => Panic
                  end).

Definition load_key (name_ptr name_size output_ptr output_size bytes_written_ptr : Z) : T (unit + ApiError) :=
  let! name := string_from_mem name_ptr name_size in
  let! found := look (fun rt => Ok (named_keys_get name (rt_context rt))) in
  match found with
  | None => eret (inr Api_MissingKey)
  | Some key =>
      match key_to_bytes key with
      | Err error => eret (inr (api_from_bytesrepr error))
      | Panic => elift Panic
      | Ok key_bytes =>
          if output_size <? zlen key_bytes then eret (inr Api_BufferTooSmall)
          else
            let! _ := trap (write_mem output_ptr key_bytes) in
            let! _ := trap (write_mem bytes_written_ptr (to_le_bytes 4 (wrap_unsigned 32 (zlen key_bytes)))) in
            eret (inl tt)
      end
  end.

Definition has_key (name_ptr name_size : Z) : T Z :=
  let! name := string_from_mem name_ptr name_size in
  look (fun rt => Ok (if named_keys_contains_key name (rt_context rt) then 0 else 1)).

Definition host_put_key (name_ptr name_size key_ptr key_size : Z) : T unit :=
  let! name := string_from_mem name_ptr name_size in
  let! key := trap (key_from_mem key_ptr key_size) in
  trap (on_context (put_key reader into_error name key)).

Definition host_remove_key (name_ptr name_size : Z) : T unit :=
  let! name := string_from_mem name_ptr name_size in
  trap (on_context (remove_key reader into_error name)).

Definition load_named_keys (total_keys_ptr result_size_ptr : Z) : T (unit + ApiError) :=
  with_empty_buf
    (let! named_keys := look (fun rt => Ok (rc_named_keys (rt_context rt))) in
     let total_keys := wrap_unsigned 32 (zlen named_keys) in
     let! _ := trap (write_mem total_keys_ptr (to_le_bytes 4 total_keys)) in
     if total_keys =? 0 then eret (inl tt)
     else
       let! value := trap (elift (omap_err EE_CLValue (from_t (clt_map clt_string clt_key) named_keys))) in
       trap (return_in_host_buf value result_size_ptr)).

(** ** Facts about the execution *)

Definition host_get_main_purse (dest_ptr : Z) : T unit :=
  let! purse_id := trap (look (fun rt => get_main_purse (rt_context rt))) in
  trap (write_value purse_id_codec purse_id dest_ptr).

Definition host_get_caller (dest_ptr : Z) : T unit :=
  let! key := look (fun rt => Ok (get_caller (rt_context rt))) in
  trap (write_value public_key_codec key dest_ptr).

Definition host_get_phase (dest_ptr : Z) : T unit :=
  let! phase := look (fun rt => Ok (rc_phase (rt_context rt))) in
  trap (write_value phase_codec phase dest_ptr).

Definition host_get_blocktime (dest_ptr : Z) : T unit :=
  let! blocktime := look (fun rt => Ok (rc_blocktime (rt_context rt))) in
  trap (write_value blocktime_codec blocktime dest_ptr).

Definition get_system_contract (system_contract_index dest_ptr : Z) : T (unit + ApiError) :=
  match system_contract_type_try_from system_contract_index with
  | Ok t =>
      let! uref := look (fun rt => Ok match t with
                                      | System_Mint => get_mint_contract_uref rt
                                      | System_ProofOfStake => get_pos_contract_uref rt
                                      end) in
      let! _ := trap (write_value uref_codec uref dest_ptr) in
      eret (inl tt)
  | Err error => eret (inr error)
  | Panic => elift Panic
  end.

(** ** State *)

Definition host_new_uref (key_ptr value_ptr value_size : Z) : T unit :=
  let! cl_value := trap (cl_value_from_mem value_ptr value_size) in
  let! key := trap (on_context (new_uref (SV_CLValue cl_value))) in
  trap (write_value key_codec key key_ptr).

Definition host_write (key_ptr key_size value_ptr value_size : Z) : T unit :=
  let! key := trap (key_from_mem key_ptr key_size) in
  let! cl_value := trap (cl_value_from_mem value_ptr value_size) in
  trap (on_context (write_gs key (SV_CLValue cl_value))).

Definition host_write_local (key_ptr key_size value_ptr value_size : Z) : T unit :=
  let! key_bytes := trap (bytes_from_mem key_ptr key_size) in
  let! cl_value := trap (cl_value_from_mem value_ptr value_size) in
  trap (on_context (write_ls key_bytes cl_value)).

Definition host_add (key_ptr key_size value_ptr value_size : Z) : T unit :=
  let! key := trap (key_from_mem key_ptr key_size) in
  let! cl_value := trap (cl_value_from_mem value_ptr value_size) in
  trap (on_context (add_gs reader into_error key (SV_CLValue cl_value))).

Definition host_add_local (key_ptr key_size value_ptr value_size : Z) : T unit :=
  let! key_bytes := trap (bytes_from_mem key_ptr key_size) in
  let! cl_value := trap (cl_value_from_mem value_ptr value_size) in
  trap (on_context (add_ls reader into_error key_bytes cl_value)).

Definition host_read (key_ptr key_size output_size_ptr : Z) : T (unit + ApiError) :=
  with_empty_buf
    (let! key := trap (key_from_mem key_ptr key_size) in
     let! found := trap (on_context (read_gs reader into_error key)) in
     match found with
     | None => eret (inr Api_ValueNotFound)
     | Some stored_value =>
         let! cl_value := trap (elift (omap_err EE_TypeMismatch (try_into_cl_value stored_value))) in
         trap (return_in_host_buf cl_value output_size_ptr)
     end).

Definition host_read_local (key_ptr key_size output_size_ptr : Z) : T (unit + ApiError) :=
  with_empty_buf
    (let! key_bytes := trap (bytes_from_mem key_ptr key_size) in
     let! found := trap (on_context (read_ls reader into_error key_bytes)) in
     match found with
     | None => eret (inr Api_ValueNotFound)
     | Some cl_value => trap (return_in_host_buf cl_value output_size_ptr)
     end).

(** ** Stored functions *)

Definition new_contract (fn_bytes : bytes) (named_keys : BTreeMap bytes Key) (rt : RT) : StoredValue :=
  SV_Contract (mk_contract fn_bytes named_keys (rc_protocol_version (rt_context rt))).

Definition host_store_function (fn_bytes : bytes) (named_keys : BTreeMap bytes Key) : X bytes :=
  fun rt => on_context (store_function (new_contract fn_bytes named_keys rt)) rt.

Definition host_store_function_at_hash (fn_bytes : bytes) (named_keys : BTreeMap bytes Key) : X bytes :=
  fun rt => on_context (store_function_at_hash overflow_checks (new_contract fn_bytes named_keys rt)) rt.

Definition function_address (hash_bytes : bytes) (dest_ptr : Z) : T unit := trap (write_mem dest_ptr hash_bytes).

Definition host_upgrade_contract_at_uref (name_ptr name_size key_ptr key_size : Z) : T (unit + ApiError) :=
  let! key := trap (key_from_mem key_ptr key_size) in
  let! found := trap (on_context (read_gs reader into_error key)) in
  let! named_keys := trap (elift match found with
                                 | None => Err (EE_KeyNotFound key)
                                 | Some (SV_Contract contract) => Ok (contract_named_keys contract)
                                 | Some _ => Err (not_a_contract key)
                                 end) in
  let! code := get_function_by_name name_ptr name_size in
  let! result := etry (on_context (upgrade_contract_at_uref key code named_keys)) in
  match result with
  | inl _ => eret (inl tt)
  | inr _ => eret (inr Api_UpgradeContractAtURef)
  end.

(** ** Key management *)

(** The code of a failure; other errors trap. *)
Definition key_result (code : ExecError -> option Z) (m : X unit) : T Z :=
  let! result := etry m in
  match result with
  | inl _ => eret 0
  | inr e => match code e with Some z => eret z | None => elift (Err (IE_Host e)) end
  end.

Definition host_add_associated_key (public_key_ptr weight_value : Z) : T Z :=
  let! public_key := trap (value_from_mem public_key_codec public_key_ptr PUBLIC_KEY_SERIALIZED_LENGTH) in
  key_result (fun e => match e with EE_AddKeyFailure f => Some (add_key_failure_code f) | _ => None end)
    (on_context (context_add_associated_key reader into_error public_key weight_value)).

Definition host_remove_associated_key (public_key_ptr : Z) : T Z :=
  let! public_key := trap (value_from_mem public_key_codec public_key_ptr PUBLIC_KEY_SERIALIZED_LENGTH) in
  key_result (fun e => match e with EE_RemoveKeyFailure f => Some (remove_key_failure_code f) | _ => None end)
    (on_context (context_remove_associated_key reader into_error public_key)).

Definition host_update_associated_key (public_key_ptr weight_value : Z) : T Z :=
  let! public_key := trap (value_from_mem public_key_codec public_key_ptr PUBLIC_KEY_SERIALIZED_LENGTH) in
  key_result (fun e => match e with EE_UpdateKeyFailure f => Some (update_key_failure_code f) | _ => None end)
    (on_context (context_update_associated_key reader into_error public_key weight_value)).

Definition host_set_action_threshold (action_type_value threshold_value : Z) : T Z :=
  match action_type_try_from action_type_value with
  | Ok action_type =>
      key_result (fun e => match e with EE_SetThresholdFailure f => Some (set_threshold_failure_code f) | _ => None end)
        (on_context (context_set_action_threshold reader into_error action_type threshold_value))
  | Err _ => elift (Err IE_Unreachable)
  | Panic => elift Panic
  end.

(** ** Money *)

Definition mint_create (mint_contract_key : Key) : X PurseId :=
  let! args_bytes := elift (args_into_bytes [from_t clt_string (str "create")]) in
  let! result := call_contract mint_contract_key args_bytes in
  elift (omap_err EE_CLValue (into_t clt_uref result)).

Definition create_purse : X PurseId :=
  let! mint_contract_key := look (fun rt => Ok (Key_URef (get_mint_contract_uref rt))) in
  mint_create mint_contract_key.

Definition mint_transfer (mint_contract_key : Key) (source target : PurseId) (amount : Z) : X unit :=
  let! args_bytes := elift (args_into_bytes
    [from_t clt_string (str "transfer"); from_t clt_uref source; from_t clt_uref target;
     from_t clt_u512 amount]) in
  let! result := call_contract mint_contract_key args_bytes in
  let! result := elift (omap_err EE_CLValue (into_t (clt_result clt_unit clt_mint_error) result)) in
  match result with
  | inl _ => eret tt
  | inr e => elift (Err (EE_SystemContractError (System_MintError e)))
  end.

Definition get_balance (purse_id : PurseId) : X (option Z) :=
  let! seed := look (fun rt => Ok (uref_addr (get_mint_contract_uref rt))) in
  let! key := elift (omap_err EE_BytesRepr (u8_array_to_bytes (uref_addr purse_id))) in
  let! found := on_context (read_ls_with_seed reader into_error seed key) in
  match found with
  | None => eret None
  | Some cl_value =>
      match into_t clt_key cl_value with
      | Ok (Key_URef uref) =>
          let! value := on_context (read_gs_direct reader into_error (Key_URef uref)) in
          match value with
          | Some (SV_CLValue cl_value) =>
              if bool_decide (cl_type cl_value = CL_U512) then
                let! balance := elift (omap_err EE_CLValue (into_t clt_u512 cl_value)) in
                eret (Some balance)
              else elift Panic
          | Some _ => elift Panic
          | None => eret None
          end
      | _ => elift Panic
      end
  end.

(** The names of an account that a transfer creates. *)
Definition new_account_keys (rt : RT) : BTreeMap bytes Key :=
  bt_collect [(MINT_NAME, Key_URef (uref_new (uref_addr (get_mint_contract_uref rt)) READ));
              (POS_NAME, Key_URef (uref_new (uref_addr (get_pos_contract_uref rt)) READ))].

Definition transfer_to_new_account (source : PurseId) (target : PublicKey) (amount : Z) : X TransferResult :=
  let! mint_contract_key := look (fun rt => Ok (Key_URef (get_mint_contract_uref rt))) in
  let target_key := Key_Account target in
  let! balance := get_balance source in
  if amount >? match balance with Some b => b | None => 0 end then eret (inr Api_Transfer)
  else
    let! target_purse_id := mint_create mint_contract_key in
    if bool_decide (source = target_purse_id) then eret (inr Api_Transfer)
    else
      let! transferred := etry (mint_transfer mint_contract_key source target_purse_id amount) in
      match transferred with
      | inl _ =>
          let! named_keys := look (fun rt => Ok (new_account_keys rt)) in
          let account := account_create target named_keys target_purse_id in
          let! _ := on_context (write_account target_key account) in
          eret (inl NewAccount)
      | inr _ => eret (inr Api_Transfer)
      end.

Definition transfer_to_existing_account (source target : PurseId) (amount : Z) : X TransferResult :=
  let! mint_contract_key := look (fun rt => Ok (Key_URef (get_mint_contract_uref rt))) in
  let! _ := on_context (assign (insert_uref target)) in
  let! transferred := etry (mint_transfer mint_contract_key source target amount) in
  match transferred with
  | inl _ => eret (inl ExistingAccount)
  | inr _ => eret (inr Api_Transfer)
  end.

Definition transfer_from_purse_to_account (source : PurseId) (target : PublicKey) (amount : Z)
    : X TransferResult :=
  let target_key := Key_Account target in
  let! found := on_context (read_account reader into_error target_key) in
  match found with
  | None => transfer_to_new_account source target amount
  | Some (SV_Account account) =>
      let target := purse_id_add_only account in
      if bool_decide (source = target) then eret (inl ExistingAccount)
      else transfer_to_existing_account source target amount
  | Some _ => elift (Err (EE_AccountNotFound target_key))
  end.

Definition transfer_to_account (target : PublicKey) (amount : Z) : X TransferResult :=
  let! source := look (fun rt => get_main_purse (rt_context rt)) in
  transfer_from_purse_to_account source target amount.

Definition transfer_from_purse_to_purse (source_ptr source_size target_ptr target_size amount_ptr amount_size : Z)
    : X (unit + ApiError) :=
  let! source := value_from_mem purse_id_codec source_ptr source_size in
  let! target := value_from_mem purse_id_codec target_ptr target_size in
  let! amount := value_from_mem u512_codec amount_ptr amount_size in
  let! mint_contract_key := look (fun rt => Ok (Key_URef (get_mint_contract_uref rt))) in
  let! transferred := etry (mint_transfer mint_contract_key source target amount) in
  match transferred with
  | inl _ => eret (inl tt)
  | inr _ => eret (inr Api_Transfer)
  end.

Definition get_balance_host_buf (purse_id_ptr purse_id_size output_size_ptr : Z) : X (unit + ApiError) :=
  with_empty_buf
    (let! bs := bytes_from_mem purse_id_ptr purse_id_size in
     match deserialize purse_id_codec bs with
     | Err error => eret (inr (api_from_bytesrepr error))
     | Panic => elift Panic
     | Ok purse_id =>
         let! balance := get_balance purse_id in
         match balance with
         | None => eret (inr Api_InvalidPurse)
         | Some balance =>
             match from_t clt_u512 balance with
             | Err error => eret (inr (api_from_cl_value error))
             | Panic => elift Panic
             | Ok value => return_in_host_buf value output_size_ptr
             end
         end
     end).
End runtime.
