(* ===== verification/HostFunctions.v ===== *)
(** The interface between the Wasm interpreter and the runtime: the names and
    signatures under which a module imports host functions, and the dispatch of
    a call to the function of the runtime.  Sources:
    [engine-core/src/resolvers/v1_function_index.rs], [v1_resolver.rs],
    [engine-core/src/execution/runtime/args.rs], [externals.rs]. *)

From stdpp Require Import gmap.
From S2P Require Import Prelude BTreeMap Bytesrepr Uint Types CLValues Account StoredValue Transform.
From S2P Require Import Trie TrackingCopy ApiError ProtocolData ExecutionError RuntimeContext.
From S2P Require Import ExtractURefs Runtime.

(** * Function indices *)

Inductive FunctionIndex :=
| WriteFuncIndex
| WriteLocalFuncIndex
| ReadFuncIndex
| ReadLocalFuncIndex
| AddFuncIndex
| AddLocalFuncIndex
| NewFuncIndex
| RetFuncIndex
| CallContractFuncIndex
| GetArgFuncIndex
| GetKeyFuncIndex
| GasFuncIndex
| HasKeyFuncIndex
| PutKeyFuncIndex
| StoreFnIndex
| StoreFnAtHashIndex
| IsValidURefFnIndex
| RevertFuncIndex
| AddAssociatedKeyFuncIndex
| RemoveAssociatedKeyFuncIndex
| UpdateAssociatedKeyFuncIndex
| SetActionThresholdFuncIndex
| LoadNamedKeysFuncIndex
| RemoveKeyFuncIndex
| GetCallerIndex
| GetBlocktimeIndex
| CreatePurseIndex
| TransferToAccountIndex
| TransferFromPurseToAccountIndex
| TransferFromPurseToPurseIndex
| GetBalanceIndex
| GetPhaseIndex
| UpgradeContractAtURefIndex
| GetSystemContractIndex
| GetMainPurseIndex
| GetArgSizeFuncIndex
| ReadHostBufferIndex.

#[global] Instance function_index_eq_dec : EqDecision FunctionIndex.
Proof. solve_decision. Defined.

(** The variants in the order of the declaration. *)
Definition function_indices : list FunctionIndex :=
  [WriteFuncIndex; WriteLocalFuncIndex; ReadFuncIndex; ReadLocalFuncIndex; AddFuncIndex; AddLocalFuncIndex;
   NewFuncIndex; RetFuncIndex; CallContractFuncIndex; GetArgFuncIndex; GetKeyFuncIndex; GasFuncIndex;
   HasKeyFuncIndex; PutKeyFuncIndex; StoreFnIndex; StoreFnAtHashIndex; IsValidURefFnIndex; RevertFuncIndex;
   AddAssociatedKeyFuncIndex; RemoveAssociatedKeyFuncIndex; UpdateAssociatedKeyFuncIndex;
   SetActionThresholdFuncIndex; LoadNamedKeysFuncIndex; RemoveKeyFuncIndex; GetCallerIndex;
   GetBlocktimeIndex; CreatePurseIndex; TransferToAccountIndex; TransferFromPurseToAccountIndex;
   TransferFromPurseToPurseIndex; GetBalanceIndex; GetPhaseIndex; UpgradeContractAtURefIndex;
   GetSystemContractIndex; GetMainPurseIndex; GetArgSizeFuncIndex; ReadHostBufferIndex].

Fixpoint position {A} `{EqDecision A} (x : A) (l : list A) : nat :=
  match l with
  | [] => O
  | y :: l' => if decide (x = y) then O else S (position x l')
  end.

(** [#[repr(usize)]], [to_usize] and [from_usize]. *)
Definition function_index_into (f : FunctionIndex) : nat := position f function_indices.

Definition function_index_try_from (value : nat) : outcome bytes FunctionIndex :=
  ok_or (function_indices !! value) (str "Invalid function index").

(** * Signatures *)

(** All parameters are of type [I32]; a result, if any, is too. *)
Record Signature := mk_signature {
  sig_params : nat;
  sig_result : bool;
}.

Definition resolve_table : list (bytes * (Signature * FunctionIndex)) :=
  [(str "read_value", (mk_signature 3 true, ReadFuncIndex));
   (str "read_value_local", (mk_signature 3 true, ReadLocalFuncIndex));
   (str "load_named_keys", (mk_signature 2 true, LoadNamedKeysFuncIndex));
   (str "write", (mk_signature 4 false, WriteFuncIndex));
   (str "write_local", (mk_signature 4 false, WriteLocalFuncIndex));
   (str "add", (mk_signature 4 false, AddFuncIndex));
   (str "add_local", (mk_signature 4 false, AddLocalFuncIndex));
   (str "new_uref", (mk_signature 3 false, NewFuncIndex));
   (str "get_arg_size", (mk_signature 2 true, GetArgSizeFuncIndex));
   (str "get_arg", (mk_signature 3 true, GetArgFuncIndex));
   (str "ret", (mk_signature 2 false, RetFuncIndex));
   (str "call_contract", (mk_signature 5 true, CallContractFuncIndex));
   (str "get_key", (mk_signature 5 true, GetKeyFuncIndex));
   (str "has_key", (mk_signature 2 true, HasKeyFuncIndex));
   (str "put_key", (mk_signature 4 false, PutKeyFuncIndex));
   (str "gas", (mk_signature 1 false, GasFuncIndex));
   (str "store_function", (mk_signature 5 false, StoreFnIndex));
   (str "store_function_at_hash", (mk_signature 5 false, StoreFnAtHashIndex));
   (str "is_valid_uref", (mk_signature 2 true, IsValidURefFnIndex));
   (str "revert", (mk_signature 1 false, RevertFuncIndex));
   (str "add_associated_key", (mk_signature 2 true, AddAssociatedKeyFuncIndex));
   (str "remove_associated_key", (mk_signature 1 true, RemoveAssociatedKeyFuncIndex));
   (str "update_associated_key", (mk_signature 2 true, UpdateAssociatedKeyFuncIndex));
   (str "set_action_threshold", (mk_signature 2 true, SetActionThresholdFuncIndex));
   (str "remove_key", (mk_signature 2 false, RemoveKeyFuncIndex));
   (str "get_caller", (mk_signature 1 false, GetCallerIndex));
   (str "get_blocktime", (mk_signature 1 false, GetBlocktimeIndex));
   (str "create_purse", (mk_signature 2 true, CreatePurseIndex));
   (str "transfer_to_account", (mk_signature 4 true, TransferToAccountIndex));
   (str "transfer_from_purse_to_account", (mk_signature 6 true, TransferFromPurseToAccountIndex));
   (str "transfer_from_purse_to_purse", (mk_signature 6 true, TransferFromPurseToPurseIndex));
   (str "get_balance", (mk_signature 3 true, GetBalanceIndex));
   (str "get_phase", (mk_signature 1 false, GetPhaseIndex));
   (str "upgrade_contract_at_uref", (mk_signature 4 true, UpgradeContractAtURefIndex));
   (str "get_system_contract", (mk_signature 3 true, GetSystemContractIndex));
   (str "get_main_purse", (mk_signature 1 false, GetMainPurseIndex));
   (str "read_host_buffer", (mk_signature 3 true, ReadHostBufferIndex))].

Fixpoint table_find {A} (name : bytes) (l : list (bytes * A)) : option A :=
  match l with
  | [] => None
  | (n, a) :: l' => if decide (n = name) then Some a else table_find name l'
  end.

(** What the dispatch uses of [wasmi]: values, reading the [n]th argument as an
    unsigned integer of 32 or 8 bits, and the errors of the resolver. *)
Class WasmValues {F : ForeignErrors} := {
  RuntimeValue : Type;
  rv_I32 : Z -> RuntimeValue;
  nth_checked_u32 : list RuntimeValue -> nat -> outcome WasmiOther Z;
  nth_checked_u8 : list RuntimeValue -> nat -> outcome WasmiOther Z;
  wasmi_Function : bytes -> WasmiOther;
  wasmi_Instantiation : bytes -> WasmiOther;
}.

(** The documented behaviour: an argument that is there and has the type is read,
    as the unsigned integer with its bits; a missing one is an error. *)
Class WasmValuesLaws `{W : WasmValues} : Prop := {
  nth_checked_u32_ok args i z :
    args !! i = Some (rv_I32 z) -> nth_checked_u32 args i = Ok (wrap_unsigned 32 z);
  nth_checked_u8_ok args i z :
    args !! i = Some (rv_I32 z) -> is_unsigned 8 z -> nth_checked_u8 args i = Ok z;
  nth_checked_u32_range args i z : nth_checked_u32 args i = Ok z -> is_unsigned 32 z;
  nth_checked_u32_missing args i : args !! i = None -> exists e, nth_checked_u32 args i = Err e;
  nth_checked_u8_missing args i : args !! i = None -> exists e, nth_checked_u8 args i = Err e;
}.

Section resolver.
Context {F : ForeignErrors} {W : WasmValues} {Mem : Type}.

(** [FuncInstance::alloc_host(signature, index)]. *)
Definition resolve_func (field_name : bytes) : outcome WasmiOther (Signature * nat) :=
  match table_find field_name resolve_table with
  | Some (signature, f) => Ok (signature, function_index_into f)
  | None => Err (wasmi_Function (str "host module doesn't export function with name " ++ field_name))
  end.

Definition MAX_MEMORY : Z := 64.

(** The memory a resolver has allocated. *)
Definition memory_ref (memory : option Mem) : outcome ResolverError Mem := ok_or memory NoImportedMemory.

(** [alloc] is [MemoryInstance::alloc]: the initial and the maximal number of
    pages. *)
Definition resolve_memory (alloc : Z -> option Z -> outcome WasmiOther Mem) (field_name : bytes)
    (initial : Z) (maximum : option Z) (memory : option Mem) : outcome WasmiOther (Mem * option Mem) :=
  if bool_decide (field_name = str "memory") then
    let effective_max := match maximum with Some m => m | None => MAX_MEMORY + 1 end in
    if (initial >? MAX_MEMORY) || (effective_max >? MAX_MEMORY) then
      Err (wasmi_Instantiation (str "Module requested too much memory"))
    else
      let? mem := alloc initial maximum in
      Ok (mem, Some mem)
  else Err (wasmi_Instantiation (str "Memory imported under unknown name")).
End resolver.

(** * Arguments *)

(** A call of a host function with its arguments parsed; those a function
    ignores are left out of its call. *)
Inductive HostCall :=
| HC_Read (key_ptr key_size output_size_ptr : Z)
| HC_ReadLocal (key_ptr key_size output_size_ptr : Z)
| HC_LoadNamedKeys (total_keys_ptr result_size_ptr : Z)
| HC_Write (key_ptr key_size value_ptr value_size : Z)
| HC_WriteLocal (key_bytes_ptr key_bytes_size value_ptr value_size : Z)
| HC_Add (key_ptr key_size value_ptr value_size : Z)
| HC_AddLocal (key_bytes_ptr key_bytes_size value_ptr value_size : Z)
| HC_New (key_ptr value_ptr value_size : Z)
| HC_GetArgSize (index size_ptr : Z)
| HC_GetArg (index dest_ptr dest_size : Z)
| HC_Ret (value_ptr value_size : Z)
| HC_CallContract (key_ptr key_size args_ptr args_size result_size_ptr : Z)
| HC_GetKey (name_ptr name_size output_ptr output_size bytes_written : Z)
| HC_HasKey (name_ptr name_size : Z)
| HC_PutKey (name_ptr name_size key_ptr key_size : Z)
| HC_RemoveKey (name_ptr name_size : Z)
| HC_GetCaller (dest_ptr : Z)
| HC_GetBlocktime (dest_ptr : Z)
| HC_Gas (gas_arg : Z)
| HC_StoreFn (name_ptr name_size urefs_ptr urefs_size hash_ptr : Z)
| HC_StoreFnAtHash (name_ptr name_size urefs_ptr urefs_size hash_ptr : Z)
| HC_IsValidURef (uref_ptr uref_size : Z)
| HC_Revert (status : Z)
| HC_AddAssociatedKey (public_key_ptr weight_value : Z)
| HC_RemoveAssociatedKey (public_key_ptr : Z)
| HC_UpdateAssociatedKey (public_key_ptr weight_value : Z)
| HC_SetActionThreshold (action_type_value threshold_value : Z)
| HC_CreatePurse (dest_ptr dest_size : Z)
| HC_TransferToAccount (key_ptr key_size amount_ptr amount_size : Z)
| HC_TransferFromPurseToAccount (source_ptr source_size key_ptr key_size amount_ptr amount_size : Z)
| HC_TransferFromPurseToPurse (source_ptr source_size target_ptr target_size amount_ptr amount_size : Z)
| HC_GetBalance (ptr ptr_size output_size_ptr : Z)
| HC_GetPhase (dest_ptr : Z)
| HC_UpgradeContractAtURef (name_ptr name_size key_ptr key_size : Z)
| HC_GetSystemContract (system_contract_index dest_ptr : Z)
| HC_GetMainPurse (dest_ptr : Z)
| HC_ReadHostBuffer (dest_ptr dest_size bytes_written_ptr : Z).

Section args.
Context {F : ForeignErrors} {W : WasmValues}.
Implicit Types args : list RuntimeValue.

#[local] Abbreviation O A := (outcome WasmiOther A).

(** [Args::parse] at the types of the dispatch: each component is the argument
    at its position. *)
Definition parse1 {A} (k : Z -> A) args : O A := let? a0 := nth_checked_u32 args 0 in Ok (k a0).

Definition parse2 {A} (k : Z -> Z -> A) args : O A :=
  let? a0 := nth_checked_u32 args 0 in
  let? a1 := nth_checked_u32 args 1 in
  Ok (k a0 a1).

(** [(u32, u8)]. *)
Definition parse_byte2 {A} (k : Z -> Z -> A) args : O A :=
  let? a0 := nth_checked_u32 args 0 in
  let? a1 := nth_checked_u8 args 1 in
  Ok (k a0 a1).

Definition parse3 {A} (k : Z -> Z -> Z -> A) args : O A :=
  let? a0 := nth_checked_u32 args 0 in
  let? a1 := nth_checked_u32 args 1 in
  let? a2 := nth_checked_u32 args 2 in
  Ok (k a0 a1 a2).

Definition parse4 {A} (k : Z -> Z -> Z -> Z -> A) args : O A :=
  let? a0 := nth_checked_u32 args 0 in
  let? a1 := nth_checked_u32 args 1 in
  let? a2 := nth_checked_u32 args 2 in
  let? a3 := nth_checked_u32 args 3 in
  Ok (k a0 a1 a2 a3).

Definition parse5 {A} (k : Z -> Z -> Z -> Z -> Z -> A) args : O A :=
  let? a0 := nth_checked_u32 args 0 in
  let? a1 := nth_checked_u32 args 1 in
  let? a2 := nth_checked_u32 args 2 in
  let? a3 := nth_checked_u32 args 3 in
  let? a4 := nth_checked_u32 args 4 in
  Ok (k a0 a1 a2 a3 a4).

Definition parse6 {A} (k : Z -> Z -> Z -> Z -> Z -> Z -> A) args : O A :=
  let? a0 := nth_checked_u32 args 0 in
  let? a1 := nth_checked_u32 args 1 in
  let? a2 := nth_checked_u32 args 2 in
  let? a3 := nth_checked_u32 args 3 in
  let? a4 := nth_checked_u32 args 4 in
  let? a5 := nth_checked_u32 args 5 in
  Ok (k a0 a1 a2 a3 a4 a5).

Definition parse_call (func : FunctionIndex) args : O HostCall :=
  match func with
  | ReadFuncIndex => parse3 HC_Read args
  | ReadLocalFuncIndex => parse3 HC_ReadLocal args
  | LoadNamedKeysFuncIndex => parse2 HC_LoadNamedKeys args
  | WriteFuncIndex => parse4 HC_Write args
  | WriteLocalFuncIndex => parse4 HC_WriteLocal args
  | AddFuncIndex => parse4 HC_Add args
  | AddLocalFuncIndex => parse4 HC_AddLocal args
  | NewFuncIndex => parse3 HC_New args
  | GetArgSizeFuncIndex => parse2 HC_GetArgSize args
  | GetArgFuncIndex => parse3 HC_GetArg args
  | RetFuncIndex => parse2 HC_Ret args
  | CallContractFuncIndex => parse5 HC_CallContract args
  | GetKeyFuncIndex => parse5 HC_GetKey args
  | HasKeyFuncIndex => parse2 HC_HasKey args
  | PutKeyFuncIndex => parse4 HC_PutKey args
  | RemoveKeyFuncIndex => parse2 HC_RemoveKey args
  | GetCallerIndex => parse1 HC_GetCaller args
  | GetBlocktimeIndex => parse1 HC_GetBlocktime args
  | GasFuncIndex => parse1 HC_Gas args
  | StoreFnIndex => parse5 HC_StoreFn args
  | StoreFnAtHashIndex => parse5 HC_StoreFnAtHash args
  | IsValidURefFnIndex => parse2 HC_IsValidURef args
  | RevertFuncIndex => parse1 HC_Revert args
  | AddAssociatedKeyFuncIndex => parse_byte2 HC_AddAssociatedKey args
  | RemoveAssociatedKeyFuncIndex => parse1 HC_RemoveAssociatedKey args
  | UpdateAssociatedKeyFuncIndex => parse_byte2 HC_UpdateAssociatedKey args
  | SetActionThresholdFuncIndex => parse_byte2 HC_SetActionThreshold args
  | CreatePurseIndex => parse2 HC_CreatePurse args
  | TransferToAccountIndex => parse4 HC_TransferToAccount args
  | TransferFromPurseToAccountIndex => parse6 HC_TransferFromPurseToAccount args
  | TransferFromPurseToPurseIndex => parse6 HC_TransferFromPurseToPurse args
  | GetBalanceIndex => parse3 HC_GetBalance args
  | GetPhaseIndex => parse1 HC_GetPhase args
  | UpgradeContractAtURefIndex => parse4 HC_UpgradeContractAtURef args
  | GetSystemContractIndex => parse3 (fun index dest_ptr _ => HC_GetSystemContract index dest_ptr) args
  | GetMainPurseIndex => parse1 HC_GetMainPurse args
  | ReadHostBufferIndex => parse3 HC_ReadHostBuffer args
  end.
End args.

(** * Dispatch *)

Section externals.
Context {L G Mem Module : Type} `{LinkedHashMap L, Rng G} {meter : Meter} {dbg : DebugText} {qtext : QueryText}.
Context {mtext : MismatchText} {hasher : Hasher} {F : ForeignErrors} `{!Platform Mem Module} {W : WasmValues}.
Context {alloc : Allocator} {layout : Layout} {E : Type}.
Context (reader : Key -> outcome E (option StoredValue)) (into_error : E -> ExecError).
Context (overflow_checks : bool).
Context (invoke_call : Module -> eff (Runtime L G Mem Module) InterpreterError unit).

#[local] Abbreviation RT := (Runtime L G Mem Module).
#[local] Abbreviation T A := (eff RT InterpreterError A).

(** [Ok(Some(RuntimeValue::I32(f(ret))))] and [Ok(None)]. *)
Definition returns {A} (f : A -> Z) (m : T A) : T (option RuntimeValue) :=
  let! ret := m in eret (Some (rv_I32 (f ret))).

Definition returns_nothing (m : T unit) : T (option RuntimeValue) := let! _ := m in eret None.

Definition named_keys_codec : Codec (BTreeMap bytes Key) := clt_codec (clt_map clt_string clt_key).

(** Storing a function: its code and names from memory, its address to memory. *)
Definition store_fn (store : bytes -> BTreeMap bytes Key -> eff RT ExecError bytes)
    (name_ptr name_size urefs_ptr urefs_size hash_ptr : Z) : T unit :=
  let! fn_bytes := get_function_by_name name_ptr name_size in
  let! urefs := trap (value_from_mem named_keys_codec urefs_ptr urefs_size) in
  let! contract_hash := trap (store fn_bytes urefs) in
  function_address contract_hash hash_ptr.

Definition create_purse_at (dest_ptr dest_size : Z) : eff RT ExecError unit :=
  let! purse_id := create_purse reader into_error invoke_call in
  let! purse_id_bytes := elift (omap_err EE_BytesRepr (to_bytes purse_id_codec purse_id)) in
  let! _ := elift (oassert (dest_size =? wrap_unsigned 32 (zlen purse_id_bytes))) in
  write_mem dest_ptr purse_id_bytes.

Definition transfer_to_account_at (key_ptr key_size amount_ptr amount_size : Z) : eff RT ExecError TransferResult :=
  let! public_key := value_from_mem public_key_codec key_ptr key_size in
  let! amount := value_from_mem u512_codec amount_ptr amount_size in
  transfer_to_account reader into_error invoke_call public_key amount.

Definition transfer_from_purse_at (source_ptr source_size key_ptr key_size amount_ptr amount_size : Z)
    : eff RT ExecError TransferResult :=
  let! source_purse := value_from_mem purse_id_codec source_ptr source_size in
  let! public_key := value_from_mem public_key_codec key_ptr key_size in
  let! amount := value_from_mem u512_codec amount_ptr amount_size in
  transfer_from_purse_to_account reader into_error invoke_call source_purse public_key amount.

Definition call_contract_at (key_ptr key_size args_ptr args_size result_size_ptr : Z)
    : eff RT ExecError (unit + ApiError) :=
  let! key_contract := key_from_mem key_ptr key_size in
  let! args_bytes := bytes_from_mem args_ptr args_size in
  call_contract_host_buf reader into_error invoke_call key_contract args_bytes result_size_ptr.

Definition run_call (call : HostCall) : T (option RuntimeValue) :=
  match call with
  | HC_Read key_ptr key_size output_size_ptr =>
      returns i32_from (host_read reader into_error key_ptr key_size output_size_ptr)
  | HC_ReadLocal key_ptr key_size output_size_ptr =>
      returns i32_from (host_read_local reader into_error key_ptr key_size output_size_ptr)
  | HC_LoadNamedKeys total_keys_ptr result_size_ptr =>
      returns i32_from (load_named_keys total_keys_ptr result_size_ptr)
  | HC_Write key_ptr key_size value_ptr value_size =>
      returns_nothing (host_write key_ptr key_size value_ptr value_size)
  | HC_WriteLocal key_ptr key_size value_ptr value_size =>
      returns_nothing (host_write_local key_ptr key_size value_ptr value_size)
  | HC_Add key_ptr key_size value_ptr value_size =>
      returns_nothing (host_add reader into_error key_ptr key_size value_ptr value_size)
  | HC_AddLocal key_ptr key_size value_ptr value_size =>
      returns_nothing (host_add_local reader into_error key_ptr key_size value_ptr value_size)
  | HC_New key_ptr value_ptr value_size => returns_nothing (host_new_uref key_ptr value_ptr value_size)
  | HC_GetArgSize index size_ptr => returns i32_from (trap (get_arg_size index size_ptr))
  | HC_GetArg index dest_ptr dest_size => returns i32_from (trap (get_arg index dest_ptr dest_size))
  | HC_Ret value_ptr value_size => returns_nothing (ret value_ptr value_size)
  | HC_CallContract key_ptr key_size args_ptr args_size result_size_ptr =>
      returns i32_from (trap (call_contract_at key_ptr key_size args_ptr args_size result_size_ptr))
  | HC_GetKey name_ptr name_size output_ptr output_size bytes_written =>
      returns i32_from (load_key name_ptr name_size output_ptr output_size bytes_written)
  | HC_HasKey name_ptr name_size => returns id (has_key name_ptr name_size)
  | HC_PutKey name_ptr name_size key_ptr key_size =>
      returns_nothing (host_put_key reader into_error name_ptr name_size key_ptr key_size)
  | HC_RemoveKey name_ptr name_size => returns_nothing (host_remove_key reader into_error name_ptr name_size)
  | HC_GetCaller dest_ptr => returns_nothing (host_get_caller dest_ptr)
  | HC_GetBlocktime dest_ptr => returns_nothing (host_get_blocktime dest_ptr)
  | HC_Gas gas_arg => returns_nothing (gas gas_arg)
  | HC_StoreFn name_ptr name_size urefs_ptr urefs_size hash_ptr =>
      returns_nothing (store_fn host_store_function name_ptr name_size urefs_ptr urefs_size hash_ptr)
  | HC_StoreFnAtHash name_ptr name_size urefs_ptr urefs_size hash_ptr =>
      returns_nothing (store_fn (host_store_function_at_hash overflow_checks)
        name_ptr name_size urefs_ptr urefs_size hash_ptr)
  | HC_IsValidURef uref_ptr uref_size => returns (fun b : bool => if b then 1 else 0) (is_valid_uref uref_ptr uref_size)
  | HC_Revert status => returns_nothing (revert status)
  | HC_AddAssociatedKey public_key_ptr weight_value =>
      returns id (host_add_associated_key reader into_error public_key_ptr weight_value)
  | HC_RemoveAssociatedKey public_key_ptr =>
      returns id (host_remove_associated_key reader into_error public_key_ptr)
  | HC_UpdateAssociatedKey public_key_ptr weight_value =>
      returns id (host_update_associated_key reader into_error public_key_ptr weight_value)
  | HC_SetActionThreshold action_type_value threshold_value =>
      returns id (host_set_action_threshold reader into_error action_type_value threshold_value)
  | HC_CreatePurse dest_ptr dest_size => returns (fun _ => 0) (trap (create_purse_at dest_ptr dest_size))
  | HC_TransferToAccount key_ptr key_size amount_ptr amount_size =>
      returns transfer_i32_from (trap (transfer_to_account_at key_ptr key_size amount_ptr amount_size))
  | HC_TransferFromPurseToAccount source_ptr source_size key_ptr key_size amount_ptr amount_size =>
      returns transfer_i32_from
        (trap (transfer_from_purse_at source_ptr source_size key_ptr key_size amount_ptr amount_size))
  | HC_TransferFromPurseToPurse source_ptr source_size target_ptr target_size amount_ptr amount_size =>
      returns i32_from (trap (transfer_from_purse_to_purse reader into_error invoke_call
        source_ptr source_size target_ptr target_size amount_ptr amount_size))
  | HC_GetBalance ptr ptr_size output_size_ptr =>
      returns i32_from (trap (get_balance_host_buf reader into_error ptr ptr_size output_size_ptr))
  | HC_GetPhase dest_ptr => returns_nothing (host_get_phase dest_ptr)
  | HC_UpgradeContractAtURef name_ptr name_size key_ptr key_size =>
      returns i32_from (host_upgrade_contract_at_uref reader into_error name_ptr name_size key_ptr key_size)
  | HC_GetSystemContract index dest_ptr => returns i32_from (get_system_contract index dest_ptr)
  | HC_GetMainPurse dest_ptr => returns_nothing (host_get_main_purse dest_ptr)
  | HC_ReadHostBuffer dest_ptr dest_size bytes_written_ptr =>
      returns i32_from (trap (read_host_buffer dest_ptr dest_size bytes_written_ptr))
  end.

(** [FunctionIndex::try_from(index).expect(...)], then the call. *)
Definition invoke_index (index : nat) (args : list RuntimeValue) : T (option RuntimeValue) :=
  match function_index_try_from index with
  | Ok func =>
      let! call := elift (omap_err IE_Other (parse_call func args)) in
      run_call call
  | _ => elift Panic
  end.
End externals.

(** * Signatures and calls agree *)

Lemma table_find_in {A} name (l : list (bytes * A)) a : table_find name l = Some a -> In (name, a) l.
Proof.
  induction l as [|[n b] l IH]; cbn; [done|]. destruct (decide (n = name)) as [->|_].
  - intros [= ->]. by left.
  - intros Hf. right. by apply IH.
Qed.

Lemma function_index_roundtrip f : function_index_try_from (function_index_into f) = Ok f.
Proof. by destruct f. Qed.

(** Every function is exported, under one name. *)
Lemma resolve_table_complete :
  NoDup (map fst resolve_table) /\ forall f, exists name s, In (name, (s, f)) resolve_table.
Proof.
  split.
  - apply (bool_decide_unpack _). by vm_compute.
  - intros f. destruct (list_find (fun e => e.2.2 = f) resolve_table) as [[i [name [s g]]]|] eqn:Ef.
    + apply list_find_Some in Ef as (Hl & Hg & _). cbn in Hg. subst g. exists name, s.
      apply list_elem_of_In. by apply list_elem_of_lookup_2 in Hl.
    + by destruct f.
Qed.

(** The entries of the table one by one. *)
Ltac each_entry Hin := unfold resolve_table in Hin; repeat (destruct Hin as [[= _ <- <-]|Hin]; [|]); [..|destruct Hin].

Ltac unfold_parsers :=
  cbn [parse_call]; unfold parse1, parse2, parse3, parse4, parse5, parse6, parse_byte2.

Section typing.
Context {F : ForeignErrors} {W : WasmValues} {WL : WasmValuesLaws}.
Implicit Types args : list RuntimeValue.

(** Reads the arguments that are there. *)
Ltac read_args :=
  repeat first
    [ progress cbn [obind]
    | erewrite nth_checked_u32_ok by reflexivity
    | erewrite nth_checked_u8_ok by (first [reflexivity | assumption]) ].

Lemma parse_call_total name s f zs :
  In (name, (s, f)) resolve_table -> length zs = sig_params s -> Forall (is_unsigned 8) zs ->
  exists call, parse_call f (map rv_I32 zs) = Ok call.
Proof.
  intros Hin Hlen Hz. each_entry Hin; cbn in Hlen;
    repeat (destruct zs as [|? zs]; cbn in Hlen; try discriminate Hlen);
    repeat (apply Forall_cons_iff in Hz as [? Hz]);
    cbn [map]; unfold_parsers; read_args; eauto.
Qed.

Lemma nth_u32_present args i z : nth_checked_u32 args i = Ok z -> (i < length args)%nat.
Proof.
  intros Hn. apply lookup_lt_is_Some. destruct (args !! i) eqn:Ei; [by eauto|].
  destruct (nth_checked_u32_missing args i Ei). congruence.
Qed.

Lemma nth_u8_present args i z : nth_checked_u8 args i = Ok z -> (i < length args)%nat.
Proof.
  intros Hn. apply lookup_lt_is_Some. destruct (args !! i) eqn:Ei; [by eauto|].
  destruct (nth_checked_u8_missing args i Ei). congruence.
Qed.

(** Whether a call has a result. *)
Definition call_result (call : HostCall) : bool :=
  match call with
  | HC_Write _ _ _ _ | HC_WriteLocal _ _ _ _ | HC_Add _ _ _ _ | HC_AddLocal _ _ _ _ | HC_New _ _ _
  | HC_Ret _ _ | HC_PutKey _ _ _ _ | HC_RemoveKey _ _ | HC_GetCaller _ | HC_GetBlocktime _ | HC_Gas _
  | HC_StoreFn _ _ _ _ _ | HC_StoreFnAtHash _ _ _ _ _ | HC_Revert _ | HC_GetPhase _ | HC_GetMainPurse _ => false
  | _ => true
  end.

Lemma parse_call_inv name s f args call :
  In (name, (s, f)) resolve_table -> parse_call f args = Ok call ->
  (sig_params s <= length args)%nat /\ call_result call = sig_result s.
Proof.
  intros Hin Hp. each_entry Hin; revert Hp; unfold_parsers; intros Hp; obind_inv; (split; [|done]);
    repeat match goal with
    | Hn : nth_checked_u32 _ _ = Ok _ |- _ => apply nth_u32_present in Hn
    | Hn : nth_checked_u8 _ _ = Ok _ |- _ => apply nth_u8_present in Hn
    end; cbn; lia.
Qed.
End typing.

Section results.
Context {L G Mem Module : Type} `{LinkedHashMap L, Rng G} {meter : Meter} {dbg : DebugText} {qtext : QueryText}.
Context {mtext : MismatchText} {hasher : Hasher} {F : ForeignErrors} `{!Platform Mem Module} {W : WasmValues} {WL : WasmValuesLaws}.
Context {alloc : Allocator} {layout : Layout} {E : Type}.
Context (reader : Key -> outcome E (option StoredValue)) (into_error : E -> ExecError).
Context (overflow_checks : bool).
Context (invoke_call : Module -> eff (Runtime L G Mem Module) InterpreterError unit).

#[local] Abbreviation RT := (Runtime L G Mem Module).
#[local] Abbreviation T A := (eff RT InterpreterError A).

(** What a call returns when it returns. *)
Definition result_typed (b : bool) (m : T (option RuntimeValue)) : Prop :=
  forall rt o rt', m rt = (Ok o, rt') ->
  if b then exists z, o = Some (rv_I32 z) /\ is_signed 32 z else o = None.

Lemma typed_nothing m : result_typed false (returns_nothing m).
Proof. intros rt o rt' Hr. apply ebind_ok in Hr as (a & rt1 & _ & [= <- _]). done. Qed.

Lemma typed_returns_in {A} (f : A -> Z) (m : T A) :
  (forall rt a rt', m rt = (Ok a, rt') -> is_signed 32 (f a)) -> result_typed true (returns f m).
Proof. intros Hm rt o rt' Hr. apply ebind_ok in Hr as (a & rt1 & Ha & [= <- _]). eauto. Qed.

Lemma typed_returns {A} (f : A -> Z) (m : T A) : (forall a, is_signed 32 (f a)) -> result_typed true (returns f m).
Proof. intros Hf. apply typed_returns_in. auto. Qed.

Lemma small_signed z : 0 <= z < 128 -> is_signed 32 z.
Proof. unfold is_signed. cbn. lia. Qed.

Lemma i32_from_signed r : is_signed 32 (i32_from r).
Proof. destruct r; cbn; [by apply small_signed | by apply wrap_signed_range]. Qed.

Lemma transfer_i32_from_signed r : is_signed 32 (transfer_i32_from r).
Proof. destruct r as [[]|]; by apply small_signed. Qed.

Lemma failure_code_signed :
  (forall f, is_signed 32 (add_key_failure_code f)) /\ (forall f, is_signed 32 (remove_key_failure_code f))
  /\ (forall f, is_signed 32 (update_key_failure_code f)) /\ (forall f, is_signed 32 (set_threshold_failure_code f)).
Proof. split_and!; intros []; by apply small_signed. Qed.

Lemma key_result_signed code (m : eff RT ExecError unit) rt z rt' :
  (forall e c, code e = Some c -> is_signed 32 c) -> key_result code m rt = (Ok z, rt') -> is_signed 32 z.
Proof.
  intros Hc Hr. apply ebind_ok in Hr as ([[]|e] & rt1 & _ & Hr); [injection Hr as <- _; by apply small_signed|].
  destruct (code e) eqn:Ee; [injection Hr as <- _; eauto | discriminate Hr].
Qed.

Lemma run_call_typed call :
  result_typed (call_result call) (run_call reader into_error overflow_checks invoke_call call).
Proof.
  destruct call; cbn [call_result run_call];
    first [apply typed_nothing | apply typed_returns; by intros [] | apply typed_returns; apply i32_from_signed
          | apply typed_returns; apply transfer_i32_from_signed | apply typed_returns_in; intros rt a rt' Hr ].
  - apply ebind_ok in Hr as (n & rt1 & _ & [= <- _]). cbn. case_match; by apply small_signed.
  - apply ebind_ok in Hr as (pk & rt1 & _ & Hr). apply key_result_signed in Hr; [done|].
    intros [] c; try done. intros [= <-]. apply failure_code_signed.
  - apply ebind_ok in Hr as (pk & rt1 & _ & Hr). apply key_result_signed in Hr; [done|].
    intros [] c; try done. intros [= <-]. apply failure_code_signed.
  - apply ebind_ok in Hr as (pk & rt1 & _ & Hr). apply key_result_signed in Hr; [done|].
    intros [] c; try done. intros [= <-]. apply failure_code_signed.
  - unfold host_set_action_threshold in Hr. destruct (action_type_try_from action_type_value); try discriminate Hr.
    apply key_result_signed in Hr; [done|].
    intros [] c; try done. intros [= <-]. apply failure_code_signed.
Qed.

(** C37: the signatures under which host functions are exported are those of
    the functions. A module that imports a name with the signature of the table
    calls a known function, which reads exactly as many arguments as the
    signature has, and returns a 32-bit integer just when the signature says
    so. *)
Theorem host_calls_typed name s index :
  resolve_func name = Ok (s, index) ->
  exists f, function_index_try_from index = Ok f
  /\ (forall zs, length zs = sig_params s -> Forall (is_unsigned 8) zs ->
        exists call, parse_call f (map rv_I32 zs) = Ok call)
  /\ (forall args call, parse_call f args = Ok call -> (sig_params s <= length args)%nat)
  /\ (forall args, result_typed (sig_result s)
        (invoke_index reader into_error overflow_checks invoke_call index args)).
Proof.
  unfold resolve_func. destruct (table_find name resolve_table) as [[s' f]|] eqn:Ef; [|done].
  intros [= -> <-]. apply table_find_in in Ef. exists f. rewrite function_index_roundtrip.
  split_and!; [done | by eauto using parse_call_total | |].
  - intros args call Hp. by apply (parse_call_inv name s f args call).
  - intros args rt o rt'. unfold invoke_index. rewrite function_index_roundtrip. intros Hr.
    apply ebind_ok in Hr as (call & rt1 & Hp & Hr). injection Hp as Hp <-.
    destruct (parse_call f args) as [c|e|] eqn:Ep; try discriminate Hp. injection Hp as ->.
    destruct (parse_call_inv name s f args call Ef Ep) as [_ <-]. by apply (run_call_typed call rt o rt').
Qed.
End results.
