(* ===== verification/RuntimeSafety.v ===== *)
(** What running a contract can do to the runtime: the gas it is charged, the
    host buffer through which it receives values, and what a call hands back to
    the caller.  Sources: [engine-core/src/execution/runtime/mod.rs],
    [externals.rs]. *)

From stdpp Require Import gmap.
From S2P Require Import Prelude BTreeMap Bytesrepr Uint Types CLValues Account StoredValue Transform.
From S2P Require Import Trie TrackingCopy ApiError ProtocolData ExecutionError RuntimeContext.
From S2P Require Import ContextSafety ExtractURefs Runtime HostFunctions.

Create HintDb keeps.

(** * What the operations of the context keep *)

Section context.
Context {L G : Type} `{LinkedHashMap L, Rng G} {meter : Meter} {dbg : DebugText} {qtext : QueryText}.
Context {mtext : MismatchText} {hasher : Hasher} {F : ForeignErrors} {E : Type}.
Context (reader : Key -> outcome E (option StoredValue)) (into_error : E -> ExecError).
Context (overflow_checks : bool).
Implicit Types c : RuntimeContext L G.

(** The parts nothing assigns to, and the gas counter, which only [charge_gas]
    does. *)
Definition same_meter c c' : Prop := fixed c' = fixed c /\ rc_gas_counter c' = rc_gas_counter c.

#[global] Instance same_meter_preorder : PreOrder same_meter.
Proof. split; [by split | intros c1 c2 c3 [A B] [C D]; split; congruence]. Qed.

#[local] Abbreviation keeps := (preserves same_meter).

Lemma keeps_assign f : (forall c, same_meter c (f c)) -> keeps (assign f).
Proof. intros Hf. by apply (preserves_update _ (fun _ => Ok tt)). Qed.

Lemma keeps_on_state {A} (m : eff (TrackingCopy L) E A) : keeps (on_state (L := L) (G := G) into_error m).
Proof. intros c o c'. unfold on_state. destruct (m (rc_state c)). by intros [= _ <-]. Qed.

#[local] Hint Extern 1 (PreOrder _) => typeclasses eauto : keeps.
#[local] Hint Resolve preserves_ret preserves_lift preserves_pure keeps_on_state : keeps.

(** Follows the structure of an operation. *)
Ltac keep_step :=
  match goal with
  | |- forall _, _ => intro
  | |- preserves _ (ebind _ _) => apply preserves_bind; [typeclasses eauto| |]
  | |- preserves _ (ask _) => apply preserves_pure; typeclasses eauto
  | |- preserves _ (assign _) => apply keeps_assign; intros ?; first [done | by repeat case_match]
  | |- preserves _ (write_state _ _) => by apply keeps_assign
  | |- preserves _ (match ?x with _ => _ end) => destruct x
  | |- preserves _ _ => solve [eauto with keeps]
  end.

Ltac keep_all := repeat keep_step.

Lemma keeps_read_gs k : keeps (read_gs (L := L) (G := G) reader into_error k).
Proof. unfold read_gs. keep_all. Qed.

Lemma keeps_read_direct k : keeps (read_gs_direct (L := L) (G := G) reader into_error k).
Proof. apply keeps_on_state. Qed.

#[local] Hint Resolve keeps_read_gs keeps_read_direct : keeps.

Lemma keeps_read_typed {T} (f : StoredValue -> outcome TypeMismatch T) k :
  keeps (read_gs_typed (L := L) (G := G) reader into_error f k).
Proof. unfold read_gs_typed. keep_all. Qed.

Lemma keeps_read_seed sd k : keeps (read_ls_with_seed (L := L) (G := G) reader into_error sd k).
Proof. unfold read_ls_with_seed. keep_all. Qed.

Lemma keeps_read_ls k : keeps (read_ls (L := L) (G := G) reader into_error k).
Proof. apply (preserves_use _ seed (fun sd => read_ls_with_seed reader into_error sd k)). intros sd. apply keeps_read_seed. Qed.

Lemma keeps_read_account k : keeps (read_account (L := L) (G := G) reader into_error k).
Proof. unfold read_account. keep_all. Qed.

Lemma keeps_write_gs k v : keeps (write_gs (L := L) (G := G) k v).
Proof. unfold write_gs. keep_all. Qed.

Lemma keeps_write_ls k v : keeps (write_ls (L := L) (G := G) k v).
Proof.
  apply (preserves_use _ seed (fun sd => write_state (key_local blake2b_hash_new sd k) (SV_CLValue v))). keep_all.
Qed.

Lemma keeps_write_account k a : keeps (write_account (L := L) (G := G) k a).
Proof. unfold write_account. keep_all. Qed.

Lemma keeps_add_unsafe k v : keeps (add_unsafe (L := L) (G := G) reader into_error k v).
Proof. unfold add_unsafe. keep_all. Qed.

#[local] Hint Resolve keeps_read_typed keeps_write_gs keeps_add_unsafe : keeps.

Lemma keeps_add_gs k v : keeps (add_gs (L := L) (G := G) reader into_error k v).
Proof. unfold add_gs. keep_all. Qed.

Lemma keeps_add_ls k v : keeps (add_ls (L := L) (G := G) reader into_error k v).
Proof.
  apply (preserves_use _ seed (fun sd => add_unsafe reader into_error (key_local blake2b_hash_new sd k) (SV_CLValue v))).
  keep_all.
Qed.

Lemma insert_uref_meter u c : same_meter c (insert_uref u c).
Proof. unfold insert_uref. by case_match. Qed.

Lemma insert_key_meter name k c : same_meter c (insert_key name k c).
Proof. unfold insert_key. destruct k as [| |u|]; try done. apply (insert_uref_meter u c). Qed.

Lemma keeps_new_uref v : keeps (new_uref (L := L) (G := G) v).
Proof.
  intros c o c'. unfold new_uref. destruct (create_address (rc_address_generator c)) as [addr g].
  intros Hr. transitivity (set_address_generator g c); [done|]. revert Hr.
  apply preserves_bind; [typeclasses eauto | apply keeps_assign, insert_uref_meter | keep_all].
Qed.

#[local] Hint Resolve keeps_new_uref : keeps.

Lemma keeps_store_function v : keeps (store_function (L := L) (G := G) v).
Proof. unfold store_function. keep_all. Qed.

Lemma keeps_inc : keeps (inc_fn_store_id (L := L) (G := G) overflow_checks).
Proof. intros c o c'. unfold inc_fn_store_id. case_match; by intros [= _ <-]. Qed.

#[local] Hint Resolve keeps_inc : keeps.

Lemma keeps_store_at_hash v : keeps (store_function_at_hash (L := L) (G := G) overflow_checks v).
Proof. unfold store_function_at_hash, new_function_address. keep_all. Qed.

Lemma keeps_upgrade k code nk : keeps (upgrade_contract_at_uref (L := L) (G := G) k code nk).
Proof. unfold upgrade_contract_at_uref. keep_all. Qed.

Lemma keeps_put_key_context name k : keeps (put_key (L := L) (G := G) reader into_error name k).
Proof.
  unfold put_key. do 4 (apply preserves_bind; [typeclasses eauto | keep_all | intros ?]).
  apply keeps_assign, insert_key_meter.
Qed.

Lemma keeps_remove_key name : keeps (remove_key (L := L) (G := G) reader into_error name).
Proof. unfold remove_key, remove_key_from_contract. keep_all. Qed.

Lemma keeps_manage denied change : keeps (manage_account (L := L) (G := G) reader into_error denied change).
Proof. unfold manage_account. keep_all. Qed.
End context.

(** * Relations that host functions keep *)

Section host_relation.
Context {L G Mem Module : Type} `{LinkedHashMap L, Rng G} {meter : Meter} {dbg : DebugText} {qtext : QueryText}.
Context {mtext : MismatchText} {hasher : Hasher} {F : ForeignErrors} `{!Platform Mem Module}.
Context {W : WasmValues} {WL : WasmValuesLaws}.
Context {alloc : Allocator} {layout : Layout} {E : Type}.
Context (reader : Key -> outcome E (option StoredValue)) (into_error : E -> ExecError).
Context (overflow_checks : bool).
Context (invoke_call : Module -> eff (Runtime L G Mem Module) InterpreterError unit).

#[local] Abbreviation RT := (Runtime L G Mem Module).
#[local] Abbreviation T A := (eff RT InterpreterError A).
#[local] Abbreviation X A := (eff RT ExecError A).
Implicit Types rt : RT.


(** A relation between a runtime before and after. *)
Context (R : RT -> RT -> Prop).

#[local] Abbreviation keeps := (preserves R).
#[local] Abbreviation on_context := (on_context (L := L) (G := G) (Mem := Mem) (Module := Module)).

(** It lets the memory and the host buffer change, and holds of gas, of every
    operation on the context and of calls. *)
Class HostRelation : Prop := {
  hr_preorder :: PreOrder R;
  hr_memory : forall rt m, R rt (set_memory m rt);
  hr_buf : forall rt b, R rt (set_host_buf b rt);
  hr_gas : forall amount, 0 <= amount -> keeps (gas amount);
  hr_read_gs : forall k, keeps (on_context (read_gs reader into_error k));
  hr_read_direct : forall k, keeps (on_context (read_gs_direct reader into_error k));
  hr_read_seed : forall sd k, keeps (on_context (read_ls_with_seed reader into_error sd k));
  hr_read_ls : forall k, keeps (on_context (read_ls reader into_error k));
  hr_write_gs : forall k v, keeps (on_context (write_gs k v));
  hr_write_ls : forall k v, keeps (on_context (write_ls k v));
  hr_add_gs : forall k v, keeps (on_context (add_gs reader into_error k v));
  hr_add_ls : forall k v, keeps (on_context (add_ls reader into_error k v));
  hr_new_uref : forall v, keeps (on_context (new_uref v));
  hr_store_function : forall v, keeps (on_context (store_function v));
  hr_store_at_hash : forall v, keeps (on_context (store_function_at_hash overflow_checks v));
  hr_upgrade : forall k code nk, keeps (on_context (upgrade_contract_at_uref k code nk));
  hr_put_key : forall name k, utf8_valid name = true -> key_valid k ->
    keeps (on_context (put_key reader into_error name k));
  hr_remove_key : forall name, keeps (on_context (remove_key reader into_error name));
  hr_add_associated_key : forall pk w, keeps (on_context (context_add_associated_key reader into_error pk w));
  hr_remove_associated_key : forall pk, keeps (on_context (context_remove_associated_key reader into_error pk));
  hr_update_associated_key : forall pk w, keeps (on_context (context_update_associated_key reader into_error pk w));
  hr_set_action_threshold : forall t w, keeps (on_context (context_set_action_threshold reader into_error t w));
  hr_sub_call : forall module args nk key extra v, keeps (sub_call invoke_call module args nk key extra v);
}.

Context `{!HostRelation}.

Lemma keeps_look {A Er} (f : RT -> outcome Er A) : keeps (look f).
Proof. apply preserves_pure. typeclasses eauto. Qed.

Lemma keeps_write_mem ptr bs : keeps (write_mem (L := L) (G := G) (Module := Module) ptr bs).
Proof. intros rt o rt'. unfold write_mem. case_match; intros [= _ <-]; first [apply hr_memory | reflexivity]. Qed.

Lemma keeps_set_buf {Er} b : keeps (fun rt => (Ok (E := Er) tt, set_host_buf b rt)).
Proof. apply preserves_update. intros rt. apply hr_buf. Qed.

Lemma keeps_take_buf {Er} : keeps (fun rt => (Ok (E := Er) (rt_host_buf rt), set_host_buf None rt)).
Proof. apply (preserves_update _ (fun rt => Ok (rt_host_buf rt))). intros rt. apply hr_buf. Qed.

Lemma keeps_write_buf {Er} v : keeps (write_host_buf (L := L) (G := G) (Mem := Mem) (Module := Module) (Er := Er) v).
Proof. intros rt o rt'. unfold write_host_buf. case_match; intros [= _ <-]; first [apply hr_buf | reflexivity]. Qed.

Lemma keeps_empty_buf {Er} (m : eff RT Er (unit + ApiError)) : keeps m -> keeps (with_empty_buf m).
Proof. intros Hm rt o rt'. unfold with_empty_buf. case_match; [apply Hm | by intros [= _ <-]]. Qed.

Lemma keeps_trap {A} (m : X A) : keeps m -> keeps (trap m).
Proof. apply preserves_map_err. Qed.

#[local] Hint Resolve preserves_ret preserves_lift keeps_look keeps_write_mem keeps_set_buf keeps_write_buf keeps_take_buf : keeps.
#[local] Hint Resolve hr_read_gs hr_read_direct hr_read_seed hr_read_ls hr_write_gs hr_write_ls hr_add_gs hr_add_ls : keeps.
#[local] Hint Resolve hr_new_uref hr_store_function hr_store_at_hash hr_upgrade hr_remove_key hr_add_associated_key : keeps.
#[local] Hint Resolve hr_remove_associated_key hr_update_associated_key hr_set_action_threshold hr_sub_call : keeps.
#[local] Hint Extern 1 (PreOrder _) => typeclasses eauto : keeps.

Ltac keep_step :=
  match goal with
  | |- forall _, _ => intro
  | |- preserves _ (ebind _ _) => apply preserves_bind; [typeclasses eauto| |]
  | |- preserves _ (trap _) => apply keeps_trap
  | |- preserves _ (etry _) => apply preserves_try
  | |- preserves _ (with_empty_buf _) => apply keeps_empty_buf
  | |- preserves _ (match ?x with _ => _ end) => destruct x
  | |- preserves _ _ => solve [eauto with keeps]
  end.

Ltac keep_all := repeat keep_step.

Lemma keeps_value {A} (c : Codec A) ptr size :
  keeps (value_from_mem (L := L) (G := G) (Module := Module) c ptr size).
Proof. unfold value_from_mem, bytes_from_mem. keep_all. Qed.

Lemma keeps_bytes ptr size : keeps (bytes_from_mem (L := L) (G := G) (Module := Module) ptr size).
Proof. apply keeps_look. Qed.

Lemma keeps_write_value {A} (c : Codec A) v ptr :
  keeps (write_value (L := L) (G := G) (Module := Module) c v ptr).
Proof. unfold write_value. keep_all. Qed.

Lemma keeps_return_buf v ptr : keeps (return_in_host_buf (L := L) (G := G) (Module := Module) v ptr).
Proof. unfold return_in_host_buf. keep_all. Qed.

#[local] Hint Resolve keeps_value keeps_bytes keeps_write_value keeps_return_buf : keeps.

Lemma keeps_call_contract key bs : keeps (call_contract reader into_error invoke_call key bs).
Proof. unfold call_contract. keep_all. Qed.

#[local] Hint Resolve keeps_call_contract : keeps.

Lemma keeps_mint_transfer k s t a : keeps (mint_transfer reader into_error invoke_call k s t a).
Proof. unfold mint_transfer. keep_all. Qed.

Lemma keeps_mint_create k : keeps (mint_create reader into_error invoke_call k).
Proof. unfold mint_create. keep_all. Qed.

Lemma keeps_get_balance p :
  keeps (get_balance (L := L) (G := G) (Mem := Mem) (Module := Module) reader into_error p).
Proof. unfold get_balance. keep_all. Qed.

#[local] Hint Resolve keeps_mint_transfer keeps_mint_create keeps_get_balance : keeps.

Lemma keeps_function name_ptr name_size :
  keeps (get_function_by_name (L := L) (G := G) name_ptr name_size).
Proof. unfold get_function_by_name, string_from_mem. keep_all. Qed.

#[local] Hint Resolve keeps_function : keeps.

Lemma keeps_key_result code (m : X unit) : keeps m -> keeps (key_result code m).
Proof. intros Hm. unfold key_result. keep_all. Qed.

Lemma keeps_store_fn store np ns up us hp :
  (forall bs nk, keeps (store bs nk)) -> keeps (store_fn (L := L) (G := G) store np ns up us hp).
Proof. intros Hs. unfold store_fn, function_address. keep_all. Qed.

(** Gas is charged in unsigned amounts. *)
Definition charges (call : HostCall) : Prop := match call with HC_Gas amount => 0 <= amount | _ => True end.

Lemma parse_call_charges f args call : parse_call f args = Ok call -> charges call.
Proof.
  destruct f; unfold_parsers; intros Hp; obind_inv; try done. cbn.
  match goal with Hn : nth_checked_u32 _ _ = Ok _ |- _ => apply nth_checked_u32_range in Hn as [? _] end. done.
Qed.

Lemma keeps_returns {A} (f : A -> Z) (m : T A) : keeps m -> keeps (returns f m).
Proof. intros Hm. unfold returns. keep_all. Qed.

Lemma keeps_nothing (m : T unit) : keeps m -> keeps (returns_nothing m).
Proof. intros Hm. unfold returns_nothing. keep_all. Qed.

Lemma keeps_host_store bs nk : keeps (host_store_function (Mem := Mem) (Module := Module) (L := L) (G := G) bs nk).
Proof.
  apply (preserves_use _ (new_contract bs nk) (fun v => on_context (store_function v))). intros v. apply hr_store_function.
Qed.

Lemma keeps_host_store_at_hash bs nk :
  keeps (host_store_function_at_hash (Mem := Mem) (Module := Module) (L := L) (G := G) overflow_checks bs nk).
Proof.
  apply (preserves_use _ (new_contract bs nk) (fun v => on_context (store_function_at_hash overflow_checks v))).
  intros v. apply hr_store_at_hash.
Qed.

#[local] Hint Resolve keeps_host_store keeps_host_store_at_hash : keeps.

(** What is read from memory is well formed. *)
Lemma value_from_mem_valid {A} (c : Codec A) (valid : A -> Prop) ptr size rt a rt' :
  (forall bs a rest, from_bytes c bs = Ok (a, rest) -> valid a) ->
  trap (value_from_mem (L := L) (G := G) (Module := Module) c ptr size) rt = (Ok a, rt') -> valid a.
Proof.
  intros Hc. unfold trap, emap_err, value_from_mem, ebind. cbn. destruct (omap_err _ _) as [bs|e|]; [|done..]. cbn.
  unfold deserialize. destruct (from_bytes c bs) as [[a' rest]|e|] eqn:Ef; cbn; [|done..].
  destruct rest; cbn; [|done]. intros [= <- _]. by apply (Hc bs _ []).
Qed.

Lemma keeps_bind_value {A B} (m : T A) (f : A -> T B) (P : A -> Prop) :
  keeps m -> (forall rt a rt', m rt = (Ok a, rt') -> P a) -> (forall a, P a -> keeps (f a)) -> keeps (ebind m f).
Proof.
  intros Hm Hp Hf rt o rt'. unfold ebind. destruct (m rt) as [[a|e|] rt1] eqn:Em; [|intros [= _ <-]; by apply (Hm _ _ _ Em)..].
  intros Hr. transitivity rt1; [by apply (Hm _ _ _ Em) | by apply (Hf a (Hp _ _ _ Em) _ _ _ Hr)].
Qed.

Lemma keeps_put_key np ns kp ks : keeps (host_put_key reader into_error np ns kp ks).
Proof.
  unfold host_put_key. apply (keeps_bind_value _ _ (fun s => utf8_valid s = true)).
  - unfold string_from_mem. keep_all.
  - intros rt a rt'. apply (value_from_mem_valid string_codec (fun s => utf8_valid s = true)).
    intros bs s rest Hs. cbn in Hs. unfold string_from_bytes in Hs.
    apply obind_ok in Hs as ([s' rem] & _ & Hs). destruct (utf8_valid s') eqn:Eu; [|done]. by injection Hs as -> _.
  - intros name Hn. apply (keeps_bind_value _ _ key_valid); [unfold key_from_mem; keep_all| |].
    + intros rt a rt'. apply (value_from_mem_valid key_codec key_valid). intros bs k rest Hk. by apply key_exact in Hk as [? _].
    + intros k Hk. by apply keeps_trap, hr_put_key.
Qed.

Ltac unfold_call :=
  unfold host_read, host_read_local, load_named_keys, host_write, host_write_local, host_add, host_add_local,
    host_new_uref, get_arg_size, get_arg, ret, call_contract_at, call_contract_host_buf, load_key, has_key,
    host_remove_key, host_get_caller, host_get_blocktime, is_valid_uref, revert,
    host_add_associated_key, host_remove_associated_key, host_update_associated_key, host_set_action_threshold,
    create_purse_at, create_purse, transfer_to_account_at, transfer_to_account, transfer_from_purse_at,
    transfer_from_purse_to_purse, get_balance_host_buf, host_get_phase, host_upgrade_contract_at_uref,
    get_system_contract, host_get_main_purse, read_host_buffer, string_from_mem, key_from_mem,
    cl_value_from_mem, take_host_buf.

(** A transfer writes the account it creates, and notes the purse of one it finds. *)
Lemma keeps_new_account source target amount :
  (forall account, keeps (on_context (write_account (Key_Account target) account))) ->
  keeps (transfer_to_new_account reader into_error invoke_call source target amount).
Proof. intros Hw. unfold transfer_to_new_account. keep_all. Qed.

Lemma keeps_existing_account source target amount :
  keeps (on_context (assign (insert_uref target))) ->
  keeps (transfer_to_existing_account reader into_error invoke_call source target amount).
Proof. intros Hw. unfold transfer_to_existing_account. keep_all. Qed.

(** Transfers to accounts depend on what the lookup of the account found. *)
Context (keeps_transfer : forall s t a, keeps (transfer_from_purse_to_account reader into_error invoke_call s t a)).

#[local] Hint Resolve keeps_transfer keeps_put_key : keeps.

Lemma keeps_run_call call :
  charges call -> keeps (run_call reader into_error overflow_checks invoke_call call).
Proof.
  intros Hc. destruct call; cbn [run_call charges] in *;
    (first [apply keeps_returns | apply keeps_nothing]); try (by apply hr_gas);
    try (apply keeps_store_fn; keep_all); unfold_call; keep_all; try (apply keeps_key_result; keep_all).
Qed.

(** A step of a running instance: it changes its memory, or calls a host
    function. *)
Inductive host_step rt : RT -> Prop :=
| step_memory m : host_step rt (set_memory m rt)
| step_call index args o rt' :
    invoke_index reader into_error overflow_checks invoke_call index args rt = (o, rt') -> host_step rt rt'.

Lemma host_steps_keep rt rt' : rtc host_step rt rt' -> R rt rt'.
Proof.
  induction 1 as [|r1 r2 r3 Hs _ IH]; [reflexivity|]. transitivity r2; [clear IH|exact IH].
  destruct Hs as [m|index args o r2 Hi]; [apply hr_memory|]. revert Hi. unfold invoke_index.
  destruct (function_index_try_from index) as [f|e|]; try (by intros [= _ <-]).
  unfold ebind, elift. destruct (parse_call f args) as [call|e|] eqn:Ep; cbn; try (by intros [= _ <-]).
  apply keeps_run_call. by apply (parse_call_charges f args).
Qed.
End host_relation.

(** * Runs *)

Section runs.
Context {L G Mem Module : Type} `{LinkedHashMap L, Rng G} {meter : Meter} {dbg : DebugText} {qtext : QueryText}.
Context {mtext : MismatchText} {hasher : Hasher} {F : ForeignErrors} `{!Platform Mem Module}.
Context {W : WasmValues} {WL : WasmValuesLaws}.
Context {alloc : Allocator} {layout : Layout} {E : Type}.
Context (reader : Key -> outcome E (option StoredValue)) (into_error : E -> ExecError).
Context (overflow_checks : bool).
Context (invoke_call : Module -> eff (Runtime L G Mem Module) InterpreterError unit).

#[local] Abbreviation RT := (Runtime L G Mem Module).
#[local] Abbreviation T A := (eff RT InterpreterError A).
#[local] Abbreviation X A := (eff RT ExecError A).
Implicit Types rt : RT.

#[local] Abbreviation host_step := (host_step reader into_error overflow_checks invoke_call).

Definition gas_used rt : Gas := rc_gas_counter (rt_context rt).
Definition gas_bound rt : Gas := rc_gas_limit (rt_context rt).

(** The module, the system contracts and the facts of the execution stay, and the
    gas counter grows towards the limit. *)
Record metered rt rt' : Prop := {
  mt_cache : rt_cache rt' = rt_cache rt;
  mt_module : rt_module rt' = rt_module rt;
  mt_fixed : fixed (rt_context rt') = fixed (rt_context rt);
  mt_grows : gas_used rt <= gas_used rt';
  mt_bounded : gas_used rt <= gas_bound rt -> gas_used rt' <= gas_bound rt;
}.

Lemma fixed_limit rt rt' : fixed (rt_context rt') = fixed (rt_context rt) -> gas_bound rt' = gas_bound rt.
Proof. unfold fixed, gas_bound. congruence. Qed.

#[local] Instance metered_preorder : PreOrder metered.
Proof.
  split.
  - intros rt. by split.
  - intros r1 r2 r3 [A1 B1 C1 D1 E1] [A2 B2 C2 D2 E2]. apply fixed_limit in C1 as El.
    split; [congruence | congruence | congruence | lia | rewrite El in E2; auto].
Qed.

#[local] Abbreviation keeps := (preserves metered).

Lemma metered_context rt c : same_meter (rt_context rt) c -> metered rt (set_context c rt).
Proof. intros [Hf Hg]. split; try done; unfold gas_used; cbn; rewrite Hg; lia. Qed.

Lemma keeps_context {A} (m : eff (RuntimeContext L G) ExecError A) :
  preserves same_meter m -> keeps (on_context (Mem := Mem) (Module := Module) m).
Proof.
  intros Hm rt o rt'. unfold on_context. destruct (m (rt_context rt)) as [o1 c] eqn:Em.
  intros [= _ <-]. by apply metered_context, (Hm _ o1).
Qed.

(** A call costs the caller nothing. *)
Lemma keeps_sub_call module args nk key extra v :
  keeps (sub_call invoke_call module args nk key extra v).
Proof.
  unfold sub_call. apply preserves_bind; [typeclasses eauto | apply preserves_lift; typeclasses eauto |].
  intros memory rt o rt'. destruct (invoke_call module _) as [result callee'].
  repeat case_match; intros [= _ <-];
    (transitivity (after_call callee' rt); [by apply metered_context|]); first [done | by apply metered_context].
Qed.

Lemma keeps_gas amount : 0 <= amount -> keeps (gas (L := L) (G := G) (Mem := Mem) (Module := Module) amount).
Proof.
  intros Ha rt o rt'. unfold gas, charge_gas, gas_checked_add, checked_add.
  destruct (_ <? _); [|by intros [= _ <-]].
  destruct (_ >? _) eqn:El; intros [= _ <-]; [done|]. breflect.
  split; try done; unfold gas_used, gas_bound; cbn; lia.
Qed.

#[global] Instance metered_host_relation : HostRelation reader into_error overflow_checks invoke_call metered.
Proof.
  split; try typeclasses eauto; try done; intros; first [by apply keeps_gas | apply keeps_sub_call | apply keeps_context].
  - apply keeps_read_gs.
  - apply keeps_read_direct.
  - apply keeps_read_seed.
  - apply keeps_read_ls.
  - apply keeps_write_gs.
  - apply keeps_write_ls.
  - apply keeps_add_gs.
  - apply keeps_add_ls.
  - apply keeps_new_uref.
  - apply keeps_store_function.
  - apply keeps_store_at_hash.
  - apply keeps_upgrade.
  - apply keeps_put_key_context.
  - apply keeps_remove_key.
  - apply keeps_manage.
  - apply keeps_manage.
  - apply keeps_manage.
  - apply keeps_manage.
Qed.

Lemma keeps_transfer s t a : keeps (transfer_from_purse_to_account reader into_error invoke_call s t a).
Proof.
  unfold transfer_from_purse_to_account. apply preserves_bind; [typeclasses eauto | apply keeps_context, keeps_read_account|].
  intros [[cl|account|c]|].
  - apply preserves_lift. typeclasses eauto.
  - case_bool_decide; [apply preserves_ret; typeclasses eauto|]. apply (keeps_existing_account reader into_error overflow_checks invoke_call metered).
    apply keeps_context, keeps_assign. intros c. apply insert_uref_meter.
  - apply preserves_lift. typeclasses eauto.
  - apply (keeps_new_account reader into_error overflow_checks invoke_call metered). intros account. apply keeps_context, keeps_write_account.
Qed.

Lemma run_metered rt rt' : rtc host_step rt rt' -> metered rt rt'.
Proof. apply (host_steps_keep _ _ _ _ metered keeps_transfer). Qed.

(** C11: gas is metered. However a contract computes and calls the host, the gas
    it has used never decreases and never exceeds its limit, and the limit, the
    module, the account, the caller's keys, the arguments, the time, the deploy,
    the phase and the protocol stay what they were. *)
Theorem gas_metered rt rt' :
  rtc host_step rt rt' -> gas_used rt <= gas_bound rt ->
  gas_used rt <= gas_used rt' <= gas_bound rt
  /\ fixed (rt_context rt') = fixed (rt_context rt) /\ rt_module rt' = rt_module rt
  /\ rt_cache rt' = rt_cache rt.
Proof. intros Hr Hb. apply run_metered in Hr as []. auto. Qed.

(** ** The host buffer *)

Lemma value_from_mem_same {A} (c : Codec A) ptr size rt o rt' :
  value_from_mem (L := L) (G := G) (Module := Module) c ptr size rt = (o, rt') -> rt' = rt.
Proof.
  unfold value_from_mem, ebind. cbn. destruct (omap_err _ _) as [bs|e|]; by intros [= _ <-].
Qed.

Lemma trap_ok {A} (m : X A) rt a rt' : trap m rt = (Ok a, rt') <-> m rt = (Ok a, rt').
Proof. unfold trap, emap_err. destruct (m rt) as [[?|?|] ?]; split; cbn; congruence. Qed.

Lemma return_buf_ok v ptr rt rt' :
  return_in_host_buf (L := L) (G := G) (Module := Module) v ptr rt = (Ok (inl tt), rt') ->
  rt_host_buf rt = None /\ exists m,
    mem_set ptr (to_le_bytes 4 (wrap_unsigned 32 (zlen (cl_bytes v)))) (rt_memory rt) = Ok m
    /\ rt' = set_memory m (set_host_buf (Some v) rt).
Proof.
  unfold return_in_host_buf, write_host_buf, write_mem, ebind. destruct (rt_host_buf rt); [done|]. cbn.
  destruct (mem_set _ _ _) as [m|e|]; intros [= <-]. eauto.
Qed.

Lemma read_buffer_delivers v dest_ptr dest_size written_ptr rt m1 m2 :
  rt_host_buf rt = Some v -> zlen (cl_bytes v) <= u32_max -> zlen (cl_bytes v) <= dest_size ->
  mem_set dest_ptr (cl_bytes v) (rt_memory rt) = Ok m1 ->
  mem_set written_ptr (to_le_bytes 4 (zlen (cl_bytes v))) m1 = Ok m2 ->
  read_host_buffer dest_ptr dest_size written_ptr rt = (Ok (inl tt), set_memory m2 (set_host_buf None rt)).
Proof.
  intros Hb Hu Hd H1 H2. unfold read_host_buffer, ebind. cbn. rewrite Hb.
  rewrite !gtb_le by lia.
  rewrite Z.min_r, take_ge by (unfold zlen in *; lia).
  unfold write_mem. cbn. rewrite H1. cbn. rewrite wrap_unsigned_small, H2; [done|].
  unfold is_unsigned, u32_max in *. pose proof (zlen_nonneg (cl_bytes v)). lia.
Qed.

(** While the buffer holds a value, no other is read into it. *)
Definition refuses_reads rt : Prop :=
  forall kp ks sp, host_read reader into_error kp ks sp rt = (Ok (inr Api_HostBufferFull), rt).

(** Values reach a contract through the host buffer. A successful read finds
    the buffer empty and leaves in it the value stored under the key in memory,
    writing its size; until it is fetched, another read is refused without
    effect; fetching writes exactly the bytes of the value and empties the
    buffer, and a destination that is too small loses the value. *)
Theorem host_buffer_spec key_ptr key_size size_ptr rt rt1 :
  host_read reader into_error key_ptr key_size size_ptr rt = (Ok (inl tt), rt1) ->
  exists key v c m,
    value_from_mem key_codec key_ptr key_size rt = (Ok key, rt)
    /\ read_gs reader into_error key (rt_context rt) = (Ok (Some (SV_CLValue v)), c)
    /\ mem_set size_ptr (to_le_bytes 4 (wrap_unsigned 32 (zlen (cl_bytes v)))) (rt_memory rt) = Ok m
    /\ rt1 = mk_runtime (rt_cache rt) m (rt_module rt) (Some v) c
    /\ refuses_reads rt1
    /\ (forall dest_ptr dest_size written_ptr m1 m2,
          zlen (cl_bytes v) <= u32_max -> zlen (cl_bytes v) <= dest_size ->
          mem_set dest_ptr (cl_bytes v) m = Ok m1 ->
          mem_set written_ptr (to_le_bytes 4 (zlen (cl_bytes v))) m1 = Ok m2 ->
          read_host_buffer dest_ptr dest_size written_ptr rt1
          = (Ok (inl tt), mk_runtime (rt_cache rt) m2 (rt_module rt) None c))
    /\ (forall dest_ptr dest_size written_ptr,
          zlen (cl_bytes v) <= u32_max -> dest_size < zlen (cl_bytes v) ->
          read_host_buffer dest_ptr dest_size written_ptr rt1
          = (Ok (inr Api_BufferTooSmall), mk_runtime (rt_cache rt) m (rt_module rt) None c)).
Proof.
  unfold host_read at 1, with_empty_buf, can_write_to_host_buf.
  destruct (rt_host_buf rt) eqn:Eb; [done|]. intros Hr.
  apply ebind_ok in Hr as (key & r1 & Hk & Hr). apply trap_ok in Hk.
  pose proof (value_from_mem_same _ _ _ _ _ _ Hk) as ->.
  apply ebind_ok in Hr as (found & r2 & Hf & Hr). apply trap_ok in Hf.
  destruct found as [sv|]; [|done]. apply ebind_ok in Hr as (v & r3 & Hv & Hr). apply trap_ok in Hv.
  injection Hv as Hv <-. apply trap_ok, return_buf_ok in Hr as (_ & m & Hm & ->).
  assert (sv = SV_CLValue v) as -> by (destruct sv; cbn in Hv; congruence).
  unfold on_context in Hf. destruct (read_gs reader into_error key (rt_context rt)) as [o c] eqn:Eg.
  injection Hf as -> <-. exists key, v, c, m. split_and!; [done..| | |].
  - done.
  - intros dp ds wp m1 m2 Hu Hd H1 H2. by rewrite (read_buffer_delivers v _ _ _ _ m1 m2).
  - intros dp ds wp Hu Hd. unfold read_host_buffer, ebind. cbn.
    by rewrite gtb_le, gtb_gt by lia.
Qed.

(** ** Returned references *)

(** The code of a module is a return of the bytes at a place in its memory. *)
Definition only_returns (module : Module) (value_ptr value_size : Z) : Prop :=
  forall callee, invoke_call module callee = ret value_ptr value_size callee.

(** C38: a caller trusts the references it is given. A contract may return any
    reference it can name, whether or not it has rights to it, and the caller
    then has the rights the reference claims: the address and the rights need
    only be known, not granted. *)
Theorem returned_references_trusted module memory value_ptr value_size addr rights value bs
    args named_keys key extra_urefs version rt :
  uref_valid (uref_new addr rights) ->
  from_t clt_uref (uref_new addr rights) = Ok value -> to_bytes cl_value_codec value = Ok bs ->
  instance_and_memory module version = Ok memory -> mem_get value_ptr value_size memory = Ok bs ->
  only_returns module value_ptr value_size ->
  exists rt', sub_call invoke_call module args named_keys key extra_urefs version rt = (Ok value, rt')
    /\ validate_uref (uref_new addr rights) (rt_context rt') = Ok tt.
Proof.
  intros Hu Hv Hb Hi Hm Hret.
  destruct (into_from_t clt_uref uref_valid (uref_new addr rights) value) as [Et Hin]; [done..|].
  assert (deserialize cl_value_codec bs = Ok value) as Hd.
  { apply (deserialize_serialize cl_value_codec cl_value_valid); [|done]. unfold cl_value_valid. by rewrite Et. }
  assert (extract_urefs value = Ok [uref_new addr rights]) as Hx.
  { unfold extract_urefs. rewrite Et. cbn. unfold decode_urefs. by rewrite Hin. }
  eexists. unfold sub_call, ebind, elift. rewrite Hi, Hret.
  unfold ret, ebind, trap, emap_err, bytes_from_mem, look. cbn. rewrite Hm. cbn. rewrite Hd. cbn. rewrite Hx. cbn.
  split; [done|]. unfold validate_uref. cbn. case_match; [done|].
  rewrite lookup_union, lookup_insert_eq, union_Some_l.
  replace (existsb _ _) with true; [done|]. symmetry. apply existsb_exists. exists rights. split.
  - apply list_elem_of_In, elem_of_elements, elem_of_union_l, elem_of_singleton. reflexivity.
  - unfold rights_enough. by rewrite Z.land_diag, Z.eqb_refl.
Qed.
End runs.
