(* ===== verification/Confinement.v ===== *)
(** What a contract can change in the global state, over all host functions: the
    operations on its context, transfers to accounts and calls of other contracts.
    Sources: [engine-core/src/execution/runtime/mod.rs],
    [engine-core/src/runtime_context/mod.rs]. *)

From stdpp Require Import gmap.
From S2P Require Import Prelude BTreeMap Bytesrepr Uint Types CLValues Account StoredValue Transform.
From S2P Require Import Trie TrieStore TrieSpec TrieWrite GlobalState TrackingCopy Execution.
From S2P Require Import ApiError ProtocolData ExecutionError RuntimeContext ContextSafety ExtractURefs.
From S2P Require Import Runtime HostFunctions RuntimeSafety.

(** * What a contract has to do with others *)

(** The accounts that lookups of transfers missed and found, the accounts that
    transfers created, the rights that calls and transfers gave to the contract,
    the states of the shared generator of addresses at the start and after calls,
    and the keys at which called contracts had effects. *)
Record Dealings (G : Type) := mk_dealings {
  missed : gset Key;
  found : list Account;
  created : gset Key;
  given : list RightsMap;
  generators : list G;
  by_callees : gset Key;
}.
Arguments mk_dealings {G}.
Arguments missed {G}.
Arguments found {G}.
Arguments created {G}.
Arguments given {G}.
Arguments generators {G}.
Arguments by_callees {G}.

(** A key keeps its effect, or is read for the first time. *)
Definition undisturbed (m m' : gmap Key Transform) (k : Key) : Prop :=
  m' !! k = m !! k \/ (m !! k = None /\ m' !! k = Some Identity).

#[global] Instance undisturbed_dec m m' k : Decision (undisturbed m m' k).
Proof. unfold undisturbed. apply _. Defined.

(** The keys at which effects changed. *)
Definition changes (m m' : gmap Key Transform) : gset Key :=
  filter (fun k => ~ undisturbed m m' k) (dom m ∪ dom m').

Lemma changes_spec m m' k : k ∈ changes m m' \/ undisturbed m m' k.
Proof.
  destruct (decide (undisturbed m m' k)) as [|Hn]; [by right|]. left. apply elem_of_filter. split; [done|].
  rewrite elem_of_union, !elem_of_dom. destruct (m !! k) eqn:E1, (m' !! k) eqn:E2; eauto.
  destruct Hn. left. congruence.
Qed.

Section dealings.
Context {G : Type}.
Implicit Types t : Dealings G.

Definition no_dealings (g : G) : Dealings G := mk_dealings ∅ [] ∅ [] [g] ∅.

(** What the lookup of an account by a transfer found. *)
Definition looked_up {Er} (target : Key) (o : outcome Er (option StoredValue)) t : Dealings G :=
  match o with
  | Ok None => mk_dealings ({[ target ]} ∪ missed t) (found t) (created t) (given t) (generators t) (by_callees t)
  | Ok (Some (SV_Account a)) =>
      mk_dealings (missed t) (a :: found t) (created t) (given t) (generators t) (by_callees t)
  | _ => t
  end.

Definition with_created (target : Key) t : Dealings G :=
  mk_dealings (missed t) (found t) ({[ target ]} ∪ created t) (given t) (generators t) (by_callees t).

Definition with_given (rights : RightsMap) t : Dealings G :=
  mk_dealings (missed t) (found t) (created t) (rights :: given t) (generators t) (by_callees t).

Definition with_call (g : G) (keys : gset Key) t : Dealings G :=
  mk_dealings (missed t) (found t) (created t) (given t) (g :: generators t) (keys ∪ by_callees t).

(** A right that was given. *)
Definition granted t (addr : bytes) (r : AccessRights) : Prop :=
  exists m known held, m ∈ given t /\ m !! addr = Some known /\ held ∈ known /\ rights_enough held r = true.
End dealings.

Section confinement.
Context {L G Mem Module : Type} `{LinkedHashMap L, Rng G} {meter : Meter} {dbg : DebugText} {qtext : QueryText}.
Context {mtext : MismatchText} {hasher : Hasher} {F : ForeignErrors} `{!Platform Mem Module}.
Context {W : WasmValues} {WL : WasmValuesLaws}.
Context {alloc : Allocator} {layout : Layout} {E : Type}.
Context (reader : Key -> outcome E (option StoredValue)) (into_error : E -> ExecError).
Context (overflow_checks : bool).
Context (invoke_call : Module -> eff (Runtime L G Mem Module) InterpreterError unit).

#[local] Abbreviation RC := (RuntimeContext L G).
#[local] Abbreviation RT := (Runtime L G Mem Module).
Implicit Types (c : RC) (rt : RT) (t : Dealings G).

(** An address that the generator hands out. *)
Definition fresh t (addr : bytes) : Prop :=
  exists g n, g ∈ generators t /\ addr = (create_address (advance n g)).1.

(** ** The steps of a contract, as its context sees them *)

(** The context of the caller after a call: the tracking copy and the generator are
    shared, and returned references bring their rights. *)
Definition called (callee' : RT) (result : outcome InterpreterError unit) c : RC :=
  let c' := set_address_generator (rc_address_generator (rt_context callee'))
              (set_state (rc_state (rt_context callee')) c) in
  match result with
  | Err (IE_Host (EE_Ret urefs)) => access_rights_extend (extract_access_rights_from_urefs urefs) c'
  | _ => c'
  end.

Definition call_dealings (callee' : RT) (result : outcome InterpreterError unit) c t : Dealings G :=
  let t' := with_call (rc_address_generator (rt_context callee'))
              (changes (tc_fns (rc_state c)) (tc_fns (rc_state (rt_context callee')))) t in
  match result with
  | Err (IE_Host (EE_Ret urefs)) => with_given (extract_access_rights_from_urefs urefs) t'
  | _ => t'
  end.

Inductive contract_step : RC * Dealings G -> RC * Dealings G -> Prop :=
| cs_call call c t : call_wf call -> contract_step (c, t) (after reader into_error overflow_checks call c, t)
| cs_read_direct k c t : contract_step (c, t) ((read_gs_direct reader into_error k c).2, t)
| cs_read_seed sd k c t : contract_step (c, t) ((read_ls_with_seed reader into_error sd k c).2, t)
| cs_lookup target c t :
    contract_step (c, t) ((read_account reader into_error (Key_Account target) c).2,
      looked_up (Key_Account target) (read_account reader into_error (Key_Account target) c).1 t)
| cs_new_account target account c t :
    Key_Account target ∈ missed t ->
    contract_step (c, t) ((write_account (Key_Account target) account c).2, with_created (Key_Account target) t)
| cs_existing_account account c t :
    account ∈ found t ->
    contract_step (c, t) (insert_uref (purse_id_add_only account) c,
      with_given {[ uref_addr (account_purse_id account) := {[ ADD ]} ]} t)
| cs_called module callee result callee' c t :
    rc_state (rt_context callee) = rc_state c ->
    rc_address_generator (rt_context callee) = rc_address_generator c ->
    invoke_call module callee = (result, callee') ->
    contract_step (c, t) (called callee' result c, call_dealings callee' result c t).

(** The run of a contract from a context, with its dealings. *)
Definition contract_run c c' t : Prop :=
  rtc contract_step (c, no_dealings (rc_address_generator c)) (c', t).

(** ** Every host function is a run *)

(** What a transfer has learned. *)
Definition knows (what : option (Key + Account)) t : Prop :=
  match what with
  | None => True
  | Some (inl k) => k ∈ missed t
  | Some (inr a) => a ∈ found t
  end.

Definition runs (what : option (Key + Account)) rt rt' : Prop :=
  forall t, knows what t -> exists t', rtc contract_step (rt_context rt, t) (rt_context rt', t') /\ knows what t'.

#[local] Instance runs_preorder what : PreOrder (runs what).
Proof.
  split.
  - intros rt t Ht. by exists t.
  - intros r1 r2 r3 H1 H2 t Ht. destruct (H1 t Ht) as (t1 & S1 & K1). destruct (H2 t1 K1) as (t2 & S2 & K2).
    exists t2. split; [by transitivity (rt_context r2, t1) | done].
Qed.

Lemma runs_context {A} what (m : eff RC ExecError A) :
  (forall c t, knows what t -> exists t', contract_step (c, t) ((m c).2, t') /\ knows what t') ->
  preserves (runs what) (on_context (Mem := Mem) (Module := Module) m).
Proof.
  intros Hm rt o rt'. unfold on_context. destruct (m (rt_context rt)) as [o1 c'] eqn:Em. intros [= _ <-] t Ht.
  destruct (Hm (rt_context rt) t Ht) as (t' & Hs & Hk). rewrite Em in Hs. exists t'. split; [by apply rtc_once | done].
Qed.

Lemma runs_call {A} what (m : eff RC ExecError A) call :
  call_wf call -> (forall c, (m c).2 = after reader into_error overflow_checks call c) ->
  preserves (runs what) (on_context (Mem := Mem) (Module := Module) m).
Proof. intros Hw Hm. apply runs_context. intros c t Ht. exists t. rewrite Hm. split; [by apply cs_call | done]. Qed.

Lemma runs_gas what amount : preserves (runs what) (gas (L := L) (G := G) (Mem := Mem) (Module := Module) amount).
Proof.
  intros rt o rt'. unfold gas, charge_gas. destruct (gas_checked_add _ _) as [val|]; [|by intros [= _ <-]].
  destruct (_ >? _); intros [= _ <-]; [done|]. intros t Ht. exists t. split; [|done].
  apply rtc_once. by apply (cs_call (Call_set_gas_counter val)).
Qed.

Lemma runs_sub_call what module args nk key extra v :
  preserves (runs what) (sub_call invoke_call module args nk key extra v).
Proof.
  unfold sub_call. apply preserves_bind; [typeclasses eauto | apply preserves_lift; typeclasses eauto |].
  intros memory rt o rt'. set (callee := mk_runtime _ _ _ _ _).
  destruct (invoke_call module callee) as [result callee'] eqn:Ei. intros Hr t Ht.
  exists (call_dealings callee' result (rt_context rt) t). split.
  - replace (rt_context rt') with (called callee' result (rt_context rt)); [apply rtc_once; by eapply (cs_called module callee)|].
    unfold called. repeat case_match; by injection Hr as _ <-.
  - destruct what as [[k|a]|]; [| |done]; unfold call_dealings; repeat case_match; exact Ht.
Qed.

#[local] Instance runs_host_relation what : HostRelation reader into_error overflow_checks invoke_call (runs what).
Proof.
  split; try typeclasses eauto; intros;
    try (by intros t Ht; exists t); try apply runs_gas; try apply runs_sub_call.
  - by apply (runs_call _ _ (Call_read_gs k)).
  - apply runs_context. intros c t Ht. exists t. split; [apply cs_read_direct | done].
  - apply runs_context. intros c t Ht. exists t. split; [apply cs_read_seed | done].
  - by apply (runs_call _ _ (Call_read_ls k)).
  - by apply (runs_call _ _ (Call_write_gs k v)).
  - by apply (runs_call _ _ (Call_write_ls k v)).
  - by apply (runs_call _ _ (Call_add_gs k v)).
  - by apply (runs_call _ _ (Call_add_ls k v)).
  - by apply (runs_call _ _ (Call_new_uref v)).
  - by apply (runs_call _ _ (Call_store_function v)).
  - by apply (runs_call _ _ (Call_store_function_at_hash v)).
  - by apply (runs_call _ _ (Call_upgrade_contract k code nk)).
  - by apply (runs_call _ _ (Call_put_key name k)).
  - by apply (runs_call _ _ (Call_remove_key name)).
  - by apply (runs_call _ _ (Call_add_associated_key pk w)).
  - by apply (runs_call _ _ (Call_remove_associated_key pk)).
  - by apply (runs_call _ _ (Call_update_associated_key pk w)).
  - by apply (runs_call _ _ (Call_set_action_threshold t w)).
Qed.

(** What follows a lookup may rely on what it found. *)
Lemma runs_after_lookup target o (rt rt1 rt2 : RT) what :
  read_account reader into_error (Key_Account target) (rt_context rt) = (o, rt_context rt1) ->
  (forall t, knows what (looked_up (Key_Account target) o t)) -> runs what rt1 rt2 -> runs None rt rt2.
Proof.
  intros Hr Hk Hs t _. destruct (Hs _ (Hk t)) as (t' & Hs' & _). exists t'. split; [|done].
  eapply rtc_l; [|exact Hs']. pose proof (cs_lookup target (rt_context rt) t) as Hc. by rewrite Hr in Hc.
Qed.

Lemma runs_transfer source target amount :
  preserves (runs None) (transfer_from_purse_to_account reader into_error invoke_call source target amount).
Proof.
  intros rt o rt'. unfold transfer_from_purse_to_account, ebind at 1, on_context at 1.
  destruct (read_account reader into_error (Key_Account target) (rt_context rt)) as [r c1] eqn:Er.
  set (rt1 := set_context c1 rt). intros Hr.
  assert (forall what rt2, (forall t, knows what (looked_up (Key_Account target) r t)) -> runs what rt1 rt2 -> runs None rt rt2)
    as Hl by (intros what rt2; by apply (runs_after_lookup target r rt rt1 rt2 what)).
  destruct r as [[[cl|account|ct]|]|e|]; try (by injection Hr as _ <-; apply (Hl None)).
  - case_bool_decide; [by injection Hr as _ <-; apply (Hl None)|].
    apply (Hl (Some (inr account))); [intros t; left|]. revert Hr.
    apply (keeps_existing_account reader into_error overflow_checks invoke_call (runs (Some (inr account)))).
    apply runs_context. intros c t Ht. eexists. split; [by apply cs_existing_account | exact Ht].
  - apply (Hl (Some (inl (Key_Account target)))); [intros t; cbn; set_solver|]. revert Hr.
    apply (keeps_new_account reader into_error overflow_checks invoke_call (runs (Some (inl (Key_Account target))))).
    intros account. apply runs_context. intros c t Ht. eexists. split; [by apply cs_new_account | exact Ht].
Qed.

Lemma host_run_contract rt rt' :
  rtc (host_step reader into_error overflow_checks invoke_call) rt rt' ->
  exists t, contract_run (rt_context rt) (rt_context rt') t.
Proof.
  intros Hr. apply (host_steps_keep reader into_error overflow_checks invoke_call (runs None) runs_transfer) in Hr.
  destruct (Hr (no_dealings (rc_address_generator (rt_context rt))) I) as (t & Ht & _). by exists t.
Qed.

(** ** What a run can touch *)

(** The keys a contract may change: those its context allows from the start, cells
    for which it was given rights on the way, references the generator hands out,
    the accounts its transfers create; and those that called contracts changed. *)
Inductive touched c t : Key -> Prop :=
| touched_own k : touchable c k -> touched c t k
| touched_fresh addr : fresh t addr -> touched c t (Key_URef (mk_uref addr None))
| touched_granted addr r :
    rights_is_writeable r = true \/ rights_is_addable r = true -> granted t addr r ->
    touched c t (Key_URef (mk_uref addr None))
| touched_account k : k ∈ created t -> touched c t k
| touched_callee k : k ∈ by_callees t -> touched c t k.

Record run_inv c0 c t : Prop := {
  ri_fixed : fixed c = fixed c0;
  ri_generator : exists g n, g ∈ generators t /\ rc_address_generator c = advance n g;
  ri_rights : forall addr r, may c addr r -> may c0 addr r \/ fresh t addr \/ granted t addr r;
  ri_fns : forall k, undisturbed (tc_fns (rc_state c0)) (tc_fns (rc_state c)) k \/ touched c0 t k;
  ri_missed : forall k, k ∈ missed t -> reader k = Ok None;
  ri_created : created t ⊆ missed t;
}.

Lemma run_inv_start c : run_inv c c (no_dealings (rc_address_generator c)).
Proof. split; cbn; [done | eexists _, 0%nat; split; [left|done] | by left | by left; left | set_solver | set_solver]. Qed.

(** Dealings only grow. *)
Record grows t t' : Prop := {
  gr_created : created t ⊆ created t';
  gr_given : forall m, m ∈ given t -> m ∈ given t';
  gr_generators : forall g, g ∈ generators t -> g ∈ generators t';
  gr_callees : by_callees t ⊆ by_callees t';
}.

Lemma granted_grows t t' addr r : grows t t' -> granted t addr r -> granted t' addr r.
Proof. intros Hg (m & kn & h & Hm & Hr). exists m, kn, h. split; [by apply (gr_given t t' Hg) | done]. Qed.

Lemma fresh_grows t t' addr : grows t t' -> fresh t addr -> fresh t' addr.
Proof. intros Hg (g & n & Hin & ->). exists g, n. split; [by apply (gr_generators t t' Hg) | done]. Qed.

Lemma touched_grows c t t' k : grows t t' -> touched c t k -> touched c t' k.
Proof.
  intros Hg [k' Ht|addr Hf|addr r Hw Hr|k' Hc|k' Hc].
  - by apply touched_own.
  - apply touched_fresh. by apply (fresh_grows t).
  - apply (touched_granted c t' addr r Hw). by apply (granted_grows t).
  - apply touched_account. by apply (gr_created t t' Hg).
  - apply touched_callee. by apply (gr_callees t t' Hg).
Qed.

Lemma upcoming_fresh c0 c t addr : run_inv c0 c t -> upcoming c addr -> fresh t addr.
Proof.
  intros Hi (m & ->). destruct (ri_generator c0 c t Hi) as (g & n & Hg & ->). exists g, (n + m)%nat.
  by rewrite advance_add.
Qed.

Lemma touchable_touched c0 c t k : run_inv c0 c t -> touchable c k -> touched c0 t k.
Proof.
  intros Hi Ht. pose proof (ri_fixed c0 c t Hi) as Hf. unfold fixed in Hf. injection Hf as Ea Eg Eu Eb _ Ed _ _ _ _.
  destruct Ht as [|kb|id|addr r Hw Hm|addr Hu].
  - rewrite Eb. apply touched_own. constructor.
  - replace (seed c) with (seed c0) by (unfold seed; by rewrite Eb). apply touched_own. constructor.
  - rewrite Ed. apply touched_own. constructor.
  - destruct (ri_rights c0 c t Hi addr r Hm) as [?|[?|?]].
    + apply touched_own. by apply (touch_cell c0 addr r).
    + by apply touched_fresh.
    + by apply (touched_granted c0 t addr r).
  - apply touched_fresh. by apply (upcoming_fresh c0 c).
Qed.

Lemma undisturbed_trans m1 m2 m3 k : undisturbed m1 m2 k -> undisturbed m2 m3 k -> undisturbed m1 m3 k.
Proof. unfold undisturbed. intros [E1|[E1 E2]] [E3|[E3 E4]]; [left|right|right|right]; split_and?; congruence. Qed.

(** The rest of a step: what it does to the generator, the rights and the effects. *)
Lemma run_inv_step c0 c c' t t' :
  run_inv c0 c t -> grows t t' -> fixed c' = fixed c ->
  (exists g n, g ∈ generators t' /\ rc_address_generator c' = advance n g) ->
  (forall addr r, may c' addr r -> may c addr r \/ fresh t' addr \/ granted t' addr r) ->
  (forall k, undisturbed (tc_fns (rc_state c)) (tc_fns (rc_state c')) k \/ touched c0 t' k) ->
  (forall k, k ∈ missed t' -> k ∈ missed t \/ reader k = Ok None) -> created t' ⊆ missed t' ->
  run_inv c0 c' t'.
Proof.
  intros Hi Hg Hf Hgen Hr He Hm Hc. split; [|done| | | |done].
  - rewrite Hf. apply Hi.
  - intros addr r Hmay. destruct (Hr addr r Hmay) as [Hmay'|]; [|by right].
    destruct (ri_rights c0 c t Hi addr r Hmay') as [|[?|?]]; [by left|right; left|right; right].
    + by apply (fresh_grows t).
    + by apply (granted_grows t).
  - intros k. destruct (He k) as [Hk|]; [|by right]. destruct (ri_fns c0 c t Hi k) as [Hk'|Hk'].
    + left. by apply (undisturbed_trans _ (tc_fns (rc_state c))).
    + right. by apply (touched_grows c0 t).
  - intros k Hk. destruct (Hm k Hk); [by apply (ri_missed c0 c t Hi) | done].
Qed.

Lemma grows_refl t : grows t t.
Proof. by split. Qed.

Lemma confined_inv c0 c c' t : run_inv c0 c t -> confined c c' -> run_inv c0 c' t.
Proof.
  intros Hi [Hf Hgen Hr _ _ Hfns]. apply (run_inv_step c0 c c' t t Hi (grows_refl t) Hf).
  - destruct (ri_generator c0 c t Hi) as (g & n & Hg & Eg), Hgen as [m Em]. exists g, (n + m)%nat.
    by rewrite advance_add, <- Eg.
  - intros addr r Hm. destruct (Hr addr r Hm) as [|Hu]; [by left|]. right; left. by apply (upcoming_fresh c0 c).
  - intros k. destruct (Hfns k) as [Hk|[Hk|Hk]]; [left; by left | left; by right | right; by apply (touchable_touched c0 c)].
  - auto.
  - apply Hi.
Qed.

(** The reader has nothing at a key that a lookup misses. *)
Lemma tc_read_missed k (s s' : TrackingCopy L) : tc_read reader k s = (Ok None, s') -> reader (normalize k) = Ok None.
Proof.
  unfold tc_read. intros Hr. apply ebind_ok in Hr as (r & s1 & Hg & Hr). destruct r; [done|]. revert Hg.
  unfold tc_get. destruct (cache_get _ _) as [[v|] cache]; [done|].
  destruct (reader (normalize k)) as [[v|]|e|]; [|done..]. by destruct (insert_read _ v cache).
Qed.

Lemma read_account_missed target c c' :
  read_account reader into_error (Key_Account target) c = (Ok None, c') -> reader (Key_Account target) = Ok None.
Proof.
  unfold read_account. intros Hr. apply ebind_ok in Hr as (_ & c1 & _ & Hr). unfold on_state in Hr.
  destruct (tc_read reader (Key_Account target) (rc_state c1)) as [o s] eqn:Er. destruct o as [r|e|]; [|done..].
  injection Hr as -> _. by apply (tc_read_missed _ _ _ Er).
Qed.

Lemma lookup_inv c0 c t target :
  run_inv c0 c t -> run_inv c0 (read_account reader into_error (Key_Account target) c).2
    (looked_up (Key_Account target) (read_account reader into_error (Key_Account target) c).1 t).
Proof.
  intros Hi. destruct (read_account reader into_error (Key_Account target) c) as [o c'] eqn:Er. cbn [fst snd].
  assert (run_inv c0 c' t) as Hi'.
  { apply (confined_inv c0 c); [done|]. revert Er. unfold read_account. apply safe_ask. intros _ _. apply safe_read. }
  destruct o as [[[cl|account|ct]|]|e|]; try exact Hi'.
  - apply (run_inv_step c0 c' c' t _ Hi'); try apply Hi'; auto; [by split|]. intros k. left. by left.
  - pose proof (read_account_missed target c c' Er) as Hn. destruct Hi' as [? ? ? Hf Hm Hc]. split; try done.
    + intros k. destruct (Hf k) as [|Ht]; [by left|]. right. revert Ht. apply touched_grows. by split.
    + cbn. set_solver.
    + cbn. set_solver.
Qed.

Lemma new_account_inv c0 c t target account :
  run_inv c0 c t -> Key_Account target ∈ missed t ->
  run_inv c0 (write_account (Key_Account target) account c).2 (with_created (Key_Account target) t).
Proof.
  intros Hi Hin. set (t' := with_created _ t). assert (grows t t') as Hg by (split; cbn; set_solver).
  assert (run_inv c0 c t') as Hi'.
  { apply (run_inv_step c0 c c t t' Hi Hg); try apply Hi; auto.
    - intros k. left. by left.
    - cbn. pose proof (ri_created c0 c t Hi). set_solver. }
  unfold write_account, ebind, ask. destruct (validate_key _ c); [|exact Hi'..].
  destruct (account_to_validated_value account c) as [v|e|]; [|exact Hi'..].
  unfold write_state, assign. cbn [snd].
  apply (run_inv_step c0 c _ t' t' Hi' (grows_refl t')); try done; try apply Hi'; auto.
  intros k. destruct (tc_write_frame (Key_Account target) v (rc_state c)) as [_ Hf].
  destruct (decide (k = Key_Account target)) as [->|Hne]; [right; apply touched_account; cbn; set_solver|].
  left. left. by apply Hf.
Qed.

(** Rights that are written down were given. *)
Lemma given_inv c0 c t rights c' :
  run_inv c0 c t -> fixed c' = fixed c -> rc_address_generator c' = rc_address_generator c ->
  rc_state c' = rc_state c ->
  (forall addr r, may c' addr r -> may c addr r \/ granted (with_given rights t) addr r) ->
  run_inv c0 c' (with_given rights t).
Proof.
  intros Hi Hf Hg Hs Hr. assert (grows t (with_given rights t)) as Hgr by (split; cbn; auto; intros m Hm; by right).
  apply (run_inv_step c0 c c' t _ Hi Hgr Hf); try apply Hi; auto.
  - rewrite Hg. apply Hi.
  - intros addr r Hm. destruct (Hr addr r Hm); auto.
  - intros k. left. left. by rewrite Hs.
Qed.

Lemma existing_account_inv c0 c t account :
  run_inv c0 c t ->
  run_inv c0 (insert_uref (purse_id_add_only account) c)
    (with_given {[ uref_addr (account_purse_id account) := {[ ADD ]} ]} t).
Proof.
  intros Hi. apply (given_inv c0 c); try done. intros addr r [?|[-> He]]%insert_uref_may; [by left|]. right.
  exists {[ uref_addr (account_purse_id account) := {[ ADD ]} ]}, {[ ADD ]}, ADD.
  split; [left|]. rewrite lookup_singleton_eq. split; [done|]. split; [set_solver | done].
Qed.

Lemma extend_may rights c addr r :
  may (access_rights_extend rights c) addr r ->
  may c addr r \/ exists known held, rights !! addr = Some known /\ held ∈ known /\ rights_enough held r = true.
Proof.
  intros [Hp|(kn & h & Hl & Hin & He)]; [by left; left|]. cbn in Hl.
  apply lookup_union_Some_raw in Hl as [Hl|[_ Hl]]; [right; eauto | left; right; eauto].
Qed.

Lemma called_inv c0 c t callee' result :
  run_inv c0 c t -> run_inv c0 (called callee' result c) (call_dealings callee' result c t).
Proof.
  intros Hi. set (c1 := set_address_generator (rc_address_generator (rt_context callee'))
    (set_state (rc_state (rt_context callee')) c)).
  set (t1 := with_call (rc_address_generator (rt_context callee'))
    (changes (tc_fns (rc_state c)) (tc_fns (rc_state (rt_context callee')))) t).
  assert (run_inv c0 c1 t1) as H1.
  { assert (grows t t1) as Hg by (split; cbn; [done|done|intros g Hg; by right|set_solver]).
    apply (run_inv_step c0 c c1 t t1 Hi Hg); try done; try apply Hi; auto.
    - exists (rc_address_generator (rt_context callee')), 0%nat. split; [left | done].
    - intros k. destruct (changes_spec (tc_fns (rc_state c)) (tc_fns (rc_state (rt_context callee'))) k) as [Hk|Hk];
        [right; apply touched_callee; cbn; set_solver | by left]. }
  unfold called, call_dealings. fold c1 t1. destruct result as [|[]|]; try exact H1. destruct e; try exact H1.
  apply (given_inv c0 c1 t1); try done. intros addr r Hm. destruct (extend_may _ _ _ _ Hm) as [?|(kn & h & Hh)];
    [by left | right; eexists _, kn, h; split; [left | exact Hh]].
Qed.

Lemma contract_run_inv c c' t : contract_run c c' t -> run_inv c c' t.
Proof.
  unfold contract_run. intros Hr.
  enough (forall x y, rtc contract_step x y -> run_inv c x.1 x.2 -> run_inv c y.1 y.2) as Hn
    by (apply (Hn _ _ Hr), run_inv_start).
  clear Hr. intros x y Hr. induction Hr as [|x y z Hs _ IH]; [done|]. intros Hi. apply IH. clear IH.
  destruct Hs; cbn [fst snd] in *.
  - apply (confined_inv c c0); [done|]. apply (context_step_confined reader into_error overflow_checks). by exists call.
  - apply (confined_inv c c0); [done|]. apply safe_after, safe_read.
  - apply (confined_inv c c0); [done|]. apply safe_after, safe_read_seed.
  - by apply lookup_inv.
  - by apply new_account_inv.
  - by apply existing_account_inv.
  - by apply called_inv.
Qed.
End confinement.

(** * Committing what a contract did *)

Section commit.
Context {hasher : Hasher} {hl : HasherLaws} {dbg : DebugText} {qtext : QueryText} (handle : Handle).
Context {L G Mem Module : Type} `{LinkedHashMapLaws L, Rng G} `{MeterLaws} {mtext : MismatchText} {F : ForeignErrors}.
Context `{!Platform Mem Module} {W : WasmValues} {WL : WasmValuesLaws} {alloc : Allocator} {layout : Layout}.
Context (into_error : StoreError InMemoryError -> ExecError) (overflow_checks : bool).
Context (invoke_call : Module -> eff (Runtime L G Mem Module) InterpreterError unit).
Implicit Types (rt : Runtime L G Mem Module) (data : InMemoryData).

#[local] Abbreviation root_wf := (root_wf key_codec stored_value_codec handle key_valid stored_value_valid).

(** A key with no transform, or with one that does nothing, keeps its value. *)
Lemma committed_idle data root effects data' root' k :
  committed handle data root effects data' root' -> key_valid k ->
  (~ In k (map fst effects)) \/ In (k, Identity) effects ->
  view_read handle data' root' k = view_read handle data root k.
Proof.
  intros (_ & _ & Hin & Hout) Hk Hidle. apply view_read_state. destruct Hidle as [Hno|Hi]; [by apply Hout|].
  destruct (Hin k Identity Hi) as (r & v & Hr & Hv & ->). rewrite Hr. destruct r as [w| |]; try discriminate Hv.
  cbn in Hv. by injection Hv as <-.
Qed.

(** C9: a contract is confined. However it computes and whatever host functions it
    calls, transfers and calls of other contracts included: when the well-formed
    effects of the run are committed onto the root it started from, the new root
    differs from the old one only at the contract's own entity, in its own local
    state, at functions of the deploy, at references from the deploy's generator,
    at cells for which it had or was given (by a call it made, or by a transfer to
    the owner of a purse) the right to write or to add, at accounts its transfers
    created, and at keys that the contracts it called changed; and a created
    account is one the old root does not have. *)
Theorem context_confined data root rt rt' data' root' vs :
  root_wf data root -> tc_fns (rc_state (rt_context rt)) = ∅ ->
  rtc (host_step (view_read handle data root) into_error overflow_checks invoke_call) rt rt' ->
  Forall effect_ok (execution_effects (rc_state (rt_context rt'))) ->
  commit_no_collision handle data root (execution_effects (rc_state (rt_context rt'))) = true ->
  commit handle data root (execution_effects (rc_state (rt_context rt'))) = Ok (data', CR_Success root' vs) ->
  exists t, contract_run (view_read handle data root) into_error overflow_checks invoke_call
      (rt_context rt) (rt_context rt') t
    /\ (forall k, key_valid k ->
         touched (rt_context rt) t k \/ view_read handle data' root' k = view_read handle data root k)
    /\ (forall k, k ∈ created t -> view_read handle data root k = Ok None).
Proof.
  intros Hwf Hnew Hrun Hok Hnc Hcommit. apply host_run_contract in Hrun as (t & Ht). exists t. split; [done|].
  apply contract_run_inv in Ht as [_ _ _ Hfns Hm Hc]. split; [|intros k Hk; by apply Hm, Hc].
  assert (List.NoDup (map fst (execution_effects (rc_state (rt_context rt'))))) as Hnd
    by (apply NoDup_ListNoDup; apply NoDup_fst_map_to_list).
  pose proof (commit_success handle _ _ _ _ _ _ Hwf Hok Hnd Hnc Hcommit) as Hcd. intros k Hk.
  specialize (Hfns k). unfold undisturbed in Hfns. rewrite Hnew, lookup_empty in Hfns.
  destruct Hfns as [[Hno|[_ Hid]]|Htch]; [right | right | by left];
    apply (committed_idle data root (execution_effects (rc_state (rt_context rt')))); auto.
  - left. intros Hi. apply in_map_iff in Hi as ([k' tr] & E1 & Hi). cbn in E1. subst k'.
    apply execution_effects_in in Hi. congruence.
  - right. by apply execution_effects_in.
Qed.
End commit.
