(* ===== verification/ExecutionResult.v ===== *)
(** The results of the parts of a deploy and how they are combined: payment,
    session and finalization, what each costs and which of their effects count.
    Sources: [engine-core/src/engine_state/execution_result.rs],
    [execution_effect.rs]. *)

From stdpp Require Import gmap.
From S2P Require Import Prelude BTreeMap Bytesrepr Uint Types CLValues Account StoredValue Transform.
From S2P Require Import Trie TrieStore GlobalState TrackingCopy ApiError ProtocolData ExecutionError.

(** [engine_state::CONV_RATE]: motes per unit of gas. *)
Definition CONV_RATE : Z := 10.

(** * Effects *)

Record ExecutionEffect := mk_effect {
  effect_ops : gmap Key Op;
  effect_transforms : gmap Key Transform;
}.

Definition effect_default : ExecutionEffect := mk_effect ∅ ∅.

Section results.
Context {dbg : DebugText} {F : ForeignErrors}.

Inductive ExecutionResult : Type :=
| Failure (error : EngineError) (effect : ExecutionEffect) (cost : Gas)
| Success (effect : ExecutionEffect) (cost : Gas).

Inductive ForcedTransferResult := InsufficientPayment | PaymentFailure.

(** The effects of a payment that failed: the most a payment costs goes from the
    main purse to the rewards purse.  [from_t] of a [U512] is unwrapped. *)
Definition make_payment_error_effects {E} (max_payment_cost account_main_purse_balance : Motes)
    (account_main_purse rewards_purse : Key) : outcome E ExecutionEffect :=
  let? new_balance := motes_sub account_main_purse_balance max_payment_cost in
  match from_t clt_u512 new_balance with
  | Ok new_balance_clvalue =>
      let new_balance_value := SV_CLValue new_balance_clvalue in
      let account_main_purse_normalize := normalize account_main_purse in
      let rewards_purse_normalize := normalize rewards_purse in
      Ok (mk_effect
        (<[ rewards_purse_normalize := Op_Add ]> (<[ account_main_purse_normalize := Op_Write ]> ∅))
        (<[ rewards_purse_normalize := AddUInt512 max_payment_cost ]>
          (<[ account_main_purse_normalize := Write new_balance_value ]> ∅)))
  | _ => Panic
  end.

(** * Results *)

Definition precondition_failure (error : EngineError) : ExecutionResult := Failure error effect_default 0.

Definition is_failure (self : ExecutionResult) : bool :=
  match self with Failure _ _ _ => true | Success _ _ => false end.

Definition is_success (self : ExecutionResult) : bool :=
  match self with Failure _ _ _ => false | Success _ _ => true end.

Definition result_cost (self : ExecutionResult) : Gas :=
  match self with Failure _ _ cost => cost | Success _ cost => cost end.

Definition result_effect (self : ExecutionResult) : ExecutionEffect :=
  match self with Failure _ effect _ => effect | Success effect _ => effect end.

Definition has_precondition_failure (self : ExecutionResult) : bool :=
  match self with
  | Failure _ effect cost =>
      (cost =? 0) && bool_decide (effect_ops effect = ∅) && bool_decide (effect_transforms effect = ∅)
  | Success _ _ => false
  end.

Definition with_cost (self : ExecutionResult) (cost : Gas) : ExecutionResult :=
  match self with
  | Failure error effect _ => Failure error effect cost
  | Success effect _ => Success effect cost
  end.

Definition with_effect (self : ExecutionResult) (effect : ExecutionEffect) : ExecutionResult :=
  match self with
  | Failure error _ cost => Failure error effect cost
  | Success _ cost => Success effect cost
  end.

Definition take_error (self : ExecutionResult) : option EngineError :=
  match self with Failure error _ _ => Some error | Success _ _ => None end.

Definition check_forced_transfer (self : ExecutionResult) (payment_purse_balance : Motes)
    : option ForcedTransferResult :=
  match motes_from_gas (result_cost self) CONV_RATE with
  | None => Some InsufficientPayment
  | Some payment_result_cost =>
      let insufficient_balance_to_continue := payment_purse_balance <? payment_result_cost in
      match self with
      | Success _ _ => if insufficient_balance_to_continue then Some InsufficientPayment else None
      | Failure _ _ _ => Some PaymentFailure
      end
  end.

Definition new_payment_code_error {E} (error : EngineError) (max_payment_cost account_main_purse_balance : Motes)
    (account_main_purse rewards_purse : Key) : outcome E ExecutionResult :=
  let? effect := make_payment_error_effects max_payment_cost account_main_purse_balance
    account_main_purse rewards_purse in
  let cost := match gas_from_motes max_payment_cost CONV_RATE with Some g => g | None => 0 end in
  Ok (Failure error effect cost).

(** * Combining results *)

Inductive ExecutionResultBuilderError :=
| MissingPaymentExecutionResult
| MissingSessionExecutionResult
| MissingFinalizeExecutionResult.

Record ExecutionResultBuilder := mk_builder {
  payment_execution_result : option ExecutionResult;
  session_execution_result : option ExecutionResult;
  finalize_execution_result : option ExecutionResult;
}.

Definition builder_new : ExecutionResultBuilder := mk_builder None None None.

Definition set_payment_execution_result (r : ExecutionResult) (b : ExecutionResultBuilder) : ExecutionResultBuilder :=
  mk_builder (Some r) (session_execution_result b) (finalize_execution_result b).

Definition set_session_execution_result (r : ExecutionResult) (b : ExecutionResultBuilder) : ExecutionResultBuilder :=
  mk_builder (payment_execution_result b) (Some r) (finalize_execution_result b).

Definition set_finalize_execution_result (r : ExecutionResult) (b : ExecutionResultBuilder) : ExecutionResultBuilder :=
  mk_builder (payment_execution_result b) (session_execution_result b) (Some r).

Definition cost_or_default (r : option ExecutionResult) : Gas :=
  match r with Some r => result_cost r | None => 0 end.

(** Finalization is not charged for. *)
Definition total_cost {E} (b : ExecutionResultBuilder) : outcome E Gas :=
  gas_add (cost_or_default (payment_execution_result b)) (cost_or_default (session_execution_result b)).

(** The loops of [add_effects]; the keys of a hash map are distinct. *)
Definition add_effects (acc effect : ExecutionEffect) : ExecutionEffect :=
  mk_effect
    (map_fold (fun k op ops => insert_add op_add op_default ops k op) (effect_ops acc) (effect_ops effect))
    (map_fold (fun k t transforms => insert_add transform_add transform_default transforms k t)
      (effect_transforms acc) (effect_transforms effect)).

Section reader.
Context {RE : Type} (reader : Key -> outcome RE (option StoredValue)).

(** The stored values of the keys that are written. *)
Definition written_values (transforms : gmap Key Transform) : list (Key * StoredValue) :=
  omap (fun e : Key * Transform =>
    match e.2 with
    | Write _ => match reader e.1 with Ok (Some v) => Some (e.1, v) | _ => None end
    | _ => None
    end) (map_to_list transforms).

(** One round of the loop of [reduce_identity_writes]. *)
Definition reduce_step (acc : ExecutionEffect) (kv : Key * StoredValue) : ExecutionEffect :=
  let '(k, old_value) := kv in
  match effect_transforms acc !! k with
  | Some (Write new_value) =>
      if bool_decide (new_value = old_value)
      then mk_effect (<[ k := Op_Read ]> (effect_ops acc)) (<[ k := Identity ]> (effect_transforms acc))
      else mk_effect (effect_ops acc) (<[ k := Write new_value ]> (effect_transforms acc))
  | _ => mk_effect (effect_ops acc) (delete k (effect_transforms acc))
  end.

Definition reduce_identity_writes (effect : ExecutionEffect) : ExecutionEffect :=
  fold_left reduce_step (written_values (effect_transforms effect)) effect.

Definition build (b : ExecutionResultBuilder) : outcome ExecutionResultBuilderError ExecutionResult :=
  let? cost := total_cost b in
  match payment_execution_result b with
  | None => Err MissingPaymentExecutionResult
  | Some payment =>
      if is_failure payment then Ok payment
      else
        let acc := add_effects effect_default (result_effect payment) in
        match session_execution_result b with
        | None => Err MissingSessionExecutionResult
        | Some session =>
            let '(ret, acc) :=
              if is_failure session then (with_cost session cost, acc)
              else (Success effect_default cost, add_effects acc (result_effect session)) in
            match finalize_execution_result b with
            | None => Err MissingFinalizeExecutionResult
            | Some finalize =>
                if is_failure finalize then Ok (precondition_failure ES_FinalizationError)
                else
                  let acc := add_effects acc (result_effect finalize) in
                  Ok (with_effect ret (reduce_identity_writes acc))
            end
        end
  end.
End reader.
End results.

(** * Properties *)

Lemma fold_insert_add {V} (add : V -> V -> V) d (acc m : gmap Key V) k :
  map_fold (fun k x a => insert_add add d a k x) acc m !! k
  = match m !! k with Some x => Some (add (default d (acc !! k)) x) | None => acc !! k end.
Proof.
  apply (map_fold_weak_ind (fun r m => r !! k = match m !! k with
    | Some x => Some (add (default d (acc !! k)) x) | None => acc !! k end)).
  { by rewrite lookup_empty. }
  intros i x m' r Hi IH. unfold insert_add. destruct (decide (k = i)) as [->|Hne].
  - rewrite !lookup_insert_eq. rewrite Hi in IH. rewrite IH. by destruct (acc !! i).
  - by rewrite !lookup_insert_ne.
Qed.

Section properties.
Context {dbg : DebugText} {F : ForeignErrors} {RE : Type} (reader : Key -> outcome RE (option StoredValue)).

(** What one more effect does to the transform of a key. *)
Definition then_transform (before next : option Transform) : option Transform :=
  match next with
  | Some t => Some (transform_add (default transform_default before) t)
  | None => before
  end.

Lemma add_effects_at acc effect k :
  effect_transforms (add_effects acc effect) !! k
  = then_transform (effect_transforms acc !! k) (effect_transforms effect !! k).
Proof. unfold add_effects, then_transform. cbn. by rewrite fold_insert_add. Qed.

(** The reduction of one transform: writing the value that is there is reading. *)
Definition reduced (k : Key) (t : Transform) : Transform :=
  match t with
  | Write v =>
      match reader k with
      | Ok (Some old) => if bool_decide (v = old) then Identity else t
      | _ => t
      end
  | _ => t
  end.

Lemma reduced_same k t w : reader k = Ok (Some w) -> apply_transform (reduced k t) w = apply_transform t w.
Proof. intros Hr. destruct t; try done. cbn. rewrite Hr. by case_bool_decide; subst. Qed.

(** The steps of the loop touch one key each. *)
Lemma reduce_step_other acc kv k :
  k <> kv.1 -> effect_transforms (reduce_step acc kv) !! k = effect_transforms acc !! k.
Proof.
  destruct kv as [k' old]. cbn. intros Hne.
  destruct (effect_transforms acc !! k') as [[]|]; cbn; try (by rewrite lookup_delete_ne).
  case_bool_decide; cbn; by rewrite lookup_insert_ne.
Qed.

Lemma reduce_loop_other l acc k :
  ~ In k (map fst l) -> effect_transforms (fold_left reduce_step l acc) !! k = effect_transforms acc !! k.
Proof.
  revert acc. induction l as [|kv l IH]; intros acc Hk; [done|]. cbn in *.
  rewrite IH, reduce_step_other; naive_solver.
Qed.

Lemma reduce_loop_at l acc k old v :
  List.NoDup (map fst l) -> In (k, old) l -> effect_transforms acc !! k = Some (Write v) ->
  effect_transforms (fold_left reduce_step l acc) !! k = Some (if bool_decide (v = old) then Identity else Write v).
Proof.
  revert acc. induction l as [|kv l IH]; intros acc Hnd Hin Hk; [done|]. cbn in Hnd. apply NoDup_cons_iff in Hnd as [Hno Hnd].
  destruct Hin as [->|Hin]; cbn [fold_left].
  - rewrite reduce_loop_other by done. cbn. rewrite Hk. case_bool_decide; cbn; by rewrite lookup_insert_eq.
  - apply IH; [done|done|]. rewrite reduce_step_other; [done|]. intros ->. apply Hno. apply in_map_iff. by exists (kv.1, old).
Qed.

Lemma written_values_in m k old :
  In (k, old) (written_values reader m) <-> reader k = Ok (Some old) /\ exists v, m !! k = Some (Write v).
Proof.
  unfold written_values. rewrite <- list_elem_of_In, list_elem_of_omap. split.
  - intros ([k' t] & Hin & He). apply elem_of_map_to_list in Hin. cbn in He.
    destruct t; try discriminate He. destruct (reader k') as [[w|]|e|] eqn:Er; try discriminate He.
    injection He as -> ->. eauto.
  - intros (Hr & v & Hm). exists (k, Write v). split; [by apply elem_of_map_to_list|]. cbn. by rewrite Hr.
Qed.

Lemma written_values_nodup m : List.NoDup (map fst (written_values reader m)).
Proof.
  unfold written_values. pose proof (NoDup_fst_map_to_list m) as Hnd.
  induction (map_to_list m) as [|[k t] l IH]; [constructor|]. cbn in Hnd. apply NoDup_cons in Hnd as [Hno Hnd].
  specialize (IH Hnd). cbn. destruct t; try done. destruct (reader k) as [[w|]|e|]; try done.
  cbn. constructor; [|done]. intros Hin. apply Hno. apply in_map_iff in Hin as ([k' w'] & E1 & Hin). cbn in E1. subst k'.
  apply list_elem_of_In, list_elem_of_omap in Hin as ([k' t'] & Hin & He). apply list_elem_of_fmap.
  exists (k', t'). split; [|done]. cbn in *. destruct t'; try discriminate He.
  destruct (reader k') as [[w''|]|e|]; congruence.
Qed.

Lemma reduce_at effect k :
  effect_transforms (reduce_identity_writes reader effect) !! k = reduced k <$> effect_transforms effect !! k.
Proof.
  unfold reduce_identity_writes. pose proof (written_values_in (effect_transforms effect) k) as Hin.
  destruct (effect_transforms effect !! k) as [t|] eqn:Ek.
  1: destruct (decide (reduced k t = t)) as [Er|Er]; cbn [fmap option_fmap option_map].
  - destruct (in_dec key_eq_dec k (map fst (written_values reader (effect_transforms effect)))) as [Hk|Hk];
      [|by rewrite reduce_loop_other, Ek, Er].
    apply in_map_iff in Hk as ([k' old] & E1 & Hk). cbn in E1. subst k'. apply Hin in Hk as Hw.
    destruct Hw as (Hr & v & [= ->]). rewrite (reduce_loop_at _ _ k old v); [|apply written_values_nodup|done|done].
    f_equal. unfold reduced. rewrite Hr. done.
  - destruct t; try done. cbn in *. destruct (reader k) as [[old|]|e|]; try done.
    apply reduce_loop_at; [apply written_values_nodup | apply Hin; eauto | done].
  - rewrite reduce_loop_other; [done|]. intros Hk. apply in_map_iff in Hk as ([k' old] & E1 & Hk). cbn in E1. subst k'.
    apply Hin in Hk as (_ & v & Hv). done.
Qed.

(** The transform of a key after the parts of a deploy that count. *)
Definition combined (payment session finalize : ExecutionResult) (k : Key) : option Transform :=
  let counted r := if is_failure r then None else effect_transforms (result_effect r) !! k in
  then_transform (then_transform (then_transform None (counted payment)) (counted session)) (counted finalize).

(** C12: the result of a deploy. A failed payment is the result; a failed
    finalization costs nothing and has no effect; otherwise the deploy costs what
    payment and session cost together and fails only if the session does. Its
    effect on a key is the sum of the effects of the payment, of the session
    unless it failed, and of the finalization, except that writing the value that
    is there becomes reading, which commits to the same value. *)
Theorem build_spec payment session finalize :
  result_cost payment + result_cost session < 2 ^ 512 ->
  exists r, build reader (mk_builder (Some payment) (Some session) (Some finalize)) = Ok r
  /\ (is_failure payment = true -> r = payment)
  /\ (is_failure payment = false -> is_failure finalize = true -> r = precondition_failure ES_FinalizationError)
  /\ (is_failure payment = false -> is_failure finalize = false ->
        result_cost r = result_cost payment + result_cost session /\ take_error r = take_error session
        /\ forall k, effect_transforms (result_effect r) !! k = reduced k <$> combined payment session finalize k)
  /\ forall k t w, reader k = Ok (Some w) -> apply_transform (reduced k t) w = apply_transform t w.
Proof.
  intros Hc. unfold build, total_cost, gas_add, uint_add. cbn [payment_execution_result session_execution_result
    finalize_execution_result cost_or_default]. rewrite (proj2 (Z.ltb_lt _ _) Hc). cbn [obind].
  pose proof reduced_same as Hsame. unfold combined.
  destruct payment as [ep fp cp|fp cp]; cbn [is_failure]; [eexists; by split_and!|].
  destruct finalize as [ef ff cf|ff cf]; cbn [is_failure]; [eexists; destruct session; by split_and!|].
  destruct session as [es fs cs|fs cs]; cbn [is_failure with_cost with_effect]; eexists; split_and!; try done;
    intros _ _; (split; [done|]); (split; [done|]); intros k; cbn [result_effect];
    rewrite reduce_at, !add_effects_at; cbn; by rewrite lookup_empty.
Qed.

(** ** Forced payment *)

(** A stored value that is an amount of motes. *)
Definition holds_motes (v : StoredValue) (amount : Motes) : Prop :=
  exists cl, v = SV_CLValue cl /\ cl_type cl = CL_U512 /\ into_t clt_u512 cl = Ok amount.

Lemma packed_motes amount cl :
  is_unsigned 512 amount -> from_t clt_u512 amount = Ok cl -> holds_motes (SV_CLValue cl) amount.
Proof. intros Ha Hf. destruct (into_from_t clt_u512 (num_valid NU512) amount cl Ha Hf). by exists cl. Qed.

Lemma add_motes v amount cost :
  holds_motes v amount -> is_unsigned 512 cost -> amount + cost < 2 ^ 512 -> 0 <= amount ->
  exists v', apply_transform (AddUInt512 cost) v = Ok v' /\ holds_motes v' (amount + cost).
Proof.
  intros (cl & -> & Et & Ei) Hc Hs Ha.
  destruct (wrapping_addition_sum NU512 cost cl NU512 amount) as (cl' & Hw & Hf); [done | by rewrite Et | done|].
  exists (SV_CLValue cl'). split; [exact Hw|].
  assert (is_unsigned 512 (amount + cost)) as Hv by (destruct Hc; split; lia).
  rewrite (num_wrap_small NU512 (amount + cost) Hv) in Hf. by apply packed_motes.
Qed.

(** A failed payment is paid for by force. The account is charged the
    largest payment there is, which moves from its main purse to the rewards
    purse: the sum of both stays, and nothing else changes. (Were both the same
    purse, the charge would be added to it.) *)
Theorem forced_payment_spec error cost balance main rewards v_main v_rewards reward :
  holds_motes v_main balance -> holds_motes v_rewards reward ->
  is_unsigned 512 balance -> 0 <= cost <= balance -> 0 <= reward -> reward + cost < 2 ^ 512 ->
  exists effect, new_payment_code_error (E := unit) error cost balance main rewards
      = Ok (Failure error effect (cost / CONV_RATE))
  /\ (forall k, k <> normalize main -> k <> normalize rewards -> effect_transforms effect !! k = None)
  /\ (normalize main <> normalize rewards ->
       exists t_main t_rewards v_main' v_rewards' b r,
         effect_transforms effect !! normalize main = Some t_main
         /\ effect_transforms effect !! normalize rewards = Some t_rewards
         /\ apply_transform t_main v_main = Ok v_main' /\ apply_transform t_rewards v_rewards = Ok v_rewards'
         /\ holds_motes v_main' b /\ holds_motes v_rewards' r
         /\ b = balance - cost /\ b + r = balance + reward)
  /\ (normalize main = normalize rewards ->
       effect_transforms effect !! normalize main = Some (AddUInt512 cost)).
Proof.
  intros Hm Hr Hb Hc Hw Hs. destruct Hb as [Hb0 Hb1].
  unfold new_payment_code_error, make_payment_error_effects, motes_sub, uint_sub.
  rewrite (proj2 (Z.leb_le _ _)) by lia. cbn [obind].
  assert (is_unsigned 512 (balance - cost)) as Hn by (split; lia).
  destruct (from_t_num NU512 (balance - cost) Hn) as (cl & Hf & _). cbn [clt_num] in Hf. rewrite Hf.
  eexists. split; [done|]. cbn [effect_transforms]. split_and!.
  - intros k H1 H2. by rewrite !lookup_insert_ne.
  - intros Hne. destruct (add_motes v_rewards reward cost) as (v' & Ha & Hv); [done | split; lia | done..|].
    exists (Write (SV_CLValue cl)), (AddUInt512 cost), (SV_CLValue cl), v', (balance - cost), (reward + cost).
    rewrite lookup_insert_ne, !lookup_insert_eq by done. split_and!; try done; [by apply packed_motes | lia].
  - intros ->. by rewrite lookup_insert_eq.
Qed.
End properties.
