(* ===== verification/TrackingCopyExt.v ===== *)
(** Lookups the engine makes in a tracking copy: accounts, contracts, and the
    balance of a purse, which the mint keeps under a key of its own.  Sources:
    [engine-core/src/tracking_copy/ext.rs]. *)

From stdpp Require Import gmap.
From S2P Require Import Prelude BTreeMap Bytesrepr Uint Types CLValues Account StoredValue Transform.
From S2P Require Import Trie TrackingCopy ApiError ProtocolData ExecutionError.

Section ext.
Context {L : Type} `{LinkedHashMap L} {meter : Meter} {dbg : DebugText} {qtext : QueryText}.
Context {hasher : Hasher} {F : ForeignErrors} {E : Type}.
Context (reader : Key -> outcome E (option StoredValue)) (into_error : E -> ExecError).

#[local] Abbreviation M A := (eff (TrackingCopy L) ExecError A).

Definition get_account (account_address : bytes) : M Account :=
  let account_key := Key_Account account_address in
  let! found := emap_err into_error (tc_get reader account_key) in
  elift match found with
        | Some (SV_Account account) => Ok account
        | Some other => Err (EE_TypeMismatch (mk_type_mismatch (str "Account") (type_name other)))
        | None => Err (EE_KeyNotFound account_key)
        end.

Definition get_purse_balance_key (mint_contract_uref : URef) (outer_key : Key) : M Key :=
  let! uref := elift (ok_or (key_into_uref outer_key) (EE_URefNotFound (str "public purse balance"))) in
  let! local_key_bytes := elift (omap_err EE_BytesRepr (u8_array_to_bytes (uref_addr uref))) in
  let balance_mapping_key := key_local blake2b_hash_new (uref_addr mint_contract_uref) local_key_bytes in
  let! result := emap_err into_error (tc_query reader balance_mapping_key []) in
  elift match result with
        | Query_Success stored_value =>
            let? cl_value := omap_err EE_TypeMismatch (try_into_cl_value stored_value) in
            omap_err EE_CLValue (into_t clt_key cl_value)
        | Query_ValueNotFound msg => Err (EE_URefNotFound msg)
        end.

Definition get_purse_balance (key : Key) : M Motes :=
  let! query_result := emap_err (fun _ => EE_KeyNotFound key) (tc_query reader key []) in
  elift match query_result with
        | Query_Success stored_value =>
            let? cl_value := omap_err EE_TypeMismatch (try_into_cl_value stored_value) in
            omap_err EE_CLValue (into_t clt_u512 cl_value)
        | Query_ValueNotFound _ => Err (EE_KeyNotFound key)
        end.

Definition get_contract (key : Key) : M Contract :=
  let! found := emap_err into_error (tc_get reader (normalize key)) in
  elift match found with
        | Some (SV_Contract contract) => Ok contract
        | Some other => Err (EE_TypeMismatch (mk_type_mismatch (str "Contract") (type_name other)))
        | None => Err (EE_KeyNotFound key)
        end.
End ext.

(** * What the lookups find *)

Section spec.
Context {L : Type} `{LinkedHashMapLaws L} `{MeterLaws} {dbg : DebugText} {qtext : QueryText}.
Context {hasher : Hasher} {F : ForeignErrors} {E : Type}.
Context (reader : Key -> outcome E (option StoredValue)) (into_error : E -> ExecError).
Implicit Types s : TrackingCopy L.

#[local] Abbreviation view := (tc_view reader).

(** A lookup leaves the state as it sees it, and its answers are those of [P] on
    that state. *)
Definition looks_up {A} (m : eff (TrackingCopy L) ExecError A) (P : (Key -> outcome E (option StoredValue)) -> A -> Prop)
    : Prop :=
  forall s o s', tc_inv reader s -> m s = (o, s') ->
  tc_inv reader s' /\ same_view reader s s' /\ forall a, o = Ok a <-> P (view s) a.

Definition account_at (addr : bytes) (w : Key -> outcome E (option StoredValue)) (a : Account) : Prop :=
  w (Key_Account addr) = Ok (Some (SV_Account a)).

Definition contract_at (key : Key) (w : Key -> outcome E (option StoredValue)) (c : Contract) : Prop :=
  w (normalize key) = Ok (Some (SV_Contract c)).

(** A value of a type, found at a key. *)
Definition value_at {A} (T : CLTyped A) (key : Key) (w : Key -> outcome E (option StoredValue)) (a : A) : Prop :=
  exists cl, w (normalize key) = Ok (Some (SV_CLValue cl)) /\ into_t T cl = Ok a.

(** The key under which the mint at an address keeps the balance of a purse. *)
Definition balance_key_at (mint : URef) (purse : Key) (w : Key -> outcome E (option StoredValue)) (bk : Key) : Prop :=
  exists u bs, key_into_uref purse = Some u /\ u8_array_to_bytes (uref_addr u) = Ok bs
    /\ value_at clt_key (key_local blake2b_hash_new (uref_addr mint) bs) w bk.

Lemma get_account_spec addr : looks_up (get_account reader into_error addr) (account_at addr).
Proof.
  intros s o s' Hi. unfold get_account, ebind, emap_err, account_at.
  destruct (tc_get_spec reader (Key_Account addr) s Hi) as (s1 & -> & Hi1 & Hm).
  destruct (view s (Key_Account addr)) as [[[cl|a|c]|]|e|]; cbn; intros [= <- <-];
    (split; [done|]); (split; [intros k; by apply same_muts_view|]); intros b; split; intros Hb; congruence.
Qed.

Lemma get_contract_spec key : looks_up (get_contract reader into_error key) (contract_at key).
Proof.
  intros s o s' Hi. unfold get_contract, ebind, emap_err, contract_at.
  destruct (tc_get_spec reader (normalize key) s Hi) as (s1 & -> & Hi1 & Hm).
  destruct (view s (normalize key)) as [[[cl|a|c]|]|e|]; cbn; intros [= <- <-];
    (split; [done|]); (split; [intros k; by apply same_muts_view|]); intros b; split; intros Hb; congruence.
Qed.

(** A query without a path is a read. *)
Lemma query_nil_spec key s :
  tc_inv reader s -> exists s', tc_inv reader s' /\ same_view reader s s' /\
  tc_query reader key [] s = (match view s (normalize key) with
                              | Ok (Some v) => Ok (Query_Success v)
                              | Ok None => Ok (Query_ValueNotFound (error_path_msg key [] [] 0))
                              | Err e => Err e
                              | Panic => Panic
                              end, s').
Proof.
  intros Hi. destruct (tc_read_view reader key s Hi) as (s1 & Er & Hi1 & Hv). exists s1. split_and!; [done..|].
  unfold tc_query, ebind. rewrite Er. by destruct (view s (normalize key)) as [[v|]|e|].
Qed.

(** Reading a typed value after a query. *)
Lemma typed_answer {A} (T : CLTyped A) key (w : Key -> outcome E (option StoredValue)) v r b :
  w (normalize key) = Ok (Some v) ->
  (let? cl_value := omap_err EE_TypeMismatch (try_into_cl_value v) in omap_err EE_CLValue (into_t T cl_value)) = r ->
  r = Ok b <-> value_at T key w b.
Proof.
  intros Hw <-. unfold value_at. rewrite Hw. destruct v as [cl|a|c]; cbn.
  - destruct (into_t T cl) as [x|e|] eqn:Ei; cbn; split; try done.
    + intros [= ->]. eauto.
    + intros (cl' & [= ->] & Hx). congruence.
    + intros (cl' & [= ->] & Hx). congruence.
    + intros (cl' & [= ->] & Hx). congruence.
  - split; [done|]. by intros (cl & [=] & _).
  - split; [done|]. by intros (cl & [=] & _).
Qed.

Lemma get_purse_balance_spec key : looks_up (get_purse_balance reader key) (value_at clt_u512 key).
Proof.
  intros s o s' Hi. unfold get_purse_balance, ebind, emap_err.
  destruct (query_nil_spec key s Hi) as (s1 & Hi1 & Hv & ->).
  destruct (view s (normalize key)) as [[v|]|e|] eqn:Ek; cbn; intros [= <- <-]; (split; [done|]); (split; [done|]);
    intros b; try (split; [done|]; intros (cl & Hc & _); congruence).
  by apply (typed_answer _ _ _ v).
Qed.

Lemma get_purse_balance_key_spec mint purse :
  looks_up (get_purse_balance_key reader into_error mint purse) (balance_key_at mint purse).
Proof.
  intros s o s' Hi. unfold get_purse_balance_key, balance_key_at.
  destruct (key_into_uref purse) as [u|]; cbn [ok_or].
  2: { intros [= <- <-]. split_and!; [done | by intros k |]. intros b. split; [done|]. by intros (u & bs & ? & _). }
  rewrite elift_run. cbn [u8_array_to_bytes omap_err]. rewrite elift_run. unfold ebind, emap_err.
  destruct (query_nil_spec (key_local blake2b_hash_new (uref_addr mint) (uref_addr u)) s Hi) as (s1 & Hi1 & Hv & ->).
  destruct (view s _) as [[v|]|e|] eqn:Ek; cbn; intros [= <- <-]; (split; [done|]); (split; [done|]);
    intros b; try (split; [done|]; intros (u' & bs & [= <-] & [= <-] & cl & Hc & _); congruence).
  rewrite (typed_answer clt_key _ (view s) v _ b Ek eq_refl). split; [eauto|].
  by intros (u' & bs & [= <-] & [= <-] & Hx).
Qed.
End spec.
