(* ===== verification/Executor.v ===== *)
(** Preparing a module and running it: the executor builds the context of a run,
    starts the instance and reports what it did and cost.  Sources:
    [engine-wasm-prep/src/lib.rs], [wasm_costs.rs],
    [engine-core/src/execution/executor.rs]. *)

From stdpp Require Import gmap.
From S2P Require Import Prelude BTreeMap Bytesrepr Uint Types CLValues Account StoredValue Transform.
From S2P Require Import Trie TrackingCopy ApiError ProtocolData ExecutionError RuntimeContext.
From S2P Require Import ExtractURefs Runtime ExecutionResult.

(** * Preparing modules *)

(** The parts of a module that gas rules tell apart. *)
Inductive InstructionType := Instr_Load | Instr_Store | Instr_Div | Instr_Mul.

(** [pwasm_utils::rules::Set]: the cost of an instruction, of those metered on
    their own, of growing memory, and whether floats are forbidden. *)
Record GasRules := mk_gas_rules {
  rules_regular : Z;
  rules_metered : list (InstructionType * Z);
  rules_grow : Z;
  rules_forbid_floats : bool;
}.

(** [WasmCosts::to_set]. *)
Definition wasm_costs_to_set (c : WasmCosts) : GasRules :=
  mk_gas_rules (wc_regular c)
    [(Instr_Load, wc_mem c); (Instr_Store, wc_mem c); (Instr_Div, wc_div c); (Instr_Mul, wc_mul c)]
    (wc_grow_mem c) true.

(** What preprocessing uses of [pwasm_utils], and the text of an error. *)
Class WasmPrep (Module : Type) {F : ForeignErrors} := {
  externalize_mem : Module -> option Z -> Z -> Module;
  inject_gas_counter : Module -> GasRules -> option Module;
  inject_limiter : Module -> Z -> option Module;
  parity_error_text : ParityError -> bytes;
}.

Definition MEM_PAGES : Z := 64.

Section preprocess.
Context {Mem Module : Type} {F : ForeignErrors} `{!Platform Mem Module, !WasmPrep Module}.

Definition wasm_deserialize (module_bytes : bytes) : outcome PreprocessingError Module :=
  omap_err (fun e => DeserializeError (parity_error_text e)) (module_deserialize module_bytes).

(** [Preprocessor::new(wasm_costs).preprocess(module_bytes)]. *)
Definition preprocess (wasm_costs : WasmCosts) (module_bytes : bytes) : outcome PreprocessingError Module :=
  let? module := wasm_deserialize module_bytes in
  let module := externalize_mem module None MEM_PAGES in
  let? module := ok_or (inject_gas_counter module (wasm_costs_to_set wasm_costs)) OperationForbiddenByGasRules in
  ok_or (inject_limiter module (wc_max_stack_height wasm_costs)) StackLimiterError.
End preprocess.

(** * Running *)

Definition FN_STORE_ID_INITIAL : Z := 0.

Section executor.
Context {L G Mem Module : Type} `{LinkedHashMap L, Rng G} {hasher : Hasher} {F : ForeignErrors}.
Context `{!Platform Mem Module} {alloc : Allocator} {E : Type}.

#[local] Abbreviation RT := (Runtime L G Mem Module).
#[local] Abbreviation TC := (TrackingCopy L).
#[local] Abbreviation Reader := (Key -> outcome E (option StoredValue)).

(** [instance.invoke_export("call", &[], &mut runtime)]: a run of the module over
    a reader of the state. *)
Context (invoke_call : Reader -> Module -> eff RT InterpreterError unit).

(** The rights of the given names, and those to read the system contracts. *)
Definition initial_access_rights (named_keys : BTreeMap bytes Key) (account : Account)
    (protocol_data : ProtocolData) : RightsMap :=
  extract_access_rights_from_keys
    (bt_values named_keys
     ++ map (fun uref => Key_URef (attenuate_uref_for_account account uref)) (system_contracts protocol_data)).

(** [RuntimeContext::new] with the values an execution starts from. *)
Definition initial_context (state : TC) (named_keys : BTreeMap bytes Key) (args : list CLValue)
    (authorization_keys : list PublicKey) (account : Account) (base_key : Key) (blocktime : BlockTime)
    (deploy_hash : bytes) (gas_limit : Gas) (address_generator : G) (protocol_version : ProtocolVersion)
    (phase : Phase) (protocol_data : ProtocolData) : RuntimeContext L G :=
  mk_context state named_keys (initial_access_rights named_keys account protocol_data) account args
    authorization_keys base_key blocktime deploy_hash gas_limit 0 FN_STORE_ID_INITIAL address_generator
    protocol_version phase protocol_data.

(** [context().effect()]. *)
Definition state_effect (s : TC) : ExecutionEffect := mk_effect (tc_ops s) (tc_fns s).

Definition exec_error (e : ExecError) : EngineError := ES_ExecError e.

(** [bytesrepr::deserialize(args)], where no bytes are no arguments. *)
Definition read_args {A} (c : Codec (list A)) (args : bytes) : outcome Error (list A) :=
  match args with [] => Ok [] | _ => deserialize c args end.

(** Executor::exec *)
Definition exec {Er} (reader : Reader) (parity_module : Module) (args : bytes) (base_key : Key)
    (account : Account) (authorized_keys : list PublicKey) (blocktime : BlockTime) (deploy_hash : bytes)
    (gas_limit : Gas) (protocol_version : ProtocolVersion) (phase : Phase) (protocol_data : ProtocolData)
    (cache : SystemContractCache Module) : eff TC Er ExecutionResult :=
  fun tc =>
    match instance_and_memory parity_module protocol_version with
    | Err e => (Ok (precondition_failure (exec_error e)), tc)
    | Panic => (Panic, tc)
    | Ok memory =>
        let named_keys := account_named_keys account in
        let address_generator := address_generator_new deploy_hash phase in
        let effects_snapshot := state_effect tc in
        match read_args vec_vec_u8_codec args with
        | Err e => (Ok (Failure (exec_error (EE_BytesRepr e)) effects_snapshot (zlen args)), tc)
        | Panic => (Panic, tc)
        | Ok arguments =>
            let arguments := map (mk_cl_value CL_Any) arguments in
            let context := initial_context tc named_keys arguments authorized_keys account base_key blocktime
              deploy_hash gas_limit address_generator protocol_version phase protocol_data in
            let runtime := mk_runtime cache memory parity_module None context in
            let '(result, runtime') := invoke_call reader parity_module runtime in
            let tc' := rc_state (rt_context runtime') in
            let cost := rc_gas_counter (rt_context runtime') in
            (match result with
             | Ok _ => Ok (Success (state_effect tc') cost)
             | Err e => Ok (Failure (exec_error (EE_Interpreter e)) effects_snapshot cost)
             | Panic => Panic
             end, tc')
        end
    end.

(** [Executor::exec_direct]: a contract run by the system; [ret] is a success. *)
Definition exec_direct {Er} (reader : Reader) (parity_module : Module) (args : bytes)
    (named_keys : BTreeMap bytes Key) (base_key : Key) (account : Account)
    (authorization_keys : list PublicKey) (blocktime : BlockTime) (deploy_hash : bytes) (gas_limit : Gas)
    (protocol_version : ProtocolVersion) (phase : Phase) (protocol_data : ProtocolData)
    (cache : SystemContractCache Module) : eff TC Er ExecutionResult :=
  fun tc =>
    let address_generator := address_generator_new deploy_hash phase in
    let effects_snapshot := state_effect tc in
    match read_args (mk_codec vec_cl_value_to_bytes vec_cl_value_from_bytes) args with
    | Err e => (Ok (Failure (exec_error (EE_BytesRepr e)) effects_snapshot (zlen args)), tc)
    | Panic => (Panic, tc)
    | Ok args =>
        let context := initial_context tc named_keys args authorization_keys account base_key blocktime
          deploy_hash gas_limit address_generator protocol_version phase protocol_data in
        match instance_and_memory parity_module protocol_version with
        | Err e => (Ok (precondition_failure (exec_error e)), tc)
        | Panic => (Panic, tc)
        | Ok memory =>
            let runtime := mk_runtime cache memory parity_module None context in
            let '(result, runtime') := invoke_call reader parity_module runtime in
            let tc' := rc_state (rt_context runtime') in
            let cost := rc_gas_counter (rt_context runtime') in
            (match result with
             | Ok _ | Err (IE_Host (EE_Ret _)) => Ok (Success (state_effect tc') cost)
             | Err (IE_Host (EE_Revert status)) => Ok (Failure (exec_error (EE_Revert status)) effects_snapshot cost)
             | Err e => Ok (Failure (exec_error (EE_Interpreter e)) effects_snapshot cost)
             | Panic => Panic
             end, tc')
        end
    end.

(** [Executor::better_exec]: the value a contract returns, unpacked; the tracking
    copy and the address generator are shared with the caller. *)
Definition better_exec {A} (T : CLTyped A) (reader : Reader) (module : Module) (args : bytes)
    (keys : BTreeMap bytes Key) (base_key : Key) (account : Account) (authorization_keys : list PublicKey)
    (blocktime : BlockTime) (deploy_hash : bytes) (gas_limit : Gas) (protocol_version : ProtocolVersion)
    (phase : Phase) (protocol_data : ProtocolData) (cache : SystemContractCache Module)
    : eff (TC * G) ExecError A :=
  let! args := elift (omap_err EE_BytesRepr
    (read_args (mk_codec vec_cl_value_to_bytes vec_cl_value_from_bytes) args)) in
  let! memory := elift (instance_and_memory module protocol_version) in
  fun '(tc, address_generator) =>
    let context := initial_context tc keys args authorization_keys account base_key blocktime deploy_hash
      gas_limit address_generator protocol_version phase protocol_data in
    let runtime := mk_runtime cache memory module None context in
    let '(result, runtime') := invoke_call reader module runtime in
    let context' := rt_context runtime' in
    (let? value :=
       match result with
       | Ok _ =>
           let? nothing := omap_err EE_CLValue (from_t clt_unit tt) in
           Ok (match rt_host_buf runtime' with Some v => v | None => nothing end)
       | Err (IE_Host (EE_Ret _)) => ok_or (rt_host_buf runtime') EE_ExpectedReturnValue
       | Err (IE_Host (EE_Revert code)) => Err (EE_Revert code)
       | Err e => Err (EE_Interpreter e)
       | Panic => Panic
       end in
     omap_err EE_CLValue (into_t T value),
     (rc_state context', rc_address_generator context')).
End executor.
