(* ===== verification/PosContract.v ===== *)
(** The deployed proof-of-stake contract: stakes kept as names of the contract,
    queues in its local state, and the engine's reading of the stakes.  Sources:
    [contracts/system/pos/src/contract_stakes.rs], [contract_queue.rs],
    [engine-core/src/engine_state/utils.rs]. *)

From stdpp Require Import gmap.
From S2P Require Import Prelude BTreeMap Bytesrepr Uint Types CLValues Stakes ProofOfStake ApiError.

(** * Text *)

(** [str::split] at a character: the pieces between its occurrences. *)
Fixpoint split_at_byte (sep : byte) (s : bytes) : list bytes :=
  match s with
  | [] => [[]]
  | b :: s' =>
      if decide (b = sep) then [] :: split_at_byte sep s'
      else match split_at_byte sep s' with
           | piece :: pieces => (b :: piece) :: pieces
           | [] => [[b]]
           end
  end.

Definition underscore : byte := "_"%byte.

Definition split_underscore (s : bytes) : list bytes := split_at_byte underscore s.

(** [{:02x}] of a byte, and of the bytes of a key. *)
Definition hex_digit (z : Z) : byte := byte_of_Z (if z <? 10 then 48 + z else 87 + z).

Definition hex_byte (b : byte) : bytes := [hex_digit (byte_to_Z b / 16); hex_digit (byte_to_Z b mod 16)].

Definition hex_lower (bs : bytes) : bytes := flat_map hex_byte bs.

(** The [base16] decoder, and the decimal text of the [uint] crate's [U512]. *)
Class StakeText := {
  base16_decode : bytes -> option bytes;
  u512_display : Z -> bytes;
  u512_from_dec_str : bytes -> option Z;
}.

(** Relied on: hexadecimal digits decode, and a number reads back from its decimal
    digits. *)
Class StakeTextLaws `{StakeText} : Prop := {
  base16_decode_lower bs : base16_decode (hex_lower bs) = Some bs;
  u512_display_digits z : is_unsigned 512 z ->
    u512_display z <> [] /\ Forall (fun b => 48 <= byte_to_Z b <= 57) (u512_display z);
  u512_dec_roundtrip z : is_unsigned 512 z -> u512_from_dec_str (u512_display z) = Some z;
}.

Definition HEX_KEY_LENGTH : Z := 64.

Section stakes.
Context {text : StakeText}.

(** * The engine's parser *)

Definition pos_validator_key_name_to_tuple (pos_key_name : bytes) : option (PublicKey * Z) :=
  match split_underscore pos_key_name with
  | v :: rest =>
      if negb (bool_decide (v = str "v")) then None
      else
        match rest with
        | [] => None
        | hex_key :: rest' =>
            if negb (zlen hex_key =? HEX_KEY_LENGTH) then None
            else
              match base16_decode hex_key with
              | None => None
              | Some key_bytes =>
                  match rest' with
                  | [] | [] :: _ => None
                  | b :: _ => match u512_from_dec_str b with Some balance => Some (key_bytes, balance) | None => None end
                  end
              end
        end
  | [] => None
  end.

(** * The contract's stakes *)

(** One round of the loop of [read]; names of other things are skipped. *)
Definition read_stake (stakes : Stakes) (name : bytes) : outcome PosError Stakes :=
  match split_underscore name with
  | v :: rest =>
      if negb (bool_decide (v = str "v")) then Ok stakes
      else
        let? hex_key := ok_or (head rest) StakesKeyDeserializationFailed in
        if negb (zlen hex_key =? HEX_KEY_LENGTH) then Err StakesKeyDeserializationFailed
        else
          let? pub_key := ok_or (base16_decode hex_key) StakesKeyDeserializationFailed in
          let? balance := ok_or (head (tail rest) ≫= u512_from_dec_str) StakesDeserializationFailed in
          Ok (bt_insert pub_key balance stakes)
  | [] => Ok stakes
  end.

Fixpoint read_stakes_loop (stakes : Stakes) (names : list bytes) : outcome PosError Stakes :=
  match names with
  | [] => Ok stakes
  | name :: names' => let? stakes' := read_stake stakes name in read_stakes_loop stakes' names'
  end.

(** [ContractStakes::read] from the contract's named keys. *)
Definition contract_stakes_read (named_keys : BTreeMap bytes Key) : outcome PosError Stakes :=
  let? stakes := read_stakes_loop [] (bt_keys named_keys) in
  match stakes with [] => Err StakesNotFound | _ => Ok stakes end.

(** [format_args!("v_{}_{}", hex_key, balance)]. *)
Definition stake_name (e : PublicKey * Z) : bytes :=
  str "v_" ++ hex_lower e.1 ++ str "_" ++ u512_display e.2.

Definition starts_with (prefix s : bytes) : bool := bool_decide (take (length prefix) s = prefix).

(** One round of the first loop of [write]: a name that is to stay is crossed off
    the new ones, another stake is removed. *)
Definition sweep_name (acc : BTreeMap bytes unit * BTreeMap bytes Key) (name : bytes)
    : BTreeMap bytes unit * BTreeMap bytes Key :=
  let '(new_urefs, named_keys) := acc in
  if starts_with (str "v_") name then
    if bt_contains_key name new_urefs then (bt_remove name new_urefs, named_keys)
    else (bt_remove name new_urefs, bt_remove name named_keys)
  else acc.

Definition STAKE_KEY : Key := Key_Hash (replicate 32 x00).

(** [ContractStakes::write]: the named keys afterwards. *)
Definition contract_stakes_write (stakes : Stakes) (named_keys : BTreeMap bytes Key) : BTreeMap bytes Key :=
  let new_urefs := bt_collect (map (fun e => (stake_name e, tt)) stakes) in
  let '(new_urefs, named_keys) := fold_left sweep_name (bt_keys named_keys) (new_urefs, named_keys) in
  fold_left (fun m name => bt_insert name STAKE_KEY m) (bt_keys new_urefs) named_keys.
End stakes.

(** * The contract's queues *)

Definition BONDING_KEY : Z := 1.
Definition UNBONDING_KEY : Z := 2.

(** [CLTyped] for [Queue], whose entries are of type [Any]. *)
Definition clt_queue : CLTyped Queue := mk_cl_typed (CL_List CL_Any) queue_codec.

(** The contract's local state, by serialized key. *)
Abbreviation LocalState := (gmap bytes CLValue).

(** [storage::read_local(&key).unwrap_or_default().unwrap_or_default()]: an absent
    queue is empty, and so is one that does not deserialize. *)
Definition read_queue (key : Z) (local : LocalState) : outcome ApiError Queue :=
  let? key_bytes := omap_err api_from_bytesrepr (u8_to_bytes key) in
  match local !! key_bytes with
  | None => Ok []
  | Some value =>
      match deserialize queue_codec (cl_bytes value) with
      | Ok queue => Ok queue
      | Err _ => Ok []
      | Panic => Panic
      end
  end.

(** [storage::write_local(key, queue)]. *)
Definition write_queue (key : Z) (queue : Queue) (local : LocalState) : outcome ApiError LocalState :=
  let? key_bytes := omap_err api_from_bytesrepr (u8_to_bytes key) in
  let? cl_value := omap_err api_from_cl_value (from_t clt_queue queue) in
  Ok (<[ key_bytes := cl_value ]> local).

Definition contract_read_bonding : LocalState -> outcome ApiError Queue := read_queue BONDING_KEY.
Definition contract_read_unbonding : LocalState -> outcome ApiError Queue := read_queue UNBONDING_KEY.
Definition contract_write_bonding : Queue -> LocalState -> outcome ApiError LocalState := write_queue BONDING_KEY.
Definition contract_write_unbonding : Queue -> LocalState -> outcome ApiError LocalState := write_queue UNBONDING_KEY.

(** * Names and stakes *)

Definition no_sep (s : bytes) : Prop := ~ In underscore s.

Lemma split_no_sep s : no_sep s -> split_underscore s = [s].
Proof.
  unfold no_sep, split_underscore. induction s as [|b s IH]; cbn; [done|]. intros Hn.
  rewrite decide_False by naive_solver. by rewrite IH by naive_solver.
Qed.

Lemma split_sep a s : no_sep a -> split_underscore (a ++ underscore :: s) = a :: split_underscore s.
Proof.
  unfold no_sep, split_underscore. induction a as [|b a IH]; intros Hn; [by cbn|]. cbn [app split_at_byte].
  cbn in Hn. rewrite decide_False by naive_solver. by rewrite IH by naive_solver.
Qed.

Lemma split_inv s : exists p rest, split_underscore s = p :: rest
  /\ ((rest = [] /\ s = p) \/ exists s', s = p ++ underscore :: s').
Proof.
  induction s as [|b s (p & rest & E & Hs)]; [by exists [], []; cbn; auto|].
  unfold split_underscore in *. cbn. destruct (decide (b = underscore)) as [->|Hb].
  - exists [], (split_at_byte underscore s). split; [done|]. right. by exists s.
  - rewrite E. exists (b :: p), rest. split; [done|]. destruct Hs as [[-> ->]|(s' & ->)]; [by left|].
    right. by exists s'.
Qed.

Lemma hex_digit_not_sep z : 0 <= z < 16 -> hex_digit z <> underscore.
Proof.
  intros Hz E. apply (f_equal byte_to_Z) in E. unfold hex_digit in E. rewrite byte_to_of_Z in E.
  change (byte_to_Z underscore) with 95 in E.
  destruct (z <? 10) eqn:El; breflect; rewrite Z.mod_small in E by lia; lia.
Qed.

Lemma hex_lower_no_sep bs : no_sep (hex_lower bs).
Proof.
  unfold no_sep, hex_lower. rewrite in_flat_map. intros (b & _ & Hin).
  pose proof (byte_to_Z_range b). cbn in Hin.
  destruct Hin as [E|[E|[]]]; revert E; apply hex_digit_not_sep.
  - split; [apply Z.div_pos; lia | apply Z.div_lt_upper_bound; lia].
  - apply Z.mod_pos_bound. lia.
Qed.

Lemma hex_lower_length bs : zlen (hex_lower bs) = 2 * zlen bs.
Proof. unfold zlen, hex_lower. induction bs as [|b bs IH]; cbn in *; lia. Qed.

Section names.
Context {text : StakeText} {tl : StakeTextLaws}.

(** Stakes as the contract keeps them. *)
Definition stake_ok (e : PublicKey * Z) : Prop := is_bytes 32 e.1 /\ is_unsigned 512 e.2.

Lemma display_no_sep z : is_unsigned 512 z -> no_sep (u512_display z).
Proof.
  intros Hz Hin. apply u512_display_digits in Hz as [_ Hd]. rewrite List.Forall_forall in Hd.
  apply Hd in Hin. change (byte_to_Z underscore) with 95 in Hin. lia.
Qed.

Lemma split_stake_name e : stake_ok e ->
  split_underscore (stake_name e) = [str "v"; hex_lower e.1; u512_display e.2].
Proof.
  intros [_ Hz]. unfold stake_name. change (str "v_") with (str "v" ++ [underscore]).
  rewrite <- app_assoc. cbn [app]. rewrite split_sep by (by intros [|[]]).
  change (str "_" ++ u512_display e.2) with (underscore :: u512_display e.2).
  rewrite split_sep by apply hex_lower_no_sep. by rewrite split_no_sep by (by apply display_no_sep).
Qed.

Lemma hex_key_length e : stake_ok e -> (zlen (hex_lower e.1) =? HEX_KEY_LENGTH) = true.
Proof. intros [Hk _]. unfold is_bytes in Hk. rewrite hex_lower_length. unfold zlen. by rewrite Hk. Qed.

Lemma parse_stake_name e : stake_ok e -> pos_validator_key_name_to_tuple (stake_name e) = Some e.
Proof.
  intros He. unfold pos_validator_key_name_to_tuple. rewrite split_stake_name by done. cbn [negb].
  rewrite bool_decide_eq_true_2 by done. cbn [negb]. rewrite hex_key_length by done. cbn [negb].
  rewrite base16_decode_lower. destruct He as [_ Hz]. destruct (u512_display_digits e.2 Hz) as [Hn _].
  rewrite u512_dec_roundtrip by done. destruct (u512_display e.2); [done|]. by destruct e.
Qed.

Lemma read_stake_name st e : stake_ok e -> read_stake st (stake_name e) = Ok (bt_insert e.1 e.2 st).
Proof.
  intros He. unfold read_stake. rewrite split_stake_name by done.
  rewrite bool_decide_eq_true_2 by done. cbn [negb head ok_or obind tail]. rewrite hex_key_length by done.
  cbn [negb]. rewrite base16_decode_lower. cbn. destruct He as [_ Hz]. by rewrite u512_dec_roundtrip.
Qed.

Lemma stake_name_inj e1 e2 : stake_ok e1 -> stake_ok e2 -> stake_name e1 = stake_name e2 -> e1 = e2.
Proof. intros H1 H2 E. apply parse_stake_name in H1. rewrite E, parse_stake_name in H1 by done. congruence. Qed.

Lemma stake_name_prefix e : starts_with (str "v_") (stake_name e) = true.
Proof. by apply bool_decide_eq_true_2. Qed.

(** A name that is no stake. *)
Lemma other_name name : name <> str "v" -> starts_with (str "v_") name = false ->
  (forall st, read_stake st name = Ok st) /\ pos_validator_key_name_to_tuple name = None.
Proof.
  intros Hv Hs. unfold read_stake, pos_validator_key_name_to_tuple.
  destruct (split_inv name) as (p & rest & E & Hn). rewrite E.
  rewrite bool_decide_eq_false_2; [done|]. intros ->. destruct Hn as [[_ ->]|(s' & ->)]; [done|].
  unfold starts_with in Hs. by apply bool_decide_eq_false in Hs.
Qed.

(** ** Writing *)

Lemma contains_get {V} name (m : BTreeMap bytes V) : bt_contains_key name m = true <-> exists v, bt_get name m = Some v.
Proof. unfold bt_contains_key. destruct (bt_get name m) as [v|]; split; [by eauto | done | done | by intros []]. Qed.

Lemma sweep_spec l new nk new' nk' :
  NoDup l -> bt_wf new -> bt_wf nk -> fold_left sweep_name l (new, nk) = (new', nk') ->
  bt_wf new' /\ bt_wf nk' /\ forall name,
    bt_get name new' = (if bool_decide (name ∈ l) && starts_with (str "v_") name then None else bt_get name new)
    /\ bt_get name nk' = (if bool_decide (name ∈ l) && starts_with (str "v_") name && negb (bt_contains_key name new)
                          then None else bt_get name nk).
Proof.
  revert new nk. induction l as [|x l IH]; intros new nk Hnd Hw Hk; cbn [fold_left].
  { intros [= <- <-]. split_and!; try done. }
  apply NoDup_cons in Hnd as [Hx Hnd]. unfold sweep_name at 2.
  destruct (starts_with (str "v_") x) eqn:Es.
  2: { intros Hf. destruct (IH _ _ Hnd Hw Hk Hf) as (W1 & W2 & Hg). split_and!; try done. intros name.
       destruct (Hg name) as [-> ->]. destruct (decide (name = x)) as [->|Hne].
       - by rewrite Es, !andb_false_r.
       - rewrite (bool_decide_ext (name ∈ x :: l) (name ∈ l)) by set_solver. done. }
  destruct (bt_contains_key x new) eqn:Ec; intros Hf;
    (apply IH in Hf as (W1 & W2 & Hg); [|done | by auto with casper ..]; split_and!; try done;
     intros name; destruct (Hg name) as [-> ->]; destruct (decide (name = x)) as [->|Hne];
     [ rewrite (bool_decide_eq_false_2 (x ∈ l)), (bool_decide_eq_true_2 (x ∈ x :: l)) by set_solver;
       rewrite Es, Ec; cbn; rewrite ?bt_get_remove_eq by done; done
     | rewrite (bool_decide_ext (name ∈ x :: l) (name ∈ l)) by set_solver;
       unfold bt_contains_key; rewrite !bt_get_remove_ne by done; done ]).
Qed.

Lemma insert_names_spec l (m : BTreeMap bytes Key) :
  bt_wf m -> bt_wf (fold_left (fun m name => bt_insert name STAKE_KEY m) l m)
  /\ forall name, bt_get name (fold_left (fun m name => bt_insert name STAKE_KEY m) l m)
      = if bool_decide (name ∈ l) then Some STAKE_KEY else bt_get name m.
Proof.
  revert m. induction l as [|x l IH]; intros m Hm; cbn [fold_left]; [by split|].
  destruct (IH (bt_insert x STAKE_KEY m)) as [W Hg]; [by apply bt_wf_insert|]. split; [done|]. intros name.
  rewrite Hg. destruct (decide (name = x)) as [->|Hne].
  - rewrite (bool_decide_eq_true_2 (x ∈ x :: l)) by set_solver. rewrite bt_get_insert_eq. by case_match.
  - rewrite (bool_decide_ext (name ∈ x :: l) (name ∈ l)) by set_solver.
    by rewrite bt_get_insert_ne by congruence.
Qed.

Lemma in_keys {V} name (m : BTreeMap bytes V) : bt_wf m -> name ∈ bt_keys m <-> exists v, bt_get name m = Some v.
Proof.
  intros Hm. unfold bt_keys. rewrite list_elem_of_In, in_map_iff. split.
  - intros ([n v] & <- & Hin). exists v. by apply bt_in_get.
  - intros (v & Hg). exists (name, v). split; [done | by apply bt_get_in].
Qed.

(** Extending a map by pairs that agree on a key. *)
Lemma extend_other {K V} `{OrdLaws K} (l : list (K * V)) m k :
  ~ In k (map fst l) -> bt_get k (bt_extend m l) = bt_get k m.
Proof.
  revert m. induction l as [|[k' v] l IH]; intros m Hk; [done|]. cbn in Hk.
  change (bt_get k (bt_extend (bt_insert k' v m) l) = bt_get k m).
  rewrite IH by naive_solver. apply bt_get_insert_ne. naive_solver.
Qed.

Lemma extend_in {K V} `{OrdLaws K} `{EqDecision K} (l : list (K * V)) m k v :
  In (k, v) l -> (forall v', In (k, v') l -> v' = v) -> bt_get k (bt_extend m l) = Some v.
Proof.
  revert m. induction l as [|[k' v'] l IH]; intros m Hin Hu; [done|].
  change (bt_get k (bt_extend (bt_insert k' v' m) l) = Some v).
  destruct (decide (k ∈ map fst l)) as [Hk|Hk]; rewrite list_elem_of_In in Hk.
  - apply in_map_iff in Hk as ([k2 v2] & E & Hk). cbn in E. subst k2.
    assert (v2 = v) as -> by (apply Hu; by right). apply IH; [done|]. intros v3 H3. apply Hu. by right.
  - rewrite extend_other by done. destruct Hin as [[= -> ->]|Hin]; [apply bt_get_insert_eq|].
    destruct Hk. apply in_map_iff. by exists (k, v).
Qed.

Lemma write_names stakes nk name :
  bt_wf nk ->
  bt_wf (contract_stakes_write stakes nk)
  /\ (starts_with (str "v_") name = false -> bt_get name (contract_stakes_write stakes nk) = bt_get name nk)
  /\ (starts_with (str "v_") name = true ->
       name ∈ bt_keys (contract_stakes_write stakes nk) <-> In name (map stake_name stakes)).
Proof.
  intros Hk. unfold contract_stakes_write.
  set (new := bt_collect (map (fun e => (stake_name e, tt)) stakes)).
  assert (bt_wf new) as Hn by (apply bt_wf_extend, bt_wf_empty).
  assert (bt_contains_key name new = true <-> In name (map stake_name stakes)) as Hc.
  { rewrite contains_get. unfold new, bt_collect. split.
    - intros ([] & Hg). destruct (decide (name ∈ map stake_name stakes)) as [Hy|Hno]; rewrite list_elem_of_In in *; [done|].
      rewrite extend_other in Hg; [done|]. by rewrite map_map.
    - intros (e & <- & He)%in_map_iff. exists tt. apply extend_in; [|by intros []].
      apply in_map_iff. by exists e. }
  destruct (fold_left sweep_name (bt_keys nk) (new, nk)) as [new' nk'] eqn:Ef.
  apply sweep_spec in Ef as (W1 & W2 & Hg); [|by apply NoDup_ListNoDup, bt_keys_NoDup|done|done].
  destruct (insert_names_spec (bt_keys new') nk' W2) as [W3 Hi]. split; [done|].
  assert (bt_contains_key name new = true -> starts_with (str "v_") name = true) as Hp.
  { intros (e & <- & _)%Hc%in_map_iff. apply stake_name_prefix. }
  rewrite (in_keys name _ W3), Hi. destruct (Hg name) as [G1 G2]. rewrite <- Hc. clear Hg Hi Hc.
  rewrite (bool_decide_ext _ _ (in_keys name new' W1)), G1, G2, (bool_decide_ext _ _ (in_keys name nk Hk)).
  unfold bt_contains_key in *. destruct (starts_with (str "v_") name), (bt_get name new), (bt_get name nk);
    rewrite ?(bool_decide_eq_true_2 (exists v, Some _ = Some v)) by eauto;
    rewrite ?(bool_decide_eq_false_2 (exists v, None = Some v)) by (by intros []); cbn; naive_solver.
Qed.

(** ** Reading *)

(** Every name is that of a stake, or of something else. *)
Definition names_ok (stakes : Stakes) (names : list bytes) : Prop :=
  Forall (fun name => (name <> str "v" /\ starts_with (str "v_") name = false)
    \/ exists e, In e stakes /\ name = stake_name e) names.

Lemma read_stakes_loop_spec stakes names st :
  Forall stake_ok stakes -> names_ok stakes names ->
  read_stakes_loop st names = Ok (bt_extend st (omap pos_validator_key_name_to_tuple names)).
Proof.
  intros Hs Hn. revert st. induction Hn as [|name names Hname _ IH]; intros st; [done|]. cbn [read_stakes_loop omap list_omap].
  destruct Hname as [[H1 H2]|(e & He & ->)].
  - destruct (other_name name H1 H2) as [-> ->]. cbn. apply IH.
  - rewrite List.Forall_forall in Hs. specialize (Hs e He).
    rewrite read_stake_name, parse_stake_name by done. cbn. rewrite IH. by destruct e.
Qed.

Lemma parsed_names stakes names e :
  Forall stake_ok stakes -> names_ok stakes names ->
  In e (omap pos_validator_key_name_to_tuple names) <-> In e stakes /\ In (stake_name e) names.
Proof.
  intros Hs Hn. rewrite List.Forall_forall in Hs. unfold names_ok in Hn. rewrite List.Forall_forall in Hn.
  rewrite <- list_elem_of_In, list_elem_of_omap. split.
  - intros (name & Hin & Hp). apply list_elem_of_In in Hin. destruct (Hn name Hin) as [[H1 H2]|(e' & He & ->)].
    + destruct (other_name name H1 H2) as [_ E]. congruence.
    + rewrite parse_stake_name in Hp by auto. injection Hp as <-. done.
  - intros [He Hin]. exists (stake_name e). split; [by apply list_elem_of_In|]. apply parse_stake_name. auto.
Qed.

Lemma written_names_ok stakes nk :
  bt_wf nk -> bt_get (str "v") nk = None -> names_ok stakes (bt_keys (contract_stakes_write stakes nk)).
Proof.
  intros Hk Hv. apply List.Forall_forall. intros name Hin.
  destruct (write_names stakes nk name Hk) as (W & Hother & Hstake).
  destruct (starts_with (str "v_") name) eqn:Es.
  - right. apply list_elem_of_In in Hin. apply Hstake in Hin as (e & <- & He)%in_map_iff; [|done]. by exists e.
  - left. split; [|done]. intros ->. apply list_elem_of_In, in_keys in Hin as (v & Hg); [|done].
    rewrite Hother in Hg by done. congruence.
Qed.

(** The stakes of the deployed contract. Writing stakes as names of the
    contract and reading them returns the stakes; the validators the engine finds
    in the names are the same; and no other name of the contract changes. *)
Theorem contract_stakes_roundtrip stakes nk :
  bt_wf stakes -> Forall stake_ok stakes -> stakes <> [] -> bt_wf nk -> bt_get (str "v") nk = None ->
  contract_stakes_read (contract_stakes_write stakes nk) = Ok stakes
  /\ bt_collect (omap pos_validator_key_name_to_tuple (bt_keys (contract_stakes_write stakes nk))) = stakes
  /\ forall name, starts_with (str "v_") name = false ->
       bt_get name (contract_stakes_write stakes nk) = bt_get name nk.
Proof.
  intros Hw Hs Hne Hk Hv. pose proof (written_names_ok stakes nk Hk Hv) as Hok.
  set (names := bt_keys (contract_stakes_write stakes nk)) in *.
  assert (bt_extend [] (omap pos_validator_key_name_to_tuple names) = stakes) as He.
  { apply bt_ext; [apply bt_wf_extend, bt_wf_empty | done |]. intros k.
    assert (forall z, In (k, z) (omap pos_validator_key_name_to_tuple names) <-> In (k, z) stakes) as Hin.
    { intros z. rewrite (parsed_names stakes) by done. split; [by intros []|]. intros Hz. split; [done|].
      destruct (write_names stakes nk (stake_name (k, z)) Hk) as (_ & _ & Hn).
      apply list_elem_of_In, Hn; [apply stake_name_prefix | apply in_map_iff; by exists (k, z)]. }
    destruct (bt_get k stakes) as [z|] eqn:Eg.
    - apply bt_get_in in Eg as Hz. apply extend_in; [by apply Hin|]. intros z' Hz'.
      apply Hin, bt_in_get in Hz'; [congruence|done].
    - rewrite extend_other; [done|]. intros ([k' z] & E1 & Hz)%in_map_iff. cbn in E1. subst k'.
      apply Hin, bt_in_get in Hz; [congruence|done]. }
  split_and!; [|exact He|].
  - unfold contract_stakes_read. fold names. rewrite (read_stakes_loop_spec stakes) by done. cbn.
    rewrite He. by destruct stakes.
  - intros name Hn. by apply (write_names stakes nk name Hk).
Qed.
End names.

(** * Queues in local state *)

Definition queue_entry_valid (e : QueueEntry) : Prop :=
  is_bytes 32 (entry_validator e) /\ is_unsigned 512 (entry_amount e) /\ is_unsigned 64 (entry_timestamp e).

#[global] Instance queue_entry_laws : CodecLaws queue_entry_codec queue_entry_valid.
Proof.
  intros [v a t] bs rest (Hv & Ha & Ht) E. cbn in Hv, Ha, Ht. cbn [to_bytes queue_entry_codec] in E.
  unfold queue_entry_to_bytes in E. cbn [entry_validator entry_amount entry_timestamp] in E.
  apply obind_ok in E as (b1 & E1 & E). apply obind_ok in E as (b2 & E2 & E). apply obind_ok in E as (b3 & E3 & <-%Ok_inj).
  cbn [from_bytes queue_entry_codec]. unfold queue_entry_from_bytes. rewrite <- !app_assoc.
  rewrite (codec_roundtrip (c := public_key_codec) v b1) by done. cbn [obind].
  rewrite (codec_roundtrip (c := u512_codec) a b2) by done. cbn [obind].
  by rewrite (codec_roundtrip (c := blocktime_codec) t b3).
Qed.

#[global] Instance queue_laws : CodecLaws queue_codec (fun q => zlen q < 2 ^ 64 /\ Forall queue_entry_valid q).
Proof.
  intros q bs rest [Hl Hq] E. cbn [to_bytes queue_codec] in E. unfold queue_to_bytes in E.
  apply obind_ok in E as (b1 & E1 & E). apply obind_ok in E as (b2 & E2 & <-%Ok_inj).
  cbn [from_bytes queue_codec]. unfold queue_from_bytes. rewrite <- app_assoc.
  assert (is_unsigned 64 (zlen q)) as Hn by (split; [apply zlen_nonneg | done]).
  pose proof (codec_roundtrip (c := u64_codec) (zlen q) b1 (b2 ++ rest) Hn E1) as D. cbn [from_bytes u64_codec] in D.
  rewrite D. cbn. unfold zlen. rewrite Nat2Z.id. by apply (read_n_write_all _ queue_entry_valid).
Qed.

(** What was written to one queue is read from it, and the other is untouched. *)
Lemma contract_queue_roundtrip q local local' :
  zlen q < 2 ^ 64 -> Forall queue_entry_valid q ->
  (contract_write_bonding q local = Ok local' ->
     contract_read_bonding local' = Ok q /\ contract_read_unbonding local' = contract_read_unbonding local)
  /\ (contract_write_unbonding q local = Ok local' ->
     contract_read_unbonding local' = Ok q /\ contract_read_bonding local' = contract_read_bonding local).
Proof.
  intros Hl Hq. unfold contract_write_bonding, contract_write_unbonding, write_queue, u8_to_bytes. cbn [obind omap_err].
  split; intros E; apply obind_ok in E as (v & Ev & <-%Ok_inj);
    (destruct (from_t clt_queue q) as [w|e|] eqn:Ew; try discriminate Ev); injection Ev as ->;
    destruct (into_from_t clt_queue (fun q => zlen q < 2 ^ 64 /\ Forall queue_entry_valid q) q v (conj Hl Hq) Ew) as [Et Ei];
    unfold into_t in Ei; rewrite Et, bool_decide_eq_true_2 in Ei by done; cbn [clt_codec clt_queue] in Ei;
    unfold contract_read_bonding, contract_read_unbonding, read_queue, u8_to_bytes;
    cbn [obind omap_err]; rewrite lookup_insert_eq; (rewrite lookup_insert_ne by done);
    (split; [|done]); by destruct (deserialize queue_codec (cl_bytes v)); try discriminate Ei; injection Ei as ->.
Qed.
