(* ===== verification/EngineState.v ===== *)
(** The engine: it executes deploys on a state, queries it, commits effects, and
    installs and upgrades the system.  Sources:
    [engine-core/src/engine_state/mod.rs], [deploy_item.rs],
    [executable_deploy_item.rs], [execute_request.rs], [query.rs], [upgrade.rs],
    [genesis.rs]; [engine-storage/src/global_state/in_memory.rs]. *)

From stdpp Require Import gmap.
From S2P Require Import Prelude BTreeMap Bytesrepr Uint Types CLValues Account StoredValue Transform.
From S2P Require Import Trie GlobalState TrackingCopy Mint ApiError ProtocolData ExecutionError RuntimeContext.
From S2P Require Import ExtractURefs Runtime ExecutionResult TrackingCopyExt Executor Stakes PosContract.

(** * Requests and results *)

Inductive ExecutableDeployItem :=
| ModuleBytes (module_bytes args : bytes)
| StoredContractByHash (hash args : bytes)
| StoredContractByName (name args : bytes)
| StoredContractByURef (uref args : bytes).

Definition take_args (self : ExecutableDeployItem) : bytes :=
  match self with
  | ModuleBytes _ args | StoredContractByHash _ args | StoredContractByName _ args
  | StoredContractByURef _ args => args
  end.

Record DeployItem := mk_deploy_item {
  di_address : PublicKey;
  di_session : ExecutableDeployItem;
  di_payment : ExecutableDeployItem;
  di_gas_price : Z;
  di_authorization_keys : list PublicKey;
  di_deploy_hash : bytes;
}.

Inductive QueryResult :=
| QR_RootNotFound
| QR_ValueNotFound (full_path : bytes)
| QR_Success (value : StoredValue).

Definition query_result_from (r : TrackingCopyQueryResult) : QueryResult :=
  match r with
  | Query_ValueNotFound full_path => QR_ValueNotFound full_path
  | Query_Success value => QR_Success value
  end.

Inductive UpgradeResult :=
| UR_RootNotFound
| UR_KeyNotFound (key : Key)
| UR_TypeMismatch (m : TypeMismatch)
| UR_Serialization (e : Bytesrepr.Error)
| UR_Success (post_state_hash : Blake2bHash) (effect : ExecutionEffect).

Definition upgrade_from_commit_result (commit_result : CommitResult) (effect : ExecutionEffect) : UpgradeResult :=
  match commit_result with
  | CR_RootNotFound => UR_RootNotFound
  | CR_KeyNotFound key => UR_KeyNotFound key
  | CR_TypeMismatch m => UR_TypeMismatch m
  | CR_Serialization e => UR_Serialization e
  | CR_Success state_root _ => UR_Success state_root effect
  end.

Inductive GenesisResult :=
| GR_RootNotFound
| GR_KeyNotFound (key : Key)
| GR_TypeMismatch (m : TypeMismatch)
| GR_Serialization (e : Bytesrepr.Error)
| GR_Success (post_state_hash : Blake2bHash) (effect : ExecutionEffect).

Definition genesis_from_commit_result (commit_result : CommitResult) (effect : ExecutionEffect) : GenesisResult :=
  match commit_result with
  | CR_RootNotFound => GR_RootNotFound
  | CR_KeyNotFound key => GR_KeyNotFound key
  | CR_TypeMismatch m => GR_TypeMismatch m
  | CR_Serialization e => GR_Serialization e
  | CR_Success state_root _ => GR_Success state_root effect
  end.

Record UpgradeConfig := mk_upgrade_config {
  uc_pre_state_hash : Blake2bHash;
  uc_current_protocol_version : ProtocolVersion;
  uc_new_protocol_version : ProtocolVersion;
  uc_upgrade_installer_args : option bytes;
  uc_upgrade_installer_bytes : option bytes;
  uc_wasm_costs : option WasmCosts;
  uc_activation_point : option Z;
}.

Record GenesisAccount := mk_genesis_account {
  ga_public_key : PublicKey;
  ga_balance : Motes;
  ga_bonded_amount : Motes;
}.

Record GenesisConfig := mk_genesis_config {
  gc_name : bytes;
  gc_timestamp : Z;
  gc_protocol_version : ProtocolVersion;
  gc_mint_installer_bytes : bytes;
  gc_proof_of_stake_installer_bytes : bytes;
  gc_accounts : list GenesisAccount;
  gc_wasm_costs : WasmCosts;
}.

(** [GenesisConfig::get_bonded_validators]. *)
Definition genesis_bonded_validators (c : GenesisConfig) : list (PublicKey * Motes) :=
  omap (fun a => if ga_bonded_amount a >? 0 then Some (ga_public_key a, ga_bonded_amount a) else None)
    (gc_accounts c).

(** * Constants *)

Definition MAX_PAYMENT : Z := 10000000.
Definition GENESIS_INITIAL_BLOCKTIME : BlockTime := 0.
Definition MINT_METHOD_NAME : bytes := str "mint".
Definition POS_BONDING_PURSE : bytes := str "pos_bonding_purse".
Definition POS_PAYMENT_PURSE : bytes := str "pos_payment_purse".
Definition POS_REWARDS_PURSE : bytes := str "pos_rewards_purse".
Definition KEY_HASH_LENGTH : Z := 32.

(** [Key::type_string]. *)
Definition key_type_string (k : Key) : bytes :=
  match k with
  | Key_Account _ => str "Key::Account"
  | Key_Hash _ => str "Key::Hash"
  | Key_URef _ => str "Key::URef"
  | Key_Local _ => str "Key::Local"
  end.

(** [CLTyped] for [[u8; 32]] and for [PublicKey]. *)
Definition clt_bytes32 : CLTyped bytes := mk_cl_typed (CL_FixedList CL_U8 32) (u8_array_codec 32).
Definition clt_public_key : CLTyped PublicKey := mk_cl_typed (CL_FixedList CL_U8 32) public_key_codec.

(** [Result::expect] and [Option::expect]. *)
Definition expect {Er Er' A} (o : outcome Er A) : outcome Er' A :=
  match o with Ok a => Ok a | _ => Panic end.

Definition expect_some {Er A} (o : option A) : outcome Er A :=
  match o with Some a => Ok a | None => Panic end.

(** * Providers of states *)

(** The trait [StateProvider]: what the engine asks of a store of states.  A
    reader is the state under one root. *)
Class StateProvider (S Er : Type) := {
  sp_checkout : Blake2bHash -> S -> outcome Er (option (Key -> outcome Er (option StoredValue)));
  sp_commit : Blake2bHash -> gmap Key Transform -> eff S Er CommitResult;
  sp_put_protocol_data : ProtocolVersion -> ProtocolData -> eff S Er unit;
  sp_get_protocol_data : ProtocolVersion -> S -> outcome Er (option ProtocolData);
  sp_empty_root : S -> Blake2bHash;
}.

(** What upgrades rely on: protocol data that was put is found, and putting it
    changes that of no other version. *)
Class StateProviderLaws (S Er : Type) `{!StateProvider S Er} : Prop := {
  sp_put_get : forall v pd s s', semver_valid v -> protocol_data_valid pd ->
    sp_put_protocol_data v pd s = (Ok tt, s') -> sp_get_protocol_data v s' = Ok (Some pd);
  sp_put_other : forall v pd o s s' v', semver_valid v -> semver_valid v' -> v' <> v ->
    sp_put_protocol_data v pd s = (o, s') -> sp_get_protocol_data v' s' = sp_get_protocol_data v' s;
}.

Record EngineState (S Module : Type) := mk_engine_state {
  es_cache : SystemContractCache Module;
  es_state : S;
}.
Arguments mk_engine_state {S Module}.
Arguments es_cache {S Module}.
Arguments es_state {S Module}.

Section engine.
Context {L G Mem Module : Type} `{LinkedHashMap L, Rng G} {meter : Meter} {dbg : DebugText} {qtext : QueryText}.
Context {hasher : Hasher} {F : ForeignErrors} `{!Platform Mem Module, !WasmPrep Module} {alloc : Allocator}.
Context {S E : Type} `{!StateProvider S E} {text : StakeText}.

(** [S::Error: Into<execution::Error>] and [Error: From<S::Error>]. *)
Context (into_error : E -> ExecError) (from_state_error : E -> EngineError).
Context (overflow_checks : bool).

#[local] Abbreviation Reader := (Key -> outcome E (option StoredValue)).
#[local] Abbreviation TC := (TrackingCopy L).
#[local] Abbreviation Cache := (SystemContractCache Module).
#[local] Abbreviation Engine := (EngineState S Module).

Context (invoke_call : Reader -> Module -> eff (Runtime L G Mem Module) InterpreterError unit).

(** ** Protocol data, states, queries *)

Definition get_protocol_data (protocol_version : ProtocolVersion) (self : Engine)
    : outcome EngineError (option ProtocolData) :=
  omap_err (fun e => ES_ExecError (into_error e)) (sp_get_protocol_data protocol_version (es_state self)).

Definition wasm_costs (protocol_version : ProtocolVersion) (self : Engine) : outcome EngineError (option WasmCosts) :=
  let? found := get_protocol_data protocol_version self in
  Ok (pd_wasm_costs <$> found).

(** The reader of a root; a tracking copy over it is new. *)
Definition tracking_copy (hash : Blake2bHash) (self : Engine) : outcome EngineError (option Reader) :=
  omap_err (fun e => ES_ExecError (into_error e)) (sp_checkout hash (es_state self)).

Definition run_query (state_hash : Blake2bHash) (key : Key) (path : list bytes) (self : Engine)
    : outcome EngineError QueryResult :=
  let? found := tracking_copy state_hash self in
  match found with
  | None => Ok QR_RootNotFound
  | Some reader =>
      let? r := omap_err (fun err => ES_ExecError (into_error err))
        (tc_query reader key path (tracking_copy_new (L := L))).1 in
      Ok (query_result_from r)
  end.

(** ** Modules *)

(** The module of a deploy item that brings one; otherwise the key the item names,
    after the checks that the account may use it. *)
Definition stored_contract_key (deploy_item : ExecutableDeployItem) (account : Account)
    (wasm_costs : WasmCosts) : outcome EngineError (Module + Key) :=
  match deploy_item with
  | ModuleBytes module_bytes _ =>
      let? module := omap_err ES_WasmPreprocessingError (preprocess wasm_costs module_bytes) in
      Ok (inl module)
  | StoredContractByHash hash _ =>
      if negb (zlen hash =? KEY_HASH_LENGTH) then Err (ES_InvalidHashLength KEY_HASH_LENGTH (zlen hash))
      else Ok (inr (Key_Hash hash))
  | StoredContractByName name _ =>
      let? key := ok_or (bt_get name (account_named_keys account)) (ES_ExecError (EE_URefNotFound name)) in
      match key with
      | Key_URef uref =>
          if negb (uref_is_readable uref) then Err (ES_ExecError (EE_ForgedReference uref)) else Ok (inr key)
      | _ => Ok (inr key)
      end
  | StoredContractByURef uref _ =>
      if negb (zlen uref =? Z.of_nat UREF_ADDR_LENGTH) then
        Err (ES_InvalidHashLength (Z.of_nat UREF_ADDR_LENGTH) (zlen uref))
      else
        let read_only_uref := uref_new uref READ in
        let normalized_uref := normalize (Key_URef read_only_uref) in
        match find (fun named_key => bool_decide (normalize named_key = normalized_uref))
                (bt_values (account_named_keys account)) with
        | Some (Key_URef uref) =>
            if uref_is_readable uref then Ok (inr normalized_uref)
            else Err (ES_ExecError (EE_ForgedReference read_only_uref))
        | Some key =>
            Err (ES_ExecError (EE_TypeMismatch (mk_type_mismatch (str "Key::URef") (key_type_string key))))
        | None => Err (ES_ExecError (EE_KeyNotFound (Key_URef read_only_uref)))
        end
  end.

Definition get_module (reader : Reader) (deploy_item : ExecutableDeployItem) (account : Account)
    (wasm_costs : WasmCosts) (protocol_version : ProtocolVersion) : eff TC EngineError Module :=
  let! found := elift (stored_contract_key deploy_item account wasm_costs) in
  match found with
  | inl module => eret module
  | inr key =>
      let! contract := emap_err ES_ExecError (get_contract reader into_error key) in
      let contract_version := contract_protocol_version contract in
      if negb (is_compatible_with contract_version protocol_version) then
        elift (Err (ES_ExecError
          (EE_IncompatibleProtocolMajorVersion (major protocol_version) (major contract_version))))
      else elift (omap_err ES_WasmPreprocessingError (wasm_deserialize (contract_bytes contract)))
  end.

(** ** Deploys *)

(** A deploy works on the engine's cache and on its tracking copy; a result that
    ends it early is its error. *)
#[local] Abbreviation D A := (eff (Cache * TC) ExecutionResult A).

(** [return Ok(ExecutionResult::precondition_failure(error))]. *)
Definition or_precondition {Er A} (f : Er -> EngineError) (o : outcome Er A) : D A :=
  elift (omap_err (fun e => precondition_failure (f e)) o).

(** A call on the tracking copy whose error is a failed precondition. *)
Definition on_tc {Er A} (f : Er -> EngineError) (m : eff TC Er A) : D A :=
  fun '(cache, tc) =>
    let '(o, tc') := m tc in
    (omap_err (fun e => precondition_failure (f e)) o, (cache, tc')).

(** Execution on the tracking copy. *)
Definition exec_on_tc (m : eff TC ExecutionResult ExecutionResult) : D ExecutionResult :=
  fun '(cache, tc) => let '(o, tc') := m tc in (o, (cache, tc')).

(** The account, if the keys are its own and weigh enough to deploy. *)
Definition authorized_account (reader : Reader) (account_addr : bytes) (authorization_keys : list PublicKey)
    : D Account :=
  let! account := on_tc (fun _ => ES_AuthorizationError) (get_account reader into_error account_addr) in
  let! _ := elift (oguard (negb (can_authorize account authorization_keys))
    (precondition_failure ES_AuthorizationError)) in
  let! _ := elift (oguard (negb (can_deploy_with account authorization_keys))
    (precondition_failure (ES_ExecError EE_DeploymentAuthorizationFailure))) in
  eret account.

(** The module of a system contract is kept in the cache. *)
Definition cache_module (uref : URef) (contract : Contract) : D unit :=
  fun '(cache, tc) =>
    if contract_cache_has uref cache then (Ok tt, (cache, tc))
    else
      match wasm_deserialize (contract_bytes contract) with
      | Ok module => (Ok tt, (contract_cache_insert uref module cache, tc))
      | Err error => (Err (precondition_failure (ES_WasmPreprocessingError error)), (cache, tc))
      | Panic => (Panic, (cache, tc))
      end.

(** The module of proof of stake, from the cache or put into it. *)
Definition finalization_module (uref : URef) (contract : Contract) : D Module :=
  fun '(cache, tc) =>
    match contract_cache_get uref cache with
    | Some module => (Ok module, (cache, tc))
    | None =>
        match wasm_deserialize (contract_bytes contract) with
        | Ok module => (Ok module, (contract_cache_insert uref module cache, tc))
        | Err error => (Err (precondition_failure (ES_WasmPreprocessingError error)), (cache, tc))
        | Panic => (Panic, (cache, tc))
        end
    end.

(** The key under which the mint keeps the balance of a purse that proof of stake
    names. *)
Definition pos_purse_balance_key (reader : Reader) (mint_reference : URef) (proof_of_stake_contract : Contract)
    (name : bytes) : D Key :=
  let! purse_key := or_precondition (fun e => e)
    (ok_or (bt_get name (contract_named_keys proof_of_stake_contract)) ES_DeployError) in
  on_tc ES_ExecError (get_purse_balance_key reader into_error mint_reference purse_key).

Definition finalize_args (finalize_cost_motes : Motes) (account_addr : bytes) : outcome ExecError bytes :=
  args_into_bytes [from_t clt_string (str "finalize_payment"); from_t clt_u512 finalize_cost_motes;
                   from_t clt_bytes32 account_addr].

(** The account finalization is run as. *)
Definition finalization_account : Account :=
  mk_account SYSTEM_ACCOUNT_ADDR [] (uref_new ZERO_ADDR READ_ADD_WRITE) [] action_thresholds_default.

(** [std::u64::MAX]. *)
Definition SYSTEM_GAS_LIMIT : Gas := u64_max.

(** What the checks before the payment establish. *)
Record DeployDetails := mk_deploy_details {
  dd_account : Account;
  dd_session_module : Module;
  dd_protocol_data : ProtocolData;
  dd_proof_of_stake_contract : Contract;
  dd_rewards_purse_balance_key : Key;
  dd_account_main_purse_balance_key : Key;
  dd_account_main_purse_balance : Motes;
}.

(** The validation of a deploy and of the system it runs on. *)
Definition deploy_checks (reader : Reader) (wasm_costs : WasmCosts) (protocol_version : ProtocolVersion)
    (protocol_data_found : outcome E (option ProtocolData)) (deploy_item : DeployItem) : D DeployDetails :=
  let! account := authorized_account reader (di_address deploy_item) (di_authorization_keys deploy_item) in
  let! session_module := on_tc (fun e => e)
    (get_module reader (di_session deploy_item) account wasm_costs protocol_version) in
  let! found := or_precondition (fun e => ES_ExecError (into_error e)) protocol_data_found in
  let! protocol_data := or_precondition (fun e => e) (ok_or found (ES_InvalidProtocolVersion protocol_version)) in
  let mint_reference := pd_mint protocol_data in
  let! mint_contract := on_tc ES_ExecError (get_contract reader into_error (Key_URef mint_reference)) in
  let! _ := cache_module mint_reference mint_contract in
  let proof_of_stake_reference := pd_proof_of_stake protocol_data in
  let! proof_of_stake_contract := on_tc ES_ExecError
    (get_contract reader into_error (Key_URef proof_of_stake_reference)) in
  let! rewards_purse_balance_key :=
    pos_purse_balance_key reader mint_reference proof_of_stake_contract POS_REWARDS_PURSE in
  let! account_main_purse_balance_key := on_tc ES_ExecError
    (get_purse_balance_key reader into_error mint_reference (Key_URef (account_purse_id account))) in
  let! account_main_purse_balance := on_tc ES_ExecError
    (get_purse_balance reader account_main_purse_balance_key) in
  let! _ := elift (oguard (account_main_purse_balance <? MAX_PAYMENT)
    (precondition_failure ES_InsufficientPaymentError)) in
  eret (mk_deploy_details account session_module protocol_data proof_of_stake_contract
    rewards_purse_balance_key account_main_purse_balance_key account_main_purse_balance).

(** Gas, where the conversion cannot fail. *)
Definition gas_or_default (motes : Motes) : Gas :=
  match gas_from_motes motes CONV_RATE with Some g => g | None => 0 end.

(** The payment code, and what the payment purse holds afterwards. *)
Definition run_payment (reader : Reader) (wasm_costs : WasmCosts) (protocol_version : ProtocolVersion)
    (blocktime : BlockTime) (deploy_item : DeployItem) (d : DeployDetails) : D (ExecutionResult * Motes) :=
  let account := dd_account d in
  let! payment_module := on_tc (fun e => e)
    (get_module reader (di_payment deploy_item) account wasm_costs protocol_version) in
  let! payment_result := fun '(cache, tc) =>
    exec_on_tc (exec invoke_call reader payment_module (take_args (di_payment deploy_item))
      (Key_Account (di_address deploy_item)) account (di_authorization_keys deploy_item) blocktime
      (di_deploy_hash deploy_item) (gas_or_default MAX_PAYMENT) protocol_version Phase_Payment
      (dd_protocol_data d) cache) (cache, tc) in
  let! purse_balance_key := pos_purse_balance_key reader (pd_mint (dd_protocol_data d))
    (dd_proof_of_stake_contract d) POS_PAYMENT_PURSE in
  let! payment_purse_balance := on_tc ES_ExecError (get_purse_balance reader purse_balance_key) in
  eret (payment_result, payment_purse_balance).

(** The end of a deploy whose payment does not suffice. *)
Definition forced_transfer (payment_result : ExecutionResult) (payment_purse_balance : Motes) (d : DeployDetails)
    : D unit :=
  match check_forced_transfer payment_result payment_purse_balance with
  | None => eret tt
  | Some forced_transfer =>
      elift (let? error := match forced_transfer with
                           | InsufficientPayment => Ok ES_InsufficientPaymentError
                           | PaymentFailure => expect_some (take_error payment_result)
                           end in
             let? r := new_payment_code_error error MAX_PAYMENT (dd_account_main_purse_balance d)
               (dd_account_main_purse_balance_key d) (dd_rewards_purse_balance_key d) in
             Err r)
  end.

(** The session code runs on a fork of the state after the payment. *)
Definition run_session (fork : Reader) (protocol_version : ProtocolVersion) (blocktime : BlockTime)
    (deploy_item : DeployItem) (d : DeployDetails) (payment_result_cost : Gas) (payment_purse_balance : Motes)
    (cache : Cache) : outcome ExecutionResult (ExecutionResult * TC) :=
  let? session_gas_limit := gas_sub (gas_or_default payment_purse_balance) payment_result_cost in
  let '(o, session_tc) := exec invoke_call fork (dd_session_module d) (take_args (di_session deploy_item))
    (Key_Account (di_address deploy_item)) (dd_account d) (di_authorization_keys deploy_item) blocktime
    (di_deploy_hash deploy_item) session_gas_limit protocol_version Phase_Session (dd_protocol_data d) cache
    tracking_copy_new in
  let? r := o in Ok (r, session_tc).

(** Finalization runs as the system, on a fork of the state the session leaves, or
    of the state before it when the session failed. *)
Definition run_finalize (post_session : Reader) (protocol_version : ProtocolVersion) (blocktime : BlockTime)
    (deploy_item : DeployItem) (d : DeployDetails) (builder : ExecutionResultBuilder) : D ExecutionResult :=
  let proof_of_stake_reference := pd_proof_of_stake (dd_protocol_data d) in
  let! proof_of_stake_module := finalization_module proof_of_stake_reference (dd_proof_of_stake_contract d) in
  let! cost := elift (total_cost builder) in
  let! finalize_cost_motes := elift (expect_some (motes_from_gas cost CONV_RATE)) in
  let! proof_of_stake_args := elift (expect (finalize_args finalize_cost_motes (di_address deploy_item))) in
  fun '(cache, tc) =>
    let '(found, finalization_tc) := get_contract post_session into_error (Key_URef proof_of_stake_reference)
      tracking_copy_new in
    match found with
    | Err error => (Err (precondition_failure (ES_ExecError error)), (cache, tc))
    | Panic => (Panic, (cache, tc))
    | Ok proof_of_stake_contract =>
        let '(o, _) := exec_direct invoke_call post_session proof_of_stake_module proof_of_stake_args
          (contract_named_keys proof_of_stake_contract) (Key_URef proof_of_stake_reference) finalization_account
          (di_authorization_keys deploy_item) blocktime (di_deploy_hash deploy_item) SYSTEM_GAS_LIMIT
          protocol_version Phase_FinalizePayment (dd_protocol_data d) cache finalization_tc in
        (o, (cache, tc))
    end.

(** A deploy on the tracking copy of its state: checks, payment, session,
    finalization. *)
Definition deploy_on (reader : Reader) (wasm_costs : WasmCosts) (protocol_version : ProtocolVersion)
    (protocol_data_found : outcome E (option ProtocolData)) (blocktime : BlockTime) (deploy_item : DeployItem)
    : D ExecutionResult :=
  let! d := deploy_checks reader wasm_costs protocol_version protocol_data_found deploy_item in
  let! paid := run_payment reader wasm_costs protocol_version blocktime deploy_item d in
  let '(payment_result, payment_purse_balance) := paid in
  let! _ := forced_transfer payment_result payment_purse_balance d in
  let builder := set_payment_execution_result payment_result builder_new in
  let! post_payment := fun '(cache, tc) => (Ok (fork_reader reader tc, cache), (cache, tc)) in
  let '(fork, cache) := post_payment in
  let! session := elift (run_session fork protocol_version blocktime deploy_item d
    (result_cost payment_result) payment_purse_balance cache) in
  let '(session_result, session_tc) := session in
  let post_session_tc := if is_failure session_result then tracking_copy_new else session_tc in
  let builder := set_session_execution_result session_result builder in
  let! finalize_result := run_finalize (fork_reader fork post_session_tc) protocol_version blocktime
    deploy_item d builder in
  let builder := set_finalize_execution_result finalize_result builder in
  elift (expect (build reader builder)).

(** [EngineState::deploy]; the error is [RootNotFound]. *)
Definition deploy (wasm_costs : WasmCosts) (protocol_version : ProtocolVersion) (prestate_hash : Blake2bHash)
    (blocktime : BlockTime) (deploy_item : DeployItem) : eff Engine Blake2bHash ExecutionResult :=
  fun self =>
    match tracking_copy prestate_hash self with
    | Err error => (Ok (precondition_failure error), self)
    | Panic => (Panic, self)
    | Ok None => (Err prestate_hash, self)
    | Ok (Some reader) =>
        let '(o, (cache, _)) := deploy_on reader wasm_costs protocol_version
          (sp_get_protocol_data protocol_version (es_state self)) blocktime deploy_item
          (es_cache self, tracking_copy_new) in
        (match o with
         | Ok r | Err r => Ok r
         | Panic => Panic
         end, mk_engine_state cache (es_state self))
    end.

(** A request to execute deploys; an item may be a result already. *)
Record ExecuteRequest := mk_execute_request {
  er_parent_state_hash : Blake2bHash;
  er_block_time : BlockTime;
  er_deploys : list (DeployItem + ExecutionResult);
  er_protocol_version : ProtocolVersion;
}.

(** The loop of [run_execute]: each deploy runs on the parent state. *)
Fixpoint execute_loop (wasm_costs : WasmCosts) (request : ExecuteRequest)
    (deploys : list (DeployItem + ExecutionResult)) : eff Engine Blake2bHash (list ExecutionResult) :=
  match deploys with
  | [] => eret []
  | item :: deploys' =>
      let! result := match item with
                     | inl deploy_item =>
                         deploy wasm_costs (er_protocol_version request) (er_parent_state_hash request)
                           (er_block_time request) deploy_item
                     | inr exec_result => eret exec_result
                     end in
      let! results := execute_loop wasm_costs request deploys' in
      eret (result :: results)
  end.

(** The cost table is unwrapped. *)
Definition run_execute (request : ExecuteRequest) : eff Engine Blake2bHash (list ExecutionResult) :=
  fun self =>
    match wasm_costs (er_protocol_version request) self with
    | Ok (Some costs) => execute_loop costs request (er_deploys request) self
    | _ => (Panic, self)
    end.

(** ** Commits *)

(** A call on the engine's state. *)
Definition on_provider {A} (f : E -> EngineError) (m : eff S E A) : eff Engine EngineError A :=
  fun self =>
    let '(o, st) := m (es_state self) in
    (omap_err f o, mk_engine_state (es_cache self) st).

(** The hash map of validators, by key. *)
Definition get_bonded_validators (protocol_version : ProtocolVersion) (root_hash : Blake2bHash) (self : Engine)
    : outcome EngineError (BTreeMap PublicKey Z) :=
  let? found := omap_err from_state_error (sp_get_protocol_data protocol_version (es_state self)) in
  let? protocol_data := ok_or found (ES_InvalidProtocolVersion protocol_version) in
  let proof_of_stake := normalize (Key_URef (pd_proof_of_stake protocol_data)) in
  let? maybe_reader := omap_err from_state_error (sp_checkout root_hash (es_state self)) in
  match maybe_reader with
  | None => Panic
  | Some reader =>
      let? value := omap_err from_state_error (reader proof_of_stake) in
      match value with
      | Some (SV_Contract contract) =>
          Ok (bt_collect (omap pos_validator_key_name_to_tuple (bt_keys (contract_named_keys contract))))
      | _ => Err (ES_MissingSystemContractError (str "proof of stake"))
      end
  end.

Definition apply_effect (protocol_version : ProtocolVersion) (pre_state_hash : Blake2bHash)
    (effects : gmap Key Transform) : eff Engine EngineError CommitResult :=
  let! commit_result := on_provider from_state_error (sp_commit pre_state_hash effects) in
  match commit_result with
  | CR_Success state_root _ =>
      fun self =>
        ((let? bonded_validators := get_bonded_validators protocol_version state_root self in
          Ok (CR_Success state_root bonded_validators)), self)
  | commit_result => eret commit_result
  end.

(** ** Upgrades *)

(** Running the installer of an upgrade as the system; the result is the unit
    value. *)
Definition run_installer (reader : Reader) (upgrade_config : UpgradeConfig) (installer_bytes : bytes)
    (new_protocol_data : ProtocolData) (cache : Cache) : eff TC EngineError unit :=
  let! upgrade_installer_module := elift (omap_err ES_WasmPreprocessingError
    (preprocess (pd_wasm_costs new_protocol_data) installer_bytes)) in
  let args := match uc_upgrade_installer_args upgrade_config with Some args => args | None => [] end in
  let! found := emap_err (fun e => ES_ExecError (into_error e))
    (tc_read reader (Key_Account SYSTEM_ACCOUNT_ADDR)) in
  match found with
  | Some (SV_Account system_account) =>
      let! version_bytes := elift (omap_err ES_SerializationError
        (semver_to_bytes (uc_new_protocol_version upgrade_config))) in
      let deploy_hash := blake2b_hash_new version_bytes in
      let address_generator := address_generator_new (uc_pre_state_hash upgrade_config) Phase_System in
      fun tc =>
        let '(o, (tc', _)) := better_exec invoke_call clt_unit reader upgrade_installer_module args []
          (Key_Account SYSTEM_ACCOUNT_ADDR) system_account [SYSTEM_ACCOUNT_ADDR] 0 deploy_hash SYSTEM_GAS_LIMIT
          (uc_new_protocol_version upgrade_config) Phase_System new_protocol_data cache (tc, address_generator) in
        (omap_err ES_ExecError o, tc')
  | _ => elift Panic
  end.

Definition commit_upgrade (upgrade_config : UpgradeConfig) : eff Engine EngineError UpgradeResult :=
  let pre_state_hash := uc_pre_state_hash upgrade_config in
  let! maybe_reader := fun self => (tracking_copy pre_state_hash self, self) in
  match maybe_reader with
  | None => eret UR_RootNotFound
  | Some reader =>
      let current_protocol_version := uc_current_protocol_version upgrade_config in
      let! found := fun self => (omap_err (fun e => ES_ExecError (into_error e))
        (sp_get_protocol_data current_protocol_version (es_state self)), self) in
      let! current_protocol_data := elift (ok_or found (ES_InvalidProtocolVersion current_protocol_version)) in
      let new_protocol_version := uc_new_protocol_version upgrade_config in
      let! upgrade_check_result := elift (omap_err (Empty_set_rect (fun _ => EngineError))
        (check_next_version overflow_checks current_protocol_version new_protocol_version)) in
      if is_invalid upgrade_check_result then elift (Err (ES_InvalidProtocolVersion new_protocol_version))
      else
        let new_wasm_costs := match uc_wasm_costs upgrade_config with
                              | Some costs => costs
                              | None => pd_wasm_costs current_protocol_data
                              end in
        let new_protocol_data := mk_protocol_data new_wasm_costs (pd_mint current_protocol_data)
          (pd_proof_of_stake current_protocol_data) in
        let! _ := on_provider (fun e => ES_ExecError (into_error e))
          (sp_put_protocol_data new_protocol_version new_protocol_data) in
        let! tc := match uc_upgrade_installer_bytes upgrade_config with
                   | None =>
                       if is_code_required upgrade_check_result then elift (Err ES_InvalidUpgradeConfig)
                       else eret tracking_copy_new
                   | Some installer_bytes => fun self =>
                       let '(o, tc) := run_installer reader upgrade_config installer_bytes new_protocol_data
                         (es_cache self) tracking_copy_new in
                       ((let? _ := o in Ok tc), self)
                   end in
        let! commit_result := on_provider (fun e => ES_ExecError (into_error e))
          (sp_commit pre_state_hash (tc_fns tc)) in
        eret (upgrade_from_commit_result commit_result (state_effect tc))
  end.

(** ** Genesis *)

Definition virtual_system_account : Account :=
  account_create SYSTEM_ACCOUNT_ADDR [] (uref_new ZERO_ADDR READ_ADD_WRITE).

(** The hash the addresses of the system contracts are seeded with. *)
Definition install_deploy_hash (genesis_config : GenesisConfig) : outcome EngineError Blake2bHash :=
  let? wasm_costs_bytes := omap_err ES_SerializationError (wasm_costs_to_bytes (gc_wasm_costs genesis_config)) in
  Ok (blake2b_hash_new (gc_name genesis_config ++ to_le_bytes 8 (gc_timestamp genesis_config) ++ wasm_costs_bytes)).

(** Code run by the virtual system account at genesis. *)
Definition genesis_exec {A} (T : CLTyped A) (reader : Reader) (module : Module) (args : bytes) (base_key : Key)
    (deploy_hash : bytes) (protocol_version : ProtocolVersion) (protocol_data : ProtocolData) (cache : Cache)
    : eff (TC * G) EngineError A :=
  emap_err ES_ExecError (better_exec invoke_call T reader module args [] base_key virtual_system_account []
    GENESIS_INITIAL_BLOCKTIME deploy_hash SYSTEM_GAS_LIMIT protocol_version Phase_System protocol_data cache).

(** Installing one of the system contracts. *)
Definition install (reader : Reader) (genesis_config : GenesisConfig) (installer_bytes args : bytes)
    (deploy_hash : bytes) (protocol_data : ProtocolData) (cache : Cache) : eff (TC * G) EngineError URef :=
  let! module := elift (omap_err ES_WasmPreprocessingError
    (preprocess (gc_wasm_costs genesis_config) installer_bytes)) in
  genesis_exec clt_uref reader module args (Key_Account SYSTEM_ACCOUNT_ADDR) deploy_hash
    (gc_protocol_version genesis_config) protocol_data cache.

Definition pos_install_args (genesis_config : GenesisConfig) (mint_reference : URef) : outcome ExecError bytes :=
  args_into_bytes [from_t clt_uref mint_reference;
                   from_t (clt_map clt_public_key clt_u512) (bt_collect (genesis_bonded_validators genesis_config))].

(** The mint and proof of stake, with a generator of addresses they share. *)
Definition install_system (reader : Reader) (genesis_config : GenesisConfig) (deploy_hash : bytes) (cache : Cache)
    : eff (TC * G) EngineError (URef * URef) :=
  let! mint_reference := install reader genesis_config (gc_mint_installer_bytes genesis_config) []
    deploy_hash protocol_data_default cache in
  let! args := elift (expect (pos_install_args genesis_config mint_reference)) in
  let partial_protocol_data := mk_protocol_data wasm_costs_default mint_reference (uref_new ZERO_ADDR READ) in
  let! proof_of_stake_reference := install reader genesis_config
    (gc_proof_of_stake_installer_bytes genesis_config) args deploy_hash partial_protocol_data cache in
  eret (mint_reference, proof_of_stake_reference).

(** The names of an account; those of the system account keep their rights. *)
Definition genesis_named_keys (mint_reference proof_of_stake_reference : URef) : BTreeMap bytes Key :=
  bt_collect [(MINT_NAME, Key_URef (uref_new (uref_addr mint_reference) READ));
              (POS_NAME, Key_URef (uref_new (uref_addr proof_of_stake_reference) READ))].

Definition system_named_keys (mint_reference proof_of_stake_reference : URef) : BTreeMap bytes Key :=
  bt_collect [(MINT_NAME, Key_URef mint_reference); (POS_NAME, Key_URef proof_of_stake_reference)].

Definition genesis_accounts (genesis_config : GenesisConfig) (mint_reference proof_of_stake_reference : URef)
    : list (GenesisAccount * BTreeMap bytes Key) :=
  map (fun account => (account, genesis_named_keys mint_reference proof_of_stake_reference))
    (gc_accounts genesis_config)
  ++ [(mk_genesis_account SYSTEM_ACCOUNT_ADDR 0 0, system_named_keys mint_reference proof_of_stake_reference)].

(** One account: the mint creates its purse, and the account is written. *)
Definition create_account (reader : Reader) (genesis_config : GenesisConfig) (module : Module)
    (mint_reference : URef) (protocol_data : ProtocolData) (cache : Cache)
    (e : GenesisAccount * BTreeMap bytes Key) : eff TC EngineError unit :=
  let '(account, named_keys) := e in
  let account_public_key := ga_public_key account in
  let! args := elift (expect (args_into_bytes
    [from_t clt_string MINT_METHOD_NAME; from_t clt_u512 (ga_balance account)])) in
  let! mint_result := fun tc =>
    let '(o, (tc', _)) := genesis_exec (clt_result clt_uref clt_mint_error) reader module args
      (Key_URef mint_reference) account_public_key (gc_protocol_version genesis_config) protocol_data cache
      (tc, address_generator_new account_public_key Phase_System) in
    (o, tc') in
  let! account_main_purse := elift match mint_result with
                                   | inl purse => Ok purse
                                   | inr error => Err (ES_MintError error)
                                   end in
  fun tc => (Ok tt, tc_write (Key_Account account_public_key)
    (SV_Account (account_create account_public_key named_keys account_main_purse)) tc).

(** The effects of genesis on the empty state. *)
Definition genesis_on (reader : Reader) (genesis_config : GenesisConfig) (mint_reference proof_of_stake_reference : URef)
    (protocol_data : ProtocolData) (cache : Cache) : eff TC EngineError unit :=
  let! contract := emap_err ES_ExecError (get_contract reader into_error (Key_URef mint_reference)) in
  let! module := elift (omap_err ES_WasmPreprocessingError (wasm_deserialize (contract_bytes contract))) in
  efor_each (create_account reader genesis_config module mint_reference protocol_data cache)
    (genesis_accounts genesis_config mint_reference proof_of_stake_reference).

Definition commit_genesis (genesis_config : GenesisConfig) : eff Engine EngineError GenesisResult :=
  let! initial_root_hash := fun self => (Ok (sp_empty_root (es_state self)), self) in
  let! maybe_reader := fun self => (tracking_copy initial_root_hash self, self) in
  match maybe_reader with
  | None => elift Panic
  | Some reader =>
      let tc := tc_write (Key_Account SYSTEM_ACCOUNT_ADDR) (SV_Account virtual_system_account) tracking_copy_new in
      let! deploy_hash := elift (install_deploy_hash genesis_config) in
      let! installed := fun self =>
        let '(o, (tc', _)) := install_system reader genesis_config deploy_hash (es_cache self)
          (tc, address_generator_new deploy_hash Phase_System) in
        ((let? r := o in Ok (r, tc')), self) in
      let '((mint_reference, proof_of_stake_reference), tc) := installed in
      let protocol_data := mk_protocol_data (gc_wasm_costs genesis_config) mint_reference proof_of_stake_reference in
      let! _ := on_provider (fun e => ES_ExecError (into_error e))
        (sp_put_protocol_data (gc_protocol_version genesis_config) protocol_data) in
      let! tc := fun self =>
        let '(o, tc') := genesis_on reader genesis_config mint_reference proof_of_stake_reference protocol_data
          (es_cache self) tc in
        ((let? _ := o in Ok tc'), self) in
      let! commit_result := on_provider (fun e => ES_ExecError (into_error e))
        (sp_commit initial_root_hash (tc_fns tc)) in
      eret (genesis_from_commit_result commit_result (state_effect tc))
  end.
End engine.
