(* ===== verification/InMemoryState.v ===== *)
(** The in-memory global state as a provider of states for the engine: checkouts
    and commits on its trie store, protocol data in a store of its own.  Sources:
    [engine-storage/src/global_state/in_memory.rs],
    [engine-storage/src/protocol_data_store/in_memory.rs],
    [engine-storage/src/trie_store/in_memory.rs]. *)

From stdpp Require Import gmap.
From S2P Require Import Prelude BTreeMap Bytesrepr Uint Types CLValues Account StoredValue Transform.
From S2P Require Import Trie TrieStore GlobalState TrackingCopy ApiError ProtocolData ExecutionError.
From S2P Require Import RuntimeContext ExtractURefs Runtime ExecutionResult TrackingCopyExt Executor Stakes.
From S2P Require Import PosContract EngineState.

(** * The stores *)

Definition TRIE_STORE_NAME : bytes := str "TRIE_STORE".
Definition PROTOCOL_DATA_STORE_NAME : bytes := str "PROTOCOL_DATA_STORE".

(** [format!("{}-{}", NAME, name)], or the name of the kind of store. *)
Definition store_name (kind : bytes) (maybe_name : option bytes) : Handle :=
  Some match maybe_name with Some name => kind ++ str "-" ++ name | None => kind end.

(** [InMemoryTrieStore::new] and [InMemoryProtocolDataStore::new]. *)
Definition in_memory_trie_store (maybe_name : option bytes) : Handle := store_name TRIE_STORE_NAME maybe_name.
Definition in_memory_protocol_data_store (maybe_name : option bytes) : Handle :=
  store_name PROTOCOL_DATA_STORE_NAME maybe_name.

(** The stores of a global state have no names of their own. *)
Definition trie_store : Handle := in_memory_trie_store None.
Definition protocol_data_store : Handle := in_memory_protocol_data_store None.

(** * The global state *)

Record InMemoryGlobalState := mk_in_memory_global_state {
  ms_environment : InMemoryData;
  ms_empty_root_hash : Blake2bHash;
}.

Section in_memory_state.
Context {hasher : Hasher} {dbg : DebugText}.

#[local] Abbreviation SE := (StoreError InMemoryError).
#[local] Abbreviation GS := InMemoryGlobalState.

(** [InMemoryGlobalState::empty]. *)
Definition in_memory_state_empty : outcome SE GS :=
  let? '(data, root_hash) := global_state_empty trie_store in
  Ok (mk_in_memory_global_state data root_hash).

(** A view reads from the shared environment; what is stored under a hash never
    changes, so the view is the data of its checkout. *)
Definition ms_checkout (prestate_hash : Blake2bHash) (self : GS)
    : outcome SE (option (Key -> outcome SE (option StoredValue))) :=
  let? maybe_root := checkout trie_store (ms_environment self) prestate_hash in
  Ok (view_read trie_store (ms_environment self) <$> maybe_root).

Definition ms_commit (prestate_hash : Blake2bHash) (effects : gmap Key Transform) : eff GS SE CommitResult :=
  fun self =>
    match commit trie_store (ms_environment self) prestate_hash (map_to_list effects) with
    | Ok (environment, commit_result) =>
        (Ok commit_result, mk_in_memory_global_state environment (ms_empty_root_hash self))
    | Err e => (Err e, self)
    | Panic => (Panic, self)
    end.

Definition ms_put_protocol_data (protocol_version : ProtocolVersion) (protocol_data : ProtocolData) : eff GS SE unit :=
  fun self =>
    match store_put protocol_version_codec protocol_data_codec protocol_data_store (ms_environment self)
            protocol_version protocol_data with
    | Ok txn =>
        (Ok tt, mk_in_memory_global_state (in_memory_commit (ms_environment self) txn) (ms_empty_root_hash self))
    | Err e => (Err e, self)
    | Panic => (Panic, self)
    end.

Definition ms_get_protocol_data (protocol_version : ProtocolVersion) (self : GS)
    : outcome SE (option ProtocolData) :=
  store_get protocol_version_codec protocol_data_codec protocol_data_store (ms_environment self) protocol_version.

#[global] Instance in_memory_provider : StateProvider GS SE := {
  sp_checkout := ms_checkout;
  sp_commit := ms_commit;
  sp_put_protocol_data := ms_put_protocol_data;
  sp_get_protocol_data := ms_get_protocol_data;
  sp_empty_root := ms_empty_root_hash;
}.

(** * What the engine relies on *)

(** A view that was written to replaces what it was made from. *)
Lemma commit_view_read (data view : InMemoryData) handle key value :
  in_memory_write data handle key value = Ok view ->
  forall h k, in_memory_read (in_memory_commit data view) h k = in_memory_read view h k.
Proof.
  unfold in_memory_write, in_memory_commit, in_memory_read. intros <-%Ok_inj h k.
  rewrite lookup_union. destruct (decide (h = handle)) as [->|Hne].
  - rewrite lookup_insert_eq. by rewrite union_Some_l.
  - rewrite lookup_insert_ne by done. by destruct (data !! h).
Qed.

(** The store at the bytes of its keys. *)
Section store.
Context {A B : Type} (ca : Codec A) (cb : Codec B) {VA : A -> Prop} {VB : B -> Prop}.
Context `{!CodecLaws ca VA, !CodecLaws cb VB} (h : Handle).

Lemma store_put_found data k v view :
  VB v -> store_put ca cb h data k v = Ok view -> store_get ca cb h (in_memory_commit data view) k = Ok (Some v).
Proof.
  intros Hv Hp. apply obind_ok in Hp as (kb & Hk & Hp). apply obind_ok in Hp as (vb & Hb & Hp).
  unfold store_get. rewrite Hk. cbn [obind]. destruct (to_bytes cb v) as [vb'| |] eqn:Ev; try done.
  injection Hb as ->. destruct (txn_write data h kb vb) as [view'| |] eqn:Ew; try done. injection Hp as ->.
  pose proof (txn_read_written _ _ _ _ _ Ew) as Hr. pose proof (commit_view_read _ _ _ _ _ Ew h kb) as Hc.
  cbn [txn_read in_memory_transaction] in *. rewrite Hc, Hr. cbn [omap_err obind].
  by rewrite (deserialize_serialize cb VB v vb Hv Ev).
Qed.

Lemma store_put_elsewhere data k v view k' :
  VA k -> VA k' -> k' <> k -> store_put ca cb h data k v = Ok view ->
  store_get ca cb h (in_memory_commit data view) k' = store_get ca cb h data k'.
Proof.
  intros Hk Hk' Hne Hp. apply obind_ok in Hp as (kb & Eb & Hp). apply obind_ok in Hp as (vb & _ & Hp).
  destruct (to_bytes ca k) as [kb1| |] eqn:E1; try done. injection Eb as ->.
  unfold store_get. destruct (to_bytes ca k') as [kb'| |] eqn:E2; try done. cbn [omap_err obind].
  destruct (txn_write data h kb vb) as [view'| |] eqn:Ew; try done. injection Hp as ->.
  pose proof (commit_view_read _ _ _ _ _ Ew h kb') as Hc. cbn [txn_read in_memory_transaction] in *. rewrite Hc.
  pose proof (txn_read_other _ _ _ _ _ h kb' Ew) as Hr. cbn [txn_read in_memory_transaction] in Hr. rewrite Hr; [done|].
  intros [= ->]. pose proof (deserialize_serialize ca VA k kb Hk E1).
  pose proof (deserialize_serialize ca VA k' kb Hk' E2). congruence.
Qed.
End store.

(** The in-memory state keeps the promises of a provider. *)
#[global] Instance in_memory_provider_laws : StateProviderLaws GS SE.
Proof.
  split; cbn [sp_put_protocol_data sp_get_protocol_data in_memory_provider];
    unfold ms_put_protocol_data, ms_get_protocol_data.
  - intros v pd s s' Hv Hd. destruct (store_put _ _ _ _ _ _) as [txn|e|] eqn:Ep; try done.
    intros [= <-]. by apply (store_put_found _ _ _ _ _ _ _ Hd Ep).
  - intros v pd o s s' v' Hv Hv' Hne. destruct (store_put _ _ _ _ _ _) as [txn|e|] eqn:Ep; intros [= _ <-]; try done.
    by apply (store_put_elsewhere _ _ _ _ _ _ _ _ Hv Hv' Hne Ep).
Qed.
End in_memory_state.
