(* ===== verification/LmdbState.v ===== *)
(** The global state on disk: transactions, stores and provider over the [lmdb]
    crate, and that the engine cannot tell it from the one in memory.  Sources:
    [engine-storage/src/transaction_source/lmdb.rs],
    [engine-storage/src/global_state/lmdb.rs],
    [engine-storage/src/trie_store/lmdb.rs],
    [engine-storage/src/protocol_data_store/lmdb.rs]. *)

From stdpp Require Import gmap.
From S2P Require Import Prelude BTreeMap Bytesrepr Uint Types CLValues Account StoredValue Transform.
From S2P Require Import Trie TrieStore GlobalState StoreSim ProtocolData EngineState InMemoryState.

(** * The crate *)

(** What is used of [lmdb]: environments, transactions for reading or for writing
    (the types of the source keep [put] from the former), databases and errors. *)
Class Lmdb (Env Txn Db LE : Type) := {
  is_not_found : LE -> bool;
  begin_ro_txn : Env -> outcome LE Txn;
  begin_rw_txn : Env -> outcome LE Txn;
  mdb_get : Txn -> Db -> bytes -> outcome LE bytes;
  mdb_put : Txn -> Db -> bytes -> bytes -> outcome LE Txn;
  mdb_commit_ro : Txn -> outcome LE unit;
  mdb_commit_rw : Env -> Txn -> outcome LE Env;
  create_db : Env -> option bytes -> Z -> outcome LE (Env * Db);
  open_db : Env -> option bytes -> outcome LE Db;
}.

Section laws.
Context {Env Txn Db LE : Type} `{!Lmdb Env Txn Db LE}.

(** A transaction that was begun on an environment as it is. *)
Definition opens (env : Env) (t : Txn) : Prop := begin_ro_txn env = Ok t \/ begin_rw_txn env = Ok t.

(** Documented of LMDB: a transaction sees its own writes and, at the keys it did
    not write, the snapshot it began with; all that begin between two commits see
    the same one; a commit of the one writer publishes what it saw; failures are
    returned. *)
Class LmdbLaws : Prop := {
  lmdb_put_get t t' db k v : mdb_put t db k v = Ok t' -> mdb_get t' db k = Ok v;
  lmdb_put_other t t' db k v db' k' : mdb_put t db k v = Ok t' -> (db', k') <> (db, k) -> mdb_get t' db' k' = mdb_get t db' k';
  lmdb_snapshot env t t' db k : opens env t -> opens env t' -> mdb_get t db k = mdb_get t' db k;
  lmdb_published env env' t t' db k : mdb_commit_rw env t = Ok env' -> opens env' t' -> mdb_get t' db k = mdb_get t db k;
  lmdb_begin_ro_safe env : begin_ro_txn env <> Panic;
  lmdb_begin_safe env : begin_rw_txn env <> Panic;
  lmdb_get_safe t db k : mdb_get t db k <> Panic;
  lmdb_put_safe t db k v : mdb_put t db k v <> Panic;
  lmdb_commit_ro_safe t : mdb_commit_ro t <> Panic;
  lmdb_commit_safe env t : mdb_commit_rw env t <> Panic;
}.
End laws.

Arguments LmdbLaws Env Txn Db LE {_}.

(** * Transactions *)

Section transactions.
Context {Env Txn Db LE : Type} `{!Lmdb Env Txn Db LE}.

(** [Readable] for both kinds of transactions. *)
Definition lmdb_read (txn : Txn) (handle : Db) (key : bytes) : outcome LE (option bytes) :=
  match mdb_get txn handle key with
  | Ok bytes => Ok (Some bytes)
  | Err e => if is_not_found e then Ok None else Err e
  | Panic => Panic
  end.

#[global] Instance lmdb_transaction : Transaction Txn Db LE := {
  txn_read := lmdb_read;
  txn_write := mdb_put;
}.

#[global] Instance lmdb_environment : TransactionSource Env Txn LE := {
  create_read_write_txn := begin_rw_txn;
  txn_commit := mdb_commit_rw;
}.

#[global] Instance lmdb_transaction_laws : LmdbLaws Env Txn Db LE -> TransactionLaws Txn Db LE.
Proof.
  intros Hl. split; cbn; unfold lmdb_read.
  - intros t t' h k v Hw. by rewrite (lmdb_put_get _ _ _ _ _ Hw).
  - intros t t' h k v h' k' Hw Hne. by rewrite (lmdb_put_other _ _ _ _ _ _ _ Hw Hne).
  - intros. apply lmdb_put_safe.
Qed.

(** [LmdbTrieStore] and [LmdbProtocolDataStore]: created or opened by their names. *)
Definition lmdb_trie_store_new (env : Env) (maybe_name : option bytes) (flags : Z) : outcome LE (Env * Db) :=
  create_db env (store_name TRIE_STORE_NAME maybe_name) flags.
Definition lmdb_trie_store_open (env : Env) (maybe_name : option bytes) : outcome LE Db :=
  open_db env (store_name TRIE_STORE_NAME maybe_name).
Definition lmdb_protocol_data_store_new (env : Env) (maybe_name : option bytes) (flags : Z) : outcome LE (Env * Db) :=
  create_db env (store_name PROTOCOL_DATA_STORE_NAME maybe_name) flags.
Definition lmdb_protocol_data_store_open (env : Env) (maybe_name : option bytes) : outcome LE Db :=
  open_db env (store_name PROTOCOL_DATA_STORE_NAME maybe_name).
End transactions.

(** * The global state *)

Record LmdbGlobalState (Env Db : Type) := mk_lmdb_global_state {
  ls_environment : Env;
  ls_trie_store : Db;
  ls_protocol_data_store : Db;
  ls_empty_root_hash : Blake2bHash;
}.
Arguments mk_lmdb_global_state {Env Db}.
Arguments ls_environment {Env Db}.
Arguments ls_trie_store {Env Db}.
Arguments ls_protocol_data_store {Env Db}.
Arguments ls_empty_root_hash {Env Db}.

Section lmdb_state.
Context {Env Txn Db LE : Type} `{!Lmdb Env Txn Db LE} {hasher : Hasher} {dbg : DebugText}.

#[local] Abbreviation SE := (StoreError LE).
#[local] Abbreviation LS := (LmdbGlobalState Env Db).

Definition set_environment (env : Env) (self : LS) : LS :=
  mk_lmdb_global_state env (ls_trie_store self) (ls_protocol_data_store self) (ls_empty_root_hash self).

(** [LmdbGlobalState::empty]. *)
Definition lmdb_state_empty (environment : Env) (trie_store protocol_data_store : Db) : outcome SE LS :=
  let? '(root_hash, root) := omap_err SE_BytesRepr (create_hashed_empty_trie key_codec stored_value_codec) in
  let? txn := omap_err SE_Transaction (begin_rw_txn environment) in
  let? txn := trie_store_put key_codec stored_value_codec trie_store txn root_hash root in
  let? environment := omap_err SE_Transaction (mdb_commit_rw environment txn) in
  Ok (mk_lmdb_global_state environment trie_store protocol_data_store root_hash).

(** [StateReader::read] of a view; what is stored under a hash never changes, so
    the environment is that of the checkout. *)
Definition ls_view_read (self : LS) (root_hash : Blake2bHash) (key : Key) : outcome SE (option StoredValue) :=
  let? txn := omap_err SE_Transaction (begin_ro_txn (ls_environment self)) in
  let? r := state_read (ls_trie_store self) txn root_hash key in
  let? ret := match r with Found value => Ok (Some value) | NotFound => Ok None | RootNotFound => Panic end in
  let? _ := omap_err SE_Transaction (mdb_commit_ro txn) in
  Ok ret.

Definition ls_checkout (state_hash : Blake2bHash) (self : LS)
    : outcome SE (option (Key -> outcome SE (option StoredValue))) :=
  let? txn := omap_err SE_Transaction (begin_ro_txn (ls_environment self)) in
  let? maybe_root := state_get (ls_trie_store self) txn state_hash in
  let maybe_state := (fun _ => ls_view_read self state_hash) <$> maybe_root in
  let? _ := omap_err SE_Transaction (mdb_commit_ro txn) in
  Ok maybe_state.

Definition ls_commit (prestate_hash : Blake2bHash) (effects : gmap Key Transform) : eff LS SE CommitResult :=
  fun self =>
    match commit (ls_trie_store self) (ls_environment self) prestate_hash (map_to_list effects) with
    | Ok (environment, commit_result) => (Ok commit_result, set_environment environment self)
    | Err e => (Err e, self)
    | Panic => (Panic, self)
    end.

Definition ls_put_protocol_data (protocol_version : ProtocolVersion) (protocol_data : ProtocolData) : eff LS SE unit :=
  fun self =>
    match
      let? txn := omap_err SE_Transaction (begin_rw_txn (ls_environment self)) in
      let? txn := store_put protocol_version_codec protocol_data_codec (ls_protocol_data_store self) txn
        protocol_version protocol_data in
      omap_err SE_Transaction (mdb_commit_rw (ls_environment self) txn)
    with
    | Ok environment => (Ok tt, set_environment environment self)
    | Err e => (Err e, self)
    | Panic => (Panic, self)
    end.

Definition ls_get_protocol_data (protocol_version : ProtocolVersion) (self : LS) : outcome SE (option ProtocolData) :=
  let? txn := omap_err SE_Transaction (begin_ro_txn (ls_environment self)) in
  let? result := store_get protocol_version_codec protocol_data_codec (ls_protocol_data_store self) txn protocol_version in
  let? _ := omap_err SE_Transaction (mdb_commit_ro txn) in
  Ok result.

#[global] Instance lmdb_provider : StateProvider LS SE := {
  sp_checkout := ls_checkout;
  sp_commit := ls_commit;
  sp_put_protocol_data := ls_put_protocol_data;
  sp_get_protocol_data := ls_get_protocol_data;
  sp_empty_root := ls_empty_root_hash;
}.
End lmdb_state.

(** * Both backends answer alike *)

(** What the engine asks of a provider, and the answers. *)
Inductive Request :=
| AskCommit (prestate_hash : Blake2bHash) (effects : gmap Key Transform)
| AskRead (state_hash : Blake2bHash) (key : Key)
| AskPut (protocol_version : ProtocolVersion) (protocol_data : ProtocolData)
| AskGet (protocol_version : ProtocolVersion)
| AskEmptyRoot.

Inductive Answer :=
| Committed (r : CommitResult)
| ReadAs (state : option (option StoredValue))
| Stored
| Data (d : option ProtocolData)
| EmptyRoot (h : Blake2bHash).

Section requests.
Context {S Er : Type} `{!StateProvider S Er}.

(** A read checks the state out first. *)
Definition provider_read (state_hash : Blake2bHash) (key : Key) (s : S) : outcome Er (option (option StoredValue)) :=
  let? view := sp_checkout state_hash s in
  match view with
  | Some read => let? v := read key in Ok (Some v)
  | None => Ok None
  end.

Definition ask (r : Request) : eff S Er Answer :=
  match r with
  | AskCommit prestate_hash effects => ebind (sp_commit prestate_hash effects) (fun r => eret (Committed r))
  | AskRead state_hash key => fun s => (outcome_map ReadAs (provider_read state_hash key s), s)
  | AskPut v d => ebind (sp_put_protocol_data v d) (fun _ => eret Stored)
  | AskGet v => fun s => (outcome_map Data (sp_get_protocol_data v s), s)
  | AskEmptyRoot => fun s => (Ok (EmptyRoot (sp_empty_root s)), s)
  end.

Fixpoint ask_all (l : list Request) : eff S Er (list Answer) :=
  match l with
  | [] => eret []
  | r :: l' => ebind (ask r) (fun a => ebind (ask_all l') (fun answers => eret (a :: answers)))
  end.
End requests.

Section backends.
Context {Env Txn Db LE : Type} `{!Lmdb Env Txn Db LE} {laws : LmdbLaws Env Txn Db LE} `{EqDecision Db}.
Context {hasher : Hasher} {dbg : DebugText} (trie_db data_db : Db).
Hypothesis databases_differ : trie_db <> data_db.

#[local] Abbreviation LS := (LmdbGlobalState Env Db).
#[local] Abbreviation MS := InMemoryGlobalState.

(** The database of each store. *)
Definition same_db (a : Handle) (b : Db) : Prop := (a = trie_store /\ b = trie_db) \/ (a = protocol_data_store /\ b = data_db).

(** A view keeps every database of the data it was made from. *)
Definition keeps_databases (data view : InMemoryData) : Prop := forall a, is_Some (data !! a) -> is_Some (view !! a).

(** What transactions on the environment read is what is in memory. *)
Definition same_data (data : InMemoryData) (env : Env) : Prop := forall t, opens env t -> same_reads same_db data t.

Lemma same_db_inj a b a' b' : same_db a b -> same_db a' b' -> a = a' <-> b = b'.
Proof. intros [[-> ->]|[-> ->]] [[-> ->]|[-> ->]]; split; intros E; try done; by destruct databases_differ. Qed.

Lemma commit_read data view a k :
  keeps_databases data view -> in_memory_read (in_memory_commit data view) a k = in_memory_read view a k.
Proof.
  intros Hk. unfold in_memory_read, in_memory_commit. rewrite lookup_union.
  destruct (view !! a) as [m|] eqn:E; [by rewrite union_Some_l|]. destruct (data !! a) as [m|] eqn:Ed; [|done].
  destruct (Hk a) as [? ?]; [by rewrite Ed | congruence].
Qed.

Lemma same_data_published data view env env' t :
  keeps_databases data view -> same_reads same_db view t -> mdb_commit_rw env t = Ok env' ->
  same_data (in_memory_commit data view) env'.
Proof.
  intros Hk Hs Hc t' Ho a b k Hab. cbn. rewrite commit_read by done. specialize (Hs a b k Hab). cbn in Hs.
  unfold lmdb_read in *. by rewrite (lmdb_published _ _ _ _ b k Hc Ho).
Qed.

(** The two are sources of transactions over the same bytes. *)
Lemma backends_source : same_source (Env1 := InMemoryData) (Env2 := Env) same_db keeps_databases same_data.
Proof.
  split.
  - apply same_db_inj.
  - intros data h k v view view' Hk Hw a Ha. cbn in Hw. unfold in_memory_write in Hw. injection Hw as <-.
    destruct (decide (a = h)) as [->|Hne]; [rewrite lookup_insert_eq; eauto | rewrite lookup_insert_ne by done; auto].
  - intros data env Hs. cbn. exists data. split; [done|]. destruct (begin_rw_txn env) as [t|e|] eqn:Eb; [|done|].
    + split; [by intros a|]. apply Hs. by right.
    + by destruct (lmdb_begin_safe env).
  - intros data env view t _ [Hk Hs]. cbn. eexists. split; [done|].
    destruct (mdb_commit_rw env t) as [env'|e|] eqn:Ec; [by eapply same_data_published | done |].
    by destruct (lmdb_commit_safe env t).
Qed.

(** * States *)

Record same_state (ms : MS) (ls : LS) : Prop := {
  same_trie_db : ls_trie_store ls = trie_db;
  same_data_db : ls_protocol_data_store ls = data_db;
  same_root : ms_empty_root_hash ms = ls_empty_root_hash ls;
  same_environment : same_data (ms_environment ms) (ls_environment ls);
}.

(** Results of stateful requests. *)
Definition sim_eff {A} (x : outcome (StoreError InMemoryError) A * MS) (y : outcome (StoreError LE) A * LS) : Prop :=
  sim (fun a b => a = b /\ same_state x.2 y.2) x.1 y.1.

(** A transaction for reading sees what is in memory, or does not begin. *)
Lemma sim_read_txn {A} (R : A -> A -> Prop) data env (o : outcome (StoreError InMemoryError) A) (f : Txn -> outcome (StoreError LE) A) :
  same_data data env ->
  (forall t, same_store same_db (keeps_databases data) data t -> sim R o (f t)) ->
  sim R o (obind (omap_err SE_Transaction (begin_ro_txn env)) f).
Proof.
  intros Hs Hf. destruct (begin_ro_txn env) as [t|e|] eqn:Eb; cbn [omap_err obind]; [|done|].
  - apply Hf. split; [by intros a|]. apply Hs. by left.
  - by destruct (lmdb_begin_ro_safe env).
Qed.

(** Its end returns what was read, or fails. *)
Lemma sim_end_read {A} (R : A -> A -> Prop) (o : outcome (StoreError InMemoryError) A) (x : A) t :
  sim (E2 := LE) R o (Ok x) -> sim R o (let? _ := omap_err SE_Transaction (mdb_commit_ro t) in Ok x).
Proof.
  intros Ho. destruct (mdb_commit_ro t) as [[]|e|] eqn:Ec; cbn [omap_err obind]; [done|done|].
  by destruct (lmdb_commit_ro_safe t).
Qed.

Lemma same_db_trie : same_db trie_store trie_db.
Proof. by left. Qed.

Lemma same_db_data : same_db protocol_data_store data_db.
Proof. by right. Qed.

Lemma data_db_inj a b : same_db a b -> a = protocol_data_store <-> b = data_db.
Proof. intros H. apply (same_db_inj _ _ _ _ H). by right. Qed.

(** ** Reads *)

Lemma sim_view ms ls root key :
  same_state ms ls -> sim eq (view_read trie_store (ms_environment ms) root key) (ls_view_read ls root key).
Proof.
  intros [Et _ _ Hs]. unfold view_read, ls_view_read. rewrite Et. eapply sim_read_txn; [done|]. intros t Ht.
  eapply sim_bind; [exact (sim_read same_db _ trie_store trie_db same_db_trie key_codec stored_value_codec KEY_FUEL _ t root key Ht)|].
  intros r _ <-. destruct r as [v| |]; cbn [obind].
  - by apply sim_end_read, sim_ok.
  - by apply sim_end_read, sim_ok.
  - done.
Qed.

(** Views of the same state. *)
Definition same_view (r1 : Key -> outcome (StoreError InMemoryError) (option StoredValue))
    (r2 : Key -> outcome (StoreError LE) (option StoredValue)) : Prop := forall key, sim eq (r1 key) (r2 key).

Lemma sim_checkout ms ls root :
  same_state ms ls -> sim (option_Forall2 same_view) (sp_checkout root ms) (sp_checkout root ls).
Proof.
  intros Hst. pose proof Hst as [Et _ _ Hs]. cbn [sp_checkout in_memory_provider lmdb_provider]. unfold ms_checkout, checkout, ls_checkout. rewrite Et.
  destruct (begin_ro_txn (ls_environment ls)) as [t|e|] eqn:Eb; cbn [omap_err obind]; [|done | by destruct (lmdb_begin_ro_safe (ls_environment ls))].
  assert (same_store same_db (keeps_databases (ms_environment ms)) (ms_environment ms) t) as Ht.
  { split; [by intros a|]. apply Hs. by left. }
  pose proof (sim_trie_get same_db (keeps_databases (ms_environment ms)) trie_store trie_db
    same_db_trie key_codec stored_value_codec _ t root Ht) as Hg.
  unfold state_get. destruct (trie_store_get _ _ trie_db t root) as [r|[e|e]|]; unfold sim in Hg; cbv beta iota in Hg; [|by rewrite Hg | done | by rewrite Hg].
  destruct Hg as (r1 & -> & ->). cbn [obind]. destruct (mdb_commit_ro t) as [[]|e|] eqn:Ec; cbn [omap_err obind];
    [|done | by destruct (lmdb_commit_ro_safe t)].
  apply sim_ok. destruct r; constructor. intros key. by apply sim_view.
Qed.

Lemma sim_provider_read ms ls root key :
  same_state ms ls -> sim eq (provider_read root key ms) (provider_read root key ls).
Proof.
  intros Hst. unfold provider_read. eapply sim_bind; [by apply sim_checkout|]. intros o1 o2 Ho.
  destruct Ho as [r1 r2 Hv|]; [|by apply sim_ok]. eapply sim_bind; [apply Hv|]. intros v _ <-. by apply sim_ok.
Qed.

Lemma sim_get ms ls v :
  same_state ms ls -> sim eq (sp_get_protocol_data v ms) (sp_get_protocol_data v ls).
Proof.
  intros [_ Ed _ Hs]. cbn [sp_get_protocol_data in_memory_provider lmdb_provider]. unfold ms_get_protocol_data, ls_get_protocol_data. rewrite Ed.
  eapply sim_read_txn; [done|]. intros t Ht.
  pose proof (sim_store_get same_db (keeps_databases (ms_environment ms)) protocol_data_store data_db
    same_db_data protocol_version_codec protocol_data_codec _ t v Ht) as Hg.
  destruct (store_get _ _ data_db t v) as [r|[e|e]|]; unfold sim in Hg; cbv beta iota in Hg; [| by rewrite Hg | done | by rewrite Hg].
  destruct Hg as (r1 & -> & ->). cbn [obind]. by apply sim_end_read, sim_ok.
Qed.

(** ** Changes *)

Lemma sim_provider_commit ms ls root effects :
  same_state ms ls -> sim_eff (sp_commit root effects ms) (sp_commit root effects ls).
Proof.
  intros Hst. pose proof Hst as [Et Ed Er Hs]. cbn [sp_commit in_memory_provider lmdb_provider]. unfold ms_commit, ls_commit, sim_eff. rewrite Et.
  pose proof (sim_commit same_db keeps_databases same_data backends_source trie_store trie_db
    (ms_environment ms) (ls_environment ls) root (map_to_list effects) same_db_trie Hs) as Hc.
  destruct (commit trie_db _ _ _) as [[env r]|[e|e]|]; unfold sim in Hc; cbv beta iota in Hc; [| by rewrite Hc | done | by rewrite Hc].
  destruct Hc as ([data r1] & -> & Hd & E). cbn in Hd, E. subst. apply sim_ok. split; [done|]. by split.
Qed.

Lemma sim_put ms ls v d :
  same_state ms ls -> sim_eff (sp_put_protocol_data v d ms) (sp_put_protocol_data v d ls).
Proof.
  intros Hst. pose proof Hst as [Et Ed Er Hs]. cbn [sp_put_protocol_data in_memory_provider lmdb_provider]. unfold ms_put_protocol_data, ls_put_protocol_data, sim_eff. rewrite Ed.
  destruct (source_begin _ _ _ backends_source _ _ Hs) as (data & [= <-] & Hb). cbn in Hb.
  destruct (begin_rw_txn (ls_environment ls)) as [t|e|]; cbn [omap_err obind]; [|done|done].
  pose proof (sim_store_put same_db (keeps_databases (ms_environment ms)) protocol_data_store data_db data_db_inj
    (fun t k v t' => source_write _ _ _ backends_source (ms_environment ms) protocol_data_store k v t t')
    protocol_version_codec protocol_data_codec _ t v d Hb) as Hp.
  destruct (store_put _ _ data_db t v d) as [t'|[e|e]|]; unfold sim in Hp; cbv beta iota in Hp; cbn [obind]; [| by rewrite Hp | done | by rewrite Hp].
  destruct Hp as (view & -> & Hv). destruct (source_commit _ _ _ backends_source _ _ _ _ Hs Hv) as (data' & [= <-] & Hc).
  cbn in Hc. destruct (mdb_commit_rw (ls_environment ls) t') as [env|e|]; cbn [omap_err]; [|done|done].
  apply sim_ok. split; [done|]. by split.
Qed.
(** ** Requests *)

Lemma sim_ask ms ls r : same_state ms ls -> sim_eff (ask r ms) (ask r ls).
Proof.
  intros Hst. unfold sim_eff. destruct r as [root effects|root key|v d|v|]; cbn [ask]; unfold ebind, eret, outcome_map.
  - pose proof (sim_provider_commit ms ls root effects Hst) as Hc. unfold sim_eff in Hc.
    destruct (sp_commit root effects ls) as [[r|[e|e]|] ls'], (sp_commit root effects ms) as [o ms'];
      unfold sim in Hc; cbn in Hc; [destruct Hc as (? & -> & -> & ?); by apply sim_ok | by subst | done | by subst].
  - cbn [fst snd]. eapply sim_bind; [by apply sim_provider_read|]. intros x _ <-. by apply sim_ok.
  - pose proof (sim_put ms ls v d Hst) as Hc. unfold sim_eff in Hc.
    destruct (sp_put_protocol_data v d ls) as [[r|[e|e]|] ls'], (sp_put_protocol_data v d ms) as [o ms'];
      unfold sim in Hc; cbn in Hc; [destruct Hc as (? & -> & -> & ?); by apply sim_ok | by subst | done | by subst].
  - cbn [fst snd]. eapply sim_bind; [by apply sim_get|]. intros x _ <-. by apply sim_ok.
  - cbn. eexists. split; [done|]. split; [|done]. by rewrite (same_root ms ls Hst).
Qed.

Lemma sim_ask_all ms ls l : same_state ms ls -> sim eq (ask_all l ms).1 (ask_all l ls).1.
Proof.
  revert ms ls. induction l as [|r l IH]; intros ms ls Hst; cbn [ask_all]; [by apply sim_ok|]. unfold ebind at 1 3.
  pose proof (sim_ask ms ls r Hst) as Ha. unfold sim_eff in Ha.
  destruct (ask r ls) as [[a|[e|e]|] ls'], (ask r ms) as [o ms']; unfold sim in Ha; cbn in Ha;
    [destruct Ha as (? & -> & -> & Hst') | by subst | done | by subst].
  specialize (IH ms' ls' Hst'). unfold ebind, eret.
  destruct (ask_all l ls') as [[x|[e|e]|] ls2], (ask_all l ms') as [o2 ms2]; unfold sim in IH; cbn in IH;
    [destruct IH as (? & -> & ->); by apply sim_ok | by subst | done | by subst].
Qed.

(** ** The empty state *)

Definition fresh (env : Env) : Prop :=
  forall t k, opens env t -> lmdb_read t trie_db k = Ok None /\ lmdb_read t data_db k = Ok None.

Lemma fresh_same env : fresh env -> same_data in_memory_default env.
Proof.
  intros Hf t Ho a b k Hab. cbn. destruct (Hf t k Ho) as [Ht Hd].
  destruct Hab as [[-> ->]|[-> ->]]; rewrite ?Ht, ?Hd; by vm_compute.
Qed.

Lemma sim_empty env :
  fresh env -> sim same_state in_memory_state_empty (lmdb_state_empty env trie_db data_db).
Proof.
  intros Hf. unfold in_memory_state_empty, lmdb_state_empty, global_state_empty.
  destruct (create_hashed_empty_trie key_codec stored_value_codec) as [[h tr]|e|]; cbn [omap_err obind]; [|done|done].
  destruct (source_begin _ _ _ backends_source _ _ (fresh_same env Hf)) as (data & [= <-] & Hb). cbn in Hb.
  destruct (begin_rw_txn env) as [t|e|]; cbn [omap_err obind]; [|done|done].
  pose proof (sim_store_put same_db (keeps_databases in_memory_default) trie_store trie_db
    (fun a b H => same_db_inj a b _ _ H same_db_trie)
    (fun t k v t' => source_write _ _ _ backends_source in_memory_default trie_store k v t t')
    blake2b_hash_codec (trie_codec key_codec stored_value_codec) _ t h tr Hb) as Hp.
  unfold trie_store_put. destruct (store_put _ _ trie_db t h tr) as [t'|[e|e]|]; unfold sim in Hp; cbv beta iota in Hp;
    cbn [obind]; [| by rewrite Hp | done | by rewrite Hp].
  destruct Hp as (view & -> & Hv). cbn [obind].
  destruct (source_commit _ _ _ backends_source _ _ _ _ (fresh_same env Hf) Hv) as (data' & [= <-] & Hc).
  cbn in Hc. destruct (mdb_commit_rw env t') as [env'|e|]; cbn [omap_err obind]; [|done|done]. apply sim_ok. by split.
Qed.

(** C6: The state on disk is the state in memory: from two new databases, whatever
    is committed, read, and stored of protocol data, every answer, root hash and
    error of serialization is the one the in-memory state gives, as long as the
    database itself does not fail. *)
Theorem lmdb_indistinguishable env ls requests :
  fresh env -> lmdb_state_empty env trie_db data_db = Ok ls ->
  exists ms, in_memory_state_empty = Ok ms
    /\ match (ask_all requests ls).1 with
       | Ok answers => (ask_all requests ms).1 = Ok answers
       | Err (SE_BytesRepr e) => (ask_all requests ms).1 = Err (SE_BytesRepr e)
       | Err (SE_Transaction _) => True
       | Panic => (ask_all requests ms).1 = Panic
       end.
Proof.
  intros Hf E. pose proof (sim_empty env Hf) as He. rewrite E in He. destruct He as (ms & Em & Hst).
  exists ms. split; [done|]. pose proof (sim_ask_all ms ls requests Hst) as Ha. unfold sim in Ha.
  destruct (ask_all requests ls).1 as [x|[e|e]|]; [by destruct Ha as (? & ? & ->) | done | done | done].
Qed.
End backends.
