(* ===== verification/EngineSafety.v ===== *)
(** What the engine guarantees about deploys and upgrades: who may have an effect,
    that a payment covers what is run, and what a refused upgrade leaves behind.
    Sources: [engine-core/src/engine_state/mod.rs],
    [engine-core/src/execution/executor.rs]. *)

From stdpp Require Import gmap.
From S2P Require Import Prelude BTreeMap Bytesrepr Uint Types CLValues Account StoredValue Transform.
From S2P Require Import Trie GlobalState TrackingCopy Mint ApiError ProtocolData ExecutionError RuntimeContext.
From S2P Require Import ContextSafety ExtractURefs Runtime HostFunctions RuntimeSafety ExecutionResult.
From S2P Require Import TrackingCopyExt Executor Stakes PosContract EngineState.

(** * Authorization *)

(** Computations that end without effect or charge. *)
Create HintDb free.

Section deploys.
Context {L G Mem Module : Type} `{LinkedHashMapLaws L, Rng G} `{MeterLaws} {dbg : DebugText} {qtext : QueryText}.
Context {hasher : Hasher} {F : ForeignErrors} `{!Platform Mem Module, !WasmPrep Module} {alloc : Allocator}.
Context {S E : Type} `{!StateProvider S E} {text : StakeText}.
Context (into_error : E -> ExecError) (overflow_checks : bool).
Context (invoke_call : (Key -> outcome E (option StoredValue)) -> Module ->
  eff (Runtime L G Mem Module) InterpreterError unit).

#[local] Abbreviation Reader := (Key -> outcome E (option StoredValue)).
#[local] Abbreviation TC := (TrackingCopy L).
#[local] Abbreviation ST := (SystemContractCache Module * TC)%type.
#[local] Abbreviation D A := (eff ST ExecutionResult A).

(** ** Early results *)

(** A computation that ends early only with a failed precondition. *)
Definition ends_free {A} (m : D A) : Prop :=
  forall st r st', m st = (Err r, st') -> has_precondition_failure r = true.

Lemma precondition_failure_free e : has_precondition_failure (precondition_failure e) = true.
Proof. cbn. by rewrite !bool_decide_eq_true_2. Qed.

Lemma free_bind {A B} (m : D A) (f : A -> D B) : ends_free m -> (forall a, ends_free (f a)) -> ends_free (ebind m f).
Proof.
  intros Hm Hf st r st'. unfold ebind. destruct (m st) as [[a|e|] s1] eqn:Em; [apply Hf | | done].
  intros [= -> ->]. by apply (Hm st r st').
Qed.

Lemma free_ret {A} (a : A) : ends_free (eret a).
Proof. by intros st r st' [=]. Qed.

Lemma free_guard b e : ends_free (elift (oguard b (precondition_failure e))).
Proof.
  intros st r st'. unfold elift, oguard. destruct b; [|done]. intros [= <- _]. apply precondition_failure_free.
Qed.

Lemma free_or_precondition {Er A} (f : Er -> EngineError) (o : outcome Er A) :
  ends_free (or_precondition (L := L) (Module := Module) f o).
Proof.
  intros st r st'. unfold or_precondition, elift. destruct o; try done. intros [= <- _]. apply precondition_failure_free.
Qed.

Lemma free_on_tc {Er A} (f : Er -> EngineError) (m : eff TC Er A) : ends_free (on_tc (Module := Module) f m).
Proof.
  intros [cache tc] r st'. unfold on_tc. destruct (m tc) as [[a|e|] tc']; try done.
  intros [= <- _]. apply precondition_failure_free.
Qed.

Lemma free_cache uref contract : ends_free (cache_module (L := L) uref contract).
Proof.
  intros [cache tc] r st'. unfold cache_module. repeat case_match; try done.
  intros [= <- _]. apply precondition_failure_free.
Qed.

#[local] Hint Resolve free_ret free_guard free_or_precondition free_on_tc free_cache : free.

Ltac free_all :=
  repeat match goal with
  | |- forall _, _ => intro
  | |- ends_free (ebind _ _) => apply free_bind
  | |- ends_free _ => solve [auto with free]
  end.

Lemma checks_free (reader : Reader) costs v found item :
  ends_free (deploy_checks into_error reader costs v found item).
Proof. unfold deploy_checks, authorized_account, pos_purse_balance_key. free_all. Qed.

(** ** What the checks establish *)

Section reader.
Context (reader : Reader).

(** The state a lookup sees stays the same. *)
Definition same_sight (st st' : ST) : Prop :=
  tc_inv reader st.2 -> tc_inv reader st'.2 /\ same_view reader st.2 st'.2.

#[local] Instance same_sight_preorder : PreOrder same_sight.
Proof.
  split.
  - intros st Hi. split; [done|]. by intros k.
  - intros s1 s2 s3 H12 H23 Hi. destruct (H12 Hi) as [Hi2 Hv2]. destruct (H23 Hi2) as [Hi3 Hv3].
    split; [done|]. intros k. by rewrite Hv3, Hv2.
Qed.

Lemma sight_on_tc {A P} f (m : eff TC ExecError A) :
  looks_up reader m P -> preserves same_sight (on_tc (Module := Module) f m).
Proof.
  intros Hm [cache tc] o st'. unfold on_tc. destruct (m tc) as [o1 tc'] eqn:Em. intros [= _ <-] Hi.
  destruct (Hm tc o1 tc' Hi Em) as (? & ? & _). done.
Qed.

Lemma on_tc_found {A P} f (m : eff TC ExecError A) (st st' : ST) a :
  looks_up reader m P -> tc_inv reader st.2 -> on_tc f m st = (Ok a, st') -> P (tc_view reader st.2) a.
Proof.
  intros Hm Hi. destruct st as [cache tc]. unfold on_tc. destruct (m tc) as [o1 tc'] eqn:Em.
  destruct o1 as [b|e|]; try done. intros [= -> <-]. destruct (Hm tc (Ok a) tc' Hi Em) as (_ & _ & Hp).
  by apply Hp.
Qed.

Lemma sight_module item account costs v :
  preserves same_sight (on_tc (fun e => e) (get_module into_error reader item account costs v)).
Proof.
  intros [cache tc] o st'. unfold on_tc, get_module, ebind, elift, emap_err.
  destruct (stored_contract_key item account costs) as [[module|key]|e|]; try (by intros [= _ <-]).
  destruct (get_contract reader into_error key tc) as [o1 tc1] eqn:Ec. intros Hr Hi.
  destruct (get_contract_spec reader into_error key tc o1 tc1 Hi Ec) as (Hi1 & Hv1 & _).
  destruct o1 as [c|e|]; cbn in Hr; [destruct (negb _)| |]; by injection Hr as _ <-.
Qed.

Lemma sight_cache uref contract : preserves same_sight (cache_module (L := L) uref contract).
Proof. intros [cache tc] o st'. unfold cache_module. repeat case_match; intros [= _ <-]; by intros Hi. Qed.

Lemma sight_or {Er A} (f : Er -> EngineError) (o : outcome Er A) :
  preserves same_sight (or_precondition (L := L) (Module := Module) f o).
Proof. apply preserves_lift. typeclasses eauto. Qed.

Lemma sight_key mint contract name :
  preserves same_sight (pos_purse_balance_key (Module := Module) into_error reader mint contract name).
Proof.
  apply preserves_bind; [typeclasses eauto | apply sight_or | intros key]. eapply sight_on_tc, get_purse_balance_key_spec.
Qed.

(** One step of a run that sees the state [w]. *)
Lemma sight_step {A B} (m : D A) (f : A -> D B) (st : ST) b st' w :
  preserves same_sight m -> tc_inv reader st.2 -> (forall k, tc_view reader st.2 k = w k) ->
  ebind m f st = (Ok b, st') ->
  exists a st1, m st = (Ok a, st1) /\ f a st1 = (Ok b, st') /\ tc_inv reader st1.2
    /\ forall k, tc_view reader st1.2 k = w k.
Proof.
  intros Hm Hi Hw Hr. apply ebind_ok in Hr as (a & st1 & Ha & Hr).
  destruct (Hm st (Ok a) st1 Ha Hi) as [Hi1 Hv]. exists a, st1. split_and!; try done. intros k. by rewrite Hv.
Qed.

(** The lookups depend on the state they see only. *)
Lemma value_at_sight {A} (T : CLTyped A) key (w w' : Reader) a :
  (forall k, w k = w' k) -> value_at T key w a -> value_at T key w' a.
Proof. intros Hw (cl & Hc & Ha). exists cl. by rewrite <- Hw. Qed.

Lemma balance_key_at_sight mint purse (w w' : Reader) bk :
  (forall k, w k = w' k) -> balance_key_at mint purse w bk -> balance_key_at mint purse w' bk.
Proof. intros Hw (u & bs & Hu & Hb & Hv). exists u, bs. split_and!; try done. by apply (value_at_sight _ _ w). Qed.

(** The account of a deploy may deploy with the given keys, and its main purse
    holds at least the largest payment. *)
Definition entitled_to_deploy (pd : outcome E (option ProtocolData)) (item : DeployItem) (account : Account) : Prop :=
  account_at (di_address item) reader account
  /\ can_authorize account (di_authorization_keys item) = true
  /\ can_deploy_with account (di_authorization_keys item) = true
  /\ exists data bk balance, pd = Ok (Some data)
     /\ balance_key_at (pd_mint data) (Key_URef (account_purse_id account)) reader bk
     /\ value_at clt_u512 bk reader balance /\ MAX_PAYMENT <= balance.

Ltac step_with H lem a st Ha :=
  eapply sight_step in H as (a & st & Ha & H & ? & ?); [|lem|eassumption|eassumption].

Lemma guard_step {B} b r (f : unit -> D B) (st : ST) x st' :
  ebind (elift (oguard b r)) f st = (Ok x, st') -> b = false /\ f tt st = (Ok x, st').
Proof. destruct b; [by intros [=]|]. by intros Hr. Qed.

Lemma authorized_account_spec addr keys (st st' : ST) account w :
  tc_inv reader st.2 -> (forall k, tc_view reader st.2 k = w k) ->
  authorized_account into_error reader addr keys st = (Ok account, st') ->
  tc_inv reader st'.2 /\ (forall k, tc_view reader st'.2 k = w k) /\ account_at addr w account
  /\ can_authorize account keys = true /\ can_deploy_with account keys = true.
Proof.
  intros Hi Hw Hr. unfold authorized_account in Hr.
  step_with Hr ltac:(eapply sight_on_tc, get_account_spec) a st1 Ha.
  apply (on_tc_found _ _ _ _ _ (get_account_spec reader into_error addr)) in Ha; [|done].
  apply guard_step in Hr as [Hk Hr]. apply guard_step in Hr as [Hd Hr]. injection Hr as <- <-.
  unfold account_at in *. rewrite Hw in Ha. breflect. done.
Qed.

Lemma checks_spec costs v found item (st st' : ST) d :
  tc_inv reader st.2 -> (forall k, tc_view reader st.2 k = reader k) ->
  deploy_checks into_error reader costs v found item st = (Ok d, st') -> entitled_to_deploy found item (dd_account d).
Proof.
  intros Hi Hw Hr. unfold deploy_checks in Hr. apply ebind_ok in Hr as (account & st1 & Ha & Hr).
  destruct (authorized_account_spec _ _ _ _ _ reader Hi Hw Ha) as (Hi1 & Hw1 & Hat & Hk & Hd). clear Ha Hi Hw.
  step_with Hr ltac:(apply sight_module) module st2 Hm.
  step_with Hr ltac:(apply sight_or) mpd st3 Hpd.
  step_with Hr ltac:(apply sight_or) data st4 Hdata.
  step_with Hr ltac:(eapply sight_on_tc, get_contract_spec) mintc st5 Hmint.
  step_with Hr ltac:(apply sight_cache) u st6 Hu.
  step_with Hr ltac:(eapply sight_on_tc, get_contract_spec) posc st7 Hpos.
  step_with Hr ltac:(apply sight_key) rk st8 Hrk.
  step_with Hr ltac:(eapply sight_on_tc, get_purse_balance_key_spec) bk st9 Hbk.
  apply (on_tc_found _ _ _ _ _ (get_purse_balance_key_spec reader into_error _ _)) in Hbk; [|done].
  step_with Hr ltac:(eapply sight_on_tc, get_purse_balance_spec) main st10 Hbal.
  apply (on_tc_found _ _ _ _ _ (get_purse_balance_spec reader _)) in Hbal; [|done].
  apply guard_step in Hr as [Hmin Hr]. injection Hr as <- _. cbn [dd_account].
  split_and!; try done. breflect. exists data, bk, main. split_and!; [| | |done].
  - unfold or_precondition, elift in Hpd, Hdata. destruct found as [o|e|]; try done. injection Hpd as <- <-.
    destruct o; [|done]. cbn in Hdata. injection Hdata as <- <-. reflexivity.
  - revert Hbk. by apply balance_key_at_sight.
  - revert Hbal. by apply value_at_sight.
Qed.
End reader.

(** C8: who can deploy. Executing a deploy never changes the stored states, and
    it returns no effect and no charge, only a failed precondition, unless its
    account is stored in the state it runs on, all its keys are keys of that
    account and weigh enough to deploy, the protocol is known, and the account's
    main purse holds at least the largest payment. *)
Theorem deploy_authorized costs v hash blocktime item self r self' :
  deploy into_error invoke_call costs v hash blocktime item self = (Ok r, self') ->
  es_state self' = es_state self
  /\ (has_precondition_failure r = true
      \/ exists reader account, sp_checkout hash (es_state self) = Ok (Some reader)
           /\ entitled_to_deploy reader (sp_get_protocol_data v (es_state self)) item account).
Proof.
  unfold deploy, tracking_copy. destruct (sp_checkout hash (es_state self)) as [[reader|]|e|] eqn:Ec; cbn; try done.
  2: { intros [= <- <-]. split; [done|left]. apply precondition_failure_free. }
  destruct (deploy_on into_error invoke_call reader costs v _ _ _ _) as [o [cache tc]] eqn:Ed.
  intros [= Ho <-]. split; [done|]. unfold deploy_on, ebind at 1 in Ed.
  destruct (deploy_checks _ _ _ _ _ _ _) as [[d|e|] st1] eqn:Eck.
  - right. exists reader, (dd_account d). split; [done|].
    eapply checks_spec; [| |exact Eck]; [apply tracking_copy_new_inv | done].
  - left. injection Ed as <- ->. injection Ho as <-. eapply checks_free, Eck.
  - injection Ed as <- _. done.
Qed.

(** * What is run is paid for *)

Section costs.
Context {W : WasmValues} {WL : WasmValuesLaws} {mtext : MismatchText} {layout : Layout}.

(** A run of a module is a sequence of computations and host calls. *)
Definition sandboxed : Prop :=
  forall reader module rt o rt', invoke_call reader module rt = (o, rt') ->
    rtc (host_step reader into_error overflow_checks (invoke_call reader)) rt rt'.

(** The arguments are not an encoded list. *)
Definition args_refused (args : bytes) : Prop :=
  forall arguments, read_args vec_vec_u8_codec args <> Ok arguments.

Lemma exec_cost {Er} reader module args base_key account keys blocktime deploy_hash limit v phase pd cache tc r tc' :
  sandboxed -> 0 <= limit ->
  exec (Er := Er) invoke_call reader module args base_key account keys blocktime deploy_hash limit v phase pd cache tc
    = (Ok r, tc') ->
  0 <= result_cost r /\ (result_cost r <= limit \/ (args_refused args /\ result_cost r = zlen args)).
Proof.
  intros Hs Hl. unfold exec. destruct (instance_and_memory module v) as [memory|e|]; try done.
  2: { intros [= <- _]. cbn. lia. }
  destruct (read_args _ args) as [arguments|e|] eqn:Ea; try done.
  2: { intros [= <- _]. cbn. pose proof (zlen_nonneg args). split; [done|right]. split; [|done].
       intros arguments. by rewrite Ea. }
  destruct (invoke_call reader module _) as [o rt'] eqn:Ei. apply Hs, run_metered in Ei as [_ _ _ Hg Hb].
  unfold gas_used, gas_bound in Hg, Hb. cbn in Hg, Hb. specialize (Hb Hl).
  destruct o; intros [= <- _]; cbn; lia.
Qed.

(** C13: what is run is paid for. When a payment is accepted, its own cost can be
    taken from what was paid, and the rest limits the session: together they cost
    no more than the payment purse holds. The exception is a session whose
    arguments do not decode, which is charged its length whatever was paid. *)
Theorem session_affordable payment balance fork v blocktime item d cache :
  sandboxed -> check_forced_transfer payment balance = None -> 0 <= result_cost payment -> is_unsigned 512 balance ->
  (exists limit, gas_sub (E := ExecutionResult) (gas_or_default balance) (result_cost payment) = Ok limit)
  /\ forall r tc, run_session invoke_call fork v blocktime item d (result_cost payment) balance cache = Ok (r, tc) ->
     (result_cost payment + result_cost r) * CONV_RATE <= balance
     \/ (args_refused (take_args (di_session item)) /\ result_cost r = zlen (take_args (di_session item))).
Proof.
  intros Hs Hf Hp Hb. unfold check_forced_transfer, motes_from_gas, checked_mul in Hf.
  assert (result_cost payment * CONV_RATE <= balance) as Hle.
  { destruct (_ <? 2 ^ 512); [|done]. destruct payment; [done|]. cbn in *.
    destruct (Z.ltb_spec balance (cost * CONV_RATE)); [done|lia]. }
  assert (gas_or_default balance = balance / CONV_RATE) as Hd by done.
  assert (result_cost payment <= balance / CONV_RATE) as Hq
    by (apply Z.div_le_lower_bound; unfold CONV_RATE in *; lia).
  assert (gas_sub (E := ExecutionResult) (gas_or_default balance) (result_cost payment)
    = Ok (balance / CONV_RATE - result_cost payment)) as Hg.
  { unfold gas_sub, uint_sub. rewrite Hd. by rewrite (proj2 (Z.leb_le _ _) Hq). }
  split; [by eexists|]. intros r tc. unfold run_session. rewrite Hg. cbn [obind].
  destruct (exec _ _ _ _ _ _ _ _ _ _ _ _ _ _ _) as [o stc] eqn:Ex. destruct o as [r'|e|]; try done.
  intros [= <- _]. apply exec_cost in Ex as [_ [Hr|Hr]]; [left|by right|done|lia].
  pose proof (Z.mul_div_le balance CONV_RATE). unfold CONV_RATE in *. lia.
Qed.
End costs.
End deploys.

(** * Upgrades *)

Section upgrades.
Context {L G Mem Module : Type} `{LinkedHashMap L, Rng G} {meter : Meter} {dbg : DebugText} {qtext : QueryText}.
Context {hasher : Hasher} {F : ForeignErrors} `{!Platform Mem Module, !WasmPrep Module} {alloc : Allocator}.
Context {S E : Type} `{StateProviderLaws S E}.
Context (into_error : E -> ExecError) (overflow_checks : bool).
Context (invoke_call : (Key -> outcome E (option StoredValue)) -> Module ->
  eff (Runtime L G Mem Module) InterpreterError unit).

(** The protocol data an upgrade stores: the costs it brings, if any. *)
Definition upgraded (uc : UpgradeConfig) (current : ProtocolData) : ProtocolData :=
  mk_protocol_data (default (pd_wasm_costs current) (uc_wasm_costs uc)) (pd_mint current) (pd_proof_of_stake current).

(** C36: upgrades without an installer. A version that does not follow the current
    one is refused with nothing changed. Otherwise the protocol data of the new
    version is stored first, that of other versions staying as it was; then a
    version for which an installer is required is refused, but what was stored
    stays and the engine runs deploys of the refused version; for any other
    version the state is committed with no effects. *)
Theorem upgrade_without_installer uc self reader current check s1 :
  uc_upgrade_installer_bytes uc = None ->
  sp_checkout (uc_pre_state_hash uc) (es_state self) = Ok (Some reader) ->
  sp_get_protocol_data (uc_current_protocol_version uc) (es_state self) = Ok (Some current) ->
  check_next_version overflow_checks (uc_current_protocol_version uc) (uc_new_protocol_version uc) = Ok check ->
  sp_put_protocol_data (uc_new_protocol_version uc) (upgraded uc current) (es_state self) = (Ok tt, s1) ->
  semver_valid (uc_new_protocol_version uc) -> protocol_data_valid (upgraded uc current) ->
  let stored := mk_engine_state (es_cache self) s1 in
  (forall v, semver_valid v ->
     get_protocol_data into_error v stored
     = if bool_decide (v = uc_new_protocol_version uc) then Ok (Some (upgraded uc current))
       else get_protocol_data into_error v self)
  /\ commit_upgrade into_error overflow_checks invoke_call uc self
     = match check with
       | Invalid => (Err (ES_InvalidProtocolVersion (uc_new_protocol_version uc)), self)
       | CodeIsRequired => (Err ES_InvalidUpgradeConfig, stored)
       | CodeIsOptional =>
           let '(o, s2) := sp_commit (uc_pre_state_hash uc) ∅ s1 in
           ((let? r := omap_err (fun e => ES_ExecError (into_error e)) o in
             Ok (upgrade_from_commit_result r effect_default)), mk_engine_state (es_cache self) s2)
       end.
Proof.
  intros Hi Hc Hg Hn Hp Hv Hd stored. split.
  - intros v Hv'. unfold get_protocol_data, stored. cbn. case_bool_decide as Heq.
    + subst v. by rewrite (sp_put_get _ _ _ _ Hv Hd Hp).
    + by rewrite (sp_put_other _ _ _ _ _ v Hv Hv' Heq Hp).
  - unfold commit_upgrade, tracking_copy, ebind, elift. rewrite Hc. cbn. rewrite Hg. cbn. rewrite Hn. cbn.
    destruct check; cbn; [| |done]; unfold on_provider; fold (upgraded uc current).
    all: replace (mk_protocol_data _ _ _) with (upgraded uc current) by (unfold upgraded; by destruct (uc_wasm_costs uc)).
    all: rewrite Hp, Hi; cbn.
    { reflexivity. }
    destruct (sp_commit (uc_pre_state_hash uc) ∅ s1) as [[r|e|] s2]; reflexivity.
Qed.
End upgrades.
