(* ===== verification/ContractApi.v ===== *)
(** The interface contracts are written against: values are serialized into the
    linear memory of the contract and handed to the host functions as pointers,
    and answers are read back.  Sources: [contract/src/contract_api/mod.rs],
    [runtime.rs], [storage.rs], [system.rs], [account.rs] and [turef.rs] beside
    it, [contract/src/unwrap_or_revert.rs], [contract/src/ext_ffi.rs]. *)

From stdpp Require Import gmap.
From S2P Require Import Prelude BTreeMap Bytesrepr Uint Types CLValues Account StoredValue Transform.
From S2P Require Import Trie TrackingCopy ApiError ProtocolData ExecutionError RuntimeContext.
From S2P Require Import ExtractURefs Runtime HostFunctions.

(** * The machine under a contract *)

(** The result of a host function as the contract gets it. *)
Class WasmResults {F : ForeignErrors} {W : WasmValues} := rv_into_i32 : RuntimeValue -> option Z.

(** Space in the linear memory: for the global allocator, and for a local variable
    whose address is taken.  There is none when the memory is full. *)
Class Heap (Mem : Type) := heap_alloc : Z -> Mem -> option (Z * Mem).

(** The host functions, by index, as the module imports them. *)
Class Imports (L G Mem Module : Type) {F : ForeignErrors} {W : WasmValues} :=
  host_import : nat -> list RuntimeValue -> eff (Runtime L G Mem Module) InterpreterError (option RuntimeValue).

(** The functions declared in [ext_ffi.rs]: the name, the number of parameters and
    whether there is a result. *)
Definition ext_ffi_table : list (bytes * (nat * bool)) :=
  [(str "read_value", (3%nat, true)); (str "read_value_local", (3%nat, true)); (str "write", (4%nat, false));
   (str "write_local", (4%nat, false)); (str "add", (4%nat, false)); (str "add_local", (4%nat, false));
   (str "new_uref", (3%nat, false)); (str "store_function", (5%nat, false));
   (str "store_function_at_hash", (5%nat, false)); (str "load_named_keys", (2%nat, true));
   (str "get_arg", (3%nat, true)); (str "get_arg_size", (2%nat, true)); (str "ret", (2%nat, false));
   (str "call_contract", (5%nat, true)); (str "get_key", (5%nat, true)); (str "has_key", (2%nat, true));
   (str "put_key", (4%nat, false)); (str "remove_key", (2%nat, false)); (str "revert", (1%nat, false));
   (str "is_valid_uref", (2%nat, true)); (str "add_associated_key", (2%nat, true));
   (str "remove_associated_key", (1%nat, true)); (str "update_associated_key", (2%nat, true));
   (str "set_action_threshold", (2%nat, true)); (str "get_caller", (1%nat, false));
   (str "get_blocktime", (1%nat, false)); (str "create_purse", (2%nat, true));
   (str "transfer_to_account", (4%nat, true)); (str "transfer_from_purse_to_account", (6%nat, true));
   (str "transfer_from_purse_to_purse", (6%nat, true)); (str "get_balance", (3%nat, true));
   (str "get_phase", (1%nat, false)); (str "upgrade_contract_at_uref", (4%nat, true));
   (str "get_system_contract", (3%nat, true)); (str "get_main_purse", (1%nat, false));
   (str "read_host_buffer", (3%nat, true))].

(** Every declared function is exported with this signature. *)
Lemma ext_ffi_linked name n b :
  In (name, (n, b)) ext_ffi_table -> exists f, In (name, (mk_signature n b, f)) resolve_table.
Proof.
  intros Hin. unfold ext_ffi_table in Hin. repeat (destruct Hin as [[= <- <- <-]|Hin]; [|]); [..|destruct Hin];
    eexists; unfold resolve_table; repeat first [left; reflexivity | right].
Qed.

(** [CLTyped] for [PurseId], and [Key::as_uref]. *)
Definition clt_purse_id : CLTyped PurseId := mk_cl_typed CL_URef purse_id_codec.

Definition as_uref (k : Key) : option URef := match k with Key_URef u => Some u | _ => None end.

Section machine.
Context {L G Mem Module : Type} {F : ForeignErrors} `{!Platform Mem Module} {W : WasmValues} {WR : WasmResults}.
Context {heap : Heap Mem} {imports : Imports L G Mem Module}.

#[local] Abbreviation RT := (Runtime L G Mem Module).
#[local] Abbreviation T A := (eff RT InterpreterError A).

(** A panic of the contract: the handler aborts, which is the instruction
    [unreachable]. *)
Definition abort {A} : T A := elift (Err IE_Unreachable).

(** A call of a host function with 32-bit arguments; a function without a result
    gives no value. *)
Definition ext_ffi (f : FunctionIndex) (args : list Z) : T Z :=
  let! r := host_import (function_index_into f) (map (fun z => rv_I32 (wrap_signed 32 z)) args) in
  eret (match r with
        | Some v => match rv_into_i32 v with Some z => z | None => 0 end
        | None => 0
        end).

(** Loads and stores of the contract in its memory. *)
Definition load (ptr n : Z) : T bytes :=
  if n =? 0 then eret [] else fun rt => (omap_err IE_Other (mem_get ptr n (rt_memory rt)), rt).

Definition store (ptr : Z) (bs : bytes) : T unit :=
  fun rt =>
    match mem_set ptr bs (rt_memory rt) with
    | Ok m => (Ok tt, set_memory m rt)
    | Err e => (Err (IE_Other e), rt)
    | Panic => (Panic, rt)
    end.

Definition load_u32 (ptr : Z) : T Z := let! bs := load ptr 4 in eret (from_le_bytes bs).

Definition allocate (n : Z) : eff RT InterpreterError (option Z) :=
  fun rt =>
    match heap_alloc n (rt_memory rt) with
    | Some (p, m) => (Ok (Some p), set_memory m rt)
    | None => (Ok None, rt)
    end.

(** Space the compiled code asks for itself; failing to get it aborts. *)
Definition place (bs : bytes) : T Z :=
  let! p := allocate (zlen bs) in
  match p with
  | Some p => let! _ := store p bs in eret p
  | None => abort
  end.

(** A vector with these bytes: its pointer, which does not point anywhere when it
    is empty. *)
Definition vec_ptr (bs : bytes) : T Z := match bs with [] => eret 1 | _ => place bs end.

(** A local variable of [n] zero bytes. *)
Definition local_variable (n : nat) : T Z := place (replicate n x00).

(** [runtime::revert]. *)
Definition revert {A} (error : ApiError) : T A :=
  let! _ := ext_ffi RevertFuncIndex [api_error_to_u32 error] in abort.

(** [UnwrapOrRevert] for results and options. *)
Definition unwrap_or_revert {A E} (into : E -> ApiError) (r : A + E) : T A :=
  match r with inl a => eret a | inr e => revert (into e) end.

Definition unwrap_or_revert_with {A E} (error : ApiError) (r : A + E) : T A :=
  match r with inl a => eret a | inr _ => revert error end.

Definition option_or_revert_with {A} (error : ApiError) (o : option A) : T A :=
  match o with Some a => eret a | None => revert error end.

Definition option_or_revert {A} (o : option A) : T A := option_or_revert_with Api_None o.

(** The result of pure code as a value; a panic aborts. *)
Definition result_of {A E} (o : outcome E A) : T (A + E) :=
  match o with Ok a => eret (inl a) | Err e => eret (inr e) | Panic => abort end.

(** Arithmetic that panics aborts. *)
Definition checked {A} (o : outcome InterpreterError A) : T A := match o with Panic => abort | _ => elift o end.

(** [outcome.unwrap_or_revert()]. *)
Definition outcome_or_revert {A E} (into : E -> ApiError) (o : outcome E A) : T A :=
  let! r := result_of o in unwrap_or_revert into r.

(** * [contract_api/mod.rs] *)

Definition alloc_bytes (n : Z) : T Z :=
  if n =? 0 then eret 0
  else
    let! p := allocate n in
    option_or_revert_with Api_OutOfMemoryError p.

(** The pointer and the size; the bytes are kept alive by the caller. *)
Definition to_ptr {A} (c : Codec A) (t : A) : T (Z * Z) :=
  let! bs := outcome_or_revert api_from_bytesrepr (to_bytes c t) in
  let! ptr := vec_ptr bs in
  eret (ptr, zlen bs).

(** [bytesrepr::deserialize(Vec::from_raw_parts(ptr, n, n)).unwrap_or_revert()]. *)
Definition value_at {A} (c : Codec A) (ptr n : Z) : T A :=
  let! bs := load ptr n in outcome_or_revert api_from_bytesrepr (deserialize c bs).

(** [CLValue::from_t(value).unwrap_or_revert()]. *)
Definition cl_value_of {A} (t : CLTyped A) (a : A) : T CLValue := outcome_or_revert api_from_cl_value (from_t t a).
End machine.

(** * [contract_api/turef.rs] *)

Module turef.
Record TURef := mk_turef { turef_addr : bytes; turef_access_rights : AccessRights }.

Inductive TURefError := NoAccessRights | NotURef.

Definition from_uref (u : URef) : TURef + TURefError :=
  match uref_access_rights u with
  | Some access_rights => inl (mk_turef (uref_addr u) access_rights)
  | None => inr NoAccessRights
  end.

Definition set_access_rights (access_rights : AccessRights) (t : TURef) : TURef :=
  mk_turef (turef_addr t) access_rights.

Definition into_uref (t : TURef) : URef := uref_new (turef_addr t) (turef_access_rights t).

Definition try_from_key (k : Key) : TURef + TURefError :=
  match k with Key_URef u => from_uref u | _ => inr NotURef end.

Definition into_key (t : TURef) : Key := Key_URef (uref_new (turef_addr t) (turef_access_rights t)).

Definition api_from_turef (e : TURefError) : ApiError :=
  match e with NoAccessRights => Api_NoAccessRights | NotURef => Api_UnexpectedKeyVariant end.
End turef.

(** * [contract_api/runtime.rs] *)

Module runtime.
Section runtime.
Context {L G Mem Module : Type} {F : ForeignErrors} `{!Platform Mem Module} {W : WasmValues} {WR : WasmResults}.
Context {heap : Heap Mem} {imports : Imports L G Mem Module} {alloc : Allocator}.

#[local] Abbreviation T A := (eff (Runtime L G Mem Module) InterpreterError A).

Definition ret {A} (value : CLValue) : T A :=
  let! '(ptr, size) := to_ptr cl_value_codec value in
  let! _ := ext_ffi RetFuncIndex [ptr; size] in
  abort.

(** The number of bytes written is read and dropped by the callers. *)
Definition read_host_buffer_into (ptr len : Z) : T (unit + ApiError) :=
  let! bytes_written := local_variable 4 in
  let! code := ext_ffi ReadHostBufferIndex [ptr; len; bytes_written] in
  eret (result_from code).

Definition read_host_buffer (size : Z) : T (bytes + ApiError) :=
  let! bytes_ptr := alloc_bytes size in
  let! r := read_host_buffer_into bytes_ptr size in
  match r with
  | inl _ => let! bs := load bytes_ptr size in eret (inl bs)
  | inr e => eret (inr e)
  end.

Definition vec_cl_value_codec : Codec (list CLValue) := mk_codec vec_cl_value_to_bytes vec_cl_value_from_bytes.

Definition call_contract {A} (c_ptr : ContractRef) (args : list (outcome CLValueError CLValue)) (c : Codec A) : T A :=
  let contract_key := key_from_contract_ref c_ptr in
  let! '(key_ptr, key_size) := to_ptr key_codec contract_key in
  let! values := outcome_or_revert api_from_cl_value (try_collect id args) in
  let! '(args_ptr, args_size) := to_ptr vec_cl_value_codec values in
  let! bytes_written_ptr := local_variable 4 in
  let! code := ext_ffi CallContractFuncIndex [key_ptr; key_size; args_ptr; args_size; bytes_written_ptr] in
  let! _ := unwrap_or_revert id (result_from code) in
  let! bytes_written := load_u32 bytes_written_ptr in
  let! bytes_ptr := alloc_bytes bytes_written in
  let! r := read_host_buffer_into bytes_ptr bytes_written in
  let! _ := unwrap_or_revert id r in
  value_at c bytes_ptr bytes_written.

Definition upgrade_contract_at_uref (name : bytes) (uref : URef) : T unit :=
  let! '(name_ptr, name_size) := to_ptr string_codec name in
  let! '(key_ptr, key_size) := to_ptr key_codec (Key_URef uref) in
  let! code := ext_ffi UpgradeContractAtURefIndex [name_ptr; name_size; key_ptr; key_size] in
  match result_from code with inl _ => eret tt | inr error => revert error end.

Definition get_arg_size (i : Z) : T (option Z) :=
  let! arg_size := local_variable 4 in
  let! code := ext_ffi GetArgSizeFuncIndex [i; arg_size] in
  match result_from code with
  | inl _ => let! n := load_u32 arg_size in eret (Some n)
  | inr Api_MissingArgument => eret None
  | inr e => revert e
  end.

Definition get_arg {A} (c : Codec A) (i : Z) : T (option (A + Error)) :=
  let! size := get_arg_size i in
  match size with
  | None => eret None
  | Some arg_size =>
      let! data_ptr := alloc_bytes arg_size in
      let! code := ext_ffi GetArgFuncIndex [i; data_ptr; arg_size] in
      let! _ := unwrap_or_revert id (result_from code) in
      let! data := load data_ptr arg_size in
      let! r := result_of (deserialize c data) in
      eret (Some r)
  end.

Definition get_caller : T PublicKey :=
  let! dest_ptr := alloc_bytes PUBLIC_KEY_SERIALIZED_LENGTH in
  let! _ := ext_ffi GetCallerIndex [dest_ptr] in
  value_at public_key_codec dest_ptr PUBLIC_KEY_SERIALIZED_LENGTH.

Definition BLOCKTIME_SERIALIZED_LENGTH : Z := U64_SERIALIZED_LENGTH.

Definition get_blocktime : T BlockTime :=
  let! dest_ptr := alloc_bytes BLOCKTIME_SERIALIZED_LENGTH in
  let! _ := ext_ffi GetBlocktimeIndex [dest_ptr] in
  value_at blocktime_codec dest_ptr BLOCKTIME_SERIALIZED_LENGTH.

Definition PHASE_SERIALIZED_LENGTH : Z := 1.

Definition get_phase : T Phase :=
  let! dest_ptr := alloc_bytes PHASE_SERIALIZED_LENGTH in
  let! _ := ext_ffi GetPhaseIndex [dest_ptr] in
  value_at phase_codec dest_ptr PHASE_SERIALIZED_LENGTH.

Definition get_key (name : bytes) : T (option Key) :=
  let! '(name_ptr, name_size) := to_ptr string_codec name in
  let! key_bytes := local_variable (Z.to_nat key_serialized_size_hint) in
  let! total_bytes_ptr := local_variable 4 in
  let! code := ext_ffi GetKeyFuncIndex [name_ptr; name_size; key_bytes; key_serialized_size_hint; total_bytes_ptr] in
  match result_from code with
  | inr Api_MissingKey => eret None
  | inr e => revert e
  | inl _ =>
      let! total_bytes := load_u32 total_bytes_ptr in
      let! bs := load key_bytes key_serialized_size_hint in
      let! key := outcome_or_revert api_from_bytesrepr (deserialize key_codec (take (Z.to_nat total_bytes) bs)) in
      eret (Some key)
  end.

Definition has_key (name : bytes) : T bool :=
  let! '(name_ptr, name_size) := to_ptr string_codec name in
  let! result := ext_ffi HasKeyFuncIndex [name_ptr; name_size] in
  eret (result =? 0).

Definition put_key (name : bytes) (key : Key) : T unit :=
  let! '(name_ptr, name_size) := to_ptr string_codec name in
  let! '(key_ptr, key_size) := to_ptr key_codec key in
  let! _ := ext_ffi PutKeyFuncIndex [name_ptr; name_size; key_ptr; key_size] in
  eret tt.

Definition remove_key (name : bytes) : T unit :=
  let! '(name_ptr, name_size) := to_ptr string_codec name in
  let! _ := ext_ffi RemoveKeyFuncIndex [name_ptr; name_size] in
  eret tt.

Definition list_named_keys : T (BTreeMap bytes Key) :=
  let! total_keys_ptr := local_variable 4 in
  let! result_size_ptr := local_variable 4 in
  let! code := ext_ffi LoadNamedKeysFuncIndex [total_keys_ptr; result_size_ptr] in
  let! _ := unwrap_or_revert id (result_from code) in
  let! total_keys := load_u32 total_keys_ptr in
  let! result_size := load_u32 result_size_ptr in
  if total_keys =? 0 then eret bt_empty
  else
    let! r := read_host_buffer result_size in
    let! bs := unwrap_or_revert id r in
    outcome_or_revert api_from_bytesrepr (deserialize named_keys_codec bs).

Definition is_valid_uref (uref : URef) : T bool :=
  let! '(uref_ptr, uref_size) := to_ptr uref_codec uref in
  let! result := ext_ffi IsValidURefFnIndex [uref_ptr; uref_size] in
  eret (negb (result =? 0)).
End runtime.
End runtime.

(** * [contract_api/storage.rs] *)

Module storage.
Section storage.
Context {L G Mem Module : Type} {F : ForeignErrors} `{!Platform Mem Module} {W : WasmValues} {WR : WasmResults}.
Context {heap : Heap Mem} {imports : Imports L G Mem Module} {alloc : Allocator}.

#[local] Abbreviation T A := (eff (Runtime L G Mem Module) InterpreterError A).

(** The value in the host buffer, when the host has found one. *)
Definition fetch_value {A} (c : Codec A) (code value_size_ptr : Z) : T (option A + Error) :=
  match result_from code with
  | inr Api_ValueNotFound => eret (inl None)
  | inr e => revert e
  | inl _ =>
      let! value_size := load_u32 value_size_ptr in
      let! r := runtime.read_host_buffer value_size in
      let! value_bytes := unwrap_or_revert id r in
      let! v := result_of (deserialize c value_bytes) in
      eret (match v with inl a => inl (Some a) | inr e => inr e end)
  end.

Definition read {A} (c : Codec A) (t : turef.TURef) : T (option A + Error) :=
  let! '(key_ptr, key_size) := to_ptr key_codec (turef.into_key t) in
  let! value_size_ptr := local_variable 4 in
  let! code := ext_ffi ReadFuncIndex [key_ptr; key_size; value_size_ptr] in
  fetch_value c code value_size_ptr.

Definition read_local {K A} (ck : Codec K) (c : Codec A) (key : K) : T (option A + Error) :=
  let! encoded := result_of (to_bytes ck key) in
  match encoded with
  | inr e => eret (inr e)
  | inl key_bytes =>
      let! key_ptr := vec_ptr key_bytes in
      let! value_size_ptr := local_variable 4 in
      let! code := ext_ffi ReadLocalFuncIndex [key_ptr; zlen key_bytes; value_size_ptr] in
      fetch_value c code value_size_ptr
  end.

Definition write {A} (c : CLTyped A) (t : turef.TURef) (value : A) : T unit :=
  let! '(key_ptr, key_size) := to_ptr key_codec (turef.into_key t) in
  let! cl_value := cl_value_of c value in
  let! '(cl_value_ptr, cl_value_size) := to_ptr cl_value_codec cl_value in
  let! _ := ext_ffi WriteFuncIndex [key_ptr; key_size; cl_value_ptr; cl_value_size] in
  eret tt.

Definition write_local {K A} (ck : Codec K) (c : CLTyped A) (key : K) (value : A) : T unit :=
  let! '(key_ptr, key_size) := to_ptr ck key in
  let! cl_value := cl_value_of c value in
  let! '(cl_value_ptr, cl_value_size) := to_ptr cl_value_codec cl_value in
  let! _ := ext_ffi WriteLocalFuncIndex [key_ptr; key_size; cl_value_ptr; cl_value_size] in
  eret tt.

Definition add {A} (c : CLTyped A) (t : turef.TURef) (value : A) : T unit :=
  let! '(key_ptr, key_size) := to_ptr key_codec (turef.into_key t) in
  let! cl_value := cl_value_of c value in
  let! '(cl_value_ptr, cl_value_size) := to_ptr cl_value_codec cl_value in
  let! _ := ext_ffi AddFuncIndex [key_ptr; key_size; cl_value_ptr; cl_value_size] in
  eret tt.

Definition add_local {K A} (ck : Codec K) (c : CLTyped A) (key : K) (value : A) : T unit :=
  let! '(key_ptr, key_size) := to_ptr ck key in
  let! cl_value := cl_value_of c value in
  let! '(cl_value_ptr, cl_value_size) := to_ptr cl_value_codec cl_value in
  let! _ := ext_ffi AddLocalFuncIndex [key_ptr; key_size; cl_value_ptr; cl_value_size] in
  eret tt.

Definition store_function (name : bytes) (named_keys : BTreeMap bytes Key) : T ContractRef :=
  let! '(fn_ptr, fn_size) := to_ptr string_codec name in
  let! '(keys_ptr, keys_size) := to_ptr named_keys_codec named_keys in
  let! addr_ptr := local_variable 32 in
  let! _ := ext_ffi StoreFnIndex [fn_ptr; fn_size; keys_ptr; keys_size; addr_ptr] in
  let! addr := load addr_ptr 32 in
  eret (ContractRef_URef (uref_new addr READ_ADD_WRITE)).

Definition store_function_at_hash (name : bytes) (named_keys : BTreeMap bytes Key) : T ContractRef :=
  let! '(fn_ptr, fn_size) := to_ptr string_codec name in
  let! '(keys_ptr, keys_size) := to_ptr named_keys_codec named_keys in
  let! addr_ptr := local_variable 32 in
  let! _ := ext_ffi StoreFnAtHashIndex [fn_ptr; fn_size; keys_ptr; keys_size; addr_ptr] in
  let! addr := load addr_ptr 32 in
  eret (ContractRef_Hash addr).

Definition new_turef {A} (c : CLTyped A) (init : A) : T turef.TURef :=
  let! key_ptr := alloc_bytes KEY_UREF_SERIALIZED_LENGTH in
  let! cl_value := cl_value_of c init in
  let! '(cl_value_ptr, cl_value_size) := to_ptr cl_value_codec cl_value in
  let! _ := ext_ffi NewFuncIndex [key_ptr; cl_value_ptr; cl_value_size] in
  let! key := value_at key_codec key_ptr KEY_UREF_SERIALIZED_LENGTH in
  match key with
  | Key_URef uref => unwrap_or_revert turef.api_from_turef (turef.from_uref uref)
  | _ => revert Api_UnexpectedKeyVariant
  end.
End storage.
End storage.

(** * [contract_api/system.rs] *)

Module system.
Section system.
Context {L G Mem Module : Type} {F : ForeignErrors} `{!Platform Mem Module} {W : WasmValues} {WR : WasmResults}.
Context {heap : Heap Mem} {imports : Imports L G Mem Module} {alloc : Allocator}.

#[local] Abbreviation T A := (eff (Runtime L G Mem Module) InterpreterError A).

Definition get_system_contract (system_contract : SystemContractType) : T ContractRef :=
  let! uref_data := local_variable (Z.to_nat UREF_SERIALIZED_LENGTH) in
  let! code := ext_ffi GetSystemContractIndex
    [system_contract_type_into system_contract; uref_data; UREF_SERIALIZED_LENGTH] in
  let! _ := unwrap_or_revert id (result_from code) in
  let! uref := value_at uref_codec uref_data UREF_SERIALIZED_LENGTH in
  match uref_access_rights uref with
  | None => revert Api_NoAccessRights
  | Some _ => eret (ContractRef_URef uref)
  end.

Definition get_mint : T ContractRef := get_system_contract System_Mint.

Definition get_proof_of_stake : T ContractRef := get_system_contract System_ProofOfStake.

Definition PURSE_ID_SERIALIZED_LENGTH : Z := UREF_SERIALIZED_LENGTH.

Definition create_purse : T PurseId :=
  let! purse_id_ptr := alloc_bytes PURSE_ID_SERIALIZED_LENGTH in
  let! code := ext_ffi CreatePurseIndex [purse_id_ptr; PURSE_ID_SERIALIZED_LENGTH] in
  if code =? 0 then value_at purse_id_codec purse_id_ptr PURSE_ID_SERIALIZED_LENGTH
  else revert Api_PurseNotCreated.

Definition get_balance (purse_id : PurseId) : T (option Z) :=
  let! '(purse_id_ptr, purse_id_size) := to_ptr purse_id_codec purse_id in
  let! output_size_ptr := local_variable 4 in
  let! code := ext_ffi GetBalanceIndex [purse_id_ptr; purse_id_size; output_size_ptr] in
  match result_from code with
  | inr Api_InvalidPurse => eret None
  | inr error => revert error
  | inl _ =>
      let! value_size := load_u32 output_size_ptr in
      let! r := runtime.read_host_buffer value_size in
      let! value_bytes := unwrap_or_revert id r in
      let! value := outcome_or_revert api_from_bytesrepr (deserialize u512_codec value_bytes) in
      eret (Some value)
  end.

Definition transfer_to_account (target : PublicKey) (amount : Z) : T TransferResult :=
  let! '(target_ptr, target_size) := to_ptr public_key_codec target in
  let! '(amount_ptr, amount_size) := to_ptr u512_codec amount in
  let! return_code := ext_ffi TransferToAccountIndex [target_ptr; target_size; amount_ptr; amount_size] in
  eret (transfer_result_from return_code).

Definition transfer_from_purse_to_account (source : PurseId) (target : PublicKey) (amount : Z) : T TransferResult :=
  let! '(source_ptr, source_size) := to_ptr purse_id_codec source in
  let! '(target_ptr, target_size) := to_ptr public_key_codec target in
  let! '(amount_ptr, amount_size) := to_ptr u512_codec amount in
  let! return_code := ext_ffi TransferFromPurseToAccountIndex
    [source_ptr; source_size; target_ptr; target_size; amount_ptr; amount_size] in
  eret (transfer_result_from return_code).

Definition transfer_from_purse_to_purse (source target : PurseId) (amount : Z) : T (unit + ApiError) :=
  let! '(source_ptr, source_size) := to_ptr purse_id_codec source in
  let! '(target_ptr, target_size) := to_ptr purse_id_codec target in
  let! '(amount_ptr, amount_size) := to_ptr u512_codec amount in
  let! result := ext_ffi TransferFromPurseToPurseIndex
    [source_ptr; source_size; target_ptr; target_size; amount_ptr; amount_size] in
  eret (if result =? 0 then inl tt else inr Api_Transfer).
End system.
End system.

(** * [contract_api/account.rs] *)

Module account.
Section account.
Context {L G Mem Module : Type} {F : ForeignErrors} `{!Platform Mem Module} {W : WasmValues} {WR : WasmResults}.
Context {heap : Heap Mem} {imports : Imports L G Mem Module}.

#[local] Abbreviation T A := (eff (Runtime L G Mem Module) InterpreterError A).

Definition get_main_purse : T PurseId :=
  let! dest_ptr := alloc_bytes system.PURSE_ID_SERIALIZED_LENGTH in
  let! _ := ext_ffi GetMainPurseIndex [dest_ptr] in
  value_at purse_id_codec dest_ptr system.PURSE_ID_SERIALIZED_LENGTH.

(** Zero is success; any other code must be that of a failure. *)
Definition key_management_result {A} (try_from : Z -> outcome TryFromIntError A) (result : Z) : T (unit + A) :=
  if result =? 0 then eret (inl tt)
  else let! e := outcome_or_revert api_from_try_from_int (try_from result) in eret (inr e).

(** [permission_level as u32]. *)
Definition action_type_into (t : ActionType) : Z := match t with Deployment => 0 | KeyManagement => 1 end.

Definition set_action_threshold (permission_level : ActionType) (threshold : Weight) : T (unit + SetThresholdFailure) :=
  let! result := ext_ffi SetActionThresholdFuncIndex [action_type_into permission_level; threshold] in
  key_management_result set_threshold_failure_try_from result.

Definition add_associated_key (public_key : PublicKey) (weight : Weight) : T (unit + AddKeyFailure) :=
  let! '(public_key_ptr, _) := to_ptr public_key_codec public_key in
  let! result := ext_ffi AddAssociatedKeyFuncIndex [public_key_ptr; weight] in
  key_management_result add_key_failure_try_from result.

Definition remove_associated_key (public_key : PublicKey) : T (unit + RemoveKeyFailure) :=
  let! '(public_key_ptr, _) := to_ptr public_key_codec public_key in
  let! result := ext_ffi RemoveAssociatedKeyFuncIndex [public_key_ptr] in
  key_management_result remove_key_failure_try_from result.

Definition update_associated_key (public_key : PublicKey) (weight : Weight) : T (unit + UpdateKeyFailure) :=
  let! '(public_key_ptr, _) := to_ptr public_key_codec public_key in
  let! result := ext_ffi UpdateAssociatedKeyFuncIndex [public_key_ptr; weight] in
  key_management_result update_key_failure_try_from result.
End account.
End account.
