(* ===== verification/ContractRuns.v ===== *)
(** Running the interface of contracts against the host functions: values cross
    the memory of the contract, the argument parsing of the host and the host
    buffer, and arrive unchanged.  Sources: [contract/src/contract_api/] on one
    side, [engine-core/src/execution/runtime/] on the other. *)

From stdpp Require Import gmap.
From S2P Require Import Prelude BTreeMap Bytesrepr Uint Types CLValues Account StoredValue Transform.
From S2P Require Import Trie TrackingCopy ApiError ProtocolData ExecutionError RuntimeContext ContextSafety.
From S2P Require Import ExtractURefs Runtime HostFunctions RuntimeSafety ContractApi.

(** * What the contract relies on *)

(** Which parts of the memory are in use, and how much more can be asked for, in
    any portions. *)
Class HeapView (Mem : Type) := {
  in_use : Mem -> Z -> Z -> Prop;
  room : Mem -> Z;
}.

Definition apart (p n q k : Z) : Prop := p + n <= q \/ q + k <= p.

(** The documented behaviour of an allocator, and of loads and stores in what it
    handed out. *)
Class HeapLaws (Mem Module : Type) {F : ForeignErrors} `{!Platform Mem Module} {heap : Heap Mem} `{HeapView Mem} : Prop := {
  heap_alloc_law : forall n m, 0 < n <= room m ->
    exists p m' old, heap_alloc n m = Some (p, m') /\ 0 < p /\ p + n <= 2 ^ 32 /\ in_use m' p n
      /\ mem_get p n m' = Ok old /\ zlen old = n /\ room m - n <= room m'
      /\ forall q k, in_use m q k -> in_use m' q k /\ apart p n q k /\ mem_get q k m' = mem_get q k m;
  mem_set_law : forall p n old bs m, in_use m p n -> mem_get p n m = Ok old -> zlen bs <= n -> zlen old = n ->
    exists m', mem_set p bs m = Ok m' /\ room m' = room m
      /\ mem_get p n m' = Ok (bs ++ drop (length bs) old)
      /\ forall q k, in_use m q k -> in_use m' q k /\ (apart p n q k -> mem_get q k m' = mem_get q k m);
}.

Class WasmResultsLaws {F : ForeignErrors} {W : WasmValues} {WR : WasmResults} : Prop :=
  rv_into_i32_law : forall z, rv_into_i32 (rv_I32 z) = Some z.

Section memory.
Context {Mem Module : Type} {F : ForeignErrors} `{HeapLaws Mem Module}.
Implicit Types m : Mem.

(** A block of memory and what it holds. *)
Definition block m (b : Z * bytes) : Prop :=
  0 < b.1 /\ 0 < zlen b.2 /\ b.1 + zlen b.2 <= 2 ^ 32 /\ in_use m b.1 (zlen b.2) /\ mem_get b.1 (zlen b.2) m = Ok b.2.

(** Separate blocks. *)
Inductive owns m : list (Z * bytes) -> Prop :=
| owns_nil : owns m []
| owns_cons p bs B : block m (p, bs) -> Forall (fun b => apart p (zlen bs) b.1 (zlen b.2)) B -> owns m B ->
    owns m ((p, bs) :: B).

Lemma owns_blocks m B : owns m B -> Forall (block m) B.
Proof. induction 1; by constructor. Qed.

Lemma owns_tail m b B : owns m (b :: B) -> owns m B.
Proof. by inversion 1. Qed.

Lemma owns_head m p bs B : owns m ((p, bs) :: B) -> block m (p, bs).
Proof. by inversion 1. Qed.

Lemma owns_kept m m' B :
  owns m B -> (forall b, In b B -> block m b -> block m' b) -> owns m' B.
Proof.
  induction 1 as [|p bs B Hb Ha Ho IH]; intros Hk; [constructor|].
  constructor; [by apply Hk; [left|] | done | apply IH; intros b Hin; apply Hk; by right].
Qed.

Lemma alloc_owns n m B :
  owns m B -> 0 < n <= room m ->
  exists p m' old, heap_alloc n m = Some (p, m') /\ owns m' ((p, old) :: B) /\ zlen old = n /\ room m - n <= room m'.
Proof.
  intros Ho Hn. destruct (heap_alloc_law n m Hn) as (p & m' & old & Ha & Hp & Hp' & Hu & Hg & Hl & Hr & Hk).
  exists p, m', old. split; [done|]. split; [|done]. constructor.
  - unfold block. cbn. rewrite Hl. by destruct Hn.
  - apply owns_blocks in Ho. eapply Forall_impl; [exact Ho|]. intros [q c] (_ & _ & _ & Hc & _). cbn in *. rewrite Hl.
    by destruct (Hk q (zlen c) Hc) as (_ & Hap & _).
  - eapply owns_kept; [exact Ho|]. intros [q c] _ (Hq & Hq' & Hq2 & Hc & Hg'). cbn in *.
    destruct (Hk q (zlen c) Hc) as (Hc' & _ & E). unfold block. cbn. by rewrite E.
Qed.

Lemma set_owns p old bs m B :
  owns m ((p, old) :: B) -> zlen bs <= zlen old ->
  exists m', mem_set p bs m = Ok m' /\ owns m' ((p, bs ++ drop (length bs) old) :: B) /\ room m' = room m.
Proof.
  inversion 1 as [|? ? ? (Hp & Hz & Hp' & Hu & Hg) Ha Ho]; subst. cbn in *. intros Hl.
  destruct (mem_set_law p (zlen old) old bs m Hu Hg Hl eq_refl) as (m' & Hs & Hr & Hg' & Hk).
  assert (zlen (bs ++ drop (length bs) old) = zlen old) as El.
  { unfold zlen in *. rewrite length_app, length_drop. lia. }
  exists m'. split; [done|]. split; [|done]. constructor.
  - unfold block. cbn. rewrite El. by destruct (Hk _ _ Hu).
  - cbn. by rewrite El.
  - eapply owns_kept; [exact Ho|]. intros [q c] Hin (Hq & Hq' & Hq2 & Hc & Hg2). cbn in *.
    destruct (Hk q (zlen c) Hc) as [Hc' He]. unfold block. cbn. rewrite He; [done|].
    rewrite List.Forall_forall in Ha. exact (Ha (q, c) Hin).
Qed.

(** Overwriting a whole block. *)
Lemma set_owns_all p old bs m B :
  owns m ((p, old) :: B) -> zlen bs = zlen old ->
  exists m', mem_set p bs m = Ok m' /\ owns m' ((p, bs) :: B) /\ room m' = room m.
Proof.
  intros Ho Hl. destruct (set_owns p old bs m B Ho ltac:(lia)) as (m' & Hs & Ho' & Hr). exists m'.
  rewrite drop_ge, app_nil_r in Ho' by (unfold zlen in *; lia). done.
Qed.

Lemma owns_swap m a b B : owns m (a :: b :: B) -> owns m (b :: a :: B).
Proof.
  destruct a as [p x], b as [q y]. inversion 1 as [|? ? ? Ha1 Ha2 Ha3]; subst.
  inversion Ha3 as [|? ? ? Hb1 Hb2 Hb3]; subst. apply Forall_cons_iff in Ha2 as [Hap Ha2]. cbn in *.
  constructor; [done| |by constructor]. constructor; [|done]. unfold apart in *. cbn. tauto.
Qed.

Lemma owns_third m a b c B : owns m (a :: b :: c :: B) -> owns m (c :: a :: b :: B).
Proof.
  intros Ho. apply owns_swap. destruct a as [p x]. inversion Ho as [|? ? ? Ha1 Ha2 Ha3]; subst.
  constructor; [done| |by apply owns_swap]. apply Forall_cons_iff in Ha2 as [? Ha2].
  apply Forall_cons_iff in Ha2 as [? Ha2]. constructor; [done|]. by constructor.
Qed.

Lemma owns_get m B p bs : owns m B -> In (p, bs) B -> mem_get p (zlen bs) m = Ok bs.
Proof. intros Ho Hin. apply owns_blocks in Ho. rewrite List.Forall_forall in Ho. by destruct (Ho _ Hin) as (_ & _ & _ & _ & ?). Qed.

(** Pointers and sizes are 32-bit integers. *)
Lemma owns_u32 m B p bs : owns m B -> In (p, bs) B -> is_unsigned 32 p /\ is_unsigned 32 (zlen bs).
Proof.
  intros Ho Hin. apply owns_blocks in Ho. rewrite List.Forall_forall in Ho. destruct (Ho _ Hin) as (Hp & Hz & Hp' & _).
  cbn in *. unfold is_unsigned. lia.
Qed.
End memory.

(** * Arguments of host functions *)

Section arguments.
Context {F : ForeignErrors} {W : WasmValues} {WL : WasmValuesLaws}.

Lemma wrap_both z : wrap_unsigned 32 (wrap_signed 32 z) = wrap_unsigned 32 z.
Proof. exact (eqmod_wrap_signed 32 z). Qed.

Definition i32_args (args : list Z) : list RuntimeValue := map (fun z => rv_I32 (wrap_signed 32 z)) args.

Lemma nth_u32_arg args i z : args !! i = Some z -> is_unsigned 32 z -> nth_checked_u32 (i32_args args) i = Ok z.
Proof.
  intros Hi Hz. rewrite (nth_checked_u32_ok _ _ (wrap_signed 32 z)).
  - by rewrite wrap_both, wrap_unsigned_small.
  - unfold i32_args. rewrite list_lookup_fmap, Hi. done.
Qed.
End arguments.

(** The parsed call, when the arguments are 32-bit. *)
Ltac parse_args := unfold_parsers; cbn [obind]; repeat (erewrite nth_u32_arg by (first [reflexivity | eassumption]); cbn [obind]); reflexivity.

(** * Steps of a contract *)

Section steps.
Context {L G Mem Module : Type} `{LinkedHashMapLaws L, Rng G} `{MeterLaws} {dbg : DebugText} {qtext : QueryText}.
Context {mtext : MismatchText} {hasher : Hasher} {F : ForeignErrors} `{!Platform Mem Module} {W : WasmValues} {WL : WasmValuesLaws}.
Context {WR : WasmResults} {WRL : WasmResultsLaws} {heap : Heap Mem} `{!HeapView Mem} {HL : HeapLaws Mem Module}.
Context {alloc : Allocator} {layout : Layout} {E : Type}.
Context (reader : Key -> outcome E (option StoredValue)) (into_error : E -> ExecError).
Context (overflow_checks : bool).
Context (invoke_call : Module -> eff (Runtime L G Mem Module) InterpreterError unit).

(** The contract imports the host functions. *)
#[local] Instance host_imports : Imports L G Mem Module := invoke_index reader into_error overflow_checks invoke_call.

#[local] Abbreviation RT := (Runtime L G Mem Module).
#[local] Abbreviation T A := (eff RT InterpreterError A).
Implicit Types rt : RT.

(** ** Memory *)

Lemma allocate_run n rt B :
  owns (rt_memory rt) B -> 0 < n <= room (rt_memory rt) ->
  exists p m old, allocate n rt = (Ok (Some p), set_memory m rt) /\ owns m ((p, old) :: B) /\ zlen old = n
    /\ room (rt_memory rt) - n <= room m.
Proof.
  intros Ho Hn. destruct (alloc_owns n _ B Ho Hn) as (p & m & old & Ha & Ho' & Hl & Hr). exists p, m, old.
  unfold allocate. by rewrite Ha.
Qed.

Lemma place_run bs rt B :
  owns (rt_memory rt) B -> 0 < zlen bs <= room (rt_memory rt) ->
  exists p m, place bs rt = (Ok p, set_memory m rt) /\ owns m ((p, bs) :: B)
    /\ room (rt_memory rt) - zlen bs <= room m.
Proof.
  intros Ho Hn. destruct (allocate_run _ rt B Ho Hn) as (p & m & old & Ha & Ho' & Hl & Hr).
  destruct (set_owns_all p old bs m B Ho' (eq_sym Hl)) as (m' & Hs & Ho2 & Hr2). exists p, m'.
  unfold place. rewrite (ebind_run _ _ _ _ _ Ha). unfold store, ebind. cbn. rewrite Hs. split; [done|]. split; [done|lia].
Qed.

Lemma alloc_bytes_run n rt B :
  owns (rt_memory rt) B -> 0 < n <= room (rt_memory rt) ->
  exists p m old, alloc_bytes n rt = (Ok p, set_memory m rt) /\ owns m ((p, old) :: B) /\ zlen old = n
    /\ room (rt_memory rt) - n <= room m.
Proof.
  intros Ho Hn. destruct (allocate_run n rt B Ho Hn) as (p & m & old & Ha & Ho' & Hl & Hr). exists p, m, old.
  unfold alloc_bytes. destruct (Z.eqb_spec n 0); [lia|]. by rewrite (ebind_run _ _ _ _ _ Ha).
Qed.

Lemma load_run p bs rt B : owns (rt_memory rt) B -> In (p, bs) B -> load p (zlen bs) rt = (Ok bs, rt).
Proof.
  intros Ho Hin. unfold load. pose proof (owns_blocks _ _ Ho) as Hb. rewrite List.Forall_forall in Hb.
  destruct (Hb _ Hin) as (_ & Hz & _). cbn in Hz. destruct (Z.eqb_spec (zlen bs) 0); [lia|].
  by rewrite (owns_get _ _ _ _ Ho Hin).
Qed.

Lemma load_u32_run p n rt B :
  owns (rt_memory rt) B -> In (p, to_le_bytes 4 n) B -> is_unsigned 32 n -> load_u32 p rt = (Ok n, rt).
Proof.
  intros Ho Hin Hn. unfold load_u32. assert (zlen (to_le_bytes 4 n) = 4) as Hl by (unfold zlen; by rewrite to_le_bytes_length).
  pose proof (load_run _ _ _ _ Ho Hin) as Hr. rewrite Hl in Hr. rewrite (ebind_run _ _ _ _ _ Hr).
  by rewrite from_to_le_bytes_small.
Qed.

(** Writing a value for the host. *)
Lemma to_ptr_run {A} (c : Codec A) a bs rt B :
  to_bytes c a = Ok bs -> owns (rt_memory rt) B -> 0 < zlen bs <= room (rt_memory rt) ->
  exists p m, to_ptr c a rt = (Ok (p, zlen bs), set_memory m rt) /\ owns m ((p, bs) :: B)
    /\ room (rt_memory rt) - zlen bs <= room m.
Proof.
  intros He Ho Hn. destruct (place_run bs rt B Ho Hn) as (p & m & Hp & Ho' & Hr). exists p, m.
  unfold to_ptr, outcome_or_revert. rewrite He. unfold ebind at 1 2. cbn.
  destruct bs as [|b bs]; [unfold zlen in Hn; cbn in Hn; lia|]. cbn [vec_ptr]. by rewrite (ebind_run _ _ _ _ _ Hp).
Qed.

Lemma value_at_run {A} (c : Codec A) p bs a rt B :
  owns (rt_memory rt) B -> In (p, bs) B -> deserialize c bs = Ok a -> value_at c p (zlen bs) rt = (Ok a, rt).
Proof.
  intros Ho Hin Hd. unfold value_at. rewrite (ebind_run _ _ _ _ _ (load_run _ _ _ _ Ho Hin)).
  unfold outcome_or_revert. by rewrite Hd.
Qed.

Lemma cl_value_of_run {A} (c : CLTyped A) a cv rt : from_t c a = Ok cv -> cl_value_of c a rt = (Ok cv, rt).
Proof. intros Hc. unfold cl_value_of, outcome_or_revert. by rewrite Hc. Qed.

(** The host finds the bytes. *)
Lemma bytes_from_mem_run p bs rt B :
  owns (rt_memory rt) B -> In (p, bs) B -> bytes_from_mem p (zlen bs) rt = (Ok bs, rt).
Proof. intros Ho Hin. unfold bytes_from_mem, look. by rewrite (owns_get _ _ _ _ Ho Hin). Qed.

Lemma value_from_mem_run {A} (c : Codec A) p bs a rt B :
  owns (rt_memory rt) B -> In (p, bs) B -> deserialize c bs = Ok a ->
  value_from_mem c p (zlen bs) rt = (Ok a, rt).
Proof.
  intros Ho Hin Hd. unfold value_from_mem. rewrite (ebind_run _ _ _ _ _ (bytes_from_mem_run _ _ _ _ Ho Hin)).
  unfold elift. by rewrite Hd.
Qed.

(** ** Host calls *)

Lemma ext_ffi_run {A} f args call (g : A -> Z) (m : T A) rt a rt' :
  parse_call f (i32_args args) = Ok call ->
  run_call reader into_error overflow_checks invoke_call call = returns g m ->
  m rt = (Ok a, rt') -> ext_ffi f args rt = (Ok (g a), rt').
Proof.
  intros Hp Hc Hm. unfold ext_ffi, host_import, host_imports, invoke_index. rewrite function_index_roundtrip.
  fold (i32_args args). unfold ebind, elift. rewrite Hp. cbn. rewrite Hc. unfold returns, ebind. rewrite Hm. cbn.
  by rewrite rv_into_i32_law.
Qed.

Lemma ext_ffi_nothing f args call (m : T unit) rt rt' :
  parse_call f (i32_args args) = Ok call ->
  run_call reader into_error overflow_checks invoke_call call = returns_nothing m ->
  m rt = (Ok tt, rt') -> ext_ffi f args rt = (Ok 0, rt').
Proof.
  intros Hp Hc Hm. unfold ext_ffi, host_import, host_imports, invoke_index. rewrite function_index_roundtrip.
  fold (i32_args args). unfold ebind, elift. rewrite Hp. cbn. rewrite Hc. unfold returns_nothing, ebind. by rewrite Hm.
Qed.

Lemma ext_ffi_fails f args call (m : T unit) rt e rt' :
  parse_call f (i32_args args) = Ok call ->
  run_call reader into_error overflow_checks invoke_call call = returns_nothing m ->
  m rt = (Err e, rt') -> ext_ffi f args rt = (Err e, rt').
Proof.
  intros Hp Hc Hm. unfold ext_ffi, host_import, host_imports, invoke_index. rewrite function_index_roundtrip.
  fold (i32_args args). unfold ebind, elift. rewrite Hp. cbn. rewrite Hc. unfold returns_nothing, ebind. by rewrite Hm.
Qed.

Lemma revert_run {A} error rt :
  api_error_valid error ->
  revert (A := A) error rt = (Err (IE_Host (EE_Revert (api_error_to_u32 error))), rt).
Proof.
  intros Hv. assert (is_unsigned 32 (api_error_to_u32 error)) as Hu.
  { pose proof (api_error_code_range error Hv). unfold is_unsigned, RESERVED_ERROR_MAX in *. lia. }
  unfold revert, ebind. erewrite ext_ffi_fails; [done | parse_args | reflexivity | reflexivity].
Qed.

(** ** What an operation leaves *)

Definition view rt (k : Key) : outcome E (option StoredValue) := tc_view reader (rc_state (rt_context rt)) k.

(** The key of a value in the contract's own storage. *)
Definition local_key rt (key_bytes : bytes) : Key := key_local blake2b_hash_new (seed (rt_context rt)) key_bytes.

(** Only the memory and the tracking copy change, and no more than [cost] bytes of
    memory are taken. *)
Record kept (cost : Z) rt rt' : Prop := {
  kept_rest : exists s m, rt' = set_memory m (set_context (set_state s (rt_context rt)) rt);
  kept_inv : tc_inv reader (rc_state (rt_context rt'));
  kept_room : room (rt_memory rt) - cost <= room (rt_memory rt');
}.

Lemma kept_trans c1 c2 rt1 rt2 rt3 : kept c1 rt1 rt2 -> kept c2 rt2 rt3 -> kept (c1 + c2) rt1 rt3.
Proof.
  intros [(s1 & m1 & ->) _ R1] [(s2 & m2 & ->) I2 R2]. split; [by exists s2, m2 | done |]. cbn in *. lia.
Qed.

Lemma kept_more c1 c2 rt rt' : kept c1 rt rt' -> c1 <= c2 -> kept c2 rt rt'.
Proof. intros [? ? ?] Hc. split; [done..|lia]. Qed.

Lemma kept_local_key c rt rt' kb : kept c rt rt' -> local_key rt' kb = local_key rt kb.
Proof. by intros [(s & m & ->) _ _]. Qed.

Lemma kept_buf c rt rt' : kept c rt rt' -> rt_host_buf rt' = rt_host_buf rt.
Proof. by intros [(s & m & ->) _ _]. Qed.

(** Ready for calls: nothing waits in the host buffer. *)
Record ready rt : Prop := {
  ready_buf : rt_host_buf rt = None;
  ready_inv : tc_inv reader (rc_state (rt_context rt));
}.

Lemma kept_ready c rt rt' : kept c rt rt' -> ready rt -> ready rt'.
Proof. intros Hk [Hb _]. split; [by rewrite (kept_buf c rt) | apply Hk]. Qed.

(** ** Local storage *)

(** A key and a typed value handed to a host function that works on the state. *)
Lemma write_value_run {K A} f (host : Z -> Z -> Z -> Z -> T unit) (ck : Codec K) (c : CLTyped A) key value kb cv vb s rt :
  (forall p n q k, is_unsigned 32 p -> is_unsigned 32 n -> is_unsigned 32 q -> is_unsigned 32 k ->
     exists call, parse_call f (i32_args [p; n; q; k]) = Ok call
     /\ run_call reader into_error overflow_checks invoke_call call = returns_nothing (host p n q k)) ->
  (forall p q rt2, owns (rt_memory rt2) [(q, vb); (p, kb)] -> rt_context rt2 = rt_context rt ->
     host p (zlen kb) q (zlen vb) rt2 = (Ok tt, set_context (set_state s (rt_context rt)) rt2)) ->
  tc_inv reader s -> to_bytes ck key = Ok kb -> from_t c value = Ok cv -> cl_value_to_bytes cv = Ok vb ->
  0 < zlen kb -> 0 < zlen vb -> zlen kb + zlen vb <= room (rt_memory rt) ->
  exists rt', (let! '(key_ptr, key_size) := to_ptr ck key in
               let! cl_value := cl_value_of c value in
               let! '(cl_value_ptr, cl_value_size) := to_ptr cl_value_codec cl_value in
               let! _ := ext_ffi f [key_ptr; key_size; cl_value_ptr; cl_value_size] in
               eret tt) rt = (Ok tt, rt')
    /\ kept (zlen kb + zlen vb) rt rt' /\ rc_state (rt_context rt') = s.
Proof.
  intros Hcall Hhost Hi Hk Hc Hv Hkb Hvb Hr.
  destruct (to_ptr_run ck key kb rt [] Hk) as (p & m1 & E1 & O1 & R1); [constructor | lia |].
  rewrite (ebind_run _ _ _ _ _ E1), (ebind_run _ _ _ _ _ (cl_value_of_run c value cv _ Hc)).
  destruct (to_ptr_run cl_value_codec cv vb (set_memory m1 rt) [(p, kb)] Hv O1) as (q & m2 & E2 & O2 & R2); [cbn; lia|].
  cbn in R2. rewrite (ebind_run _ _ _ _ _ E2).
  destruct (owns_u32 _ _ p kb O2) as [Hp1 Hp2]; [cbn; auto|]. destruct (owns_u32 _ _ q vb O2) as [Hq1 Hq2]; [cbn; auto|].
  destruct (Hcall p (zlen kb) q (zlen vb) Hp1 Hp2 Hq1 Hq2) as (call & Hp & Hf).
  pose proof (Hhost p q (set_memory m2 (set_memory m1 rt)) O2 eq_refl) as Hh.
  rewrite (ebind_run _ _ _ _ _ (ext_ffi_nothing _ _ _ _ _ _ Hp Hf Hh)). eexists. split; [reflexivity|].
  split; [|done]. split; [by eexists _, _ | done | cbn; lia].
Qed.

Lemma write_local_run {K A} (ck : Codec K) (c : CLTyped A) key value kb cv vb rt :
  to_bytes ck key = Ok kb -> from_t c value = Ok cv -> cl_value_to_bytes cv = Ok vb ->
  deserialize cl_value_codec vb = Ok cv -> tc_inv reader (rc_state (rt_context rt)) ->
  0 < zlen kb -> 0 < zlen vb -> zlen kb + zlen vb <= room (rt_memory rt) ->
  exists rt', storage.write_local ck c key value rt = (Ok tt, rt') /\ kept (zlen kb + zlen vb) rt rt'
    /\ forall k, view rt' k = if decide (k = local_key rt kb) then Ok (Some (SV_CLValue cv)) else view rt k.
Proof.
  intros Hk Hc Hv Hd Hi Hkb Hvb Hr.
  destruct (tc_write_view reader (local_key rt kb) (SV_CLValue cv) _ Hi) as [Hi' Hview].
  destruct (write_value_run WriteLocalFuncIndex host_write_local ck c key value kb cv vb
    (tc_write (local_key rt kb) (SV_CLValue cv) (rc_state (rt_context rt))) rt) as (rt' & Er & Hkept & Es); [| |done..|].
  - intros p n q k Hp Hn Hq Hz. eexists. split; [parse_args | reflexivity].
  - intros p q rt2 Ho Ec. unfold host_write_local.
    rewrite (ebind_run _ _ _ kb rt2); [|apply trap_ok; eapply bytes_from_mem_run; [exact Ho | cbn; auto]].
    rewrite (ebind_run _ _ _ cv rt2); [|apply trap_ok; eapply value_from_mem_run; [exact Ho | cbn; auto | exact Hd]].
    apply trap_ok. unfold on_context. by rewrite Ec.
  - exists rt'. split; [exact Er|]. split; [done|]. intros k. unfold view at 1. rewrite Es. apply Hview.
Qed.

Lemma zlen_le4 n : zlen (to_le_bytes 4 n) = 4.
Proof. unfold zlen. by rewrite to_le_bytes_length. Qed.

Lemma zlen_zeros n : zlen (replicate n x00) = Z.of_nat n.
Proof. unfold zlen. by rewrite length_replicate. Qed.

(** Fetching the value that waits in the host buffer. *)
Lemma read_host_buffer_run v rt :
  rt_host_buf rt = Some v -> 0 < zlen (cl_bytes v) -> zlen (cl_bytes v) + 4 <= room (rt_memory rt) ->
  exists m, runtime.read_host_buffer (zlen (cl_bytes v)) rt = (Ok (inl (cl_bytes v)), set_memory m (set_host_buf None rt))
    /\ room (rt_memory rt) - (zlen (cl_bytes v) + 4) <= room m.
Proof.
  intros Hb Hz Hr. unfold runtime.read_host_buffer.
  destruct (alloc_bytes_run (zlen (cl_bytes v)) rt []) as (p & m1 & old & E1 & O1 & L1 & R1); [constructor | lia |].
  rewrite (ebind_run _ _ _ _ _ E1).
  destruct (place_run (replicate 4 x00) (set_memory m1 rt) [(p, old)] O1) as (q & m2 & E2 & O2 & R2);
    [rewrite zlen_zeros; cbn; lia|]. rewrite zlen_zeros in R2. cbn in R2.
  destruct (owns_u32 _ _ p old O2) as [Hp1 Hp2]; [cbn; auto|]. rewrite L1 in Hp2.
  destruct (owns_u32 _ _ q (replicate 4 x00) O2) as [Hq1 _]; [cbn; auto|].
  destruct (set_owns_all p old (cl_bytes v) m2 [(q, replicate 4 x00)]) as (m3 & S3 & O3 & R3);
    [by apply owns_swap | done |].
  destruct (set_owns_all q (replicate 4 x00) (to_le_bytes 4 (zlen (cl_bytes v))) m3 [(p, cl_bytes v)]) as (m4 & S4 & O4 & R4);
    [by apply owns_swap | by rewrite zlen_le4, zlen_zeros |].
  assert (zlen (cl_bytes v) <= u32_max) as Hu by (unfold is_unsigned, u32_max in *; lia).
  pose proof (read_buffer_delivers v p (zlen (cl_bytes v)) q (set_memory m2 (set_memory m1 rt)) m3 m4 Hb Hu
    (Z.le_refl _) S3 S4) as Hd.
  exists m4. split; [|cbn; lia].
  assert (runtime.read_host_buffer_into p (zlen (cl_bytes v)) (set_memory m1 rt)
    = (Ok (inl tt), set_memory m4 (set_host_buf None rt))) as Hinto.
  { unfold runtime.read_host_buffer_into, local_variable. rewrite (ebind_run _ _ _ _ _ E2). unfold ebind.
    erewrite ext_ffi_run; [|parse_args|reflexivity|apply trap_ok; exact Hd]. reflexivity. }
  rewrite (ebind_run _ _ _ _ _ Hinto). rewrite (ebind_run _ _ _ (cl_bytes v) (set_memory m4 (set_host_buf None rt))); [reflexivity|].
  eapply load_run; [exact O4 | cbn; auto].
Qed.

(** What the host answers when a value was found, or none. *)
Definition host_answer (found : option CLValue) (output_size_ptr : Z) : T (unit + ApiError) :=
  match found with
  | None => eret (inr Api_ValueNotFound)
  | Some v => trap (return_in_host_buf v output_size_ptr)
  end.

(** The contract fetches a value that was found. *)
Lemma fetch_value_run {A} (c : Codec A) v a q p kb rt :
  rt_host_buf rt = Some v -> owns (rt_memory rt) [(q, to_le_bytes 4 (zlen (cl_bytes v))); (p, kb)] ->
  0 < zlen (cl_bytes v) -> is_unsigned 32 (zlen (cl_bytes v)) -> deserialize c (cl_bytes v) = Ok a ->
  zlen (cl_bytes v) + 4 <= room (rt_memory rt) ->
  exists m, storage.fetch_value c 0 q rt = (Ok (inl (Some a)), set_memory m (set_host_buf None rt))
    /\ room (rt_memory rt) - (zlen (cl_bytes v) + 4) <= room m.
Proof.
  intros Hb Ho Hz Hu Hd Hr. unfold storage.fetch_value. cbn [result_from].
  erewrite ebind_run; [|eapply load_u32_run; [exact Ho | cbn; auto | exact Hu]].
  destruct (read_host_buffer_run v rt Hb Hz Hr) as (m & E4 & R4).
  rewrite (ebind_run _ _ _ _ _ E4). cbn [unwrap_or_revert]. erewrite ebind_run; [|reflexivity].
  rewrite Hd. erewrite ebind_run; [|reflexivity]. by exists m.
Qed.

(** A read by a host function that finds a value under a key, or none. *)
Lemma read_value_run {A} f (host : Z -> Z -> Z -> T (unit + ApiError)) (c : Codec A) kb found o s rt :
  (forall p n q, is_unsigned 32 p -> is_unsigned 32 n -> is_unsigned 32 q ->
     exists call, parse_call f (i32_args [p; n; q]) = Ok call
     /\ run_call reader into_error overflow_checks invoke_call call = returns i32_from (host p n q)) ->
  (forall p q slot rt2, owns (rt_memory rt2) [(q, slot); (p, kb)] -> rt_context rt2 = rt_context rt -> rt_host_buf rt2 = None ->
     host p (zlen kb) q rt2 = host_answer found q (set_context (set_state s (rt_context rt)) rt2)) ->
  ready rt -> tc_inv reader s -> (forall k, tc_view reader s k = view rt k) ->
  match found, o with
  | Some v, Some a => 0 < zlen (cl_bytes v) /\ is_unsigned 32 (zlen (cl_bytes v)) /\ deserialize c (cl_bytes v) = Ok a
      /\ zlen kb + zlen (cl_bytes v) + 8 <= room (rt_memory rt)
  | None, None => zlen kb + 4 <= room (rt_memory rt)
  | _, _ => False
  end -> 0 < zlen kb ->
  exists rt', (let! key_ptr := vec_ptr kb in
               let! value_size_ptr := local_variable 4 in
               let! code := ext_ffi f [key_ptr; zlen kb; value_size_ptr] in
               storage.fetch_value c code value_size_ptr) rt = (Ok (inl o), rt')
    /\ kept (zlen kb + match found with Some v => zlen (cl_bytes v) + 8 | None => 4 end) rt rt'
    /\ forall k, view rt' k = view rt k.
Proof.
  intros Hcall Hhost Hrd Hi Hsv Hf Hkb.
  assert (zlen kb + 4 <= room (rt_memory rt)) as Hroom.
  { destruct found as [v|], o as [a|]; try done. destruct Hf as (? & _ & _ & ?). lia. }
  destruct (place_run kb rt []) as (p & m1 & E1 & O1 & R1); [constructor | lia |].
  destruct (place_run (replicate 4 x00) (set_memory m1 rt) [(p, kb)] O1) as (q & m2 & E2 & O2 & R2);
    [rewrite zlen_zeros; cbn; lia|]. rewrite zlen_zeros in R2. cbn in R2.
  destruct (owns_u32 _ _ p kb O2) as [Hp1 Hp2]; [cbn; auto|].
  destruct (owns_u32 _ _ q (replicate 4 x00) O2) as [Hq1 _]; [cbn; auto|].
  destruct (Hcall p (zlen kb) q Hp1 Hp2 Hq1) as (call & Hp & Hr).
  set (rt2 := set_memory m2 (set_memory m1 rt)) in *.
  pose proof (Hhost p q (replicate 4 x00) rt2 O2 eq_refl (ready_buf rt Hrd)) as Hh.
  rewrite (ebind_run _ _ _ p (set_memory m1 rt)) by (destruct kb; [unfold zlen in Hkb; cbn in Hkb; lia | exact E1]).
  rewrite (ebind_run _ _ _ q rt2) by exact E2.
  destruct found as [v|], o as [a|]; try done; cbn [host_answer] in Hh.
  - destruct Hf as (Hz & Hu & Hd & Hroom2).
    destruct (set_owns_all q (replicate 4 x00) (to_le_bytes 4 (wrap_unsigned 32 (zlen (cl_bytes v)))) m2 [(p, kb)] O2)
      as (m3 & S3 & O3 & R3); [by rewrite zlen_le4, zlen_zeros|].
    assert (host p (zlen kb) q rt2 = (Ok (inl tt), set_memory m3 (set_host_buf (Some v) (set_context (set_state s (rt_context rt)) rt2)))) as Hok.
    { rewrite Hh. apply trap_ok. unfold return_in_host_buf, write_host_buf, ebind. cbn. rewrite (ready_buf rt Hrd).
      unfold write_mem. cbn. by rewrite S3. }
    erewrite ebind_run; [|eapply ext_ffi_run; [exact Hp | exact Hr | exact Hok]]. cbn [i32_from].
    rewrite (wrap_unsigned_small _ _ Hu) in O3.
    destruct (fetch_value_run c v a q p kb
      (set_memory m3 (set_host_buf (Some v) (set_context (set_state s (rt_context rt)) rt2)))) as (m4 & E4 & R4);
      [done | done | done | done | done | cbn; lia |].
    rewrite E4. eexists. split; [reflexivity|]. split; [|intros k; exact (Hsv k)]. split; [|exact Hi | cbn in *; lia].
    exists s, m4. unfold set_memory, set_host_buf, set_context. cbn. by rewrite (ready_buf rt Hrd).
  - erewrite ebind_run; [|eapply ext_ffi_run; [exact Hp | exact Hr | exact Hh]].
    unfold storage.fetch_value. cbn [i32_from api_error_to_u32]. change (wrap_signed 32 6) with 6. cbn [result_from].
    eexists. split; [reflexivity|]. split; [|intros k; exact (Hsv k)]. split; [by exists s, m2 | exact Hi | cbn; lia].
Qed.

Lemma read_local_run {K A} (ck : Codec K) (c : Codec A) key kb found o rt :
  to_bytes ck key = Ok kb -> ready rt -> view rt (local_key rt kb) = Ok (SV_CLValue <$> found) ->
  match found, o with
  | Some v, Some a => 0 < zlen (cl_bytes v) /\ is_unsigned 32 (zlen (cl_bytes v)) /\ deserialize c (cl_bytes v) = Ok a
      /\ zlen kb + zlen (cl_bytes v) + 8 <= room (rt_memory rt)
  | None, None => zlen kb + 4 <= room (rt_memory rt)
  | _, _ => False
  end -> 0 < zlen kb ->
  exists rt', storage.read_local ck c key rt = (Ok (inl o), rt')
    /\ kept (zlen kb + match found with Some v => zlen (cl_bytes v) + 8 | None => 4 end) rt rt'
    /\ forall k, view rt' k = view rt k.
Proof.
  intros Hk Hrd Hv Hf Hkb. unfold storage.read_local. rewrite (ebind_run _ _ _ (inl kb) rt) by (by rewrite Hk).
  destruct (tc_read_view reader (local_key rt kb) (rc_state (rt_context rt)) (ready_inv rt Hrd)) as (s & Er & Hi' & Hsv).
  change (normalize (local_key rt kb)) with (local_key rt kb) in Er. unfold view in Hv. rewrite Hv in Er.
  apply (read_value_run ReadLocalFuncIndex (host_read_local reader into_error) c kb found o s rt); [| |done..].
  - intros p n q Hp Hn Hq. eexists. split; [parse_args | reflexivity].
  - intros p q slot rt2 Ho Ec Hb. unfold host_read_local, with_empty_buf, can_write_to_host_buf. rewrite Hb.
    rewrite (ebind_run _ _ _ kb rt2); [|apply trap_ok; eapply bytes_from_mem_run; [exact Ho | cbn; auto]].
    assert (on_context (Mem := Mem) (Module := Module) (read_ls reader into_error kb) rt2
      = (Ok found, set_context (set_state s (rt_context rt)) rt2)) as Hc.
    { unfold on_context, read_ls, read_ls_with_seed, on_state, ebind. unfold local_key in Er. rewrite Ec, Er. cbn. by destruct found. }
    erewrite ebind_run; [|apply trap_ok; exact Hc]. by destruct found.
Qed.
(** ** Arguments and the caller *)

(** Only the memory changes. *)
Lemma memory_kept cost m rt : ready rt -> room (rt_memory rt) - cost <= room m -> kept cost rt (set_memory m rt).
Proof.
  intros [Hb Hi] Hr. split; [|done..]. exists (rc_state (rt_context rt)), m. by destruct rt as [? ? ? ? []].
Qed.

Lemma get_arg_size_run i v rt :
  rc_args (rt_context rt) !! Z.to_nat i = Some v -> is_unsigned 32 i -> is_unsigned 32 (zlen (cl_bytes v)) ->
  4 <= room (rt_memory rt) ->
  exists m, runtime.get_arg_size i rt = (Ok (Some (zlen (cl_bytes v))), set_memory m rt)
    /\ room (rt_memory rt) - 4 <= room m.
Proof.
  intros Ha Hi Hu Hr. unfold runtime.get_arg_size, local_variable.
  destruct (place_run (replicate 4 x00) rt []) as (q & m1 & E1 & O1 & R1); [constructor | rewrite zlen_zeros; lia |].
  rewrite zlen_zeros in R1. destruct (owns_u32 _ _ q (replicate 4 x00) O1) as [Hq _]; [cbn; auto|].
  destruct (set_owns_all q (replicate 4 x00) (to_le_bytes 4 (zlen (cl_bytes v))) m1 [] O1) as (m2 & S2 & O2 & R2);
    [by rewrite zlen_le4, zlen_zeros|].
  assert (get_arg_size i q (set_memory m1 rt) = (Ok (inl tt), set_memory m2 rt)) as Hh.
  { unfold get_arg_size, ebind, look. cbn. rewrite Ha. unfold is_unsigned in Hu.
    rewrite gtb_le by (unfold u32_max; lia). unfold write_mem. cbn. by rewrite S2. }
  exists m2. split; [|cbn in *; lia]. rewrite (ebind_run _ _ _ _ _ E1).
  erewrite ebind_run; [|eapply ext_ffi_run; [parse_args | reflexivity | apply trap_ok; exact Hh]].
  cbn [i32_from result_from]. erewrite ebind_run; [|eapply load_u32_run; [exact O2 | cbn; auto | exact Hu]]. done.
Qed.

(** A contract gets the arguments it was called with. *)
Lemma get_arg_run {A} (c : Codec A) i v a rt :
  rc_args (rt_context rt) !! Z.to_nat i = Some v -> is_unsigned 32 i -> is_unsigned 32 (zlen (cl_bytes v)) ->
  0 < zlen (cl_bytes v) -> deserialize c (cl_bytes v) = Ok a -> zlen (cl_bytes v) + 4 <= room (rt_memory rt) ->
  exists m, runtime.get_arg c i rt = (Ok (Some (inl a)), set_memory m rt)
    /\ room (rt_memory rt) - (zlen (cl_bytes v) + 4) <= room m.
Proof.
  intros Ha Hi Hu Hz Hd Hr. unfold runtime.get_arg.
  destruct (get_arg_size_run i v rt Ha Hi Hu) as (m1 & E1 & R1); [lia|]. rewrite (ebind_run _ _ _ _ _ E1).
  destruct (alloc_bytes_run (zlen (cl_bytes v)) (set_memory m1 rt) []) as (p & m2 & old & E2 & O2 & L2 & R2);
    [constructor | cbn; lia |]. cbn in R2. rewrite (ebind_run _ _ _ _ _ E2).
  destruct (owns_u32 _ _ p old O2) as [Hp _]; [cbn; auto|].
  destruct (set_owns_all p old (cl_bytes v) m2 [] O2 (eq_sym L2)) as (m3 & S3 & O3 & R3).
  assert (get_arg i p (zlen (cl_bytes v)) (set_memory m2 (set_memory m1 rt)) = (Ok (inl tt), set_memory m3 rt)) as Hh.
  { unfold get_arg, ebind, look. cbn. rewrite Ha. rewrite gtb_le, Z.leb_refl by lia. cbn.
    rewrite take_ge by (unfold zlen; lia). unfold write_mem. cbn. by rewrite S3. }
  exists m3. split; [|cbn in *; lia].
  erewrite ebind_run; [|eapply ext_ffi_run; [parse_args | reflexivity | apply trap_ok; exact Hh]].
  cbn [i32_from result_from unwrap_or_revert]. erewrite ebind_run; [|reflexivity].
  erewrite ebind_run; [|eapply load_run; [exact O3 | cbn; auto]]. by rewrite Hd.
Qed.

(** A value the host writes where the contract asked for it. *)
Lemma host_writes_run {A} (f : FunctionIndex) (host : Z -> T unit) (c : Codec A) a bs rt :
  (forall p, is_unsigned 32 p -> exists call, parse_call f (i32_args [p]) = Ok call
     /\ run_call reader into_error overflow_checks invoke_call call = returns_nothing (host p)) ->
  (forall p rt', rt_context rt' = rt_context rt -> host p rt' = trap (write_value c a p) rt') ->
  to_bytes c a = Ok bs -> deserialize c bs = Ok a -> 0 < zlen bs <= room (rt_memory rt) ->
  exists m, (let! p := alloc_bytes (zlen bs) in let! _ := ext_ffi f [p] in value_at c p (zlen bs)) rt
      = (Ok a, set_memory m rt) /\ room (rt_memory rt) - zlen bs <= room m.
Proof.
  intros Hcall Hhost Hb Hd Hr.
  destruct (alloc_bytes_run (zlen bs) rt []) as (p & m1 & old & E1 & O1 & L1 & R1); [constructor | done |].
  rewrite (ebind_run _ _ _ _ _ E1). destruct (owns_u32 _ _ p old O1) as [Hp _]; [cbn; auto|].
  destruct (set_owns_all p old bs m1 [] O1 (eq_sym L1)) as (m2 & S2 & O2 & R2).
  destruct (Hcall p Hp) as (call & Hp1 & Hp2).
  assert (host p (set_memory m1 rt) = (Ok tt, set_memory m2 rt)) as Hh.
  { rewrite Hhost by done. apply trap_ok. unfold write_value, ebind, elift. rewrite Hb. cbn.
    unfold write_mem. cbn. by rewrite S2. }
  exists m2. split; [|lia]. rewrite (ebind_run _ _ _ _ _ (ext_ffi_nothing _ _ _ _ _ _ Hp1 Hp2 Hh)).
  eapply value_at_run; [exact O2 | cbn; auto | exact Hd].
Qed.

Lemma get_caller_run rt :
  is_bytes 32 (get_caller (rt_context rt)) -> 32 <= room (rt_memory rt) ->
  exists m, runtime.get_caller rt = (Ok (get_caller (rt_context rt)), set_memory m rt)
    /\ room (rt_memory rt) - 32 <= room m.
Proof.
  intros Hb Hr. set (k := get_caller (rt_context rt)) in *.
  assert (zlen k = 32) as Hz by (unfold zlen; by rewrite Hb).
  pose proof (host_writes_run GetCallerIndex host_get_caller public_key_codec k k rt) as Hrun. rewrite Hz in Hrun.
  apply Hrun; [|by intros p rt' E'; unfold host_get_caller, ebind, look; rewrite E' | done | | lia].
  - intros p Hp. eexists. split; [parse_args | reflexivity].
  - by apply (deserialize_serialize public_key_codec (is_bytes 32)).
Qed.

Lemma get_blocktime_run rt :
  is_unsigned 64 (rc_blocktime (rt_context rt)) -> 8 <= room (rt_memory rt) ->
  exists m, runtime.get_blocktime rt = (Ok (rc_blocktime (rt_context rt)), set_memory m rt)
    /\ room (rt_memory rt) - 8 <= room m.
Proof.
  intros Hb Hr. set (t := rc_blocktime (rt_context rt)) in *.
  assert (exists bs, to_bytes blocktime_codec t = Ok bs /\ zlen bs = 8) as (bs & Hbs & Hz)
    by (eexists; split; [reflexivity | done]).
  pose proof (host_writes_run GetBlocktimeIndex host_get_blocktime blocktime_codec t bs rt) as Hrun. rewrite Hz in Hrun.
  apply Hrun; [|by intros p rt' E'; unfold host_get_blocktime, ebind, look; rewrite E' | done | | lia].
  - intros p Hp. eexists. split; [parse_args | reflexivity].
  - by apply (deserialize_serialize blocktime_codec (is_unsigned 64)).
Qed.
(** ** Steps that change nothing *)

(** Only memory is used, and nothing the contract sees changes. *)
Definition idle (cost : Z) rt rt' : Prop := kept cost rt rt' /\ forall k, view rt' k = view rt k.

Lemma idle_memory cost m rt :
  ready rt -> room (rt_memory rt) - cost <= room m -> idle cost rt (set_memory m rt).
Proof. intros Hr Hm. split; [by apply memory_kept | done]. Qed.

Lemma idle_trans c1 c2 rt1 rt2 rt3 : idle c1 rt1 rt2 -> idle c2 rt2 rt3 -> idle (c1 + c2) rt1 rt3.
Proof. intros [K1 V1] [K2 V2]. split; [by eapply kept_trans|]. intros k. by rewrite V2, V1. Qed.

Lemma idle_context cost rt rt' :
  idle cost rt rt' ->
  rc_args (rt_context rt') = rc_args (rt_context rt) /\ get_caller (rt_context rt') = get_caller (rt_context rt).
Proof. by intros [[(s & m & ->) _ _] _]. Qed.
End steps.
