(* ===== verification/LocalCells.v ===== *)
(** Values in the local storage of a contract: a group of cells that hold values
    of one type, read and written through the interface of contracts.  Sources:
    [contract/src/contract_api/storage.rs] over
    [engine-core/src/execution/runtime/mod.rs]. *)

From stdpp Require Import gmap.
From S2P Require Import Prelude BTreeMap Bytesrepr Uint Types CLValues Account StoredValue Transform.
From S2P Require Import Trie TrackingCopy ApiError ProtocolData ExecutionError RuntimeContext ContextSafety.
From S2P Require Import ExtractURefs Runtime HostFunctions RuntimeSafety EngineState ContractApi ContractRuns.

(** * Typed values of bounded size *)

(** The types of the cells that the token and the vesting contract keep: their
    valid values serialize, to at most a hundred bytes. *)
Class CellType {A} (t : CLTyped A) (valid : A -> Prop) : Prop := {
  cell_laws : CodecLaws (clt_codec t) valid;
  cell_type_valid : cl_type_valid (clt_type t);
  cell_type_len : cl_type_serialized_len (clt_type t) <= 32;
  cell_encodes : forall a, valid a -> exists bs, to_bytes (clt_codec t) a = Ok bs /\ 0 < zlen bs <= 100;
}.

Lemma skip_while_length {A} (p : A -> bool) l : (length (skip_while p l) <= length l)%nat.
Proof. induction l as [|x l IH]; cbn; [done|]. destruct (p x); cbn; lia. Qed.

Lemma uint_to_bytes_len n z : (n <= 64)%nat -> exists bs, uint_to_bytes n z = Ok bs /\ 0 < zlen bs <= 100.
Proof.
  intros Hn. eexists. split; [reflexivity|]. unfold zlen. rewrite length_rev, length_app. cbn [length].
  pose proof (skip_while_length (fun b => byte_to_Z b =? 0) (rev (to_le_bytes n z))) as Hl.
  rewrite length_rev, to_le_bytes_length in Hl. lia.
Qed.

#[global] Instance u512_cell : CellType clt_u512 (is_unsigned 512).
Proof. split; [apply _ | done | done |]. intros a _. apply uint_to_bytes_len. lia. Qed.

#[global] Instance u256_cell : CellType clt_u256 (is_unsigned 256).
Proof. split; [apply _ | done | done |]. intros a _. apply uint_to_bytes_len. lia. Qed.

#[global] Instance i32_cell : CellType clt_i32 (is_signed 32).
Proof. split; [apply _ | done | done |]. intros a _. eexists. split; [reflexivity | done]. Qed.

(** Names of at most 96 bytes. *)
Definition short_name (s : bytes) : Prop := utf8_valid s = true /\ zlen s <= 96.

#[global] Instance string_cell : CellType clt_string short_name.
Proof.
  split; [|done..|].
  - intros s bs rest [Hs _]. by apply string_laws.
  - intros s [_ Hl]. cbn. unfold string_to_bytes, str_to_bytes. pose proof (zlen_nonneg s) as Hn.
    unfold vec_u8_to_bytes.
    destruct (Z.geb_spec (zlen s) (u32_max - U32_SERIALIZED_LENGTH)) as [Hbig|_];
      [unfold u32_max, U32_SERIALIZED_LENGTH in Hbig; lia|]. eexists. split; [reflexivity|].
    rewrite zlen_app, zlen_le4. lia.
Qed.

#[global] Instance public_key_cell : CellType clt_public_key (is_bytes 32).
Proof.
  split; [apply (u8_array_laws 32) | done | done |]. intros k Hk. exists k. split; [done|]. unfold zlen. by rewrite Hk.
Qed.

#[global] Instance purse_id_cell : CellType clt_purse_id uref_valid.
Proof.
  split; [apply uref_laws | done | done |]. intros [addr r] [Ha Hr]. cbn in *.
  assert (zlen addr = 32) as Hz by (unfold zlen; by rewrite Ha).
  destruct r as [r|]; eexists; (split; [reflexivity|]); rewrite zlen_app, Hz; done.
Qed.

(** The value as it is stored. *)
Lemma cell_packs {A} (t : CLTyped A) valid `{CellType A t valid} a :
  valid a -> exists v vb, from_t t a = Ok v /\ 0 < zlen (cl_bytes v) <= 100 /\ deserialize (clt_codec t) (cl_bytes v) = Ok a
    /\ cl_value_to_bytes v = Ok vb /\ deserialize cl_value_codec vb = Ok v /\ 0 < zlen vb <= 136.
Proof.
  intros Ha. destruct (cell_encodes a Ha) as (bs & Hb & Hl). pose proof cell_laws as Hc.
  exists (mk_cl_value (clt_type t) bs). unfold from_t. rewrite Hb. cbn.
  assert (exists p, vec_u8_to_bytes bs = Ok p /\ zlen p = 4 + zlen bs) as (p & Hp & Hpl).
  { unfold vec_u8_to_bytes. destruct (Z.geb_spec (zlen bs) (u32_max - U32_SERIALIZED_LENGTH)) as [Hbig|_];
      [unfold u32_max, U32_SERIALIZED_LENGTH in Hbig; lia|]. eexists. split; [reflexivity|].
    rewrite zlen_app. unfold zlen at 1. rewrite to_le_bytes_length. lia. }
  exists (append_bytes (clt_type t) p). split; [done|]. split; [done|].
  split; [by apply (deserialize_serialize (clt_codec t) valid)|].
  assert (cl_value_to_bytes (mk_cl_value (clt_type t) bs) = Ok (append_bytes (clt_type t) p)) as Ev
    by (unfold cl_value_to_bytes; cbn; by rewrite Hp).
  split; [done|]. split.
  - apply (deserialize_serialize cl_value_codec cl_value_valid); [apply cell_type_valid | exact Ev].
  - rewrite append_bytes_enc, zlen_app, cl_type_enc_len. pose proof cell_type_len.
    pose proof (zlen_nonneg (cl_type_enc (clt_type t))) as Hn. rewrite cl_type_enc_len in Hn. lia.
Qed.

(** ** Taking arguments *)

(** The type an argument is read at. *)
Ltac typed_of c :=
  lazymatch c with
  | string_codec => constr:(clt_string)
  | u512_codec => constr:(clt_u512)
  | public_key_codec => constr:(clt_public_key)
  | purse_id_codec => constr:(clt_purse_id)
  end.

(** Runs [get c i], by a lemma that says what it gives. *)
Ltac take_arg gives :=
  lazymatch goal with
  | |- exists m, ebind (?get ?c ?i) _ ?rt = _ /\ _ =>
      let t := typed_of c in
      match goal with
      | A : _ !! Z.to_nat i = Some ?v, Hf : from_t t ?a = Ok ?v |- _ =>
          let m := fresh "m" in let Eg := fresh "Eg" in let Hm := fresh "Hm" in
          destruct (gives _ t _ _ i v a rt A Hf) as (m & Eg & Hm);
          [ first [tauto | done] | unfold is_unsigned; lia | cbn in *; lia
          | rewrite (ebind_run (get c i) _ _ _ _ Eg); clear Eg; cbn in Hm ]
      end
  end.

(** Decides which command a name is. *)
Ltac pick_method :=
  repeat match goal with
  | |- context [bool_decide (?a = ?b)] =>
      let r := eval vm_compute in (bool_decide (a = b)) in
      change (bool_decide (a = b)) with r; cbv iota
  end.

(** ** Keys *)

(** A byte vector as it is serialized. *)
Definition wire_vec (v : bytes) : bytes := to_le_bytes 4 (wrap_unsigned 32 (zlen v)) ++ v.

Lemma vec_wire v : zlen v <= 1000 -> vec_u8_to_bytes v = Ok (wire_vec v).
Proof.
  intros Hl. unfold vec_u8_to_bytes. destruct (Z.geb_spec (zlen v) (u32_max - U32_SERIALIZED_LENGTH)) as [Hb|_]; [|done].
  unfold u32_max, U32_SERIALIZED_LENGTH in Hb. lia.
Qed.

Lemma wire_vec_len v : zlen (wire_vec v) = 4 + zlen v.
Proof. unfold wire_vec. by rewrite zlen_app, zlen_le4. Qed.

Lemma wire_vec_inj v w : wire_vec v = wire_vec w -> v = w.
Proof. intros He. apply app_inj_1 in He; [by destruct He | by rewrite !to_le_bytes_length]. Qed.

(** * The cells *)

Section cells.
Context {L G Mem Module : Type} `{LinkedHashMapLaws L, Rng G} `{MeterLaws} {dbg : DebugText} {qtext : QueryText}.
Context {mtext : MismatchText} {hasher : Hasher} {F : ForeignErrors} `{!Platform Mem Module} {W : WasmValues} {WL : WasmValuesLaws}.
Context {WR : WasmResults} {WRL : WasmResultsLaws} {heap : Heap Mem} `{!HeapView Mem} {HL : HeapLaws Mem Module}.
Context {alloc : Allocator} {layout : Layout} {E : Type}.
Context (reader : Key -> outcome E (option StoredValue)) (into_error : E -> ExecError).
Context (overflow_checks : bool).
Context (invoke_call : Module -> eff (Runtime L G Mem Module) InterpreterError unit).

#[local] Existing Instance host_imports.
#[local] Abbreviation RT := (Runtime L G Mem Module).
Implicit Types rt : RT.

Context {A : Type} (t : CLTyped A) (valid : A -> Prop) {CT : CellType t valid}.

(** The value of a cell, as a contract reads it. *)
Definition cell rt (kb : bytes) : option A :=
  match view reader rt (local_key rt kb) with
  | Ok (Some (SV_CLValue v)) => match deserialize (clt_codec t) (cl_bytes v) with Ok a => Some a | _ => None end
  | _ => None
  end.

(** A cell is empty or holds a value of the type. *)
Definition cell_ok rt (kb : bytes) : Prop :=
  view reader rt (local_key rt kb) = Ok None
  \/ exists a v, valid a /\ from_t t a = Ok v /\ view reader rt (local_key rt kb) = Ok (Some (SV_CLValue v)).

(** Cells the contract can use [n] more times: there is memory for that, and no
    two of them share an address. *)
Record serving (cells : list bytes) (n : nat) rt : Prop := {
  sv_ready : ready reader rt;
  sv_room : Z.of_nat n * 256 <= room (rt_memory rt);
  sv_cells : forall kb, In kb cells -> 0 < zlen kb <= 100 /\ cell_ok rt kb;
  sv_apart : forall kb kb', In kb cells -> In kb' cells -> local_key rt kb = local_key rt kb' -> kb = kb';
}.

Lemma serving_less cells n m rt : (m <= n)%nat -> serving cells n rt -> serving cells m rt.
Proof. intros Hm [Hr Ho Hc Ha]. split; [done | lia | done..]. Qed.

(** Cells survive what changes nothing they hold. *)
Lemma serving_same cells n m cost rt rt' :
  serving cells n rt -> kept reader cost rt rt' -> (forall kb, In kb cells -> view reader rt' (local_key rt kb) = view reader rt (local_key rt kb)) ->
  Z.of_nat m * 256 + cost <= Z.of_nat n * 256 ->
  serving cells m rt' /\ forall kb, In kb cells -> cell rt' kb = cell rt kb.
Proof.
  intros [Hr Ho Hc Ha] Hk Hv Hm. pose proof (fun kb => kept_local_key reader cost rt rt' kb Hk) as Hl.
  split; [split|].
  - by eapply kept_ready.
  - pose proof (kept_room _ _ _ _ Hk). lia.
  - intros kb Hin. destruct (Hc kb Hin) as [Hz Hok]. split; [done|]. unfold cell_ok in *. by rewrite Hl, Hv.
  - intros kb kb'. rewrite !Hl. apply Ha.
  - intros kb Hin. unfold cell. by rewrite Hl, Hv.
Qed.

Lemma cell_view rt kb :
  cell_ok rt kb ->
  (view reader rt (local_key rt kb) = Ok None /\ cell rt kb = None)
  \/ exists a v, valid a /\ cell rt kb = Some a /\ view reader rt (local_key rt kb) = Ok (Some (SV_CLValue v))
       /\ 0 < zlen (cl_bytes v) <= 100 /\ deserialize (clt_codec t) (cl_bytes v) = Ok a.
Proof.
  unfold cell. intros [Hv|(a & v & Ha & Hf & Hv)]; rewrite Hv; [by left|]. right.
  destruct (cell_packs t valid a Ha) as (v' & vb & Hf' & Hl & Hd & _). rewrite Hf in Hf'. apply Ok_inj in Hf' as <-.
  exists a, v. rewrite Hd. done.
Qed.

Lemma cell_valid rt kb a : cell_ok rt kb -> cell rt kb = Some a -> valid a.
Proof. intros [(_ & Hc)|(a' & v & Ha & Hc & _)]%cell_view Hs; congruence. Qed.

Lemma read_cell_run {K} (ck : Codec K) key kb cells n rt :
  serving cells (S n) rt -> In kb cells -> to_bytes ck key = Ok kb ->
  exists rt', @storage.read_local _ _ _ _ _ _ _ _ _ (host_imports reader into_error overflow_checks invoke_call) _ _
      ck (clt_codec t) key rt = (Ok (inl (cell rt kb)), rt')
    /\ kept reader 256 rt rt' /\ serving cells n rt' /\ forall k, view reader rt' k = view reader rt k.
Proof.
  intros Hs Hin Hk. destruct (sv_cells _ _ _ Hs kb Hin) as [Hz Hok]. pose proof (sv_room _ _ _ Hs) as Hr.
  assert (exists found, view reader rt (local_key rt kb) = Ok (SV_CLValue <$> found)
    /\ match found, cell rt kb with
       | Some v, Some a => 0 < zlen (cl_bytes v) <= 100 /\ deserialize (clt_codec t) (cl_bytes v) = Ok a
       | None, None => True
       | _, _ => False
       end) as (found & Hv & Hf).
  { destruct (cell_view rt kb Hok) as [(Hv & ->)|(a & v & _ & -> & Hv & Hl & Hd)]; [by exists None | by exists (Some v)]. }
  destruct (read_local_run reader into_error overflow_checks invoke_call ck (clt_codec t) key kb found (cell rt kb) rt Hk
    (sv_ready _ _ _ Hs) Hv) as (rt' & Er & Hkept & Hview).
  - destruct found as [v|], (cell rt kb) as [a|]; try done; [|lia]. destruct Hf as [Hl Hd]. unfold is_unsigned.
    split_and!; [lia.. | done | lia].
  - lia.
  - exists rt'. split; [done|]. assert (kept reader 256 rt rt') as Hk'.
    { eapply kept_more; [exact Hkept|]. destruct found as [v|], (cell rt kb) as [a|]; try done; lia. }
    split; [done|]. split; [|done]. eapply serving_same; [exact Hs | exact Hk' | by intros | lia].
Qed.

Lemma write_cell_run {K} (ck : Codec K) key kb a cells n rt :
  serving cells (S n) rt -> In kb cells -> to_bytes ck key = Ok kb -> valid a ->
  exists rt', @storage.write_local _ _ _ _ _ _ _ _ _ (host_imports reader into_error overflow_checks invoke_call) _ _
      ck t key a rt = (Ok tt, rt')
    /\ kept reader 256 rt rt' /\ serving cells n rt'
    /\ (forall kb', In kb' cells -> cell rt' kb' = if decide (kb' = kb) then Some a else cell rt kb')
    /\ forall k, k <> local_key rt kb -> view reader rt' k = view reader rt k.
Proof.
  intros Hs Hin Hk Ha. destruct (sv_cells _ _ _ Hs kb Hin) as [Hz Hok]. pose proof (sv_room _ _ _ Hs) as Hr.
  destruct (cell_packs t valid a Ha) as (v & vb & Hf & Hl & Hd & Hvb & Hdv & Hlv).
  destruct (write_local_run reader into_error overflow_checks invoke_call ck t key a kb v vb rt Hk Hf Hvb Hdv
    (ready_inv _ _ (sv_ready _ _ _ Hs))) as (rt' & Ew & Hkept & Hview); [lia..|].
  assert (kept reader 256 rt rt') as Hk' by (eapply kept_more; [exact Hkept | lia]).
  pose proof (fun kb => kept_local_key reader _ rt rt' kb Hkept) as Hlk.
  assert (forall kb', In kb' cells -> view reader rt' (local_key rt' kb')
    = if decide (kb' = kb) then Ok (Some (SV_CLValue v)) else view reader rt (local_key rt kb')) as Hat.
  { intros kb' Hin'. rewrite Hlk, Hview. destruct (decide (kb' = kb)) as [->|Hne]; [by rewrite decide_True|].
    rewrite decide_False; [done|]. intros He. apply Hne. by apply (sv_apart _ _ _ Hs). }
  exists rt'. split; [done|]. split; [done|]. split; [split|split].
  - eapply kept_ready; [exact Hkept | apply Hs].
  - pose proof (kept_room _ _ _ _ Hk'). lia.
  - intros kb' Hin'. destruct (sv_cells _ _ _ Hs kb' Hin') as [Hz' Hok']. split; [done|]. unfold cell_ok in *.
    rewrite Hat by done. case_decide; [right; by exists a, v | exact Hok'].
  - intros x y. rewrite !Hlk. apply Hs.
  - intros kb' Hin'. unfold cell. rewrite Hat by done. case_decide; [by rewrite Hd | done].
  - intros k Hne. rewrite Hview. by case_decide.
Qed.

(** A typed argument arrives. *)
Lemma typed_arg_run i v a rt :
  rc_args (rt_context rt) !! Z.to_nat i = Some v -> from_t t a = Ok v -> valid a -> is_unsigned 32 i ->
  104 <= room (rt_memory rt) ->
  exists m, @runtime.get_arg _ _ _ _ _ _ _ _ _ (host_imports reader into_error overflow_checks invoke_call) _
      (clt_codec t) i rt = (Ok (Some (inl a)), set_memory m rt)
    /\ room (rt_memory rt) - 104 <= room m.
Proof.
  intros Hi Hf Ha Hu Hr. destruct (cell_packs t valid a Ha) as (v' & vb & Hf' & Hl & Hd & _).
  rewrite Hf in Hf'. apply Ok_inj in Hf' as <-.
  destruct (get_arg_run reader into_error overflow_checks invoke_call (clt_codec t) i v a rt Hi Hu) as (m & Eg & Hm);
    [unfold is_unsigned; lia | lia | done | lia |].
  exists m. split; [done | lia].
Qed.
End cells.

(** * Local storage *)

Section storage.
Context {L G Mem Module : Type} `{LinkedHashMapLaws L, Rng G} `{MeterLaws} {dbg : DebugText} {qtext : QueryText}.
Context {mtext : MismatchText} {hasher : Hasher} {F : ForeignErrors} `{!Platform Mem Module} {W : WasmValues} {WL : WasmValuesLaws}.
Context {WR : WasmResults} {WRL : WasmResultsLaws} {heap : Heap Mem} `{!HeapView Mem} {HL : HeapLaws Mem Module}.
Context {alloc : Allocator} {layout : Layout} {E : Type}.
Context (reader : Key -> outcome E (option StoredValue)) (into_error : E -> ExecError).
Context (overflow_checks : bool).
Context (invoke_call : Module -> eff (Runtime L G Mem Module) InterpreterError unit).
Implicit Types rt : Runtime L G Mem Module.

#[local] Abbreviation read_local :=
  (@storage.read_local _ _ _ _ _ _ _ _ _ (host_imports reader into_error overflow_checks invoke_call) _ _).
#[local] Abbreviation write_local :=
  (@storage.write_local _ _ _ _ _ _ _ _ _ (host_imports reader into_error overflow_checks invoke_call) _ _).

(** What a cell holds, as it is stored and as it is read at some type, and the memory
    that reading it takes. *)
Definition holds_value {B} (c : Codec B) rt kb (found : option CLValue) (o : option B) : Prop :=
  view reader rt (local_key rt kb) = Ok (SV_CLValue <$> found)
  /\ match found, o with
     | Some v, Some b => 0 < zlen (cl_bytes v) /\ is_unsigned 32 (zlen (cl_bytes v)) /\ deserialize c (cl_bytes v) = Ok b
     | None, None => True
     | _, _ => False
     end.

Definition read_cost (kb : bytes) (found : option CLValue) : Z :=
  zlen kb + match found with Some v => zlen (cl_bytes v) + 8 | None => 4 end.

Lemma read_holding {K B} (ck : Codec K) (c : Codec B) key kb found o rt :
  ready reader rt -> to_bytes ck key = Ok kb -> 0 < zlen kb -> holds_value c rt kb found o ->
  read_cost kb found <= room (rt_memory rt) ->
  exists rt', read_local ck c key rt = (Ok (inl o), rt') /\ forall k, view reader rt' k = view reader rt k.
Proof.
  intros Hrd Hk Hz [Hv Hf] Hr. unfold read_cost in Hr.
  destruct (read_local_run reader into_error overflow_checks invoke_call ck c key kb found o rt Hk Hrd Hv) as (rt' & Er & _ & Hw);
    [|done|by exists rt'].
  destruct found, o; try done; try lia. destruct Hf as (? & ? & ?). split_and!; [done..|lia].
Qed.

(** A value that is packed fits its length field, and unpacks. *)
Lemma packed_value {A} (t : CLTyped A) valid `{!CodecLaws (clt_codec t) valid} a v vb :
  cl_type_valid (clt_type t) -> valid a -> from_t t a = Ok v -> cl_value_to_bytes v = Ok vb ->
  is_unsigned 32 (zlen (cl_bytes v)) /\ deserialize (clt_codec t) (cl_bytes v) = Ok a
  /\ deserialize cl_value_codec vb = Ok v /\ zlen (cl_bytes v) < zlen vb.
Proof.
  intros Ht Ha Hf Hb. unfold from_t in Hf. apply obind_ok in Hf as (bs & Hbs & <-%Ok_inj). cbn [cl_bytes].
  destruct (to_bytes (clt_codec t) a) as [bs'| |] eqn:Ea; try done. apply Ok_inj in Hbs as ->.
  unfold cl_value_to_bytes in Hb. cbn in Hb. unfold vec_u8_to_bytes in Hb.
  destruct (Z.geb_spec (zlen bs) (u32_max - U32_SERIALIZED_LENGTH)) as [|Hl]; [done|]. cbn in Hb.
  pose proof (zlen_nonneg bs) as Hn.
  split; [unfold is_unsigned, u32_max, U32_SERIALIZED_LENGTH in *; lia|].
  split; [by apply (deserialize_serialize (clt_codec t) valid)|].
  split.
  - apply (deserialize_serialize cl_value_codec cl_value_valid); [exact Ht|]. cbn. unfold cl_value_to_bytes. cbn.
    unfold vec_u8_to_bytes. destruct (Z.geb_spec (zlen bs) (u32_max - U32_SERIALIZED_LENGTH)); [lia | exact Hb].
  - apply Ok_inj in Hb as <-. rewrite append_bytes_enc, !zlen_app, zlen_le4. pose proof (zlen_nonneg (cl_type_enc (clt_type t))). lia.
Qed.

(** C22: a contract's local storage is a map. A value of any type, under a key of
    any type, whose serialized forms are not empty and fit the memory that the
    contract has left, is written; it is then read back under its key, what any
    other key holds is read as before, at whatever type it is read, and no other
    key of the global state changes. On the way the value crosses the memory of the
    contract, the arguments of the host functions, the tracking copy and the host
    buffer. *)
Theorem contract_local_storage {K A} (ck : Codec K) (t : CLTyped A) valid `{!CodecLaws (clt_codec t) valid} key kb a v vb rt :
  ready reader rt -> cl_type_valid (clt_type t) -> valid a ->
  to_bytes ck key = Ok kb -> from_t t a = Ok v -> cl_value_to_bytes v = Ok vb ->
  0 < zlen kb -> 0 < zlen (cl_bytes v) -> zlen kb + zlen vb <= room (rt_memory rt) ->
  exists rt1, write_local ck t key a rt = (Ok tt, rt1)
    /\ (forall k, k <> local_key rt kb -> view reader rt1 k = view reader rt k)
    /\ (zlen kb + zlen vb + read_cost kb (Some v) <= room (rt_memory rt) ->
        exists rt2, read_local ck (clt_codec t) key rt1 = (Ok (inl (Some a)), rt2)
          /\ forall k, view reader rt2 k = view reader rt1 k)
    /\ (forall B (c : Codec B) key' kb' found o,
        to_bytes ck key' = Ok kb' -> 0 < zlen kb' -> local_key rt kb' <> local_key rt kb ->
        holds_value c rt kb' found o -> zlen kb + zlen vb + read_cost kb' found <= room (rt_memory rt) ->
        exists rt2, read_local ck c key' rt1 = (Ok (inl o), rt2) /\ forall k, view reader rt2 k = view reader rt1 k).
Proof.
  intros Hrd Ht Ha Hk Hf Hb Hzk Hzv Hr. destruct (packed_value t valid a v vb Ht Ha Hf Hb) as (Hu & Hd & Hdv & Hl).
  destruct (write_local_run reader into_error overflow_checks invoke_call ck t key a kb v vb rt Hk Hf Hb Hdv
    (ready_inv _ _ Hrd)) as (rt1 & Ew & Hkept & Hview); [lia..|].
  pose proof (kept_ready reader _ _ _ Hkept Hrd) as Hrd1. pose proof (kept_room _ _ _ _ Hkept) as Hroom.
  pose proof (fun kb => kept_local_key reader _ rt rt1 kb Hkept) as Hlk.
  exists rt1. split; [done|]. split; [intros k Hne; rewrite Hview; by case_decide|]. split.
  - intros Hc. apply (read_holding ck (clt_codec t) key kb (Some v) (Some a)); [done..| |lia].
    split; [|done]. by rewrite Hlk, Hview, decide_True.
  - intros B c key' kb' found o Hk' Hz' Hne [Hv Ho] Hc. apply (read_holding ck c key' kb' found o); [done..| |lia].
    split; [|done]. by rewrite Hlk, Hview, decide_False.
Qed.
End storage.
