(* ===== verification/URefCells.v ===== *)
(** Values behind references: reading, writing and adding through the interface of
    contracts, with the rights the host checks.  Sources:
    [contract/src/contract_api/storage.rs] over
    [engine-core/src/execution/runtime/mod.rs] and
    [engine-core/src/runtime_context/mod.rs]. *)

From stdpp Require Import gmap.
From S2P Require Import Prelude BTreeMap Bytesrepr Uint Types CLValues Account StoredValue Transform.
From S2P Require Import Trie TrackingCopy ApiError ProtocolData ExecutionError RuntimeContext ContextSafety.
From S2P Require Import ExtractURefs Runtime HostFunctions RuntimeSafety EngineState ContractApi ContractRuns LocalCells.

(** * Keys and references as typed values *)

Lemma key_wire k : key_valid k -> exists kb, to_bytes key_codec k = Ok kb /\ deserialize key_codec kb = Ok k /\ 0 < zlen kb <= 100.
Proof.
  intros Hk. destruct (key_to_bytes_total k) as (kb & Hb). exists kb. split; [exact Hb|].
  split; [by apply (deserialize_serialize key_codec key_valid)|].
  destruct (key_to_bytes_len k kb Hk Hb) as [[Hl Hm] _]. assert (key_serialized_size_hint <= 100) by done.
  split; [|lia]. destruct k as [b|b|[b [r|]]|b]; cbn in Hb; injection Hb as <-; unfold zlen; cbn [length]; lia.
Qed.

#[global] Instance key_cell : CellType clt_key key_valid.
Proof.
  split; [apply key_laws | done | done |]. intros k Hk. destruct (key_wire k Hk) as (kb & Hb & _ & Hl). by exists kb.
Qed.

#[global] Instance uref_cell : CellType clt_uref uref_valid.
Proof. apply purse_id_cell. Qed.

Lemma from_t_type {A} (t : CLTyped A) a v : from_t t a = Ok v -> cl_type v = clt_type t.
Proof. unfold from_t. destruct (to_bytes (clt_codec t) a); cbn; [by intros [= <-] | done..]. Qed.

(** A stored value is read back, so it comes from one value only. *)
Lemma from_t_reads {A} (t : CLTyped A) valid `{CellType A t valid} a v :
  valid a -> from_t t a = Ok v -> deserialize (clt_codec t) (cl_bytes v) = Ok a.
Proof. intros Ha Hf. destruct (cell_packs t valid a Ha) as (v' & _ & Hf' & _ & Hd & _). congruence. Qed.

Lemma from_t_inj {A} (t : CLTyped A) valid `{CellType A t valid} a b v :
  valid a -> valid b -> from_t t a = Ok v -> from_t t b = Ok v -> a = b.
Proof. intros Ha Hb Ea Eb. apply (from_t_reads t valid) in Ea, Eb; [congruence|done..]. Qed.

(** The sum of two numbers as the host adds them. *)
Lemma u512_added {dbg : DebugText} x y v w :
  is_unsigned 512 x -> is_unsigned 512 y -> from_t clt_u512 x = Ok v -> from_t clt_u512 y = Ok w ->
  exists u, from_t clt_u512 (wrap_unsigned 512 (x + y)) = Ok u
    /\ added (SV_CLValue w) (SV_CLValue v) = Ok (inl (AddUInt512 y, SV_CLValue u)).
Proof.
  intros Hx Hy Hv Hw. destruct (from_t_num NU512 x Hx) as (v' & Ev & Tv & Ix). destruct (from_t_num NU512 y Hy) as (w' & Ew & Tw & Iy).
  cbn [clt_num] in *. rewrite Hv in Ev. rewrite Hw in Ew. apply Ok_inj in Ev. apply Ok_inj in Ew. subst v' w'.
  apply clt_num_type in Tv, Tw. cbn [clt_num clt_type clt_u512] in Tv, Tw.
  destruct (from_t_num NU512 (wrap_unsigned 512 (x + y)) (wrap_unsigned_range 512 (x + y) ltac:(lia))) as (u & Eu & _). exists u.
  split; [exact Eu|]. unfold added, add_transform. rewrite Tw. unfold add_numeric. cbn [clt_num]. rewrite Iy.
  unfold apply_transform, wrapping_addition. cbn [try_into_cl_value omap_err obind]. rewrite Tv.
  cbn [num_of_cl_type]. unfold do_wrapping_addition. cbn [clt_num]. rewrite Ix. cbn [omap_err obind].
  assert (num_wrapping_add NU512 x (as_ NU512 NU512 y) = wrap_unsigned 512 (x + y)) as ->.
  { unfold num_wrapping_add. rewrite (as_num_wrap NU512 NU512) by exact Hy. by rewrite num_wrap_add_r. }
  cbn [clt_num] in Eu. by rewrite Eu.
Qed.

Section references.
Context {L G Mem Module : Type} `{LinkedHashMapLaws L, Rng G} `{MeterLaws} {dbg : DebugText} {qtext : QueryText}.
Context {mtext : MismatchText} {hasher : Hasher} {F : ForeignErrors} `{!Platform Mem Module} {W : WasmValues} {WL : WasmValuesLaws}.
Context {WR : WasmResults} {WRL : WasmResultsLaws} {heap : Heap Mem} `{!HeapView Mem} {HL : HeapLaws Mem Module}.
Context {alloc : Allocator} {layout : Layout} {E : Type}.
Context (reader : Key -> outcome E (option StoredValue)) (into_error : E -> ExecError).
Context (overflow_checks : bool).
Context (invoke_call : Module -> eff (Runtime L G Mem Module) InterpreterError unit).

#[local] Abbreviation RT := (Runtime L G Mem Module).
#[local] Hint Extern 0 (Imports _ _ _ _) =>
  exact (host_imports reader into_error overflow_checks invoke_call) : typeclass_instances.
Implicit Types rt : RT.

(** Where the value behind a reference is. *)
Definition cell_key (addr : bytes) : Key := Key_URef (mk_uref addr None).

(** The contract has been given these rights. *)
Definition granted rt (u : URef) : Prop := uref_valid u /\ validate_uref u (rt_context rt) = Ok tt.

Lemma kept_granted cost rt rt' u : kept reader cost rt rt' -> granted rt u -> granted rt' u.
Proof. by intros [(s & m & ->) _ _]. Qed.

Lemma to_ptr_vec {A B} (c : Codec A) a bs (f : Z * Z -> eff RT InterpreterError B) rt :
  to_bytes c a = Ok bs -> ebind (to_ptr c a) f rt = (let! p := vec_ptr bs in f (p, zlen bs)) rt.
Proof.
  intros Hb. unfold to_ptr, outcome_or_revert, ebind. rewrite Hb. cbn. by destruct (vec_ptr bs rt) as [[p|e|] rt'].
Qed.

(** Reading through a reference. *)
Lemma read_uref_run {A} (t : CLTyped A) valid `{CellType A t valid} u r a v rt :
  turef.from_uref u = inl r -> granted rt u -> uref_is_readable u = true -> ready reader rt ->
  valid a -> from_t t a = Ok v -> view reader rt (cell_key (uref_addr u)) = Ok (Some (SV_CLValue v)) ->
  256 <= room (rt_memory rt) ->
  exists rt', storage.read (clt_codec t) r rt = (Ok (inl (Some a)), rt')
    /\ idle reader 256 rt rt'.
Proof.
  intros Hr [Hu Hg] Hread Hrd Ha Hf Hv Hroom. destruct (cell_packs t valid a Ha) as (v' & vb & Hf' & Hl & Hd & _).
  rewrite Hf in Hf'. apply Ok_inj in Hf' as <-.
  assert (turef.into_key r = Key_URef u) as Ek.
  { destruct u as [addr [rights|]]; cbn in Hr; [|done]. by injection Hr as <-. }
  destruct (key_wire (Key_URef u) Hu) as (kb & Hkb & Hdk & Hlk).
  destruct (tc_read_view reader (Key_URef u) (rc_state (rt_context rt)) (ready_inv _ rt Hrd)) as (s & Er & Hi' & Hsv).
  change (normalize (Key_URef u)) with (cell_key (uref_addr u)) in Er. unfold view in Hv. rewrite Hv in Er.
  destruct (read_value_run reader into_error overflow_checks invoke_call ReadFuncIndex (host_read reader into_error)
    (clt_codec t) kb (Some v) (Some a) s rt) as (rt' & Erun & Hk & Hview); [| |done..| |lia|].
  - intros p n q Hp Hn Hq. eexists. split; [parse_args | reflexivity].
  - intros p q slot rt2 Ho Ec Hb. unfold host_read, with_empty_buf, can_write_to_host_buf. rewrite Hb.
    rewrite (ebind_run _ _ _ (Key_URef u) rt2); [|apply trap_ok; eapply value_from_mem_run; [exact Ho | cbn; auto | exact Hdk]].
    assert (on_context (Mem := Mem) (Module := Module) (read_gs reader into_error (Key_URef u)) rt2
      = (Ok (Some (SV_CLValue v)), set_context (set_state s (rt_context rt)) rt2)) as Hc.
    { unfold on_context, read_gs, ask, on_state, ebind, validate_readable. cbn [is_readable validate_key].
      rewrite Ec, Hread, Hg. by rewrite Er. }
    by erewrite ebind_run; [|apply trap_ok; exact Hc].
  - unfold is_unsigned. split_and!; [lia.. | done | lia].
  - exists rt'. split; [|split; [eapply kept_more; [exact Hk | lia] | done]].
    unfold storage.read. rewrite Ek, (to_ptr_vec key_codec (Key_URef u) kb) by done. exact Erun.
Qed.
(** A host function that changes the value behind a reference. *)
Lemma change_uref_run f (host : Z -> Z -> Z -> Z -> eff RT InterpreterError unit) u r a v w s rt :
  (forall p n q k, is_unsigned 32 p -> is_unsigned 32 n -> is_unsigned 32 q -> is_unsigned 32 k ->
     exists call, parse_call f (i32_args [p; n; q; k]) = Ok call
     /\ run_call reader into_error overflow_checks invoke_call call = returns_nothing (host p n q k)) ->
  (forall p n q k rt2, value_from_mem key_codec p n rt2 = (Ok (Key_URef u), rt2) ->
     value_from_mem cl_value_codec q k rt2 = (Ok v, rt2) -> rt_context rt2 = rt_context rt ->
     host p n q k rt2 = (Ok tt, set_context (set_state s (rt_context rt)) rt2)) ->
  tc_inv reader s -> (forall k, tc_view reader s k = if decide (k = cell_key (uref_addr u)) then Ok (Some w) else view reader rt k) ->
  turef.from_uref u = inl r -> uref_valid u -> is_unsigned 512 a -> from_t clt_u512 a = Ok v ->
  256 <= room (rt_memory rt) ->
  exists rt', (let! '(key_ptr, key_size) := to_ptr key_codec (turef.into_key r) in
               let! cl_value := cl_value_of clt_u512 a in
               let! '(cl_value_ptr, cl_value_size) := to_ptr cl_value_codec cl_value in
               let! _ := ext_ffi f [key_ptr; key_size; cl_value_ptr; cl_value_size] in
               eret tt) rt = (Ok tt, rt')
    /\ kept reader 256 rt rt'
    /\ forall k, view reader rt' k = if decide (k = cell_key (uref_addr u)) then Ok (Some w) else view reader rt k.
Proof.
  intros Hcall Hhost Hi Hs Hr Hu Ha Hf Hroom. destruct (cell_packs clt_u512 (is_unsigned 512) a Ha) as (v' & vb & Hf' & _ & _ & Hvb & Hdv & Hlv).
  rewrite Hf in Hf'. apply Ok_inj in Hf' as <-.
  assert (turef.into_key r = Key_URef u) as ->.
  { destruct u as [addr [rights|]]; cbn in Hr; [|done]. by injection Hr as <-. }
  destruct (key_wire (Key_URef u) Hu) as (kb & Hkb & Hdk & Hlk).
  destruct (write_value_run reader into_error overflow_checks invoke_call f host key_codec clt_u512 (Key_URef u) a kb v vb s rt)
    as (rt' & Erun & Hk & Es); [done | |done.. | lia | lia | lia |].
  - intros p q rt2 Ho Ec. apply Hhost; [eapply value_from_mem_run.. | done];
      [exact Ho | cbn; auto | exact Hdk | exact Ho | cbn; auto | exact Hdv].
  - exists rt'. split; [exact Erun|]. split; [eapply kept_more; [exact Hk | lia]|]. intros k. unfold view at 1. by rewrite Es.
Qed.

(** Writing through a reference. *)
Lemma write_uref_run u r a v rt :
  turef.from_uref u = inl r -> granted rt u -> uref_is_writeable u = true -> ready reader rt ->
  is_unsigned 512 a -> from_t clt_u512 a = Ok v -> 256 <= room (rt_memory rt) ->
  exists rt', storage.write clt_u512 r a rt = (Ok tt, rt') /\ kept reader 256 rt rt'
    /\ forall k, view reader rt' k = if decide (k = cell_key (uref_addr u)) then Ok (Some (SV_CLValue v)) else view reader rt k.
Proof.
  intros Hr [Hu Hg] Hwr Hrd Ha Hf Hroom.
  destruct (tc_write_view reader (Key_URef u) (SV_CLValue v) _ (ready_inv _ rt Hrd)) as [Hi' Hview].
  eapply (change_uref_run WriteFuncIndex host_write u r a v); [| |exact Hi'|exact Hview|done..].
  - intros p n q k Hp Hn Hq Hk. eexists. split; [parse_args | reflexivity].
  - intros p n q k rt2 E1 E2 Ec. unfold host_write.
    rewrite (ebind_run _ _ _ _ _ (proj2 (trap_ok _ _ _ _) E1)), (ebind_run _ _ _ _ _ (proj2 (trap_ok _ _ _ _) E2)).
    apply trap_ok. unfold on_context, write_gs, ask, ebind, validate_writeable. cbn [is_writeable validate_key].
    rewrite Ec, Hwr, Hg. pose proof (from_t_type clt_u512 a v Hf : cl_type v = CL_U512) as Ht.
    unfold validate_value. by rewrite Ht.
Qed.

(** Adding through a reference: the sum wraps around. *)
Lemma add_uref_run u r a x v w rt :
  turef.from_uref u = inl r -> granted rt u -> uref_is_addable u = true -> ready reader rt ->
  is_unsigned 512 a -> from_t clt_u512 a = Ok v -> is_unsigned 512 x -> from_t clt_u512 x = Ok w ->
  view reader rt (cell_key (uref_addr u)) = Ok (Some (SV_CLValue w)) -> 256 <= room (rt_memory rt) ->
  exists rt' z, storage.add clt_u512 r a rt = (Ok tt, rt') /\ kept reader 256 rt rt'
    /\ from_t clt_u512 (wrap_unsigned 512 (x + a)) = Ok z
    /\ forall k, view reader rt' k = if decide (k = cell_key (uref_addr u)) then Ok (Some (SV_CLValue z)) else view reader rt k.
Proof.
  intros Hr [Hu Hg] Had Hrd Ha Hf Hx Hw Hv Hroom. destruct (u512_added x a w v Hx Ha Hw Hf) as (z & Hz & Hadd).
  destruct (tc_add_spec reader (Key_URef u) (SV_CLValue v) _ (ready_inv _ rt Hrd)) as (res & s & Es & Hi' & Hres).
  change (normalize (Key_URef u)) with (cell_key (uref_addr u)) in Hres. unfold view in Hv. rewrite Hv, Hadd in Hres.
  destruct Hres as (-> & Hm & _).
  destruct (change_uref_run AddFuncIndex (host_add reader into_error) u r a v (SV_CLValue z) s rt) as (rt' & Er & Hk & Hview);
    [| |exact Hi'| |done..|].
  - intros p n q k Hp Hn Hq Hk. eexists. split; [parse_args | reflexivity].
  - intros p n q k rt2 E1 E2 Ec. unfold host_add.
    rewrite (ebind_run _ _ _ _ _ (proj2 (trap_ok _ _ _ _) E1)), (ebind_run _ _ _ _ _ (proj2 (trap_ok _ _ _ _) E2)).
    apply trap_ok. unfold on_context, add_gs, add_unsafe, on_state, ask, ebind, validate_addable. cbn [is_addable validate_key].
    rewrite Ec, Had, Hg. pose proof (from_t_type clt_u512 a v Hf : cl_type v = CL_U512) as Ht.
    unfold validate_value. rewrite Ht. by rewrite Es.
  - intros k. exact (muts_insert_view reader (Key_URef u) (SV_CLValue z) (rc_state (rt_context rt)) s Hm k).
  - by exists rt', z.
Qed.
End references.
