(* ===== verification/SystemContracts.v ===== *)
(** The mint and proof of stake as deployed contracts: what they ask of their
    host goes through the interface of contracts, and a method is chosen by the
    first argument.  Sources: [contracts/system/mint-token/src/lib.rs],
    [contract_runtime.rs] and [contract_storage.rs] beside it;
    [contracts/system/pos/src/lib.rs], [contract_mint.rs], [contract_queue.rs],
    [contract_runtime.rs] and [contract_stakes.rs] beside it. *)

From stdpp Require Import gmap.
From S2P Require Import Prelude BTreeMap Bytesrepr Uint Types CLValues StoredValue.
From S2P Require Import Trie TrackingCopy ApiError ExecutionError RuntimeContext ExtractURefs Runtime HostFunctions.
From S2P Require Mint ProofOfStake.
From S2P Require Import Stakes PosContract ContractApi.

(** * Code with its own errors in a contract *)

Section machine.
Context {L G Mem Module : Type} {F : ForeignErrors}.

#[local] Abbreviation RT := (Runtime L G Mem Module).
#[local] Abbreviation T A := (eff RT InterpreterError A).

(** How a call of the host ended the run. *)
Inductive Stop := Trapped (e : InterpreterError) | HostPanic.

(** The runtime under code that returns errors of its own: once the host has ended
    the run nothing more is executed, and the reason is kept. *)
Record Machine := mk_machine { machine_runtime : RT; machine_stop : option Stop }.

(** A call of the interface whose result is an error of the code. *)
Definition call_result_of {X A} (m : T (A + X)) : eff Machine X A := fun s =>
  match m (machine_runtime s) with
  | (Ok (inl a), rt) => (Ok a, mk_machine rt None)
  | (Ok (inr e), rt) => (Err e, mk_machine rt None)
  | (Err trap, rt) => (Panic, mk_machine rt (Some (Trapped trap)))
  | (Panic, rt) => (Panic, mk_machine rt (Some HostPanic))
  end.

(** A call that has no error of the code. *)
Definition call_of {X A} (m : T A) : eff Machine X A := call_result_of (let! a := m in eret (inl a)).

(** The code as a part of the contract: a panic of its own aborts. *)
Definition contract_code {X A} (m : eff Machine X A) : T (A + X) := fun rt =>
  match m (mk_machine rt None) with
  | (Ok a, s) => (Ok (inl a), machine_runtime s)
  | (Err e, s) => (Ok (inr e), machine_runtime s)
  | (Panic, s) =>
      (match machine_stop s with
       | Some (Trapped e) => Err e
       | Some HostPanic => Panic
       | None => Err IE_Unreachable
       end, machine_runtime s)
  end.
End machine.

Arguments Machine : clear implicits.
Arguments Machine L G Mem Module {F}.

Section contracts.
Context {L G Mem Module : Type} {F : ForeignErrors} `{!Platform Mem Module} {W : WasmValues} {WR : WasmResults}.
Context {heap : Heap Mem} {imports : Imports L G Mem Module} {alloc : Allocator}.

#[local] Abbreviation T A := (eff (Runtime L G Mem Module) InterpreterError A).
#[local] Abbreviation MT := (Machine L G Mem Module).

(** [runtime::get_arg(i)] with [MissingArgument] and [InvalidArgument]. *)
Definition get_arg_or_revert {A} (c : Codec A) (i : Z) : T A :=
  let! arg := runtime.get_arg c i in
  let! r := option_or_revert_with Api_MissingArgument arg in
  unwrap_or_revert_with Api_InvalidArgument r.

(** [CLValue::from_t(value).unwrap_or_revert()], given to [ret]. *)
Definition return_value {A} (c : CLTyped A) (a : A) : T unit :=
  let! v := cl_value_of c a in runtime.ret v.

(** * The mint *)

(** [Result<T, bytesrepr::Error>] with [map_err(|_| Error::StorageError)]. *)
Definition or_storage_error {A} (m : T (A + Error)) : T (A + Mint.MintError) :=
  let! r := m in
  eret (match r with inl a => inl a | inr _ => inr Mint.StorageError end).

(** [TURef::from_uref(uref).map_err(|_| Error::InvalidAccessRights)?]. *)
Definition with_turef {A} (uref : URef) (m : turef.TURef -> T (A + Mint.MintError)) : T (A + Mint.MintError) :=
  match turef.from_uref uref with
  | inl t => m t
  | inr _ => eret (inr Mint.InvalidAccessRights)
  end.

(** [ContractStorage]. *)
#[export] Instance ContractStorage : Mint.StorageProvider MT := {
  new_uref_u512 init := call_of (let! t := storage.new_turef clt_u512 init in eret (turef.into_uref t));
  new_uref_unit := call_of (let! t := storage.new_turef clt_unit tt in eret (turef.into_uref t));
  write_local key value := call_of (storage.write_local (u8_array_codec 32) clt_key key value);
  read_local key := call_result_of (or_storage_error (storage.read_local (u8_array_codec 32) key_codec key));
  storage_read uref := call_result_of (with_turef uref (fun t => or_storage_error (storage.read u512_codec t)));
  storage_write uref value :=
    call_result_of (with_turef uref (fun t => let! _ := storage.write clt_u512 t value in eret (inl tt)));
  storage_add uref value :=
    call_result_of (with_turef uref (fun t => let! _ := storage.add clt_u512 t value in eret (inl tt)));
}.

(** [ContractRuntime]. *)
#[export] Instance MintRuntime : Mint.RuntimeProvider MT := {
  get_caller := call_of runtime.get_caller;
  put_key name key := call_of (runtime.put_key name key);
}.

Definition METHOD_MINT : bytes := str "mint".
Definition METHOD_CREATE : bytes := str "create".
Definition METHOD_BALANCE : bytes := str "balance".
Definition METHOD_TRANSFER : bytes := str "transfer".

Section mint.
Context (encode_lower : bytes -> bytes).

Definition mint_delegate : T unit :=
  let! method_name := get_arg_or_revert string_codec 0 in
  if bool_decide (method_name = METHOD_MINT) then
    let! amount := get_arg_or_revert u512_codec 1 in
    let! result := contract_code (Mint.mint encode_lower amount) in
    return_value (clt_result clt_uref clt_mint_error) result
  else if bool_decide (method_name = METHOD_CREATE) then
    let! r := contract_code (Mint.mint encode_lower 0) in
    let! uref := unwrap_or_revert api_from_mint r in
    return_value clt_uref uref
  else if bool_decide (method_name = METHOD_BALANCE) then
    let! uref := get_arg_or_revert uref_codec 1 in
    let! r := contract_code (Mint.balance uref) in
    let! balance := unwrap_or_revert api_from_mint r in
    return_value (clt_option clt_u512) balance
  else if bool_decide (method_name = METHOD_TRANSFER) then
    let! source := get_arg_or_revert uref_codec 1 in
    let! target := get_arg_or_revert uref_codec 2 in
    let! amount := get_arg_or_revert u512_codec 3 in
    let! result := contract_code (Mint.transfer source target amount) in
    return_value (clt_result clt_unit clt_mint_error) result
  else abort.
End mint.

(** * Proof of stake *)

(** [storage::read_local(&key).unwrap_or_default().unwrap_or_default()]: an absent
    queue is empty, and so is one that does not deserialize. *)
Definition stored_queue (key : Z) : T Queue :=
  let! r := storage.read_local u8_codec queue_codec key in
  eret (match r with inl (Some queue) => queue | _ => [] end).

Section stakes.
Context {text : StakeText}.

(** [ContractStakes::read]. *)
Definition read_named_stakes : T (Stakes + PosError) :=
  let! named_keys := runtime.list_named_keys in
  result_of (contract_stakes_read named_keys).

(** The first loop of [ContractStakes::write]: the names that are still to be
    added. *)
Fixpoint sweep_names (new_urefs : BTreeMap bytes unit) (names : list bytes) : T (BTreeMap bytes unit) :=
  match names with
  | [] => eret new_urefs
  | name :: names' =>
      if starts_with (str "v_") name then
        let! _ := if bt_contains_key name new_urefs then eret tt else runtime.remove_key name in
        sweep_names (bt_remove name new_urefs) names'
      else sweep_names new_urefs names'
  end.

(** [ContractStakes::write]. *)
Definition write_named_stakes (stakes : Stakes) : T unit :=
  let new_urefs := bt_collect (map (fun e => (stake_name e, tt)) stakes) in
  let! named_keys := runtime.list_named_keys in
  let! new_urefs := sweep_names new_urefs (bt_keys named_keys) in
  efor_each (fun name => runtime.put_key name STAKE_KEY) (bt_keys new_urefs).

(** [ContractMint]: only whether a transfer succeeded matters. *)
Definition purse_to_account (source : PurseId) (target : PublicKey) (amount : Z) : T (unit + unit) :=
  let! r := system.transfer_from_purse_to_account source target amount in
  eret (match r with inl _ => inl tt | inr _ => inr tt end).

Definition purse_to_purse (source target : PurseId) (amount : Z) : T (unit + unit) :=
  let! r := system.transfer_from_purse_to_purse source target amount in
  eret (match r with inl _ => inl tt | inr _ => inr tt end).

(** [ContractMint], [ContractQueue], [ContractRuntime] and [ContractStakes]. *)
#[export] Instance ContractProviders : ProofOfStake.PosProviders MT := {
  transfer_from_purse_to_account source target amount := call_result_of (purse_to_account source target amount);
  transfer_from_purse_to_purse source target amount := call_result_of (purse_to_purse source target amount);
  get_balance purse := call_of (system.get_balance purse);
  read_bonding := call_of (stored_queue BONDING_KEY);
  read_unbonding := call_of (stored_queue UNBONDING_KEY);
  write_bonding queue := call_of (storage.write_local u8_codec clt_queue BONDING_KEY queue);
  write_unbonding queue := call_of (storage.write_local u8_codec clt_queue UNBONDING_KEY queue);
  stakes_read := call_result_of read_named_stakes;
  stakes_write stakes := call_of (write_named_stakes stakes);
  get_key name := call_of (runtime.get_key name);
  put_key name key := call_of (runtime.put_key name key);
  remove_key name := call_of (runtime.remove_key name);
  get_phase := call_of runtime.get_phase;
  get_block_time := call_of runtime.get_blocktime;
  get_caller := call_of runtime.get_caller;
}.

Definition METHOD_BOND : bytes := str "bond".
Definition METHOD_UNBOND : bytes := str "unbond".
Definition METHOD_STEP : bytes := str "step".
Definition METHOD_GET_PAYMENT_PURSE : bytes := str "get_payment_purse".
Definition METHOD_SET_REFUND_PURSE : bytes := str "set_refund_purse".
Definition METHOD_GET_REFUND_PURSE : bytes := str "get_refund_purse".
Definition METHOD_FINALIZE_PAYMENT : bytes := str "finalize_payment".

(** A method of the contract with [unwrap_or_revert]. *)
Definition pos_method {A} (m : eff MT PosError A) : T A :=
  let! r := contract_code m in unwrap_or_revert api_from_pos r.

(** A method that is not known does nothing. *)
Definition pos_delegate : T unit :=
  let! method_name := get_arg_or_revert string_codec 0 in
  if bool_decide (method_name = METHOD_BOND) then
    let! validator := runtime.get_caller in
    let! amount := get_arg_or_revert u512_codec 1 in
    let! source_uref := get_arg_or_revert uref_codec 2 in
    pos_method (ProofOfStake.pos_bond validator amount source_uref)
  else if bool_decide (method_name = METHOD_UNBOND) then
    let! validator := runtime.get_caller in
    let! maybe_amount := get_arg_or_revert (option_codec u512_codec) 1 in
    pos_method (ProofOfStake.pos_unbond validator maybe_amount)
  else if bool_decide (method_name = METHOD_STEP) then
    pos_method ProofOfStake.pos_step
  else if bool_decide (method_name = METHOD_GET_PAYMENT_PURSE) then
    let! rights_controlled_purse := pos_method ProofOfStake.pos_get_payment_purse in
    return_value clt_uref rights_controlled_purse
  else if bool_decide (method_name = METHOD_SET_REFUND_PURSE) then
    let! purse_id := get_arg_or_revert purse_id_codec 1 in
    pos_method (ProofOfStake.pos_set_refund_purse purse_id)
  else if bool_decide (method_name = METHOD_GET_REFUND_PURSE) then
    let! maybe_purse_uref := pos_method ProofOfStake.pos_get_refund_purse in
    return_value (clt_option clt_uref) maybe_purse_uref
  else if bool_decide (method_name = METHOD_FINALIZE_PAYMENT) then
    let! amount_spent := get_arg_or_revert u512_codec 1 in
    let! account := get_arg_or_revert public_key_codec 2 in
    pos_method (ProofOfStake.pos_finalize_payment amount_spent account)
  else eret tt.
End stakes.
End contracts.
