(* ===== verification/MintRuns.v ===== *)
(** The deployed mint, run against the host functions: purses are cells of its
    local storage that refer to balances, and a call to transfer or to ask for a
    balance does to them what the mint promises.  Sources:
    [contracts/system/mint-token/src/lib.rs], [contract_storage.rs] beside it,
    [mint/src/lib.rs]. *)

From stdpp Require Import gmap.
From S2P Require Import Prelude BTreeMap Bytesrepr Uint Types CLValues Account StoredValue Transform.
From S2P Require Import Trie TrackingCopy ApiError ProtocolData ExecutionError RuntimeContext ContextSafety.
From S2P Require Import ExtractURefs Runtime HostFunctions RuntimeSafety EngineState ContractApi ContractRuns LocalCells.
From S2P Require Mint.
From S2P Require Import URefCells SystemContracts.

Section mint_runs.
Context {L G Mem Module : Type} `{LinkedHashMapLaws L, Rng G} `{MeterLaws} {dbg : DebugText} {qtext : QueryText}.
Context {mtext : MismatchText} {hasher : Hasher} {F : ForeignErrors} `{!Platform Mem Module} {W : WasmValues} {WL : WasmValuesLaws}.
Context {WR : WasmResults} {WRL : WasmResultsLaws} {heap : Heap Mem} `{!HeapView Mem} {HL : HeapLaws Mem Module}.
Context {alloc : Allocator} {layout : Layout} {E : Type}.
Context (reader : Key -> outcome E (option StoredValue)) (into_error : E -> ExecError).
Context (overflow_checks : bool).
Context (invoke_call : Module -> eff (Runtime L G Mem Module) InterpreterError unit).

#[local] Abbreviation RT := (Runtime L G Mem Module).
#[local] Hint Extern 0 (Imports _ _ _ _) =>
  exact (host_imports reader into_error overflow_checks invoke_call) : typeclass_instances.
Implicit Types rt : RT.

(** * Purses *)

(** The reference to the balance of a purse, and the balance. *)
Definition purse_in rt (purse : bytes) : option (URef * Z) :=
  match view reader rt (local_key rt purse) with
  | Ok (Some (SV_CLValue v)) =>
      match deserialize key_codec (cl_bytes v) with
      | Ok (Key_URef u) =>
          match view reader rt (cell_key (uref_addr u)) with
          | Ok (Some (SV_CLValue w)) =>
              match deserialize u512_codec (cl_bytes w) with Ok x => Some (u, x) | _ => None end
          | _ => None
          end
      | _ => None
      end
  | _ => None
  end.

Definition balance_in rt (purse : bytes) : option Z := snd <$> purse_in rt purse.

(** A purse the mint does not know, or one it keeps as it should: the mint has all
    rights to the balance, which is a number. *)
Definition purse_ok rt (purse : bytes) : Prop :=
  is_bytes 32 purse
  /\ (view reader rt (local_key rt purse) = Ok None
      \/ exists u v x w, granted rt u /\ Mint.full u /\ from_t clt_key (Key_URef u) = Ok v
           /\ view reader rt (local_key rt purse) = Ok (Some (SV_CLValue v))
           /\ is_unsigned 512 x /\ from_t clt_u512 x = Ok w
           /\ view reader rt (cell_key (uref_addr u)) = Ok (Some (SV_CLValue w))).

Lemma purse_view rt p :
  purse_ok rt p ->
  (view reader rt (local_key rt p) = Ok None /\ purse_in rt p = None)
  \/ exists u v x w, granted rt u /\ Mint.full u /\ from_t clt_key (Key_URef u) = Ok v
       /\ view reader rt (local_key rt p) = Ok (Some (SV_CLValue v)) /\ is_unsigned 512 x /\ from_t clt_u512 x = Ok w
       /\ view reader rt (cell_key (uref_addr u)) = Ok (Some (SV_CLValue w)) /\ purse_in rt p = Some (u, x).
Proof.
  unfold purse_in. intros [_ [Hv|(u & v & x & w & Hg & Hfull & Hf & Hv & Hx & Hw & Hc)]]; rewrite Hv; [by left|]. right.
  exists u, v, x, w. do 7 (split; [done|]).
  pose proof (from_t_reads clt_key key_valid (Key_URef u) v (proj1 Hg) Hf) as Hd. cbn [clt_codec clt_key] in Hd.
  pose proof (from_t_reads clt_u512 (is_unsigned 512) x w Hx Hw) as Hdw. cbn [clt_codec clt_u512] in Hdw.
  by rewrite Hd, Hc, Hdw.
Qed.

(** What a purse holds after the value of one balance has changed. *)
Definition with_balance (addr : bytes) (z : Z) (purse : URef * Z) : URef * Z :=
  (purse.1, if decide (uref_addr purse.1 = addr) then z else purse.2).

Lemma purse_changed cost addr z w rt rt' p :
  kept reader cost rt rt' -> is_unsigned 512 z -> from_t clt_u512 z = Ok w ->
  (forall k, view reader rt' k = if decide (k = cell_key addr) then Ok (Some (SV_CLValue w)) else view reader rt k) ->
  purse_ok rt p -> purse_ok rt' p /\ purse_in rt' p = with_balance addr z <$> purse_in rt p.
Proof.
  intros Hk Hz Hw Hview Hp. pose proof (kept_local_key reader cost rt rt' p Hk) as Hl.
  assert (view reader rt' (local_key rt' p) = view reader rt (local_key rt p)) as Hv by (by rewrite Hl, Hview, decide_False).
  destruct (purse_view rt p Hp) as [(Hn & ->)|(u & v & x & y & Hg & Hfull & Hf & Hn & Hx & Hy & Hc & ->)].
  - split; [split; [apply Hp | left; congruence]|]. unfold purse_in. by rewrite Hv, Hn.
  - assert (purse_ok rt' p) as Hp'.
    { split; [apply Hp|]. right. exists u, v, (if decide (uref_addr u = addr) then z else x),
        (if decide (uref_addr u = addr) then w else y).
      split; [by eapply kept_granted|]. split; [done|]. split; [done|]. split; [congruence|]. rewrite Hview.
      destruct (decide (uref_addr u = addr)) as [<-|Hne]; [by rewrite decide_True|].
      rewrite decide_False by (by intros [=]). done. }
    split; [done|]. cbn. destruct (purse_view rt' p Hp') as [(Hn' & _)|(u' & v' & x' & y' & Hg' & _ & Hf' & Hn' & Hx' & Hy' & Hc' & ->)];
      [congruence|].
    assert (u' = u) as ->.
    { rewrite Hv, Hn in Hn'. injection Hn' as <-. enough (Key_URef u' = Key_URef u) by congruence.
      eapply (from_t_inj clt_key key_valid); [apply Hg' | apply Hg | done..]. }
    unfold with_balance. cbn [fst snd]. do 2 f_equal. rewrite Hview in Hc'.
    destruct (decide (uref_addr u = addr)) as [<-|Hne].
    + rewrite decide_True in Hc' by done. injection Hc' as <-. by eapply (from_t_inj clt_u512 (is_unsigned 512)).
    + rewrite decide_False in Hc' by (by intros [=]). rewrite Hc in Hc'. injection Hc' as <-. by eapply (from_t_inj clt_u512 (is_unsigned 512)).
Qed.

(** Nothing happens to a purse while nothing changes. *)
Lemma purse_same cost rt rt' p :
  idle reader cost rt rt' -> purse_ok rt p -> purse_ok rt' p /\ purse_in rt' p = purse_in rt p.
Proof.
  intros [Hk Hv] [Hp Hok]. pose proof (kept_local_key reader cost rt rt' p Hk) as Hl. split.
  - split; [done|]. rewrite Hl, Hv. destruct Hok as [Hn|(u & v & x & w & Hg & Hok)]; [by left | right].
    exists u, v, x, w. split; [by eapply kept_granted|]. by rewrite Hv.
  - unfold purse_in. rewrite Hl, Hv. repeat case_match; try congruence; rewrite Hv in *; congruence.
Qed.

(** * What the mint asks of its host *)

#[local] Abbreviation running rt := (mk_machine rt None).

Lemma room_left n cost rt rt' : idle reader cost rt rt' -> n + cost <= room (rt_memory rt) -> n <= room (rt_memory rt').
Proof. intros [[_ _ Hr] _]. lia. Qed.

Lemma mint_read_local_run rt p :
  ready reader rt -> purse_ok rt p -> 256 <= room (rt_memory rt) ->
  exists rt', Mint.read_local p (running rt) = (Ok (Key_URef <$> (fst <$> purse_in rt p)), running rt') /\ idle reader 256 rt rt'.
Proof.
  intros Hrd Hp Hroom. assert (to_bytes (u8_array_codec 32) p = Ok p) as Hb by done.
  assert (zlen p = 32) as Hz by (unfold zlen; by rewrite (proj1 Hp)).
  assert (exists rt', storage.read_local (u8_array_codec 32) key_codec p rt = (Ok (inl (Key_URef <$> (fst <$> purse_in rt p))), rt')
    /\ idle reader 256 rt rt') as (rt' & Er & Hi).
  { destruct (purse_view rt p Hp) as [(Hv & ->)|(u & v & x & w & Hg & _ & Hf & Hv & _ & _ & _ & ->)].
    - destruct (read_local_run reader into_error overflow_checks invoke_call (u8_array_codec 32) key_codec p p None None rt)
        as (rt' & Er & Hk & Hview); [done.. | lia | lia |].
      exists rt'. split; [done|]. split; [eapply kept_more; [exact Hk | lia] | done].
    - destruct (cell_packs clt_key key_valid (Key_URef u) (proj1 Hg)) as (v' & _ & Hf' & Hl & Hd & _).
      rewrite Hf in Hf'. apply Ok_inj in Hf'. subst v'.
      destruct (read_local_run reader into_error overflow_checks invoke_call (u8_array_codec 32) key_codec p p (Some v)
        (Some (Key_URef u)) rt) as (rt' & Er & Hk & Hview); [done.. | | lia |].
      + unfold is_unsigned. split_and!; [lia.. | done | lia].
      + exists rt'. split; [done|]. split; [eapply kept_more; [exact Hk | lia] | done]. }
  exists rt'. split; [|done]. cbn. unfold call_result_of, or_storage_error. cbn [machine_runtime].
  by rewrite (ebind_run _ _ _ _ _ Er).
Qed.

Lemma full_turef u : Mint.full u -> exists r, turef.from_uref u = inl r.
Proof. unfold Mint.full, turef.from_uref. intros ->. eauto. Qed.

Lemma mint_read_run rt p u x :
  ready reader rt -> purse_ok rt p -> purse_in rt p = Some (u, x) -> 256 <= room (rt_memory rt) ->
  exists rt', Mint.storage_read u (running rt) = (Ok (Some x), running rt') /\ idle reader 256 rt rt'.
Proof.
  intros Hrd Hp Hin Hroom. destruct (purse_view rt p Hp) as [(_ & Hn)|(u' & v & x' & w & Hg & Hfull & Hf & Hv & Hx & Hw & Hc & Hs)];
    [congruence|]. rewrite Hs in Hin. injection Hin as -> ->.
  destruct (full_turef u Hfull) as (r & Hr). destruct (Mint.full_rights u Hfull) as (Hread & _ & _).
  destruct (read_uref_run reader into_error overflow_checks invoke_call clt_u512 (is_unsigned 512) u r x w rt)
    as (rt' & Er & Hi); [done..|].
  exists rt'. split; [|done]. cbn. unfold call_result_of, with_turef, or_storage_error. rewrite Hr. cbn [machine_runtime].
  cbn [clt_codec clt_u512] in Er. by rewrite (ebind_run _ _ _ _ _ Er).
Qed.

Lemma mint_write_run rt p u x z :
  ready reader rt -> purse_ok rt p -> purse_in rt p = Some (u, x) -> is_unsigned 512 z -> 256 <= room (rt_memory rt) ->
  exists rt', Mint.storage_write u z (running rt) = (Ok tt, running rt') /\ kept reader 256 rt rt'
    /\ (forall q, purse_ok rt q -> purse_ok rt' q /\ purse_in rt' q = with_balance (uref_addr u) z <$> purse_in rt q)
    /\ forall k, k <> cell_key (uref_addr u) -> view reader rt' k = view reader rt k.
Proof.
  intros Hrd Hp Hin Hz Hroom. destruct (purse_view rt p Hp) as [(_ & Hn)|(u' & v & x' & w & Hg & Hfull & _ & _ & _ & _ & _ & Hs)];
    [congruence|]. rewrite Hs in Hin. injection Hin as -> ->.
  destruct (full_turef u Hfull) as (r & Hr). destruct (Mint.full_rights u Hfull) as (_ & Hwr & _).
  destruct (cell_packs clt_u512 (is_unsigned 512) z Hz) as (y & _ & Hy & _).
  destruct (write_uref_run reader into_error overflow_checks invoke_call u r z y rt) as (rt' & Er & Hk & Hview); [done..|].
  exists rt'. split.
  { cbn. unfold call_result_of, with_turef. rewrite Hr. cbn [machine_runtime]. by rewrite (ebind_run _ _ _ _ _ Er). }
  split; [done|]. split; [intros q Hq; by eapply purse_changed|]. intros k Hne. by rewrite Hview, decide_False.
Qed.

Lemma mint_add_run rt p u x z :
  ready reader rt -> purse_ok rt p -> purse_in rt p = Some (u, x) -> is_unsigned 512 z -> 256 <= room (rt_memory rt) ->
  exists rt', Mint.storage_add u z (running rt) = (Ok tt, running rt') /\ kept reader 256 rt rt'
    /\ (forall q, purse_ok rt q -> purse_ok rt' q
          /\ purse_in rt' q = with_balance (uref_addr u) (wrap_unsigned 512 (x + z)) <$> purse_in rt q)
    /\ forall k, k <> cell_key (uref_addr u) -> view reader rt' k = view reader rt k.
Proof.
  intros Hrd Hp Hin Hz Hroom. destruct (purse_view rt p Hp) as [(_ & Hn)|(u' & v & x' & w & Hg & Hfull & _ & _ & Hx & Hw & Hc & Hs)];
    [congruence|]. rewrite Hs in Hin. injection Hin as -> ->.
  destruct (full_turef u Hfull) as (r & Hr). destruct (Mint.full_rights u Hfull) as (_ & _ & Had).
  destruct (cell_packs clt_u512 (is_unsigned 512) z Hz) as (y & _ & Hy & _).
  destruct (add_uref_run reader into_error overflow_checks invoke_call u r z x y w rt) as (rt' & s & Er & Hk & Hs' & Hview); [done..|].
  exists rt'. split.
  { cbn. unfold call_result_of, with_turef. rewrite Hr. cbn [machine_runtime]. by rewrite (ebind_run _ _ _ _ _ Er). }
  split; [done|]. split; [|intros k Hne; by rewrite Hview, decide_False].
  intros q Hq. eapply purse_changed; [done | apply wrap_unsigned_range; lia | done..].
Qed.

(** * Transfers *)

(** How a transfer ends. *)
Definition transfer_result rt (source dest : URef) (amount : Z) : unit + Mint.MintError :=
  if negb (uref_is_writeable source) || negb (uref_is_addable dest) then inr Mint.InvalidAccessRights
  else
    match balance_in rt (uref_addr source) with
    | None => inr Mint.SourceNotFound
    | Some x =>
        if amount >? x then inr Mint.InsufficientFunds
        else match balance_in rt (uref_addr dest) with
             | None => inr Mint.DestNotFound
             | Some _ => inl tt
             end
    end.

(** What a purse holds after a transfer between two balances: the amount is taken
    from the one and then added to the other. *)
Definition moved (from to : bytes) (amount : Z) (purse : URef * Z) : URef * Z :=
  let '(u, z) := purse in
  let z1 := if decide (uref_addr u = from) then z - amount else z in
  (u, if decide (uref_addr u = to) then wrap_unsigned 512 (z1 + amount) else z1).

(** What a transfer leaves: the two balances are changed, and nothing else. *)
Definition transferred rt rt' (source dest : URef) (amount : Z) : Prop :=
  exists from to x y, purse_in rt (uref_addr source) = Some (from, x) /\ purse_in rt (uref_addr dest) = Some (to, y)
    /\ (forall q, purse_ok rt q -> purse_ok rt' q
          /\ purse_in rt' q = moved (uref_addr from) (uref_addr to) amount <$> purse_in rt q)
    /\ forall k, k <> cell_key (uref_addr from) -> k <> cell_key (uref_addr to) -> view reader rt' k = view reader rt k.

(** The balance is that of the reference. *)
Lemma purse_value rt p q u x u' z :
  purse_ok rt p -> purse_ok rt q -> purse_in rt p = Some (u, x) -> purse_in rt q = Some (u', z) ->
  uref_addr u' = uref_addr u -> is_unsigned 512 x /\ z = x.
Proof.
  intros Hp Hq Ep Eq Ha.
  destruct (purse_view rt p Hp) as [(_ & ?)|(u1 & _ & x1 & w1 & _ & _ & _ & _ & Hx1 & Hw1 & Hc1 & E1)]; [congruence|].
  destruct (purse_view rt q Hq) as [(_ & ?)|(u2 & _ & x2 & w2 & _ & _ & _ & _ & Hx2 & Hw2 & Hc2 & E2)]; [congruence|].
  rewrite Ep in E1. injection E1 as <- <-. rewrite Eq in E2. injection E2 as <- <-. split; [done|].
  rewrite Ha, Hc1 in Hc2. injection Hc2 as <-. by eapply (from_t_inj clt_u512 (is_unsigned 512)).
Qed.

Lemma idle_ready cost rt rt' : idle reader cost rt rt' -> ready reader rt -> ready reader rt'.
Proof. intros [Hk _]. by eapply kept_ready. Qed.

Lemma idle_more cost cost' rt rt' : cost <= cost' -> idle reader cost rt rt' -> idle reader cost' rt rt'.
Proof. intros Hc [Hk Hv]. split; [by eapply kept_more | done]. Qed.

Lemma idle_refl cost rt : 0 <= cost -> ready reader rt -> idle reader cost rt rt.
Proof.
  intros Hc Hr. assert (set_memory (rt_memory rt) rt = rt) as Es by (by destruct rt).
  rewrite <- Es at 2. apply idle_memory; [done | lia].
Qed.

(** Taking an amount from one balance and adding it to another. *)
Lemma move_run rt s d from x to y amount :
  ready reader rt -> 512 <= room (rt_memory rt) -> purse_ok rt s -> purse_ok rt d ->
  purse_in rt s = Some (from, x) -> purse_in rt d = Some (to, y) -> is_unsigned 512 amount -> amount <= x ->
  exists rt', (let! _ := Mint.storage_write from (x - amount) in let! _ := Mint.storage_add to amount in eret tt) (running rt)
      = (Ok tt, running rt') /\ kept reader 512 rt rt'
    /\ (forall q, purse_ok rt q -> purse_ok rt' q
          /\ purse_in rt' q = moved (uref_addr from) (uref_addr to) amount <$> purse_in rt q)
    /\ forall k, k <> cell_key (uref_addr from) -> k <> cell_key (uref_addr to) -> view reader rt' k = view reader rt k.
Proof.
  intros Hrd Hroom Hs Hd Es Ed Ha Hle. destruct (purse_value rt s s from x from x Hs Hs Es Es eq_refl) as [Hx _].
  assert (is_unsigned 512 (x - amount)) as Hr by (unfold is_unsigned in *; lia).
  destruct (mint_write_run rt s from x (x - amount) Hrd Hs Es Hr) as (rt1 & E1 & K1 & P1 & V1); [lia|].
  destruct (P1 d Hd) as [Hd1 Ed1]. rewrite Ed in Ed1. cbn in Ed1.
  destruct (mint_add_run rt1 d to (if decide (uref_addr to = uref_addr from) then x - amount else y) amount)
    as (rt2 & E2 & K2 & P2 & V2); [by eapply kept_ready | done | exact Ed1 | done | pose proof (kept_room _ _ _ _ K1); lia |].
  exists rt2. rewrite (ebind_run _ _ _ _ _ E1), (ebind_run _ _ _ _ _ E2). split; [done|].
  split; [by apply (kept_trans reader 256 256 rt rt1 rt2)|]. split.
  - intros q Hq. destruct (P1 q Hq) as [Hq1 Eq1]. destruct (P2 q Hq1) as [Hq2 Eq2]. split; [done|]. rewrite Eq2, Eq1.
    destruct (purse_in rt q) as [[u z]|] eqn:Eq; [|done]. cbn. unfold with_balance. cbn [fst snd]. do 2 f_equal.
    destruct (decide (uref_addr u = uref_addr from)) as [Ef|Nf].
    + destruct (purse_value rt s q from x u z Hs Hq Es Eq Ef) as [_ ->].
      destruct (decide (uref_addr u = uref_addr to)) as [Et|Nt]; [|done]. by rewrite decide_True by congruence.
    + destruct (decide (uref_addr u = uref_addr to)) as [Et|Nt]; [|done]. rewrite decide_False by congruence.
      by destruct (purse_value rt d q to y u z Hd Hq Ed Eq Et) as [_ ->].
  - intros k Hk1 Hk2. by rewrite V2, V1.
Qed.

Lemma transfer_run source dest amount rt :
  ready reader rt -> 1280 <= room (rt_memory rt) -> purse_ok rt (uref_addr source) -> purse_ok rt (uref_addr dest) ->
  is_unsigned 512 amount ->
  exists rt', contract_code (Mint.transfer source dest amount) rt = (Ok (transfer_result rt source dest amount), rt')
    /\ kept reader 1280 rt rt'
    /\ match transfer_result rt source dest amount with
       | inr _ => forall k, view reader rt' k = view reader rt k
       | inl _ => transferred rt rt' source dest amount
       end.
Proof.
  intros Hrd Hroom Hs Hd Ha. unfold transfer_result, Mint.transfer, contract_code, balance_in.
  destruct (negb (uref_is_writeable source) || negb (uref_is_addable dest)).
  { exists rt. destruct (idle_refl 1280 rt ltac:(lia) Hrd). done. }
  destruct (mint_read_local_run rt (uref_addr source) Hrd Hs) as (rt1 & E1 & I1); [lia|].
  rewrite (ebind_run _ _ _ _ _ E1). destruct (purse_in rt (uref_addr source)) as [[from x]|] eqn:Es; cbn [fmap option_fmap option_map fst snd].
  2: { exists rt1. destruct (idle_more 256 1280 rt _ ltac:(lia) I1). done. }
  destruct (purse_same 256 rt rt1 (uref_addr source) I1 Hs) as [Hs1 Es1]. rewrite Es in Es1.
  destruct (mint_read_run rt1 (uref_addr source) from x) as (rt2 & E2 & I2);
    [by eapply idle_ready | done | done | eapply room_left; [exact I1 | lia] |].
  rewrite (ebind_run (elift (Mint.balance_uref_of (Key_URef from))) _ _ from (running rt1)) by done.
  rewrite (ebind_run _ _ _ _ _ E2). pose proof (idle_trans reader _ _ _ _ _ I1 I2) as I12. cbn [Z.add] in I12.
  destruct (amount >? x) eqn:Egt.
  { exists rt2. destruct (idle_more 512 1280 rt _ ltac:(lia) I12). done. }
  destruct (purse_same _ _ _ _ I12 Hd) as [Hd2 Ed2]. destruct (purse_same _ _ _ _ I12 Hs) as [Hs2 Es2].
  destruct (mint_read_local_run rt2 (uref_addr dest)) as (rt3 & E3 & I3);
    [by eapply idle_ready | done | eapply room_left; [exact I12 | lia] |].
  pose proof (idle_trans reader _ _ _ _ _ I12 I3) as I13. cbn [Z.add] in I13.
  rewrite (ebind_run _ _ _ _ _ E3), Ed2.
  destruct (purse_in rt (uref_addr dest)) as [[to y]|] eqn:Ed; cbn [fmap option_fmap option_map fst snd].
  2: { exists rt3. destruct (idle_more 768 1280 rt _ ltac:(lia) I13). done. }
  rewrite (ebind_run (elift (Mint.balance_uref_of (Key_URef to))) _ _ to (running rt3)) by done.
  rewrite (ebind_run (elift (uint_sub x amount)) _ _ (x - amount) (running rt3)).
  2: { breflect. unfold uint_sub, elift. repeat case_match; breflect; first [done | lia]. }
  destruct (purse_same _ _ _ _ I13 Hd) as [Hd3 Ed3]. destruct (purse_same _ _ _ _ I13 Hs) as [Hs3 Es3].
  destruct (move_run rt3 (uref_addr source) (uref_addr dest) from x to y amount) as (rt4 & E4 & K4 & P4 & V4);
    [by eapply idle_ready | eapply room_left; [exact I13 | lia] | done | done | congruence | congruence | done | lia |].
  rewrite E4. exists rt4. split; [done|]. split.
  { eapply kept_more; [apply (kept_trans reader 768 512 rt rt3 rt4); [apply I13 | done] | lia]. }
  exists from, to, x, y. split; [done|]. split; [done|]. split.
  - intros q Hq. destruct (purse_same _ _ _ _ I13 Hq) as [Hq3 Eq3]. rewrite <- Eq3. by apply P4.
  - intros k Hk1 Hk2. rewrite V4 by done. apply I13.
Qed.

(** * Calls *)

(** The mint has been called with these arguments, and has room to run. *)
Record mint_called rt (args : list CLValue) : Prop := {
  called_ready : ready reader rt;
  called_room : 2048 <= room (rt_memory rt);
  called_args : rc_args (rt_context rt) = args;
}.

(** The next argument arrives, and nothing else happens. *)
Lemma arg_run {A} (t : CLTyped A) valid `{CellType A t valid} i v a cost rt rt0 :
  idle reader cost rt rt0 -> rc_args (rt_context rt) !! Z.to_nat i = Some v -> from_t t a = Ok v -> valid a ->
  is_unsigned 32 i -> ready reader rt -> cost + 104 <= room (rt_memory rt) ->
  exists rt', get_arg_or_revert (clt_codec t) i rt0 = (Ok a, rt') /\ idle reader (cost + 104) rt rt'.
Proof.
  intros I0 Hi Hf Ha Hu Hrd Hroom. pose proof (idle_ready _ _ _ I0 Hrd) as Hrd0.
  destruct (idle_context _ _ _ _ I0) as [Eargs _]. rewrite <- Eargs in Hi.
  destruct (typed_arg_run reader into_error overflow_checks invoke_call t valid i v a rt0 Hi Hf Ha Hu) as (m & Er & Hm);
    [eapply room_left; [exact I0 | lia]|].
  exists (set_memory m rt0). split; [unfold get_arg_or_revert; by rewrite (ebind_run _ _ _ _ _ Er)|].
  eapply idle_trans; [exact I0 | by apply idle_memory].
Qed.

(** Returning a value ends the run, with the value for the caller. *)
Lemma return_value_run {A} (c : CLTyped A) a v vb urefs rt :
  from_t c a = Ok v -> cl_value_to_bytes v = Ok vb -> deserialize cl_value_codec vb = Ok v -> extract_urefs v = Ok urefs ->
  0 < zlen vb <= room (rt_memory rt) ->
  exists m, return_value c a rt = (Err (IE_Host (EE_Ret urefs)), set_memory m (set_host_buf (Some v) rt)).
Proof.
  intros Hf Hb Hd Hu Hroom. unfold return_value, runtime.ret.
  rewrite (ebind_run _ _ _ _ _ (cl_value_of_run reader into_error overflow_checks invoke_call c a v rt Hf)).
  destruct (to_ptr_run reader into_error overflow_checks invoke_call cl_value_codec v vb rt [] Hb) as (p & m & E1 & O1 & _); [constructor | done |].
  rewrite (ebind_run _ _ _ _ _ E1). destruct (owns_u32 _ _ p vb O1) as [Hp Hn]; [cbn; auto|]. exists m. unfold ebind.
  erewrite ext_ffi_fails; [reflexivity | parse_args | reflexivity |]. unfold ret.
  rewrite (ebind_run _ _ _ tt (set_host_buf None (set_memory m rt))) by done.
  rewrite (ebind_run _ _ _ vb (set_host_buf None (set_memory m rt)))
    by (apply trap_ok; eapply bytes_from_mem_run; [exact O1 | cbn; auto]).
  rewrite Hd. unfold ebind. by rewrite Hu.
Qed.

Lemma transfer_answer (r : unit + Mint.MintError) :
  exists v vb, from_t (clt_result clt_unit clt_mint_error) r = Ok v /\ cl_value_to_bytes v = Ok vb
    /\ deserialize cl_value_codec vb = Ok v /\ extract_urefs v = Ok [] /\ 0 < zlen vb <= 136.
Proof. destruct r as [[]|[]]; eexists _, _; split_and!; reflexivity || (vm_compute; done). Qed.

#[local] Instance maybe_u512_cell : CellType (clt_option clt_u512) (option_valid (is_unsigned 512)).
Proof.
  split; [apply _ | done | done |]. intros [z|] Hz; [|by eexists].
  assert (exists bs, uint_to_bytes 64 z = Ok bs /\ zlen bs <= 65) as (bs & Hb & Hl).
  { eexists. split; [reflexivity|]. unfold zlen. rewrite length_rev, length_app. cbn [length].
    pose proof (skip_while_length (fun b => byte_to_Z b =? 0) (rev (to_le_bytes 64 z))) as Hl.
    rewrite length_rev, to_le_bytes_length in Hl. lia. }
  exists (x01 :: bs). cbn [to_bytes clt_codec clt_option option_codec]. unfold option_to_bytes.
  cbn [to_bytes clt_codec clt_u512 u512_codec uint_codec]. rewrite Hb. cbn [obind].
  destruct (Z.geb_spec (zlen bs) (u32_max - U8_SERIALIZED_LENGTH)) as [Hbig|_];
    [unfold u32_max, U8_SERIALIZED_LENGTH in Hbig; lia|]. split; [done|]. unfold zlen in *. cbn [length]. lia.
Qed.

Lemma balance_answer o : option_valid (is_unsigned 512) o ->
  exists v vb, from_t (clt_option clt_u512) o = Ok v /\ cl_value_to_bytes v = Ok vb
    /\ deserialize cl_value_codec vb = Ok v /\ extract_urefs v = Ok [] /\ 0 < zlen vb <= 136.
Proof.
  intros Ho. destruct (cell_packs (clt_option clt_u512) _ o Ho) as (v & vb & Hf & _ & _ & Hb & Hd & Hl).
  exists v, vb. split_and!; try done; [|lia..]. apply from_t_type in Hf. unfold extract_urefs. by rewrite Hf.
Qed.

(** The outcome of a transfer is decided by what does not change. *)
Lemma transfer_result_same cost rt rt' source dest amount :
  idle reader cost rt rt' -> purse_ok rt (uref_addr source) -> purse_ok rt (uref_addr dest) ->
  transfer_result rt' source dest amount = transfer_result rt source dest amount.
Proof.
  intros Hi Hs Hd. unfold transfer_result, balance_in.
  by rewrite (proj2 (purse_same _ _ _ _ Hi Hs)), (proj2 (purse_same _ _ _ _ Hi Hd)).
Qed.

Lemma transferred_after cost rt rt1 rt2 source dest amount :
  idle reader cost rt rt1 -> purse_ok rt (uref_addr source) -> purse_ok rt (uref_addr dest) ->
  transferred rt1 rt2 source dest amount -> transferred rt rt2 source dest amount.
Proof.
  intros Hi Hs Hd (from & to & x & y & Es & Ed & Hp & Hv). exists from, to, x, y.
  rewrite <- (proj2 (purse_same _ _ _ _ Hi Hs)), <- (proj2 (purse_same _ _ _ _ Hi Hd)). split; [done|]. split; [done|].
  split; [|intros k H4 H5; rewrite Hv by done; apply Hi].
  intros q Hq. destruct (purse_same _ _ _ _ Hi Hq) as [Hq1 <-]. by apply Hp.
Qed.

(** C16: the deployed mint moves money. Called to transfer, with purses it keeps as
    it should, the mint ends its run by returning to its caller the result the
    interface promises: missing rights to the source or the destination, an
    unknown source, too little money and an unknown destination are reported in
    this order and change nothing; otherwise the amount is taken from the balance
    of the source and added to that of the destination, and no other value
    changes.  The arguments, the references, the balances and the result cross
    the memory of the contract and the host functions on the way. *)
Theorem mint_contract_transfers encode_lower source dest amount m s d a rt :
  mint_called rt [m; s; d; a] -> from_t clt_string METHOD_TRANSFER = Ok m -> from_t clt_uref source = Ok s ->
  from_t clt_uref dest = Ok d -> from_t clt_u512 amount = Ok a ->
  uref_valid source -> uref_valid dest -> is_unsigned 512 amount ->
  purse_ok rt (uref_addr source) -> purse_ok rt (uref_addr dest) ->
  exists rt' v, mint_delegate encode_lower rt = (Err (IE_Host (EE_Ret [])), rt') /\ rt_host_buf rt' = Some v
    /\ from_t (clt_result clt_unit clt_mint_error) (transfer_result rt source dest amount) = Ok v
    /\ match transfer_result rt source dest amount with
       | inr _ => forall k, view reader rt' k = view reader rt k
       | inl _ => transferred rt rt' source dest amount
       end.
Proof.
  intros [Hrd Hroom Hargs] Hm Hs Hd Ha Vs Vd Va Ps Pd. unfold mint_delegate.
  destruct (arg_run clt_string short_name 0 m METHOD_TRANSFER 0 rt rt) as (rt0 & E0 & I0);
    [by apply idle_refl | by rewrite Hargs | done.. | lia |].
  rewrite (ebind_run (get_arg_or_revert string_codec 0) _ _ _ _ E0). pick_method.
  destruct (arg_run clt_uref uref_valid 1 s source _ rt rt0 I0) as (rt1 & E1 & I1); [by rewrite Hargs | done.. | lia |].
  rewrite (ebind_run (get_arg_or_revert uref_codec 1) _ _ _ _ E1).
  destruct (arg_run clt_uref uref_valid 2 d dest _ rt rt1 I1) as (rt2 & E2 & I2); [by rewrite Hargs | done.. | lia |].
  rewrite (ebind_run (get_arg_or_revert uref_codec 2) _ _ _ _ E2).
  destruct (arg_run clt_u512 (is_unsigned 512) 3 a amount _ rt rt2 I2) as (rt3 & E3 & I3); [by rewrite Hargs | done.. | lia |].
  rewrite (ebind_run (get_arg_or_revert u512_codec 3) _ _ _ _ E3). cbn [Z.add] in I3.
  destruct (purse_same _ _ _ _ I3 Ps) as [Ps3 _]. destruct (purse_same _ _ _ _ I3 Pd) as [Pd3 _].
  destruct (transfer_run source dest amount rt3) as (rt4 & E4 & K4 & R4);
    [by eapply idle_ready | eapply room_left; [exact I3 | lia] | done..|].
  rewrite (ebind_run _ _ _ _ _ E4). rewrite (transfer_result_same _ _ _ source dest amount I3 Ps Pd) in *.
  destruct (transfer_answer (transfer_result rt source dest amount)) as (v & vb & Hv & Hb & Hdv & Hu & Hl).
  destruct (return_value_run (clt_result clt_unit clt_mint_error) _ v vb [] rt4 Hv Hb Hdv Hu) as (mem & E5).
  { pose proof (kept_room _ _ _ _ K4). pose proof (room_left 1632 _ _ _ I3 ltac:(lia)). lia. }
  eexists _, v. split; [exact E5|]. split; [done|]. split; [done|].
  destruct (transfer_result rt source dest amount) as [[]|e].
  - eapply transferred_after; [exact I3 | done | done | exact R4].
  - intros k. rewrite <- (proj2 I3 k). apply R4.
Qed.

Lemma balance_run purse rt :
  ready reader rt -> 512 <= room (rt_memory rt) -> purse_ok rt (uref_addr purse) ->
  exists rt', contract_code (Mint.balance purse) rt = (Ok (inl (balance_in rt (uref_addr purse))), rt') /\ idle reader 512 rt rt'.
Proof.
  intros Hrd Hroom Hp. unfold Mint.balance, contract_code, balance_in.
  destruct (mint_read_local_run rt (uref_addr purse) Hrd Hp) as (rt1 & E1 & I1); [lia|].
  rewrite (ebind_run _ _ _ _ _ E1). destruct (purse_in rt (uref_addr purse)) as [[u x]|] eqn:Es; cbn [fmap option_fmap option_map fst snd].
  2: { exists rt1. split; [done|]. eapply idle_more; [|exact I1]. lia. }
  destruct (purse_same 256 rt rt1 (uref_addr purse) I1 Hp) as [Hp1 Ep1]. rewrite Es in Ep1.
  destruct (mint_read_run rt1 (uref_addr purse) u x) as (rt2 & E2 & I2);
    [by eapply idle_ready | done | done | eapply room_left; [exact I1 | lia] |].
  rewrite (ebind_run (elift (Mint.balance_uref_of (Key_URef u))) _ _ u (running rt1)) by done.
  rewrite (ebind_run _ _ _ _ _ E2). exists rt2. split; [done|]. by apply (idle_trans reader 256 256 rt rt1 rt2).
Qed.

(** Asked for the balance of a purse, the mint returns it, or that it does not know
    the purse, and changes nothing. *)
Theorem mint_contract_balances encode_lower purse m p rt :
  mint_called rt [m; p] -> from_t clt_string METHOD_BALANCE = Ok m -> from_t clt_uref purse = Ok p ->
  uref_valid purse -> purse_ok rt (uref_addr purse) ->
  exists rt' v, mint_delegate encode_lower rt = (Err (IE_Host (EE_Ret [])), rt') /\ rt_host_buf rt' = Some v
    /\ from_t (clt_option clt_u512) (balance_in rt (uref_addr purse)) = Ok v
    /\ forall k, view reader rt' k = view reader rt k.
Proof.
  intros [Hrd Hroom Hargs] Hm Hp Vp Pp. unfold mint_delegate.
  destruct (arg_run clt_string short_name 0 m METHOD_BALANCE 0 rt rt) as (rt0 & E0 & I0);
    [by apply idle_refl | by rewrite Hargs | done.. | lia |].
  rewrite (ebind_run (get_arg_or_revert string_codec 0) _ _ _ _ E0). pick_method.
  destruct (arg_run clt_uref uref_valid 1 p purse _ rt rt0 I0) as (rt1 & E1 & I1); [by rewrite Hargs | done.. | lia |].
  rewrite (ebind_run (get_arg_or_revert uref_codec 1) _ _ _ _ E1). cbn [Z.add] in I1.
  destruct (purse_same _ _ _ _ I1 Pp) as [Pp1 Ep1].
  destruct (balance_run purse rt1) as (rt2 & E2 & I2); [by eapply idle_ready | eapply room_left; [exact I1 | lia] | done |].
  rewrite (ebind_run _ _ _ _ _ E2). cbn [unwrap_or_revert].
  assert (balance_in rt1 (uref_addr purse) = balance_in rt (uref_addr purse)) as -> by (unfold balance_in; by rewrite Ep1).
  rewrite (ebind_run (eret (balance_in rt (uref_addr purse))) _ _ (balance_in rt (uref_addr purse)) rt2) by done.
  destruct (balance_answer (balance_in rt (uref_addr purse))) as (v & vb & Hv & Hb & Hdv & Hu & Hl).
  { unfold balance_in. destruct (purse_in rt (uref_addr purse)) as [[u x]|] eqn:Es; [|done].
    by destruct (purse_value rt _ _ u x u x Pp Pp Es Es eq_refl). }
  pose proof (idle_trans reader _ _ _ _ _ I1 I2) as I12.
  destruct (return_value_run (clt_option clt_u512) _ v vb [] rt2 Hv Hb Hdv Hu) as (mem & E5).
  { pose proof (room_left 256 _ _ _ I12 ltac:(lia)). lia. }
  eexists _, v. split; [exact E5|]. split; [done|]. split; [done|]. intros k. exact (proj2 I12 k).
Qed.
End mint_runs.
