(* ===== verification/Erc20.v ===== *)
(** The logic of the example token, over any storage that implements the trait:
    balances, allowances and the total supply.  Source:
    [contracts/examples/erc20-logic/src/lib.rs]. *)

From stdpp Require Import functions.
From S2P Require Import Prelude.

Inductive ERC20TransferError := Transfer_NotEnoughBalance.

Inductive ERC20TransferFromError :=
| TransferError (error : ERC20TransferError)
| NotEnoughAllowance.

Inductive ERC20BurnError := Burn_NotEnoughBalance.

(** The required methods of the trait, and the arithmetic of its amounts.  An
    implementation may fail with an error of its own type [E]. *)
Class ERC20Trait (S E Address : Type) := {
  read_balance : Address -> eff S E (option Z);
  save_balance : Address -> Z -> eff S E unit;
  read_total_supply : eff S E (option Z);
  save_total_supply : Z -> eff S E unit;
  read_allowance : Address -> Address -> eff S E (option Z);
  save_allowance : Address -> Address -> Z -> eff S E unit;
  amount_add : Z -> Z -> eff S E Z;
  amount_sub : Z -> Z -> eff S E Z;
}.

(** * The provided methods *)

Section erc20.
Context {S E Address : Type} `{ERC20Trait S E Address}.

(** [unwrap_or_else(Amount::zero)]. *)
Definition or_zero (o : option Z) : Z := match o with Some v => v | None => 0 end.

Definition balance_of (address : Address) : eff S E Z :=
  let! found := read_balance address in eret (or_zero found).

Definition total_supply : eff S E Z :=
  let! found := read_total_supply in eret (or_zero found).

Definition allowance (owner spender : Address) : eff S E Z :=
  let! found := read_allowance owner spender in eret (or_zero found).

Definition mint (address : Address) (amount : Z) : eff S E unit :=
  let! address_balance := balance_of address in
  let! total := total_supply in
  let! sum := amount_add address_balance amount in
  let! _ := save_balance address sum in
  let! sum := amount_add total amount in
  save_total_supply sum.

Definition burn (address : Address) (amount : Z) : eff S E (unit + ERC20BurnError) :=
  let! address_balance := balance_of address in
  if address_balance <? amount then eret (inr Burn_NotEnoughBalance)
  else
    let! total := total_supply in
    let! rest := amount_sub address_balance amount in
    let! _ := save_balance address rest in
    let! rest := amount_sub total amount in
    let! _ := save_total_supply rest in
    eret (inl tt).

Definition transfer (sender recipient : Address) (amount : Z) : eff S E (unit + ERC20TransferError) :=
  let! sender_balance := balance_of sender in
  if amount >? sender_balance then eret (inr Transfer_NotEnoughBalance)
  else
    let! recipient_balance := balance_of recipient in
    let! rest := amount_sub sender_balance amount in
    let! _ := save_balance sender rest in
    let! sum := amount_add recipient_balance amount in
    let! _ := save_balance recipient sum in
    eret (inl tt).

Definition approve (owner spender : Address) (amount : Z) : eff S E unit :=
  save_allowance owner spender amount.

Definition transfer_from (spender owner recipient : Address) (amount : Z)
    : eff S E (unit + ERC20TransferFromError) :=
  let! allowed := allowance owner spender in
  if amount >? allowed then eret (inr NotEnoughAllowance)
  else
    let! transferred := transfer owner recipient amount in
    match transferred with
    | inr error => eret (inr (TransferError error))
    | inl _ =>
        let! rest := amount_sub allowed amount in
        let! _ := approve owner spender rest in
        eret (inl tt)
    end.
End erc20.

(** * What the token relies on *)

(** A storage as a token: the entries it has, the addresses in use, the largest
    amount, and that it can serve a number of further accesses. *)
Class TokenView (S Address : Type) := {
  balance_entry : S -> Address -> option Z;
  supply_entry : S -> option Z;
  allowance_entry : S -> Address -> Address -> option Z;
  holders : list Address;
  amount_max : Z;
  serves : nat -> S -> Prop;
}.

Definition is_amount {S Address} `{TokenView S Address} (v : Z) : Prop := 0 <= v <= amount_max.

(** Two storages with the same entries for the addresses in use. *)
Record same_token {S Address} `{TokenView S Address} (s s' : S) : Prop := {
  same_balance : forall a, In a holders -> balance_entry s' a = balance_entry s a;
  same_supply : supply_entry s' = supply_entry s;
  same_allowance : forall a b, In a holders -> In b holders -> allowance_entry s' a b = allowance_entry s a b;
}.

Class TokenLaws (S E Address : Type) `{ERC20Trait S E Address, TokenView S Address} `{EqDecision Address} : Prop := {
  holders_nodup : NoDup holders;
  serves_less : forall n s, serves (Datatypes.S n) s -> serves n s;
  read_balance_law : forall n a s, serves (Datatypes.S n) s -> In a holders ->
    exists s', read_balance a s = (Ok (balance_entry s a), s') /\ serves n s' /\ same_token s s';
  read_supply_law : forall n s, serves (Datatypes.S n) s ->
    exists s', read_total_supply s = (Ok (supply_entry s), s') /\ serves n s' /\ same_token s s';
  read_allowance_law : forall n a b s, serves (Datatypes.S n) s -> In a holders -> In b holders ->
    exists s', read_allowance a b s = (Ok (allowance_entry s a b), s') /\ serves n s' /\ same_token s s';
  save_balance_law : forall n a v s, serves (Datatypes.S n) s -> In a holders -> is_amount v ->
    exists s', save_balance a v s = (Ok tt, s') /\ serves n s'
      /\ (forall b, In b holders -> balance_entry s' b = if decide (b = a) then Some v else balance_entry s b)
      /\ supply_entry s' = supply_entry s
      /\ (forall b c, In b holders -> In c holders -> allowance_entry s' b c = allowance_entry s b c);
  save_supply_law : forall n v s, serves (Datatypes.S n) s -> is_amount v ->
    exists s', save_total_supply v s = (Ok tt, s') /\ serves n s'
      /\ (forall b, In b holders -> balance_entry s' b = balance_entry s b)
      /\ supply_entry s' = Some v
      /\ (forall b c, In b holders -> In c holders -> allowance_entry s' b c = allowance_entry s b c);
  save_allowance_law : forall n a b v s, serves (Datatypes.S n) s -> In a holders -> In b holders -> is_amount v ->
    exists s', save_allowance a b v s = (Ok tt, s') /\ serves n s'
      /\ (forall c, In c holders -> balance_entry s' c = balance_entry s c)
      /\ supply_entry s' = supply_entry s
      /\ (forall c d, In c holders -> In d holders ->
            allowance_entry s' c d = if decide (c = a /\ d = b) then Some v else allowance_entry s c d);
  amount_add_law : forall a b s, is_amount a -> is_amount b ->
    if a + b <=? amount_max then amount_add a b s = (Ok (a + b), s)
    else forall r s', amount_add a b s <> (Ok r, s');
  amount_sub_law : forall a b s, is_amount a -> is_amount b -> b <= a -> amount_sub a b s = (Ok (a - b), s);
}.

(** * The abstract token *)

Record Ledger (Address : Type) := mk_ledger {
  lg_balance : Address -> Z;
  lg_supply : Z;
  lg_allowance : Address -> Address -> Z;
}.
Arguments mk_ledger {Address}.
Arguments lg_balance {Address}.
Arguments lg_supply {Address}.
Arguments lg_allowance {Address}.

Inductive TokenCall (Address : Type) :=
| Call_mint (address : Address) (amount : Z)
| Call_burn (address : Address) (amount : Z)
| Call_transfer (sender recipient : Address) (amount : Z)
| Call_approve (owner spender : Address) (amount : Z)
| Call_transfer_from (spender owner recipient : Address) (amount : Z).
Arguments Call_mint {Address}.
Arguments Call_burn {Address}.
Arguments Call_transfer {Address}.
Arguments Call_approve {Address}.
Arguments Call_transfer_from {Address}.

Inductive TokenFailure :=
| BurnFailed (error : ERC20BurnError)
| TransferFailed (error : ERC20TransferError)
| TransferFromFailed (error : ERC20TransferFromError).

Section ledger.
Context {Address : Type} `{EqDecision Address}.
Implicit Types l : Ledger Address.

Definition set_balance (a : Address) (v : Z) l : Ledger Address :=
  mk_ledger (<[ a := v ]> (lg_balance l)) (lg_supply l) (lg_allowance l).

Definition set_supply (v : Z) l : Ledger Address := mk_ledger (lg_balance l) v (lg_allowance l).

Definition set_allowance (owner spender : Address) (v : Z) l : Ledger Address :=
  mk_ledger (lg_balance l) (lg_supply l)
    (<[ owner := <[ spender := v ]> (lg_allowance l owner) ]> (lg_allowance l)).

(** The amount leaves one balance and enters the other. *)
Definition move (sender recipient : Address) (amount : Z) l : Ledger Address :=
  let l1 := set_balance sender (lg_balance l sender - amount) l in
  set_balance recipient (lg_balance l1 recipient + amount) l1.

(** What a token promises. *)
Definition spec_call (call : TokenCall Address) l : Ledger Address + TokenFailure :=
  match call with
  | Call_mint a v => inl (set_supply (lg_supply l + v) (set_balance a (lg_balance l a + v) l))
  | Call_burn a v =>
      if lg_balance l a <? v then inr (BurnFailed Burn_NotEnoughBalance)
      else inl (set_supply (lg_supply l - v) (set_balance a (lg_balance l a - v) l))
  | Call_transfer a b v =>
      if lg_balance l a <? v then inr (TransferFailed Transfer_NotEnoughBalance) else inl (move a b v l)
  | Call_approve a b v => inl (set_allowance a b v l)
  | Call_transfer_from c a b v =>
      if lg_allowance l a c <? v then inr (TransferFromFailed NotEnoughAllowance)
      else if lg_balance l a <? v then inr (TransferFromFailed (TransferError Transfer_NotEnoughBalance))
      else inl (set_allowance a c (lg_allowance l a c - v) (move a b v l))
  end.

(** The parties and the amount of a payment. *)
Definition payment (call : TokenCall Address) : option (Address * Address * Z) :=
  match call with
  | Call_transfer a b v | Call_transfer_from _ a b v => Some (a, b, v)
  | _ => None
  end.

(** Where a payment to oneself departs from what a token promises: the amount is
    added to the balance. *)
Definition self_credit (call : TokenCall Address) l l' : Ledger Address :=
  match payment call with
  | Some (a, b, v) => if decide (a = b) then set_balance a (lg_balance l a + v) l' else l'
  | None => l'
  end.

Fixpoint sum_over (f : Address -> Z) (as_ : list Address) : Z :=
  match as_ with [] => 0 | a :: as' => f a + sum_over f as' end.

Lemma sum_over_ext f g as_ : (forall a, In a as_ -> f a = g a) -> sum_over f as_ = sum_over g as_.
Proof.
  induction as_ as [|a as_ IH]; cbn; [done|]. intros Hfg. rewrite Hfg, IH by auto. done.
Qed.

Lemma sum_over_insert f a v as_ :
  NoDup as_ -> In a as_ -> sum_over (<[ a := v ]> f) as_ = sum_over f as_ - f a + v.
Proof.
  induction as_ as [|b as_ IH]; cbn; [done|]. intros [Hb Hn]%NoDup_cons [->|Ha].
  - rewrite fn_lookup_insert, (sum_over_ext _ f); [lia|]. intros c Hc. apply fn_lookup_insert_ne.
    intros ->. apply Hb. by apply list_elem_of_In.
  - rewrite fn_lookup_insert_ne, IH by (done || (intros ->; apply Hb; by apply list_elem_of_In)). lia.
Qed.

Lemma sum_over_ge f a as_ : (forall b, In b as_ -> 0 <= f b) -> In a as_ -> f a <= sum_over f as_.
Proof.
  induction as_ as [|b as_ IH]; cbn; [done|]. intros Hf.
  assert (0 <= sum_over f as_) as Hs.
  { clear -Hf. induction as_ as [|c as_ IH]; cbn; [lia|]. pose proof (Hf c). cbn in *.
    enough (0 <= sum_over f as_) by (specialize (Hf c); intuition lia). apply IH. intros d [->|Hd]; auto. }
  pose proof (Hf b (or_introl eq_refl)). intros [->|Ha]; [lia|]. specialize (IH (fun c Hc => Hf c (or_intror Hc)) Ha). lia.
Qed.
End ledger.

(** * Refinement *)

Section refinement.
Context {S E Address : Type} `{TokenLaws S E Address}.
Implicit Types (s : S) (l : Ledger Address).

Definition ledger s : Ledger Address :=
  mk_ledger (fun a => or_zero (balance_entry s a)) (or_zero (supply_entry s))
    (fun a b => or_zero (allowance_entry s a b)).

(** Ledgers that agree on the addresses in use. *)
#[global] Instance ledger_equiv : Equiv (Ledger Address) := fun l l' =>
  (forall a, In a holders -> lg_balance l a = lg_balance l' a) /\ lg_supply l = lg_supply l'
  /\ (forall a b, In a holders -> In b holders -> lg_allowance l a b = lg_allowance l' a b).

#[global] Instance ledger_equivalence : Equivalence (≡@{Ledger Address}).
Proof.
  split.
  - by intros l.
  - intros l1 l2 (Hb & Hs & Ha). split_and!; [|done|]; intros; symmetry; auto.
  - intros l1 l2 l3 (Hb & Hs & Ha) (Hb' & Hs' & Ha'). split_and!; [|congruence|]; intros.
    + rewrite Hb; auto.
    + rewrite Ha; auto.
Qed.

#[global] Instance set_balance_proper a v : Proper ((≡) ==> (≡)) (set_balance (Address := Address) a v).
Proof.
  intros l l' (Hb & Hs & Ha). split_and!; try done. intros b Hin. cbn.
  destruct (decide (a = b)) as [->|]; [by rewrite !fn_lookup_insert | rewrite !fn_lookup_insert_ne by done; auto].
Qed.

#[global] Instance set_supply_proper v : Proper ((≡) ==> (≡)) (set_supply (Address := Address) v).
Proof. intros l l' (Hb & Hs & Ha). by split_and!. Qed.

Lemma set_allowance_proper a b v l l' :
  In a holders -> l ≡ l' -> set_allowance a b v l ≡ set_allowance a b v l'.
Proof.
  intros Hin (Hb & Hs & Ha). split_and!; try done. intros c d Hc Hd. cbn.
  destruct (decide (a = c)) as [->|]; [|rewrite !fn_lookup_insert_ne by done; auto].
  rewrite !fn_lookup_insert. destruct (decide (b = d)) as [->|]; [by rewrite !fn_lookup_insert|].
  rewrite !fn_lookup_insert_ne by done. auto.
Qed.

Lemma equiv_balance l l' a : l ≡ l' -> In a holders -> lg_balance l a = lg_balance l' a.
Proof. intros (Hb & _). apply Hb. Qed.

Lemma move_proper a b v l l' : In a holders -> In b holders -> l ≡ l' -> move a b v l ≡ move a b v l'.
Proof.
  intros Ha Hb He. unfold move. rewrite (equiv_balance _ _ _ He Ha).
  assert (set_balance a (lg_balance l' a - v) l ≡ set_balance a (lg_balance l' a - v) l') as He1 by by rewrite He.
  by rewrite (equiv_balance _ _ _ He1 Hb), He1.
Qed.

Lemma same_token_ledger s s' : same_token s s' -> ledger s' ≡ ledger s.
Proof.
  intros [Hb Hs Ha]. split_and!; cbn; [intros; by rewrite Hb | by rewrite Hs | intros; by rewrite Ha].
Qed.

(** ** The methods on the ledger *)

Lemma balance_of_run n a s : serves (Datatypes.S n) s -> In a holders ->
  exists s', balance_of a s = (Ok (lg_balance (ledger s) a), s') /\ serves n s' /\ ledger s' ≡ ledger s.
Proof.
  intros Hn Ha. destruct (read_balance_law n a s Hn Ha) as (s' & Hr & Hs & Ht). exists s'.
  split; [|split; [done | by apply same_token_ledger]]. unfold balance_of. by rewrite (ebind_run _ _ _ _ _ Hr).
Qed.

Lemma total_supply_run n s : serves (Datatypes.S n) s ->
  exists s', total_supply s = (Ok (lg_supply (ledger s)), s') /\ serves n s' /\ ledger s' ≡ ledger s.
Proof.
  intros Hn. destruct (read_supply_law n s Hn) as (s' & Hr & Hs & Ht). exists s'.
  split; [|split; [done | by apply same_token_ledger]]. unfold total_supply. by rewrite (ebind_run _ _ _ _ _ Hr).
Qed.

Lemma allowance_run n a b s : serves (Datatypes.S n) s -> In a holders -> In b holders ->
  exists s', allowance a b s = (Ok (lg_allowance (ledger s) a b), s') /\ serves n s' /\ ledger s' ≡ ledger s.
Proof.
  intros Hn Ha Hb. destruct (read_allowance_law n a b s Hn Ha Hb) as (s' & Hr & Hs & Ht). exists s'.
  split; [|split; [done | by apply same_token_ledger]]. unfold allowance. by rewrite (ebind_run _ _ _ _ _ Hr).
Qed.

Lemma save_balance_run n a v s : serves (Datatypes.S n) s -> In a holders -> is_amount v ->
  exists s', save_balance a v s = (Ok tt, s') /\ serves n s' /\ ledger s' ≡ set_balance a v (ledger s).
Proof.
  intros Hn Ha Hv. destruct (save_balance_law n a v s Hn Ha Hv) as (s' & Hr & Hs & Hb & Hsu & Hal). exists s'.
  split; [done|]. split; [done|]. split_and!; cbn; [|by rewrite Hsu | intros; by rewrite Hal].
  intros b Hin. rewrite Hb by done. case_decide; [subst; by rewrite fn_lookup_insert | by rewrite fn_lookup_insert_ne].
Qed.

Lemma save_supply_run n v s : serves (Datatypes.S n) s -> is_amount v ->
  exists s', save_total_supply v s = (Ok tt, s') /\ serves n s' /\ ledger s' ≡ set_supply v (ledger s).
Proof.
  intros Hn Hv. destruct (save_supply_law n v s Hn Hv) as (s' & Hr & Hs & Hb & Hsu & Hal). exists s'.
  split; [done|]. split; [done|]. split_and!; cbn; [intros; by rewrite Hb | by rewrite Hsu | intros; by rewrite Hal].
Qed.

Lemma save_allowance_run n a b v s :
  serves (Datatypes.S n) s -> In a holders -> In b holders -> is_amount v ->
  exists s', save_allowance a b v s = (Ok tt, s') /\ serves n s' /\ ledger s' ≡ set_allowance a b v (ledger s).
Proof.
  intros Hn Ha Hb Hv. destruct (save_allowance_law n a b v s Hn Ha Hb Hv) as (s' & Hr & Hs & Hba & Hsu & Hal).
  exists s'. split; [done|]. split; [done|]. split_and!; cbn; [intros; by rewrite Hba | by rewrite Hsu |].
  intros c d Hc Hd. rewrite Hal by done.
  destruct (decide (a = c)) as [->|]; [|rewrite fn_lookup_insert_ne, decide_False by intuition; done].
  rewrite fn_lookup_insert. destruct (decide (b = d)) as [->|].
  - by rewrite fn_lookup_insert, decide_True.
  - by rewrite fn_lookup_insert_ne, decide_False by intuition.
Qed.

#[local] Arguments ledger : simpl never.

(** ** The invariant *)

(** Every entry is an amount. *)
Record amounts_ok l : Prop := {
  am_balance : forall a, In a holders -> is_amount (lg_balance l a);
  am_allowance : forall a b, In a holders -> In b holders -> is_amount (lg_allowance l a b);
}.

#[global] Instance amounts_ok_proper : Proper ((≡) ==> iff) amounts_ok.
Proof.
  assert (forall l l', l ≡ l' -> amounts_ok l -> amounts_ok l') as Hi.
  { intros l l' (Hb & _ & Ha) [Ob Oa]. split; [intros a Hin; rewrite <- Hb; auto | intros a b Hina Hinb; rewrite <- Ha; auto]. }
  intros l l' He. split; apply Hi; [done | by symmetry].
Qed.

(** The balances sum up to the supply, which is an amount. *)
Record ledger_ok l : Prop := {
  ok_balance : forall a, In a holders -> 0 <= lg_balance l a;
  ok_sum : sum_over (lg_balance l) holders = lg_supply l;
  ok_supply : lg_supply l <= amount_max;
  ok_allowance : forall a b, In a holders -> In b holders -> is_amount (lg_allowance l a b);
}.

#[global] Instance ledger_ok_proper : Proper ((≡) ==> iff) ledger_ok.
Proof.
  assert (forall l l', l ≡ l' -> ledger_ok l -> ledger_ok l') as Hi.
  { intros l l' (Hb & Hs & Ha) [Ob Os Om Oa]. split.
    - intros a Hin. rewrite <- Hb; auto.
    - rewrite <- Hs, <- Os. symmetry. by apply sum_over_ext.
    - by rewrite <- Hs.
    - intros a b Hina Hinb. rewrite <- Ha; auto. }
  intros l l' He. split; apply Hi; [done | by symmetry].
Qed.

Lemma ledger_ok_amount l a : ledger_ok l -> In a holders -> is_amount (lg_balance l a).
Proof.
  intros Hl Ha. split; [by apply (ok_balance l)|].
  pose proof (sum_over_ge (lg_balance l) a holders (ok_balance l Hl) Ha) as Hs.
  rewrite (ok_sum l Hl) in Hs. pose proof (ok_supply l Hl). lia.
Qed.

Lemma ledger_ok_amounts l : ledger_ok l -> amounts_ok l.
Proof. intros Hl. split; [intros a; by apply ledger_ok_amount | apply (ok_allowance l Hl)]. Qed.

Lemma set_balance_ok l a v d :
  ledger_ok l -> In a holders -> 0 <= v -> d = v - lg_balance l a -> lg_supply l + d <= amount_max ->
  ledger_ok (set_supply (lg_supply l + d) (set_balance a v l)).
Proof.
  intros Hl Ha Hv -> Hm. split; cbn; [| |done|apply (ok_allowance l Hl)].
  - intros b Hb. destruct (decide (a = b)) as [->|]; [by rewrite fn_lookup_insert|].
    rewrite fn_lookup_insert_ne by done. by apply (ok_balance l).
  - rewrite sum_over_insert by (apply holders_nodup || done). rewrite (ok_sum l Hl). lia.
Qed.

Lemma move_ok l a b v :
  ledger_ok l -> In a holders -> In b holders -> 0 <= v <= lg_balance l a -> ledger_ok (move a b v l).
Proof.
  intros Hl Ha Hb Hv. unfold move. split; cbn.
  - intros c Hc. destruct (decide (b = c)) as [->|]; [rewrite fn_lookup_insert | rewrite fn_lookup_insert_ne by done].
    + destruct (decide (a = c)) as [->|]; [rewrite fn_lookup_insert; lia|].
      rewrite fn_lookup_insert_ne by done. pose proof (ok_balance l Hl c Hc). lia.
    + destruct (decide (a = c)) as [->|]; [rewrite fn_lookup_insert; lia|].
      rewrite fn_lookup_insert_ne by done. by apply (ok_balance l).
  - rewrite !sum_over_insert by (apply holders_nodup || done). rewrite (ok_sum l Hl). lia.
  - apply (ok_supply l Hl).
  - apply (ok_allowance l Hl).
Qed.

Lemma set_allowance_ok l a b v : ledger_ok l -> is_amount v -> ledger_ok (set_allowance a b v l).
Proof.
  intros [Ob Os Om Oa] Hv. split; cbn; try done. intros c d Hc Hd.
  destruct (decide (a = c)) as [->|]; [rewrite fn_lookup_insert | rewrite fn_lookup_insert_ne by done; auto].
  destruct (decide (b = d)) as [->|]; [by rewrite fn_lookup_insert | rewrite fn_lookup_insert_ne by done; auto].
Qed.

(** ** Calls *)

Definition tag_error {X} (f : X -> TokenFailure) (m : eff S E (unit + X)) : eff S E (unit + TokenFailure) :=
  let! r := m in eret (match r with inl u => inl u | inr e => inr (f e) end).

Definition run_call (call : TokenCall Address) : eff S E (unit + TokenFailure) :=
  match call with
  | Call_mint a v => let! _ := mint a v in eret (inl tt)
  | Call_burn a v => tag_error BurnFailed (burn a v)
  | Call_transfer a b v => tag_error TransferFailed (transfer a b v)
  | Call_approve a b v => let! _ := approve a b v in eret (inl tt)
  | Call_transfer_from c a b v => tag_error TransferFromFailed (transfer_from c a b v)
  end.

(** Addresses in use and amounts. *)
Definition call_in (call : TokenCall Address) : Prop :=
  match call with
  | Call_mint a v | Call_burn a v => In a holders /\ is_amount v
  | Call_transfer a b v | Call_approve a b v => In a holders /\ In b holders /\ is_amount v
  | Call_transfer_from c a b v => In c holders /\ In a holders /\ In b holders /\ is_amount v
  end.

(** Addresses in use and amounts; nobody pays themselves. *)
Definition call_ok (call : TokenCall Address) : Prop :=
  match call with
  | Call_mint a v | Call_burn a v => In a holders /\ is_amount v
  | Call_transfer a b v => In a holders /\ In b holders /\ is_amount v /\ a <> b
  | Call_approve a b v => In a holders /\ In b holders /\ is_amount v
  | Call_transfer_from c a b v => In c holders /\ In a holders /\ In b holders /\ is_amount v /\ a <> b
  end.

(** The supply after minting can still be represented. *)
Definition mintable (call : TokenCall Address) l : Prop :=
  match call with Call_mint _ v => lg_supply l + v <= amount_max | _ => True end.

Lemma spec_call_ok call l l' :
  call_ok call -> mintable call l -> ledger_ok l -> spec_call call l = inl l' -> ledger_ok l'.
Proof.
  intros Hc Hm Hl. destruct call as [a v|a v|a b v|a b v|c a b v]; cbn in *.
  - intros [= <-]. destruct Hc as (Ha & Hv0 & _). pose proof (ok_balance l Hl a Ha).
    apply set_balance_ok; auto; lia.
  - destruct (Z.ltb_spec (lg_balance l a) v); intros [= <-]. destruct Hc as (Ha & Hv0 & _).
    pose proof (ok_supply l Hl). rewrite <- Z.add_opp_r. apply set_balance_ok; auto; lia.
  - destruct (Z.ltb_spec (lg_balance l a) v); intros [= <-]. destruct Hc as (Ha & Hb & [Hv0 _] & _).
    apply move_ok; auto; lia.
  - intros [= <-]. apply set_allowance_ok; [done | apply Hc].
  - destruct (Z.ltb_spec (lg_allowance l a c) v); [done|]. destruct (Z.ltb_spec (lg_balance l a) v); intros [= <-].
    destruct Hc as (Hc & Ha & Hb & [Hv0 _] & _). apply set_allowance_ok; [apply move_ok; auto; lia|].
    destruct (ok_allowance l Hl a c Ha Hc). split; lia.
Qed.

(** Runs the next access of a method, whose effect on the ledger is known. *)
Ltac run_next lemma s' Hs He :=
  let Hr := fresh "Hr" in
  edestruct lemma as (s' & Hr & Hs & He); [eassumption | first [done | unfold is_amount in *; lia].. |];
  rewrite (ebind_run _ _ _ _ _ Hr); clear Hr.

Lemma amount_add_run {B} (f : Z -> eff S E B) a b s :
  is_amount a -> is_amount b -> a + b <= amount_max -> ebind (amount_add a b) f s = f (a + b) s.
Proof.
  intros Ha Hb Hm. pose proof (amount_add_law a b s Ha Hb) as Hl.
  rewrite (proj2 (Z.leb_le _ _) Hm) in Hl. by rewrite (ebind_run _ _ _ _ _ Hl).
Qed.

Lemma amount_sub_run {B} (f : Z -> eff S E B) a b s :
  is_amount a -> is_amount b -> b <= a -> ebind (amount_sub a b) f s = f (a - b) s.
Proof. intros Ha Hb Hm. by rewrite (ebind_run _ _ _ _ _ (amount_sub_law a b s Ha Hb Hm)). Qed.

(** What a method must do: give the result, and leave the ledger. *)
Definition gives {X} (n : nat) (m : eff S E X) s (x : X) l : Prop :=
  exists s', m s = (Ok x, s') /\ serves n s' /\ ledger s' ≡ l.

Lemma mint_gives n s a v :
  serves (4 + n) s -> ledger_ok (ledger s) -> In a holders -> is_amount v ->
  lg_supply (ledger s) + v <= amount_max ->
  gives n (mint a v) s tt
    (set_supply (lg_supply (ledger s) + v) (set_balance a (lg_balance (ledger s) a + v) (ledger s))).
Proof.
  intros Hn Hl Ha Hv Hm. pose proof (ledger_ok_amount _ a Hl Ha) as Hb.
  pose proof (sum_over_ge _ a holders (ok_balance _ Hl) Ha) as Hle. rewrite (ok_sum _ Hl) in Hle.
  unfold mint, gives. run_next (balance_of_run (3 + n) a) s1 Hs1 E1. run_next (total_supply_run (2 + n)) s2 Hs2 E2.
  assert (lg_supply (ledger s1) = lg_supply (ledger s)) as -> by apply E1.
  rewrite amount_add_run by (done || lia).
  run_next (save_balance_run (1 + n) a (lg_balance (ledger s) a + v)) s3 Hs3 E3.
  rewrite amount_add_run by (done || (unfold is_amount in *; lia)).
  edestruct (save_supply_run n (lg_supply (ledger s) + v)) as (s4 & Hr & Hs4 & E4); [eassumption | unfold is_amount in *; lia |].
  exists s4. split; [done|]. split; [done|]. by rewrite E4, E3, E2, E1.
Qed.

Lemma burn_gives n s a v :
  serves (4 + n) s -> ledger_ok (ledger s) -> In a holders -> is_amount v ->
  if lg_balance (ledger s) a <? v then gives (3 + n) (burn a v) s (inr Burn_NotEnoughBalance) (ledger s)
  else gives n (burn a v) s (inl tt)
    (set_supply (lg_supply (ledger s) - v) (set_balance a (lg_balance (ledger s) a - v) (ledger s))).
Proof.
  intros Hn Hl Ha Hv. pose proof (ledger_ok_amount _ a Hl Ha) as Hb.
  pose proof (sum_over_ge _ a holders (ok_balance _ Hl) Ha) as Hle. rewrite (ok_sum _ Hl) in Hle.
  pose proof (ok_supply _ Hl) as Hsu.
  unfold burn, gives. run_next (balance_of_run (3 + n) a) s1 Hs1 E1.
  destruct (Z.ltb_spec (lg_balance (ledger s) a) v) as [Hlt|Hge]; [by exists s1|].
  run_next (total_supply_run (2 + n)) s2 Hs2 E2.
  assert (lg_supply (ledger s1) = lg_supply (ledger s)) as -> by apply E1.
  rewrite amount_sub_run by done.
  run_next (save_balance_run (1 + n) a (lg_balance (ledger s) a - v)) s3 Hs3 E3.
  rewrite amount_sub_run by (done || (unfold is_amount in *; lia)).
  run_next (save_supply_run n (lg_supply (ledger s) - v)) s4 Hs4 E4.
  exists s4. split; [done|]. split; [done|]. by rewrite E4, E3, E2, E1.
Qed.

(** What a transfer does, whoever the parties are. *)
Lemma transfer_gives n s a b v :
  serves (4 + n) s -> amounts_ok (ledger s) -> In a holders -> In b holders -> is_amount v ->
  lg_balance (ledger s) b + v <= amount_max \/ lg_balance (ledger s) a < v ->
  if lg_balance (ledger s) a <? v then gives (3 + n) (transfer a b v) s (inr Transfer_NotEnoughBalance) (ledger s)
  else gives n (transfer a b v) s (inl tt)
    (set_balance b (lg_balance (ledger s) b + v) (set_balance a (lg_balance (ledger s) a - v) (ledger s))).
Proof.
  intros Hn Hl Ha Hb Hv Hm. pose proof (am_balance _ Hl a Ha) as Haa. pose proof (am_balance _ Hl b Hb) as Hbb.
  unfold transfer, gives. run_next (balance_of_run (3 + n) a) s1 Hs1 E1. rewrite Z.gtb_ltb.
  destruct (Z.ltb_spec (lg_balance (ledger s) a) v) as [Hlt|Hge]; [by exists s1|].
  run_next (balance_of_run (2 + n) b) s2 Hs2 E2. rewrite (equiv_balance _ _ _ E1 Hb).
  rewrite amount_sub_run by done.
  run_next (save_balance_run (1 + n) a (lg_balance (ledger s) a - v)) s3 Hs3 E3.
  rewrite amount_add_run by (done || lia).
  run_next (save_balance_run n b (lg_balance (ledger s) b + v)) s4 Hs4 E4.
  exists s4. split; [done|]. split; [done|]. by rewrite E4, E3, E2, E1.
Qed.

Lemma transfer_moves n s a b v :
  serves (4 + n) s -> ledger_ok (ledger s) -> In a holders -> In b holders -> is_amount v -> a <> b ->
  if lg_balance (ledger s) a <? v then gives (3 + n) (transfer a b v) s (inr Transfer_NotEnoughBalance) (ledger s)
  else gives n (transfer a b v) s (inl tt) (move a b v (ledger s)).
Proof.
  intros Hn Hl Ha Hb Hv Hne. pose proof (transfer_gives n s a b v Hn (ledger_ok_amounts _ Hl) Ha Hb Hv) as Ht.
  unfold move. cbn. rewrite fn_lookup_insert_ne by done. apply Ht.
  destruct (Z.ltb_spec (lg_balance (ledger s) a) v) as [|Hge]; [by right|]. left.
  assert (ledger_ok (move a b v (ledger s))) as Hmv by (apply move_ok; auto; destruct Hv; lia).
  destruct (ledger_ok_amount _ b Hmv Hb) as [_ Hle]. revert Hle. cbn.
  by rewrite fn_lookup_insert, fn_lookup_insert_ne.
Qed.

Lemma serves_some k n s : serves (k + n) s -> serves n s.
Proof. induction k as [|k IH]; [done|]. intros Hs. by apply IH, serves_less. Qed.

Lemma gives_less k {X} n (m : eff S E X) s x l : gives (k + n) m s x l -> gives n m s x l.
Proof. intros (s' & Hr & Hs & He). exists s'. split; [done|]. split; [by apply (serves_some k) | done]. Qed.

Lemma transfer_from_gives n s c a b v :
  serves (6 + n) s -> ledger_ok (ledger s) -> In c holders -> In a holders -> In b holders -> is_amount v -> a <> b ->
  if lg_allowance (ledger s) a c <? v then gives n (transfer_from c a b v) s (inr NotEnoughAllowance) (ledger s)
  else if lg_balance (ledger s) a <? v
  then gives n (transfer_from c a b v) s (inr (TransferError Transfer_NotEnoughBalance)) (ledger s)
  else gives n (transfer_from c a b v) s (inl tt)
    (set_allowance a c (lg_allowance (ledger s) a c - v) (move a b v (ledger s))).
Proof.
  intros Hn Hl Hc Ha Hb Hv Hne. pose proof (ok_allowance _ Hl a c Ha Hc) as Hal.
  unfold transfer_from, gives. run_next (allowance_run (5 + n) a c) s1 Hs1 E1. rewrite Z.gtb_ltb.
  destruct (Z.ltb_spec (lg_allowance (ledger s) a c) v) as [Hlt|Hge].
  { exists s1. split; [done|]. split; [by apply (serves_some 5) | done]. }
  pose proof Hl as Hl1. rewrite <- E1 in Hl1.
  pose proof (transfer_moves (1 + n) s1 a b v Hs1 Hl1 Ha Hb Hv Hne) as Ht.
  rewrite (equiv_balance _ _ _ E1 Ha) in Ht. destruct (lg_balance (ledger s) a <? v).
  - apply (gives_less 4) in Ht. destruct Ht as (s2 & Hr & Hs2 & E2). rewrite (ebind_run _ _ _ _ _ Hr).
    exists s2. split; [done|]. split; [done|]. by rewrite E2, E1.
  - destruct Ht as (s2 & Hr & Hs2 & E2). rewrite (ebind_run _ _ _ _ _ Hr), amount_sub_run by done.
    unfold approve. run_next (save_allowance_run n a c (lg_allowance (ledger s) a c - v)) s3 Hs3 E3.
    exists s3. split; [done|]. split; [done|]. rewrite E3. apply set_allowance_proper; [done|]. rewrite E2.
    by apply move_proper.
Qed.

Lemma tag_error_run {X} (f : X -> TokenFailure) n (m : eff S E (unit + X)) s r l :
  gives n m s r l -> gives n (tag_error f m) s (match r with inl u => inl u | inr e => inr (f e) end) l.
Proof. intros (s' & Hr & Hs & He). exists s'. unfold tag_error. by rewrite (ebind_run _ _ _ _ _ Hr). Qed.

Lemma run_call_spec call n s :
  call_ok call -> mintable call (ledger s) -> serves (6 + n) s -> ledger_ok (ledger s) ->
  match spec_call call (ledger s) with
  | inl l => gives n (run_call call) s (inl tt) l
  | inr e => gives n (run_call call) s (inr e) (ledger s)
  end.
Proof.
  intros Hc Hm Hn Hl. pose proof (serves_some 2 (4 + n) s Hn) as Hn4.
  destruct call as [a v|a v|a b v|a b v|c a b v]; cbn [spec_call run_call call_ok mintable] in *.
  - destruct Hc as [Ha Hv]. destruct (mint_gives n s a v) as (s' & Hr & Hs & He); [done..|].
    exists s'. by rewrite (ebind_run _ _ _ _ _ Hr).
  - destruct Hc as [Ha Hv]. pose proof (burn_gives n s a v Hn4 Hl Ha Hv) as Hb.
    destruct (lg_balance (ledger s) a <? v); [apply (gives_less 3) in Hb|]; by apply (tag_error_run BurnFailed) in Hb.
  - destruct Hc as (Ha & Hb & Hv & Hne). pose proof (transfer_moves n s a b v Hn4 Hl Ha Hb Hv Hne) as Ht.
    destruct (lg_balance (ledger s) a <? v); [apply (gives_less 3) in Ht|]; by apply (tag_error_run TransferFailed) in Ht.
  - destruct Hc as (Ha & Hb & Hv). destruct (save_allowance_run (5 + n) a b v s) as (s' & Hr & Hs & He); [done..|].
    exists s'. unfold approve. rewrite (ebind_run _ _ _ _ _ Hr). split; [done|]. split; [by apply (serves_some 5) | done].
  - destruct Hc as (Hc & Ha & Hb & Hv & Hne). pose proof (transfer_from_gives n s c a b v Hn Hl Hc Ha Hb Hv Hne) as Ht.
    repeat case_match; simplify_eq; by apply (tag_error_run TransferFromFailed) in Ht.
Qed.

(** The token implements the abstract one. On a ledger whose balances sum up
    to the supply, each call between different parties returns what the token
    promises, a result or the error, and leaves the promised ledger, on which
    the balances again sum up to the supply; a call that fails changes
    nothing. *)
Theorem erc20_refines call n s :
  call_ok call -> mintable call (ledger s) -> serves (6 + n) s -> ledger_ok (ledger s) ->
  exists r s', run_call call s = (Ok r, s') /\ serves n s' /\ ledger_ok (ledger s')
    /\ match spec_call call (ledger s) with
       | inl l => r = inl tt /\ ledger s' ≡ l
       | inr e => r = inr e /\ ledger s' ≡ ledger s
       end.
Proof.
  intros Hc Hm Hn Hl. pose proof (run_call_spec call n s Hc Hm Hn Hl) as Hr.
  destruct (spec_call call (ledger s)) as [l|e] eqn:Es; destruct Hr as (s' & Hr & Hs & He);
    eexists _, s'; (split; [done|]); (split; [done|]); rewrite He; (split; [|done]); [|done].
  by apply (spec_call_ok call (ledger s)).
Qed.

(** ** Payments, whoever the parties are *)

(** What a payment leaves. *)
Definition paid a b v l : Ledger Address := set_balance b (lg_balance l b + v) (set_balance a (lg_balance l a - v) l).

Lemma paid_moved a b v l :
  paid a b v l ≡ if decide (a = b) then set_balance a (lg_balance l a + v) (move a b v l) else move a b v l.
Proof.
  unfold paid, move. case_decide as Hd; [subst b|cbn; by rewrite fn_lookup_insert_ne]. split_and!; [|done|done].
  intros c _. cbn. destruct (decide (a = c)) as [->|]; [by rewrite !fn_lookup_insert | by rewrite !fn_lookup_insert_ne].
Qed.

Lemma paid_proper a b v l l' : In a holders -> In b holders -> l ≡ l' -> paid a b v l ≡ paid a b v l'.
Proof. intros Ha Hb He. unfold paid. by rewrite (equiv_balance _ _ _ He Ha), (equiv_balance _ _ _ He Hb), He. Qed.

(** More than the recipient can hold is never received. *)
Lemma transfer_overflow n s a b v :
  serves (4 + n) s -> amounts_ok (ledger s) -> In a holders -> In b holders -> is_amount v ->
  v <= lg_balance (ledger s) a -> amount_max < lg_balance (ledger s) b + v ->
  forall r s', transfer a b v s <> (Ok r, s').
Proof.
  intros Hn Hl Ha Hb Hv Hle Hgt r s'. pose proof (am_balance _ Hl a Ha) as Haa. pose proof (am_balance _ Hl b Hb) as Hbb.
  unfold transfer. run_next (balance_of_run (3 + n) a) s1 Hs1 E1. rewrite Z.gtb_ltb, (proj2 (Z.ltb_ge _ _) Hle).
  run_next (balance_of_run (2 + n) b) s2 Hs2 E2. rewrite (equiv_balance _ _ _ E1 Hb).
  rewrite amount_sub_run by done. run_next (save_balance_run (1 + n) a (lg_balance (ledger s) a - v)) s3 Hs3 E3.
  intros Hr. apply ebind_ok in Hr as (x & s5 & Hr & _). revert Hr.
  pose proof (amount_add_law (lg_balance (ledger s) b) v s3 Hbb Hv) as Ho.
  rewrite (proj2 (Z.leb_gt _ _) Hgt) in Ho. apply Ho.
Qed.

(** What becomes of a payment. *)
Definition transfer_outcome {X} n (m : eff S E X) s b v (x : X) l : Prop :=
  if amount_max <? lg_balance (ledger s) b + v then forall r s', m s <> (Ok r, s') else gives n m s x l.

Lemma transfer_pays n s a b v :
  serves (4 + n) s -> amounts_ok (ledger s) -> In a holders -> In b holders -> is_amount v ->
  if lg_balance (ledger s) a <? v then gives (3 + n) (transfer a b v) s (inr Transfer_NotEnoughBalance) (ledger s)
  else transfer_outcome n (transfer a b v) s b v (inl tt) (paid a b v (ledger s)).
Proof.
  intros Hn Hl Ha Hb Hv. pose proof (transfer_gives n s a b v Hn Hl Ha Hb Hv) as Ht. unfold transfer_outcome.
  destruct (Z.ltb_spec (lg_balance (ledger s) a) v) as [Hlt|Hge]; [by apply Ht; right|].
  destruct (Z.ltb_spec amount_max (lg_balance (ledger s) b + v)) as [Hgt|Hle]; [|by apply Ht; left].
  by apply (transfer_overflow n).
Qed.

Lemma transfer_from_pays n s c a b v :
  serves (6 + n) s -> amounts_ok (ledger s) -> In c holders -> In a holders -> In b holders -> is_amount v ->
  if lg_allowance (ledger s) a c <? v then gives n (transfer_from c a b v) s (inr NotEnoughAllowance) (ledger s)
  else if lg_balance (ledger s) a <? v
  then gives n (transfer_from c a b v) s (inr (TransferError Transfer_NotEnoughBalance)) (ledger s)
  else transfer_outcome n (transfer_from c a b v) s b v (inl tt)
    (set_allowance a c (lg_allowance (ledger s) a c - v) (paid a b v (ledger s))).
Proof.
  intros Hn Hl Hc Ha Hb Hv. pose proof (am_allowance _ Hl a c Ha Hc) as Hal. unfold transfer_outcome.
  unfold transfer_from, gives. run_next (allowance_run (5 + n) a c) s1 Hs1 E1. rewrite Z.gtb_ltb.
  destruct (Z.ltb_spec (lg_allowance (ledger s) a c) v) as [Hlt|Hge].
  { exists s1. split; [done|]. split; [by apply (serves_some 5) | done]. }
  pose proof Hl as Hl1. rewrite <- E1 in Hl1.
  pose proof (transfer_pays (1 + n) s1 a b v Hs1 Hl1 Ha Hb Hv) as Ht. unfold transfer_outcome in Ht.
  rewrite (equiv_balance _ _ _ E1 Ha), (equiv_balance _ _ _ E1 Hb) in Ht. destruct (lg_balance (ledger s) a <? v).
  - apply (gives_less 4) in Ht. destruct Ht as (s2 & Hr & Hs2 & E2). rewrite (ebind_run _ _ _ _ _ Hr).
    exists s2. split; [done|]. split; [done|]. by rewrite E2, E1.
  - destruct (amount_max <? lg_balance (ledger s) b + v).
    { intros r s' Hr. apply ebind_ok in Hr as (x & s2 & Hr & _). by apply Ht in Hr. }
    destruct Ht as (s2 & Hr & Hs2 & E2). rewrite (ebind_run _ _ _ _ _ Hr), amount_sub_run by done.
    unfold approve. run_next (save_allowance_run n a c (lg_allowance (ledger s) a c - v)) s3 Hs3 E3.
    exists s3. split; [done|]. split; [done|]. rewrite E3. apply set_allowance_proper; [done|]. rewrite E2.
    by apply paid_proper.
Qed.

(** A payment or an approval does what the token promises, or reports the promised
    failure; a payment to oneself adds the amount to the balance, and one that the
    recipient's balance cannot hold does not return. *)
Definition overflows (call : TokenCall Address) l : bool :=
  match payment call with Some (_, b, v) => amount_max <? lg_balance l b + v | None => false end.

Lemma payment_spec call n s :
  match call with Call_mint _ _ | Call_burn _ _ => False | _ => True end ->
  call_in call -> serves (6 + n) s -> amounts_ok (ledger s) ->
  match spec_call call (ledger s) with
  | inl l => if overflows call (ledger s) then forall r s', run_call call s <> (Ok r, s')
             else gives n (run_call call) s (inl tt) (self_credit call (ledger s) l)
  | inr e => gives n (run_call call) s (inr e) (ledger s)
  end.
Proof.
  assert (forall X f (m : eff S E (unit + X)) r s', tag_error f m s = (Ok r, s') -> exists x, m s = (Ok x, s')) as Hinv.
  { intros X f m r s'. unfold tag_error, ebind. destruct (m s) as [[y|e|] s2]; cbn; intros [= _ <-]. by exists y. }
  assert (forall X (m : eff S E X) x l l', l ≡ l' -> gives n m s x l -> gives n m s x l') as Hequiv.
  { intros X m x l l' He (s' & ? & ? & He'). exists s'. split; [done|]. split; [done|]. by rewrite He'. }
  intros Hk Hc Hn Hl. pose proof (serves_some 2 (4 + n) s Hn) as Hn4.
  destruct call as [a v|a v|a b v|a b v|c a b v]; try done;
    cbn [spec_call run_call call_in overflows payment self_credit] in *.
  - destruct Hc as (Ha & Hb & Hv). pose proof (transfer_pays n s a b v Hn4 Hl Ha Hb Hv) as Ht.
    unfold transfer_outcome in Ht.
    destruct (lg_balance (ledger s) a <? v); [apply (gives_less 3) in Ht; by apply (tag_error_run TransferFailed) in Ht|].
    destruct (_ <? _); [intros r s' [x Hx]%Hinv; by apply Ht in Hx|].
    apply (tag_error_run TransferFailed) in Ht. revert Ht. apply Hequiv, paid_moved.
  - destruct Hc as (Ha & Hb & Hv). destruct (save_allowance_run (5 + n) a b v s) as (s' & Hr & Hs & He); [done..|].
    exists s'. unfold approve. rewrite (ebind_run _ _ _ _ _ Hr). split; [done|]. split; [by apply (serves_some 5) | done].
  - destruct Hc as (Hc & Ha & Hb & Hv). pose proof (transfer_from_pays n s c a b v Hn Hl Hc Ha Hb Hv) as Ht.
    unfold transfer_outcome in Ht.
    destruct (lg_allowance (ledger s) a c <? v); [by apply (tag_error_run TransferFromFailed) in Ht|].
    destruct (lg_balance (ledger s) a <? v); [by apply (tag_error_run TransferFromFailed) in Ht|].
    destruct (_ <? _); [intros r s' [x Hx]%Hinv; by apply Ht in Hx|].
    apply (tag_error_run TransferFromFailed) in Ht. revert Ht. apply Hequiv.
    rewrite (set_allowance_proper a c _ _ _ Ha (paid_moved a b v (ledger s))). by case_decide.
Qed.

(** ** Sequences of calls *)

(** A call that returns, one after the other. *)
Inductive token_step s : S -> Prop :=
| token_call call r s' : call_ok call -> run_call call s = (Ok r, s') -> token_step s s'.

(** Minting more than can be represented does not return. *)
Lemma mint_overflow a v s r s' :
  call_ok (Call_mint a v) -> serves 4 s -> ledger_ok (ledger s) -> run_call (Call_mint a v) s = (Ok r, s') ->
  mintable (Call_mint a v) (ledger s).
Proof.
  intros [Ha Hv] Hn Hl Hr. cbn. destruct (Z.leb_spec (lg_supply (ledger s) + v) amount_max) as [|Hgt]; [done|]. exfalso.
  pose proof (ledger_ok_amount _ a Hl Ha) as Hb. pose proof (ok_supply _ Hl) as Hsu.
  pose proof (sum_over_ge _ a holders (ok_balance _ Hl) Ha) as Hle. rewrite (ok_sum _ Hl) in Hle.
  revert Hr. unfold run_call, mint. intros Hr. apply ebind_ok in Hr as (u & s0 & Hr & _). revert Hr.
  run_next (balance_of_run 3 a) s1 Hs1 E1. run_next (total_supply_run 2) s2 Hs2 E2.
  assert (lg_supply (ledger s1) = lg_supply (ledger s)) as -> by apply E1.
  destruct (Z.leb_spec (lg_balance (ledger s) a + v) amount_max) as [Hle1|Hgt1].
  - rewrite amount_add_run by done.
    run_next (save_balance_run 1 a (lg_balance (ledger s) a + v)) s3 Hs3 E3. intros Hr.
    apply ebind_ok in Hr as (x & s5 & Hr & _). revert Hr.
    assert (is_amount (lg_supply (ledger s))) as Hsa by (unfold is_amount in *; lia).
    pose proof (amount_add_law (lg_supply (ledger s)) v s3 Hsa Hv) as Ho.
    rewrite (proj2 (Z.leb_gt _ _) Hgt) in Ho. apply Ho.
  - intros Hr. apply ebind_ok in Hr as (x & s5 & Hr & _). revert Hr.
    pose proof (amount_add_law (lg_balance (ledger s) a) v s2 Hb Hv) as Ho.
    rewrite (proj2 (Z.leb_gt _ _) Hgt1) in Ho. apply Ho.
Qed.

Lemma token_step_ok n s s' :
  token_step s s' -> serves (6 + n) s -> ledger_ok (ledger s) -> serves n s' /\ ledger_ok (ledger s').
Proof.
  intros [call r s1 Hc Hr] Hn Hl.
  assert (mintable call (ledger s)) as Hm.
  { destruct call; try done. eapply mint_overflow; [done | | done | done].
    apply (serves_some (2 + n)). replace (2 + n + 4)%nat with (6 + n)%nat by lia. done. }
  pose proof (run_call_spec call n s Hc Hm Hn Hl) as Hs.
  destruct (spec_call call (ledger s)) as [l|e] eqn:Es; destruct Hs as (s2 & Hr2 & Hs2 & He);
    rewrite Hr2 in Hr; injection Hr as _ <-; (split; [done|]); rewrite He; [|done].
  by apply (spec_call_ok call (ledger s)).
Qed.

(** C24: tokens are conserved. Through any sequence of calls that return, none of
    which pays the payer, the balances of the addresses in use sum up to the
    total supply, no balance is negative and the supply stays representable. *)
Theorem erc20_supply k s s' :
  nsteps token_step k s s' -> serves (6 * k) s -> ledger_ok (ledger s) ->
  sum_over (lg_balance (ledger s')) holders = lg_supply (ledger s')
  /\ (forall a, In a holders -> 0 <= lg_balance (ledger s') a <= lg_supply (ledger s'))
  /\ lg_supply (ledger s') <= amount_max.
Proof.
  intros Hk Hn Hl. assert (ledger_ok (ledger s')) as Hl'.
  { revert Hn Hl. induction Hk as [|k s1 s2 s3 Hs _ IH]; [done|]. intros Hn Hl.
    destruct (token_step_ok (6 * k) s1 s2 Hs) as [Hn2 Hl2]; [by replace (6 + 6 * k)%nat with (6 * Datatypes.S k)%nat by lia | done |].
    by apply IH. }
  split; [apply (ok_sum _ Hl')|]. split; [|apply (ok_supply _ Hl')]. intros a Ha.
  split; [by apply (ok_balance _ Hl')|]. rewrite <- (ok_sum _ Hl'). apply sum_over_ge; [apply (ok_balance _ Hl') | done].
Qed.

(** A transfer to oneself creates tokens. The balance of the recipient is read
    before the sender's is saved, so when both are one address the second write
    adds the amount to the old balance; the supply is not changed. *)
Theorem erc20_self_transfer a v s :
  serves 4 s -> ledger_ok (ledger s) -> In a holders -> 0 <= v <= lg_balance (ledger s) a ->
  lg_balance (ledger s) a + v <= amount_max ->
  exists s', transfer a a v s = (Ok (inl tt), s')
    /\ lg_balance (ledger s') a = lg_balance (ledger s) a + v
    /\ lg_supply (ledger s') = lg_supply (ledger s)
    /\ sum_over (lg_balance (ledger s')) holders = lg_supply (ledger s') + v.
Proof.
  intros Hn Hl Ha Hv Hm. pose proof (ledger_ok_amount _ a Hl Ha) as Hb.
  assert (is_amount v) as Hva by (unfold is_amount in *; lia).
  pose proof (transfer_gives 0 s a a v Hn (ledger_ok_amounts _ Hl) Ha Ha Hva (or_introl Hm)) as Ht.
  rewrite (proj2 (Z.ltb_ge _ _)) in Ht by lia. destruct Ht as (s' & Hr & _ & He). exists s'. split; [done|].
  split; [rewrite (equiv_balance _ _ _ He Ha); cbn; by rewrite fn_lookup_insert|].
  split; [apply He|]. transitivity (sum_over (lg_balance (set_balance a (lg_balance (ledger s) a + v)
    (set_balance a (lg_balance (ledger s) a - v) (ledger s)))) holders).
  - apply sum_over_ext. intros b Hin. by apply equiv_balance.
  - cbn. rewrite !sum_over_insert by (apply holders_nodup || done). rewrite fn_lookup_insert, (ok_sum _ Hl).
    replace (lg_supply (ledger s')) with (lg_supply (ledger s)) by (symmetry; apply He). lia.
Qed.
End refinement.
