(* ===== verification/Erc20Contract.v ===== *)
(** The example token as a contract: the commands it understands, its cells in
    local storage, the entry point, the proxy that accounts call it through and
    the code that deploys it.  Sources:
    [contracts/examples/erc20-smart-contract/src/erc20.rs], [api.rs], [proxy.rs],
    [deployer.rs], [error.rs] and [lib.rs] beside it. *)

From stdpp Require Import gmap.
From S2P Require Import Prelude BTreeMap Bytesrepr Uint Types CLValues Account StoredValue Transform.
From S2P Require Import Trie TrackingCopy ApiError ProtocolData ExecutionError RuntimeContext.
From S2P Require Import ExtractURefs Runtime HostFunctions EngineState ContractApi Erc20.

(** * [error.rs] *)

Module erc20_error.
Inductive Error :=
| UnknownApiCommand
| UnknownDeployCommand
| UnknownProxyCommand
| UnknownErc20ConstructorCommand
| UnknownErc20CallCommand
| BalanceAssertionFailure
| TotalSupplyAssertionFailure
| AllowanceAssertionFailure
| TransferFailureNotEnoughBalance
| TransferFromFailureNotEnoughBalance
| TransferFromFailureNotEnoughAllowance
| PurseTransferError
| LocalPurseKeyMissing
| NotAnURef
| TokensBurnFailureNotEnoughBalance
| MissingArgument0
| MissingArgument1
| MissingArgument2
| MissingArgument3
| MissingArgument4
| MissingArgument5
| InvalidArgument0
| InvalidArgument1
| InvalidArgument2
| InvalidArgument3
| InvalidArgument4
| InvalidArgument5
| UnsupportedNumberOfArguments.

(** [error as u16]. *)
Definition discriminant (e : Error) : Z :=
  match e with
  | UnknownApiCommand => 1 | UnknownDeployCommand => 2 | UnknownProxyCommand => 3
  | UnknownErc20ConstructorCommand => 4 | UnknownErc20CallCommand => 5 | BalanceAssertionFailure => 6
  | TotalSupplyAssertionFailure => 7 | AllowanceAssertionFailure => 8 | TransferFailureNotEnoughBalance => 9
  | TransferFromFailureNotEnoughBalance => 10 | TransferFromFailureNotEnoughAllowance => 11
  | PurseTransferError => 12 | LocalPurseKeyMissing => 13 | NotAnURef => 14
  | TokensBurnFailureNotEnoughBalance => 15 | MissingArgument0 => 16 | MissingArgument1 => 17
  | MissingArgument2 => 18 | MissingArgument3 => 19 | MissingArgument4 => 20 | MissingArgument5 => 21
  | InvalidArgument0 => 22 | InvalidArgument1 => 23 | InvalidArgument2 => 24 | InvalidArgument3 => 25
  | InvalidArgument4 => 26 | InvalidArgument5 => 27 | UnsupportedNumberOfArguments => 28
  end.

Definition missing_argument (i : Z) : Error :=
  match i with
  | 0 => MissingArgument0 | 1 => MissingArgument1 | 2 => MissingArgument2 | 3 => MissingArgument3
  | 4 => MissingArgument4 | 5 => MissingArgument5 | _ => UnsupportedNumberOfArguments
  end.

Definition invalid_argument (i : Z) : Error :=
  match i with
  | 0 => InvalidArgument0 | 1 => InvalidArgument1 | 2 => InvalidArgument2 | 3 => InvalidArgument3
  | 4 => InvalidArgument4 | 5 => InvalidArgument5 | _ => UnsupportedNumberOfArguments
  end.

Definition into_api_error (e : Error) : ApiError := Api_User (discriminant e).
End erc20_error.
Import erc20_error.
Coercion into_api_error : Error >-> ApiError.

(** * [api.rs] *)

Definition DEPLOY : bytes := str "deploy".
Definition INIT_ERC20 : bytes := str "init_erc20".
Definition BALANCE_OF : bytes := str "balance_of".
Definition TOTAL_SUPPLY : bytes := str "total_supply".
Definition TRANSFER : bytes := str "transfer".
Definition TRANSFER_FROM : bytes := str "transfer_from".
Definition APPROVE : bytes := str "approve".
Definition ASSERT_BALANCE : bytes := str "assert_balance".
Definition ASSERT_TOTAL_SUPPLY : bytes := str "assert_total_supply".
Definition ASSERT_ALLOWANCE : bytes := str "assert_allowance".
Definition ALLOWANCE : bytes := str "allowance".
Definition BUY_PROXY : bytes := str "buy_proxy".
Definition BUY : bytes := str "buy".
Definition SELL_PROXY : bytes := str "sell_proxy".
Definition SELL : bytes := str "sell".

Inductive Api :=
| Deploy (name : bytes) (initial_balance : Z)
| InitErc20 (amount : Z)
| BalanceOf (address : PublicKey)
| TotalSupply
| Transfer (recipient : PublicKey) (amount : Z)
| TransferFrom (owner recipient : PublicKey) (amount : Z)
| Approve (spender : PublicKey) (amount : Z)
| Allowance (owner spender : PublicKey)
| AssertBalance (address : PublicKey) (amount : Z)
| AssertTotalSupply (total_supply : Z)
| AssertAllowance (owner spender : PublicKey) (amount : Z)
| BuyProxy (clx_amount : Z)
| Buy (purse : PurseId)
| SellProxy (tokens_amount : Z)
| Sell (purse : PurseId) (amount : Z).

Section contract.
Context {L G Mem Module : Type} {F : ForeignErrors} `{!Platform Mem Module} {W : WasmValues} {WR : WasmResults}.
Context {heap : Heap Mem} {imports : Imports L G Mem Module} {alloc : Allocator}.

#[local] Abbreviation RT := (Runtime L G Mem Module).
#[local] Abbreviation T A := (eff RT InterpreterError A).

Definition get_arg {A} (c : Codec A) (i : Z) : T A :=
  let! o := runtime.get_arg c i in
  let! r := option_or_revert_with (missing_argument i) o in
  unwrap_or_revert_with (invalid_argument i) r.

(** The argument positions are those of a [u32]; they stay below six. *)
Definition from_args_with_shift (arg_shift : Z) : T Api :=
  let! method_name := get_arg string_codec arg_shift in
  if bool_decide (method_name = DEPLOY) then
    let! token_name := get_arg string_codec (arg_shift + 1) in
    let! initial_balance := get_arg u512_codec (arg_shift + 2) in
    eret (Deploy token_name initial_balance)
  else if bool_decide (method_name = INIT_ERC20) then
    let! amount := get_arg u512_codec (arg_shift + 1) in
    eret (InitErc20 amount)
  else if bool_decide (method_name = BALANCE_OF) then
    let! public_key := get_arg public_key_codec (arg_shift + 1) in
    eret (BalanceOf public_key)
  else if bool_decide (method_name = TOTAL_SUPPLY) then eret TotalSupply
  else if bool_decide (method_name = TRANSFER) then
    let! recipient := get_arg public_key_codec (arg_shift + 1) in
    let! amount := get_arg u512_codec (arg_shift + 2) in
    eret (Transfer recipient amount)
  else if bool_decide (method_name = TRANSFER_FROM) then
    let! owner := get_arg public_key_codec (arg_shift + 1) in
    let! recipient := get_arg public_key_codec (arg_shift + 2) in
    let! amount := get_arg u512_codec (arg_shift + 3) in
    eret (TransferFrom owner recipient amount)
  else if bool_decide (method_name = APPROVE) then
    let! spender := get_arg public_key_codec (arg_shift + 1) in
    let! amount := get_arg u512_codec (arg_shift + 2) in
    eret (Approve spender amount)
  else if bool_decide (method_name = ASSERT_BALANCE) then
    let! address := get_arg public_key_codec (arg_shift + 1) in
    let! amount := get_arg u512_codec (arg_shift + 2) in
    eret (AssertBalance address amount)
  else if bool_decide (method_name = ASSERT_TOTAL_SUPPLY) then
    let! total_supply := get_arg u512_codec (arg_shift + 1) in
    eret (AssertTotalSupply total_supply)
  else if bool_decide (method_name = ASSERT_ALLOWANCE) then
    let! owner := get_arg public_key_codec (arg_shift + 1) in
    let! spender := get_arg public_key_codec (arg_shift + 2) in
    let! amount := get_arg u512_codec (arg_shift + 3) in
    eret (AssertAllowance owner spender amount)
  else if bool_decide (method_name = ALLOWANCE) then
    let! owner := get_arg public_key_codec (arg_shift + 1) in
    let! spender := get_arg public_key_codec (arg_shift + 2) in
    eret (Allowance owner spender)
  else if bool_decide (method_name = BUY_PROXY) then
    let! clx_amount := get_arg u512_codec (arg_shift + 1) in
    eret (BuyProxy clx_amount)
  else if bool_decide (method_name = BUY) then
    let! purse := get_arg purse_id_codec (arg_shift + 1) in
    eret (Buy purse)
  else if bool_decide (method_name = SELL_PROXY) then
    let! token_amount := get_arg u512_codec (arg_shift + 1) in
    eret (SellProxy token_amount)
  else if bool_decide (method_name = SELL) then
    let! purse := get_arg purse_id_codec (arg_shift + 1) in
    let! amount := get_arg u512_codec (arg_shift + 2) in
    eret (Sell purse amount)
  else revert UnknownApiCommand.

Definition from_args : T Api := from_args_with_shift 0.

Definition from_args_in_proxy : T Api := from_args_with_shift 1.

Definition destination_contract : T ContractRef :=
  let! hash := get_arg (u8_array_codec 32) 0 in eret (ContractRef_Hash hash).

(** * [erc20.rs] *)

Definition INIT_FLAG_KEY : bytes := replicate 32 x01.
Definition TOTAL_SUPPLY_KEY : bytes := replicate 32 xff.
Definition BALANCE_BYTE : byte := x01.
Definition PURSE_NAME : bytes := str "erc20_main_purse".

Definition balance_key (public_key : PublicKey) : bytes := [BALANCE_BYTE] ++ public_key.

Definition allowance_key (owner spender : PublicKey) : bytes := owner ++ spender.

(** [storage::read_local(&key).unwrap_or_revert()]. *)
Definition read_amount {K} (ck : Codec K) (key : K) : T (option Z) :=
  let! r := storage.read_local ck u512_codec key in unwrap_or_revert api_from_bytesrepr r.

(** [impl ERC20Trait<U512, PublicKey> for ERC20Token]; an overflow panics. *)
#[global] Instance erc20_token : ERC20Trait RT InterpreterError PublicKey := {|
  read_balance address := read_amount vec_u8_codec (balance_key address);
  save_balance address balance := storage.write_local vec_u8_codec clt_u512 (balance_key address) balance;
  read_total_supply := read_amount (u8_array_codec 32) TOTAL_SUPPLY_KEY;
  save_total_supply total_supply := storage.write_local (u8_array_codec 32) clt_u512 TOTAL_SUPPLY_KEY total_supply;
  read_allowance owner spender := read_amount vec_u8_codec (allowance_key owner spender);
  save_allowance owner spender amount := storage.write_local vec_u8_codec clt_u512 (allowance_key owner spender) amount;
  amount_add a b := checked (uint_add 512 a b);
  amount_sub a b := checked (uint_sub a b);
|}.

Definition constructor : T unit :=
  let! api := from_args in
  match api with
  | InitErc20 amount => let! caller := runtime.get_caller in mint caller amount
  | _ => revert UnknownErc20ConstructorCommand
  end.

Definition local_purse : T PurseId :=
  let! found := runtime.get_key PURSE_NAME in
  let! key := option_or_revert_with LocalPurseKeyMissing found in
  option_or_revert_with NotAnURef (as_uref key).

Definition transfer_in_clx_from_purse (purse : PurseId) : T Z :=
  let! local_purse := local_purse in
  let! found := system.get_balance purse in
  let! clx_amount := option_or_revert_with TransferFromFailureNotEnoughAllowance found in
  let! r := system.transfer_from_purse_to_purse purse local_purse clx_amount in
  let! _ := unwrap_or_revert_with PurseTransferError r in
  eret clx_amount.

Definition transfer_out_clx_to_purse (purse : PurseId) (amount : Z) : T unit :=
  let! local_purse := local_purse in
  let! r := system.transfer_from_purse_to_purse local_purse purse amount in
  unwrap_or_revert_with PurseTransferError r.

Definition entry_point : T unit :=
  let! api := from_args in
  match api with
  | Transfer recipient amount =>
      let! caller := runtime.get_caller in
      let! r := transfer caller recipient amount in
      match r with
      | inl _ => eret tt
      | inr Transfer_NotEnoughBalance => revert TransferFailureNotEnoughBalance
      end
  | TransferFrom owner recipient amount =>
      let! caller := runtime.get_caller in
      let! r := transfer_from caller owner recipient amount in
      match r with
      | inl _ => eret tt
      | inr (TransferError Transfer_NotEnoughBalance) => revert TransferFromFailureNotEnoughBalance
      | inr NotEnoughAllowance => revert TransferFromFailureNotEnoughAllowance
      end
  | Approve spender amount => let! caller := runtime.get_caller in approve caller spender amount
  | BalanceOf address =>
      let! balance := balance_of address in
      let! value := cl_value_of clt_u512 balance in
      runtime.ret value
  | TotalSupply =>
      let! supply := total_supply in
      let! value := cl_value_of clt_u512 supply in
      runtime.ret value
  | Allowance owner spender =>
      let! allowed := allowance owner spender in
      let! value := cl_value_of clt_u512 allowed in
      runtime.ret value
  | Buy purse =>
      let! transfered_amount := transfer_in_clx_from_purse purse in
      let! caller := runtime.get_caller in
      mint caller transfered_amount
  | Sell purse amount =>
      let! caller := runtime.get_caller in
      let! r := burn caller amount in
      match r with
      | inl _ => transfer_out_clx_to_purse purse amount
      | inr Burn_NotEnoughBalance => revert TokensBurnFailureNotEnoughBalance
      end
  | _ => revert UnknownErc20CallCommand
  end.

Definition is_not_initialized : T bool :=
  let! r := storage.read_local (u8_array_codec 32) i32_codec INIT_FLAG_KEY in
  let! flag := unwrap_or_revert api_from_bytesrepr r in
  eret (match flag with None => true | Some _ => false end).

Definition mark_as_initialized : T unit := storage.write_local (u8_array_codec 32) clt_i32 INIT_FLAG_KEY 1.

Definition erc20 : T unit :=
  let! fresh := is_not_initialized in
  if fresh then let! _ := constructor in mark_as_initialized else entry_point.

(** * [proxy.rs] *)

(** The contract is called for its effects. *)
Definition call_for_unit (token_ref : ContractRef) (args : list (outcome CLValueError CLValue)) : T unit :=
  runtime.call_contract token_ref args unit_codec.

Definition erc20_proxy : T unit :=
  let! token_ref := destination_contract in
  let! api := from_args_in_proxy in
  match api with
  | Transfer recipient amount =>
      call_for_unit token_ref [from_t clt_string TRANSFER; from_t clt_public_key recipient; from_t clt_u512 amount]
  | TransferFrom owner recipient amount =>
      call_for_unit token_ref [from_t clt_string TRANSFER_FROM; from_t clt_public_key owner;
        from_t clt_public_key recipient; from_t clt_u512 amount]
  | Approve spender amount =>
      call_for_unit token_ref [from_t clt_string APPROVE; from_t clt_public_key spender; from_t clt_u512 amount]
  | AssertBalance address expected_amount =>
      let! balance := runtime.call_contract token_ref [from_t clt_string BALANCE_OF; from_t clt_public_key address] u512_codec in
      if expected_amount =? balance then eret tt else revert BalanceAssertionFailure
  | AssertTotalSupply expected_total_supply =>
      let! total_supply := runtime.call_contract token_ref [from_t clt_string TOTAL_SUPPLY] u512_codec in
      if expected_total_supply =? total_supply then eret tt else revert TotalSupplyAssertionFailure
  | AssertAllowance owner spender expected_amount =>
      let! allowance := runtime.call_contract token_ref
        [from_t clt_string ALLOWANCE; from_t clt_public_key owner; from_t clt_public_key spender] u512_codec in
      if expected_amount =? allowance then eret tt else revert AllowanceAssertionFailure
  | BuyProxy clx_amount =>
      let! main_purse := account.get_main_purse in
      let! new_purse := system.create_purse in
      let! r := system.transfer_from_purse_to_purse main_purse new_purse clx_amount in
      let! _ := unwrap_or_revert_with PurseTransferError r in
      call_for_unit token_ref [from_t clt_string BUY; from_t clt_purse_id new_purse]
  | SellProxy tokens_amount =>
      let! new_purse := system.create_purse in
      let! _ := call_for_unit token_ref
        [from_t clt_string SELL; from_t clt_purse_id new_purse; from_t clt_u512 tokens_amount] in
      let! main_purse := account.get_main_purse in
      let! r := system.transfer_from_purse_to_purse new_purse main_purse tokens_amount in
      unwrap_or_revert_with PurseTransferError r
  | _ => revert UnknownProxyCommand
  end.

(** * [deployer.rs] and [lib.rs] *)

Definition ERC20_CONTRACT_NAME : bytes := str "erc20".
Definition ERC20_PROXY_CONTRACT_NAME : bytes := str "erc20_proxy".

Definition deploy_token (name : bytes) (initial_balance : Z) : T unit :=
  let! token_purse := system.create_purse in
  let token_urefs := bt_insert PURSE_NAME (Key_URef token_purse) bt_empty in
  let! token_ref := storage.store_function_at_hash ERC20_CONTRACT_NAME token_urefs in
  let! _ := call_for_unit token_ref [from_t clt_string INIT_ERC20; from_t clt_u512 initial_balance] in
  let! token_turef := storage.new_turef clt_key (key_from_contract_ref token_ref) in
  runtime.put_key name (turef.into_key token_turef).

Definition deploy_proxy : T unit :=
  let! proxy_ref := storage.store_function_at_hash ERC20_PROXY_CONTRACT_NAME bt_empty in
  let! proxy_turef := storage.new_turef clt_key (key_from_contract_ref proxy_ref) in
  runtime.put_key ERC20_PROXY_CONTRACT_NAME (turef.into_key proxy_turef).

Definition deploy : T unit :=
  let! api := from_args in
  match api with
  | Deploy name initial_balance =>
      let! _ := deploy_token name initial_balance in
      deploy_proxy
  | _ => revert UnknownDeployCommand
  end.

Definition call : T unit := deploy.
End contract.
