(* ===== verification/Erc20Runs.v ===== *)
(** The example token as a contract, run against the host functions: its cells in
    local storage implement the storage the token logic asks for, its arguments
    arrive as they were sent, and the entry point does what the abstract token
    promises.  Sources: [contracts/examples/erc20-smart-contract/src/erc20.rs] and
    [api.rs] beside it. *)

From stdpp Require Import gmap.
From S2P Require Import Prelude BTreeMap Bytesrepr Uint Types CLValues Account StoredValue Transform.
From S2P Require Import Trie TrackingCopy ApiError ProtocolData ExecutionError RuntimeContext ContextSafety.
From S2P Require Import ExtractURefs Runtime HostFunctions RuntimeSafety EngineState ContractApi ContractRuns LocalCells.
From S2P Require Import Erc20 Erc20Contract.
Import erc20_error.

(** * The cells of the token *)

Definition balance_cell (a : PublicKey) : bytes := wire_vec (balance_key a).
Definition allowance_cell (ab : PublicKey * PublicKey) : bytes := wire_vec (allowance_key ab.1 ab.2).

Section holders.
Context (hs : list PublicKey) (hs_keys : Forall (is_bytes 32) hs).

Definition token_cells : list bytes :=
  TOTAL_SUPPLY_KEY :: map balance_cell hs ++ map allowance_cell (list_prod hs hs).

Lemma holder_len a : In a hs -> zlen a = 32.
Proof. intros Ha. rewrite List.Forall_forall in hs_keys. unfold zlen. by rewrite (hs_keys a Ha). Qed.

Lemma balance_len a : In a hs -> zlen (balance_cell a) = 37.
Proof. intros Ha. unfold balance_cell, balance_key. by rewrite wire_vec_len, zlen_app, (holder_len a Ha). Qed.

Lemma allowance_len a b : In a hs -> In b hs -> zlen (allowance_cell (a, b)) = 68.
Proof. intros Ha Hb. unfold allowance_cell, allowance_key. cbn. by rewrite wire_vec_len, zlen_app, (holder_len a Ha), (holder_len b Hb). Qed.

Lemma balance_cell_in a : In a hs -> In (balance_cell a) token_cells.
Proof. intros Ha. right. apply in_or_app. left. by apply in_map. Qed.

Lemma allowance_cell_in a b : In a hs -> In b hs -> In (allowance_cell (a, b)) token_cells.
Proof. intros Ha Hb. right. apply in_or_app. right. apply in_map. by apply in_prod. Qed.

Lemma balance_cell_inj a b : balance_cell a = balance_cell b -> a = b.
Proof. intros He%wire_vec_inj. by injection He. Qed.

Lemma allowance_cell_inj a b c d :
  In a hs -> In c hs -> allowance_cell (a, b) = allowance_cell (c, d) -> a = c /\ b = d.
Proof.
  intros Ha Hc He%wire_vec_inj. apply app_inj_1 in He; [done|]. cbn.
  pose proof (holder_len a Ha). pose proof (holder_len c Hc). unfold zlen in *. lia.
Qed.

Lemma cells_apart a b c :
  In a hs -> In b hs -> In c hs ->
  TOTAL_SUPPLY_KEY <> balance_cell a /\ TOTAL_SUPPLY_KEY <> allowance_cell (b, c)
  /\ balance_cell a <> allowance_cell (b, c).
Proof.
  intros Ha Hb Hc. pose proof (balance_len a Ha). pose proof (allowance_len b c Hb Hc).
  assert (zlen TOTAL_SUPPLY_KEY = 32) by done. split_and!; intros He; rewrite He in *; lia.
Qed.
End holders.

(** * Against the host functions *)

Section runs.
Context {L G Mem Module : Type} `{LinkedHashMapLaws L, Rng G} `{MeterLaws} {dbg : DebugText} {qtext : QueryText}.
Context {mtext : MismatchText} {hasher : Hasher} {F : ForeignErrors} `{!Platform Mem Module} {W : WasmValues} {WL : WasmValuesLaws}.
Context {WR : WasmResults} {WRL : WasmResultsLaws} {heap : Heap Mem} `{!HeapView Mem} {HL : HeapLaws Mem Module}.
Context {alloc : Allocator} {layout : Layout} {E : Type}.
Context (reader : Key -> outcome E (option StoredValue)) (into_error : E -> ExecError).
Context (overflow_checks : bool).
Context (invoke_call : Module -> eff (Runtime L G Mem Module) InterpreterError unit).

#[local] Instance erc20_imports : Imports L G Mem Module := host_imports reader into_error overflow_checks invoke_call.
#[local] Abbreviation RT := (Runtime L G Mem Module).
Implicit Types rt : RT.

Context (hs : list PublicKey) (hs_keys : Forall (is_bytes 32) hs) (hs_nodup : NoDup hs).

#[local] Abbreviation amount_cell := (cell reader clt_u512).
#[local] Abbreviation flag_cell rt := (cell reader clt_i32 rt INIT_FLAG_KEY).

(** The cells can be used [n] more times, and the flag of the contract is
    [flag]. *)
Record token_serves (flag : option Z) (n : nat) rt : Prop := {
  ts_cells : serving reader clt_u512 (is_unsigned 512) (token_cells hs) n rt;
  ts_flag : serving reader clt_i32 (is_signed 32) [INIT_FLAG_KEY] n rt;
  ts_is : flag_cell rt = flag;
  ts_apart : forall kb, In kb (token_cells hs) -> local_key rt kb <> local_key rt INIT_FLAG_KEY;
}.

#[local] Instance token_view (flag : option Z) : TokenView RT PublicKey := {|
  balance_entry rt a := amount_cell rt (balance_cell a);
  supply_entry rt := amount_cell rt TOTAL_SUPPLY_KEY;
  allowance_entry rt a b := amount_cell rt (allowance_cell (a, b));
  holders := hs;
  amount_max := 2 ^ 512 - 1;
  serves := token_serves flag;
|}.

(** The cells are untouched by what only uses memory and reads. *)
Lemma token_serves_same flag n m cost rt rt' :
  token_serves flag n rt -> kept reader cost rt rt' -> (forall k, view reader rt' k = view reader rt k) ->
  Z.of_nat m * 256 + cost <= Z.of_nat n * 256 ->
  token_serves flag m rt' /\ forall kb, In kb (token_cells hs) -> amount_cell rt' kb = amount_cell rt kb.
Proof.
  intros [Hc Hf Hi Ha] Hk Hv Hm.
  destruct (serving_same _ _ _ _ n m cost rt rt' Hc Hk) as [Hc' He]; [by intros | done |].
  destruct (serving_same _ _ _ _ n m cost rt rt' Hf Hk) as [Hf' He']; [by intros | done |].
  split; [|done]. split; [done | done | by rewrite He'; [|left] |]. intros kb Hin.
  rewrite !(kept_local_key reader _ _ _ _ Hk). by apply Ha.
Qed.

Lemma same_token_of flag rt rt' :
  (forall kb, In kb (token_cells hs) -> amount_cell rt' kb = amount_cell rt kb) ->
  same_token (H := token_view flag) rt rt'.
Proof.
  intros He. split; cbn.
  - intros a Ha. by apply He, balance_cell_in.
  - apply He. by left.
  - intros a b Ha Hb. by apply He, allowance_cell_in.
Qed.

Lemma read_amount_run {K} (ck : Codec K) key kb flag n rt :
  token_serves flag (S n) rt -> In kb (token_cells hs) -> to_bytes ck key = Ok kb ->
  exists rt', read_amount ck key rt = (Ok (amount_cell rt kb), rt') /\ token_serves flag n rt'
    /\ same_token (H := token_view flag) rt rt'.
Proof.
  intros Hs Hin Hk.
  destruct (read_cell_run reader into_error overflow_checks invoke_call clt_u512 _ ck key kb _ n rt
    (ts_cells _ _ _ Hs) Hin Hk) as (rt' & Er & Kp & _ & Hv).
  exists rt'. split; [unfold read_amount; by erewrite ebind_run; [|exact Er]|].
  destruct (token_serves_same flag (S n) n 256 rt rt' Hs Kp Hv) as [Hs' He]; [lia|].
  split; [done|]. by apply same_token_of.
Qed.

Lemma write_amount_run {K} (ck : Codec K) key kb v flag n rt :
  token_serves flag (S n) rt -> In kb (token_cells hs) -> to_bytes ck key = Ok kb -> 0 <= v <= 2 ^ 512 - 1 ->
  exists rt', storage.write_local ck clt_u512 key v rt = (Ok tt, rt') /\ token_serves flag n rt'
    /\ forall kb', In kb' (token_cells hs) -> amount_cell rt' kb' = if decide (kb' = kb) then Some v else amount_cell rt kb'.
Proof.
  intros Hs Hin Hk Hv.
  destruct (write_cell_run reader into_error overflow_checks invoke_call clt_u512 _ ck key kb v _ n rt
    (ts_cells _ _ _ Hs) Hin Hk) as (rt' & Ew & Kp & Hc & Hcell & Hview); [unfold is_unsigned; lia|].
  exists rt'. split; [done|]. split; [|done].
  pose proof (ts_apart _ _ _ Hs kb Hin) as Hne.
  destruct (serving_same _ _ _ _ (S n) n 256 rt rt' (ts_flag _ _ _ Hs) Kp) as [Hf' He'].
  - intros kb' [<-|[]]. apply Hview. congruence.
  - lia.
  - split; [done | done | rewrite He' by (by left); apply Hs |]. intros kb' Hin'.
    rewrite !(kept_local_key reader _ _ _ _ Kp). by apply (ts_apart _ _ _ Hs).
Qed.

Lemma vec_key_wire v : zlen v <= 64 -> to_bytes vec_u8_codec v = Ok (wire_vec v).
Proof. intros Hv. apply vec_wire. lia. Qed.

Lemma balance_key_wire a : In a hs -> to_bytes vec_u8_codec (balance_key a) = Ok (balance_cell a).
Proof. intros Ha. apply vec_key_wire. unfold balance_key. by rewrite zlen_app, (holder_len hs hs_keys a Ha). Qed.

Lemma allowance_key_wire a b :
  In a hs -> In b hs -> to_bytes vec_u8_codec (allowance_key a b) = Ok (allowance_cell (a, b)).
Proof. intros Ha Hb. apply vec_key_wire. unfold allowance_key.
  by rewrite zlen_app, (holder_len hs hs_keys a Ha), (holder_len hs hs_keys b Hb). Qed.

(** The contract's storage keeps the token. *)
#[local] Instance token_laws (flag : option Z) : TokenLaws (H0 := token_view flag) RT InterpreterError PublicKey.
Proof using All.
  split; cbn [serves token_view holders balance_entry supply_entry allowance_entry read_balance read_total_supply
    read_allowance save_balance save_total_supply save_allowance erc20_token].
  - done.
  - intros n rt [Hc Hf Hi Ha]. split; [|by apply (serving_less _ _ _ _ (S n) n); [lia|]..| done | done].
    by apply (serving_less _ _ _ _ (S n) n); [lia|].
  - intros n a rt Hs Ha. apply read_amount_run; [done | by apply balance_cell_in | by apply balance_key_wire].
  - intros n rt Hs. apply read_amount_run; [done | by left | done].
  - intros n a b rt Hs Ha Hb. apply read_amount_run; [done | by apply allowance_cell_in | by apply allowance_key_wire].
  - intros n a v rt Hs Ha Hv.
    destruct (write_amount_run vec_u8_codec (balance_key a) (balance_cell a) v flag n rt Hs) as (rt' & Ew & Hs' & Hc);
      [by apply balance_cell_in | by apply balance_key_wire | exact Hv |].
    exists rt'. split; [done|]. split; [done|]. split_and!.
    + intros b Hb. rewrite Hc by by apply balance_cell_in. destruct (decide (b = a)) as [->|Hne]; [by rewrite decide_True|].
      rewrite decide_False; [done|]. by intros ?%balance_cell_inj.
    + rewrite Hc by (by left). rewrite decide_False; [done|]. destruct (cells_apart hs hs_keys a a a) as (? & ? & ?); congruence.
    + intros b c Hb Hc'. rewrite Hc by (by apply allowance_cell_in). rewrite decide_False; [done|].
      destruct (cells_apart hs hs_keys a b c) as (? & ? & ?); congruence.
  - intros n v rt Hs Hv.
    destruct (write_amount_run (u8_array_codec 32) TOTAL_SUPPLY_KEY TOTAL_SUPPLY_KEY v flag n rt Hs) as (rt' & Ew & Hs' & Hc);
      [by left | done | exact Hv |].
    exists rt'. split; [done|]. split; [done|]. split_and!.
    + intros b Hb. rewrite Hc by by apply balance_cell_in. rewrite decide_False; [done|].
      destruct (cells_apart hs hs_keys b b b) as (? & ? & ?); congruence.
    + rewrite Hc by (by left). by rewrite decide_True.
    + intros b c Hb Hc'. rewrite Hc by (by apply allowance_cell_in). rewrite decide_False; [done|].
      destruct (cells_apart hs hs_keys b b c) as (? & ? & ?); congruence.
  - intros n a b v rt Hs Ha Hb Hv.
    destruct (write_amount_run vec_u8_codec (allowance_key a b) (allowance_cell (a, b)) v flag n rt Hs) as (rt' & Ew & Hs' & Hc);
      [by apply allowance_cell_in | by apply allowance_key_wire | exact Hv |].
    exists rt'. split; [done|]. split; [done|]. split_and!.
    + intros c Hc'. rewrite Hc by by apply balance_cell_in. rewrite decide_False; [done|].
      destruct (cells_apart hs hs_keys c a b) as (? & ? & ?); congruence.
    + rewrite Hc by (by left). rewrite decide_False; [done|]. destruct (cells_apart hs hs_keys a a b) as (? & ? & ?); congruence.
    + intros c d Hc' Hd. rewrite Hc by (by apply allowance_cell_in).
      destruct (decide (c = a /\ d = b)) as [[-> ->]|Hne]; [by rewrite decide_True|]. rewrite decide_False; [done|].
      intros He. by apply Hne, (allowance_cell_inj hs hs_keys).
  - intros a b rt Ha Hb. unfold is_amount, amount_add, erc20_token, uint_add, checked, elift in *. cbn in *.
    destruct (Z.leb_spec (a + b) (2 ^ 512 - 1)); [rewrite (proj2 (Z.ltb_lt _ _)) by lia; done|].
    rewrite (proj2 (Z.ltb_ge _ _)) by lia. done.
  - intros a b rt Ha Hb Hle. unfold amount_sub, erc20_token, uint_sub, checked, elift.
    by rewrite (proj2 (Z.leb_le _ _) Hle).
Qed.

(** * Arguments *)

(** The arguments of a command, as a caller packs them. *)
Definition api_args (api : Api) : list (outcome CLValueError CLValue) :=
  match api with
  | Deploy name v => [from_t clt_string DEPLOY; from_t clt_string name; from_t clt_u512 v]
  | InitErc20 v => [from_t clt_string INIT_ERC20; from_t clt_u512 v]
  | BalanceOf a => [from_t clt_string BALANCE_OF; from_t clt_public_key a]
  | TotalSupply => [from_t clt_string TOTAL_SUPPLY]
  | Transfer a v => [from_t clt_string TRANSFER; from_t clt_public_key a; from_t clt_u512 v]
  | TransferFrom a b v =>
      [from_t clt_string TRANSFER_FROM; from_t clt_public_key a; from_t clt_public_key b; from_t clt_u512 v]
  | Approve a v => [from_t clt_string APPROVE; from_t clt_public_key a; from_t clt_u512 v]
  | Allowance a b => [from_t clt_string ALLOWANCE; from_t clt_public_key a; from_t clt_public_key b]
  | AssertBalance a v => [from_t clt_string ASSERT_BALANCE; from_t clt_public_key a; from_t clt_u512 v]
  | AssertTotalSupply v => [from_t clt_string ASSERT_TOTAL_SUPPLY; from_t clt_u512 v]
  | AssertAllowance a b v =>
      [from_t clt_string ASSERT_ALLOWANCE; from_t clt_public_key a; from_t clt_public_key b; from_t clt_u512 v]
  | BuyProxy v => [from_t clt_string BUY_PROXY; from_t clt_u512 v]
  | Buy p => [from_t clt_string BUY; from_t clt_purse_id p]
  | SellProxy v => [from_t clt_string SELL_PROXY; from_t clt_u512 v]
  | Sell p v => [from_t clt_string SELL; from_t clt_purse_id p; from_t clt_u512 v]
  end.

Definition api_valid (api : Api) : Prop :=
  match api with
  | Deploy name v => short_name name /\ is_unsigned 512 v
  | InitErc20 v | AssertTotalSupply v | BuyProxy v | SellProxy v => is_unsigned 512 v
  | BalanceOf a => is_bytes 32 a
  | TotalSupply => True
  | Transfer a v | Approve a v | AssertBalance a v => is_bytes 32 a /\ is_unsigned 512 v
  | TransferFrom a b v | AssertAllowance a b v => is_bytes 32 a /\ is_bytes 32 b /\ is_unsigned 512 v
  | Allowance a b => is_bytes 32 a /\ is_bytes 32 b
  | Buy p => uref_valid p
  | Sell p v => uref_valid p /\ is_unsigned 512 v
  end.

Lemma get_arg_gives {A} (t : CLTyped A) valid `{CellType A t valid} i v a rt :
  rc_args (rt_context rt) !! Z.to_nat i = Some v -> from_t t a = Ok v -> valid a -> is_unsigned 32 i ->
  104 <= room (rt_memory rt) ->
  exists m, Erc20Contract.get_arg (clt_codec t) i rt = (Ok a, set_memory m rt) /\ room (rt_memory rt) - 104 <= room m.
Proof.
  intros Hi Hf Ha Hu Hr. destruct (typed_arg_run reader into_error overflow_checks invoke_call t valid i v a rt Hi Hf Ha Hu Hr)
    as (m & Eg & Hm). exists m. split; [|done]. unfold Erc20Contract.get_arg. by erewrite ebind_run; [|exact Eg].
Qed.

Lemma from_args_run api vs shift rt :
  try_collect id (api_args api) = Ok vs -> api_valid api -> shift = 0 \/ shift = 1 ->
  drop (Z.to_nat shift) (rc_args (rt_context rt)) = vs -> 416 <= room (rt_memory rt) ->
  exists m, from_args_with_shift shift rt = (Ok api, set_memory m rt) /\ room (rt_memory rt) - 416 <= room m.
Proof.
  intros Hc Hv Hs Hd Hr. apply try_collect_ok in Hc.
  assert (forall k v, vs !! k = Some v -> rc_args (rt_context rt) !! Z.to_nat (shift + Z.of_nat k) = Some v) as Hat.
  { intros k v. rewrite <- Hd, lookup_drop. intros <-. f_equal. lia. }
  assert (forall v, vs !! 0%nat = Some v -> rc_args (rt_context rt) !! Z.to_nat shift = Some v) as H0'
    by (intros v Hv0; rewrite <- (Hat 0%nat v Hv0); f_equal; lia).
  unfold from_args_with_shift. destruct api; cbn [api_args api_valid] in *;
    repeat match goal with Hf : Forall2 _ (_ :: _) _ |- _ => apply Forall2_cons_inv_l in Hf as (? & ? & ? & Hf & ?); subst end;
    apply Forall2_nil_inv_l in Hc; subst; unfold id in *; pose proof (H0' _ eq_refl) as A0;
    try pose proof (Hat 1%nat _ eq_refl) as A1; try pose proof (Hat 2%nat _ eq_refl) as A2;
    try pose proof (Hat 3%nat _ eq_refl) as A3; change (Z.of_nat 1) with 1 in *; change (Z.of_nat 2) with 2 in *;
    change (Z.of_nat 3) with 3 in *; clear Hat H0'.
  all: take_arg @get_arg_gives; pick_method; repeat take_arg @get_arg_gives; eexists; split; [reflexivity | cbn in *; lia].
Qed.

(** * Calls of the contract *)

(** The contract is called with a command by one of the addresses in use. *)
Record invoked (flag : option Z) (n : nat) (api : Api) rt : Prop := {
  iv_serves : token_serves flag n rt;
  iv_args : try_collect id (api_args api) = Ok (rc_args (rt_context rt));
  iv_valid : api_valid api;
  iv_caller : In (get_caller (rt_context rt)) hs;
}.

Lemma invoked_ready flag n api rt : invoked flag n api rt -> ready reader rt.
Proof. intros Hi. apply (iv_serves _ _ _ _ Hi). Qed.

Lemma invoked_room flag n api rt : invoked flag n api rt -> Z.of_nat n * 256 <= room (rt_memory rt).
Proof. intros Hi. apply (iv_serves _ _ _ _ Hi). Qed.

Lemma invoked_idle flag n m api cost rt rt' :
  invoked flag n api rt -> idle reader cost rt rt' -> Z.of_nat m * 256 + cost <= Z.of_nat n * 256 -> invoked flag m api rt'.
Proof.
  intros [Hs Ha Hv Hc] Hi Hm. destruct (idle_context reader _ _ _ Hi) as [Ea Ec]. destruct Hi as [Hk Hw].
  destruct (token_serves_same flag n m cost rt rt' Hs Hk Hw Hm) as [Hs' _].
  split; [done | by rewrite Ea | done | by rewrite Ec].
Qed.

Lemma is_not_initialized_run flag n rt :
  token_serves flag (S n) rt ->
  exists rt', is_not_initialized rt = (Ok (match flag with None => true | Some _ => false end), rt') /\ idle reader 256 rt rt'.
Proof.
  intros Hs. destruct (read_cell_run reader into_error overflow_checks invoke_call clt_i32 _ (u8_array_codec 32)
    INIT_FLAG_KEY INIT_FLAG_KEY _ n rt (ts_flag _ _ _ Hs)) as (rt' & Er & Kp & _ & Hv); [by left | done |].
  rewrite (ts_is _ _ _ Hs) in Er. exists rt'. split; [|done]. unfold is_not_initialized.
  erewrite ebind_run; [|exact Er]. by destruct flag.
Qed.

Lemma invoked_from_args flag n api rt :
  invoked flag (2 + n) api rt -> exists rt', from_args rt = (Ok api, rt') /\ idle reader 512 rt rt'.
Proof.
  intros Hi. pose proof (invoked_room _ _ _ _ Hi) as Hr.
  destruct (from_args_run api (rc_args (rt_context rt)) 0 rt (iv_args _ _ _ _ Hi) (iv_valid _ _ _ _ Hi)) as (m & Ea & Hm);
    [by left | done | lia |].
  exists (set_memory m rt). split; [done|]. apply (idle_memory reader); [by eapply invoked_ready | lia].
Qed.

Lemma invoked_get_caller flag n api rt :
  invoked flag (S n) api rt ->
  exists rt', runtime.get_caller rt = (Ok (get_caller (rt_context rt)), rt') /\ idle reader 256 rt rt'.
Proof.
  intros Hi. pose proof (invoked_room _ _ _ _ Hi) as Hr.
  destruct (get_caller_run reader into_error overflow_checks invoke_call rt) as (m & Ec & Hm).
  - rewrite List.Forall_forall in hs_keys. apply hs_keys, Hi.
  - lia.
  - exists (set_memory m rt). split; [exact Ec|]. apply (idle_memory reader); [by eapply invoked_ready | lia].
Qed.

(** What the contract does before it acts. *)
Lemma prologue flag n api rt :
  invoked flag (4 + n) api rt ->
  exists rt1 rt2 rt3, is_not_initialized rt = (Ok (match flag with None => true | Some _ => false end), rt1)
    /\ from_args rt1 = (Ok api, rt2) /\ runtime.get_caller rt2 = (Ok (get_caller (rt_context rt)), rt3)
    /\ idle reader 768 rt rt2 /\ idle reader 1024 rt rt3 /\ invoked flag n api rt3.
Proof.
  intros Hi. destruct (is_not_initialized_run flag (3 + n) rt (iv_serves _ _ _ _ Hi)) as (rt1 & E1 & D1).
  assert (invoked flag (3 + n) api rt1) as I1 by (eapply invoked_idle; [exact Hi | exact D1 | lia]).
  destruct (invoked_from_args flag (1 + n) api rt1 I1) as (rt2 & E2 & D2).
  pose proof (idle_trans reader _ _ _ _ _ D1 D2) as D12.
  assert (invoked flag (1 + n) api rt2) as I2 by (eapply invoked_idle; [exact Hi | exact D12 | lia]).
  destruct (invoked_get_caller flag n api rt2 I2) as (rt3 & E3 & D3).
  pose proof (idle_trans reader _ _ _ _ _ D12 D3) as D13. destruct (idle_context reader _ _ _ D12) as [_ Ec]. rewrite Ec in E3.
  exists rt1, rt2, rt3. split_and!; [done..|]. eapply invoked_idle; [exact Hi | exact D13 | lia].
Qed.

Section flagged.
Context (flag : option Z).
#[local] Instance flag_view : TokenView RT PublicKey := token_view flag.
#[local] Instance flag_laws : TokenLaws RT InterpreterError PublicKey := token_laws flag.

Lemma idle_ledger n cost rt rt' :
  token_serves flag n rt -> idle reader cost rt rt' -> cost <= Z.of_nat n * 256 -> ledger rt' ≡ ledger rt.
Proof.
  intros Hs [Hk Hw] Hc. destruct (token_serves_same flag n 0 cost rt rt' Hs Hk Hw) as [_ He]; [lia|].
  by apply same_token_ledger, same_token_of.
Qed.

(** The user error a failed call reverts with. *)
Definition failure_code (e : TokenFailure) : Error :=
  match e with
  | BurnFailed Burn_NotEnoughBalance => TokensBurnFailureNotEnoughBalance
  | TransferFailed Transfer_NotEnoughBalance => TransferFailureNotEnoughBalance
  | TransferFromFailed NotEnoughAllowance => TransferFromFailureNotEnoughAllowance
  | TransferFromFailed (TransferError Transfer_NotEnoughBalance) => TransferFromFailureNotEnoughBalance
  end.

(** The call a command of [caller] makes. *)
Definition call_of (caller : PublicKey) (api : Api) : option (TokenCall PublicKey) :=
  match api with
  | Transfer recipient amount => Some (Call_transfer caller recipient amount)
  | TransferFrom owner recipient amount => Some (Call_transfer_from caller owner recipient amount)
  | Approve spender amount => Some (Call_approve caller spender amount)
  | _ => None
  end.

(** What a computation must do for a call that the token answers with [o], from a
    state whose ledger is [l0]: return with the promised ledger, with the amount
    added to the balance where the payer pays themselves; not return where the
    balance of the recipient cannot hold the amount; or revert with the code of the
    failure. *)
Definition settled (n : nat) (m : eff RT InterpreterError unit) rt (call : TokenCall PublicKey)
    (l0 : Ledger PublicKey) : Prop :=
  match spec_call call l0 with
  | inl l =>
      if overflows call l0 then forall u rt', m rt <> (Ok u, rt')
      else exists rt', m rt = (Ok tt, rt') /\ serves n rt' /\ ledger rt' ≡ self_credit call l0 l
  | inr e => exists rt', m rt = (Err (IE_Host (EE_Revert (api_error_to_u32 (failure_code e)))), rt')
      /\ serves n rt' /\ ledger rt' ≡ l0
  end.

(** What is stored are amounts. *)
Lemma served_amounts n rt : token_serves flag n rt -> amounts_ok (ledger rt).
Proof.
  intros Hs.
  assert (forall kb, In kb (token_cells hs) -> is_amount (or_zero (amount_cell rt kb))) as Hc.
  { intros kb Hin. destruct (sv_cells _ _ _ _ _ _ (ts_cells _ _ _ Hs) kb Hin) as [_ Hok]. unfold is_amount.
    change amount_max with (2 ^ 512 - 1). destruct (cell reader clt_u512 rt kb) as [v|] eqn:Ec; cbn [or_zero]; [|lia].
    pose proof (cell_valid reader clt_u512 _ rt kb v Hok Ec) as Hv. unfold is_unsigned in Hv. lia. }
  split; intros; apply Hc; [by apply balance_cell_in | by apply allowance_cell_in].
Qed.

Lemma revert_user {A} (e : Error) rt :
  revert (A := A) e rt = (Err (IE_Host (EE_Revert (api_error_to_u32 e))), rt).
Proof. apply revert_run. destruct e; cbn; unfold is_unsigned; lia. Qed.

Lemma spec_call_proper call (l l' : Ledger PublicKey) :
  call_in call -> l ≡ l' ->
  match spec_call call l, spec_call call l' with
  | inl m, inl m' => m ≡ m'
  | inr e, inr e' => e = e'
  | _, _ => False
  end.
Proof.
  intros Hc He. pose proof He as (Hb & Hs & Ha). destruct call as [a v|a v|a b v|a b v|c a b v]; cbn in *.
  - rewrite Hs, Hb by tauto. by rewrite He.
  - rewrite Hs, Hb by tauto. destruct (lg_balance l' a <? v); [done | by rewrite He].
  - rewrite (Hb a) by tauto. destruct (lg_balance l' a <? v); [done|]. apply move_proper; tauto.
  - apply set_allowance_proper; [tauto | done].
  - rewrite (Ha a c), (Hb a) by tauto. destruct (lg_allowance l' a c <? v); [done|].
    destruct (lg_balance l' a <? v); [done|]. apply set_allowance_proper; [tauto|]. apply move_proper; tauto.
Qed.

Lemma payment_in call a b v : call_in call -> payment call = Some (a, b, v) -> In a hs /\ In b hs.
Proof. destruct call; cbn; intros Hc [= <- <- <-]; tauto. Qed.

(** What was settled for a ledger like this one was settled for this one. *)
Lemma settled_from n m rt call l l' :
  call_in call -> l ≡ l' -> settled n m rt call l -> settled n m rt call l'.
Proof.
  intros Hc He. unfold settled. pose proof (spec_call_proper call _ _ Hc He) as Hp.
  destruct (spec_call call l) as [k|e], (spec_call call l') as [k'|e']; try done.
  - assert (overflows call l' = overflows call l) as ->.
    { unfold overflows. destruct (payment call) as [[[a b] v]|] eqn:Ep; [|done].
      destruct (payment_in call a b v Hc Ep). by rewrite (equiv_balance _ _ b He). }
    destruct (overflows call l); [done|]. intros (rt' & Hm & Hs & Hl). exists rt'. split; [done|]. split; [done|].
    rewrite Hl. unfold self_credit. destruct (payment call) as [[[a b] v]|] eqn:Ep; [|done].
    destruct (payment_in call a b v Hc Ep) as [Ha _]. rewrite (equiv_balance _ _ a He Ha). case_decide; [by rewrite Hp | done].
  - subst e'. intros (rt' & Hm & Hs & Hl). exists rt'. by rewrite <- He.
Qed.

(** Reads [payment_spec] as a statement on the method behind the call. *)
Lemma call_settles {X} n (m : eff RT InterpreterError (unit + X)) (f : X -> TokenFailure) k rt call :
  match call with Call_mint _ _ | Call_burn _ _ => False | _ => True end ->
  call_in call -> serves (6 + n) rt -> run_call call = tag_error f m ->
  (forall u rt', k (inl u) rt' = (Ok tt, rt')) ->
  (forall e rt', k (inr e) rt' = (Err (IE_Host (EE_Revert (api_error_to_u32 (failure_code (f e))))), rt')) ->
  settled n (let! r := m in k r) rt call (ledger rt).
Proof.
  intros Hk Hc Hs Hr K1 K2. pose proof (payment_spec call n rt Hk Hc Hs (served_amounts _ rt Hs)) as Hg. rewrite Hr in Hg.
  unfold settled. assert (forall x rt', tag_error f m rt = (Ok x, rt') ->
    exists y, m rt = (Ok y, rt') /\ x = match y with inl u => inl u | inr e => inr (f e) end) as Hinv.
  { intros x rt'. unfold tag_error, ebind. destruct (m rt) as [[y|e|] rt2]; cbn; intros [= <- <-]. by exists y. }
  destruct (spec_call call (ledger rt)) as [l|e]; [destruct (overflows call (ledger rt))|].
  - intros u rt' Hx. apply ebind_ok in Hx as (y & rt2 & Hy & _). eapply Hg. unfold tag_error.
    by rewrite (ebind_run _ _ _ _ _ Hy).
  - destruct Hg as (rt' & Hx & Hn & He). apply Hinv in Hx as ([u|x] & Hy & Hxy); simplify_eq.
    exists rt'. by rewrite (ebind_run _ _ _ _ _ Hy), K1.
  - destruct Hg as (rt' & Hx & Hn & He). apply Hinv in Hx as ([u|x] & Hy & Hxy); simplify_eq.
    exists rt'. by rewrite (ebind_run _ _ _ _ _ Hy), K2.
Qed.

Lemma approve_settles n a b v rt :
  call_in (Call_approve a b v) -> serves (6 + n) rt -> settled n (approve a b v) rt (Call_approve a b v) (ledger rt).
Proof.
  intros (Ha & Hb & Hv) Hs. destruct (save_allowance_run (5 + n) a b v rt Hs Ha Hb Hv) as (rt' & Er & Hs' & He).
  exists rt'. split; [exact Er|]. split; [by apply (serves_some 5) | done].
Qed.
End flagged.

Section initialized.
Context (f : Z).
#[local] Instance init_view : TokenView RT PublicKey := token_view (Some f).
#[local] Instance init_laws : TokenLaws RT InterpreterError PublicKey := token_laws (Some f).

(** C23: the contract is the token. Called with the command to transfer, to transfer
    for another or to approve, by an address in use, whatever amounts it has
    stored, the initialized contract does to the balances, the supply and the
    allowances in its storage what the abstract token promises, or reverts with
    the user error of the failure and leaves them; except that a payment to
    oneself adds the amount to the balance, and that a payment the balance of the
    recipient cannot hold does not return. The parsing of the arguments, the reads
    of the caller, the flag and the cells and all host calls in between are part of
    the run. *)
Theorem erc20_contract_refines api call n rt :
  invoked (Some f) (10 + n) api rt -> call_of (get_caller (rt_context rt)) api = Some call -> call_in call ->
  match spec_call call (ledger rt) with
  | inl l =>
      if overflows call (ledger rt) then forall u rt', erc20 rt <> (Ok u, rt')
      else exists rt', erc20 rt = (Ok tt, rt') /\ serves n rt' /\ ledger rt' ≡ self_credit call (ledger rt) l
  | inr e => exists rt', erc20 rt = (Err (IE_Host (EE_Revert (api_error_to_u32 (failure_code e)))), rt')
      /\ serves n rt' /\ ledger rt' ≡ ledger rt
  end.
Proof using All.
  intros Hi Hcall Hc. destruct (prologue (Some f) (6 + n) api rt Hi) as (rt1 & rt2 & rt3 & E1 & E2 & E3 & _ & D3 & I3).
  pose proof (idle_ledger (Some f) (10 + n) _ rt rt3 (iv_serves _ _ _ _ Hi) D3 ltac:(lia)) as El.
  unfold erc20. rewrite (ebind_run _ _ _ _ _ E1). unfold entry_point. rewrite (ebind_run _ _ _ _ _ E2).
  destruct api; try discriminate Hcall; injection Hcall as <-; rewrite (ebind_run _ _ _ _ _ E3);
    (apply (settled_from (Some f) n _ _ _ (ledger rt3)); [done | exact El |]).
  - eapply (call_settles (Some f) n _ TransferFailed); [done | done | apply I3 | reflexivity | done |].
    intros [] rt'. apply revert_user.
  - eapply (call_settles (Some f) n _ TransferFromFailed); [done | done | apply I3 | reflexivity | done |].
    intros [[]|] rt'; apply revert_user.
  - by apply (approve_settles (Some f)); [|apply I3].
Qed.
End initialized.

(** * Initialization *)

Lemma mark_as_initialized_run flag n rt :
  token_serves flag (S n) rt ->
  exists rt', mark_as_initialized rt = (Ok tt, rt') /\ token_serves (Some 1) n rt'
    /\ forall kb, In kb (token_cells hs) -> amount_cell rt' kb = amount_cell rt kb.
Proof.
  intros Hs. destruct (write_cell_run reader into_error overflow_checks invoke_call clt_i32 _ (u8_array_codec 32)
    INIT_FLAG_KEY INIT_FLAG_KEY 1 _ n rt (ts_flag _ _ _ Hs)) as (rt' & Ew & Kp & Hf & Hc & Hv);
    [by left | done | unfold is_signed; lia |].
  exists rt'. split; [exact Ew|].
  destruct (serving_same _ _ _ _ (S n) n 256 rt rt' (ts_cells _ _ _ Hs) Kp) as [Hs' He];
    [intros kb Hin; apply Hv; by apply (ts_apart _ _ _ Hs) | lia |].
  split; [|done]. split; [done | done | by rewrite Hc; [rewrite decide_True|left] |].
  intros kb Hin. rewrite !(kept_local_key reader _ _ _ _ Kp). by apply (ts_apart _ _ _ Hs).
Qed.

(** Nothing is stored yet. *)
Definition blank rt : Prop := forall kb, In kb (token_cells hs) -> amount_cell rt kb = None.

#[local] Instance fresh_view : TokenView RT PublicKey := token_view None.
#[local] Instance fresh_laws : TokenLaws RT InterpreterError PublicKey := token_laws None.

Definition empty_ledger : Ledger PublicKey := mk_ledger (fun _ => 0) 0 (fun _ _ => 0).

Lemma blank_ledger rt : blank rt -> ledger rt ≡ empty_ledger.
Proof.
  intros Hb. split_and!; cbn.
  - intros a Ha. by rewrite Hb by by apply balance_cell_in.
  - by rewrite Hb by by left.
  - intros a b Ha Hb'. by rewrite Hb by by apply allowance_cell_in.
Qed.

Lemma sum_over_zero (as_ : list PublicKey) : sum_over (fun _ => 0) as_ = 0.
Proof. by induction as_. Qed.

Lemma empty_ledger_ok : ledger_ok empty_ledger.
Proof. split; cbn; [done | apply sum_over_zero | done | done]. Qed.

Definition minted (caller : PublicKey) (v : Z) : Ledger PublicKey := set_supply v (set_balance caller v empty_ledger).

Lemma minted_ok caller v : In caller hs -> is_unsigned 512 v -> ledger_ok (minted caller v).
Proof.
  intros Hin Hv. apply (spec_call_ok (Call_mint caller v) empty_ledger);
    [split; [done | unfold is_amount, is_unsigned in *; cbn; lia] | unfold is_unsigned in *; cbn; lia
    | apply empty_ledger_ok | done].
Qed.

(** The token is initialized once. The first call, with the command to
    initialize, gives the whole supply to the caller and marks the contract;
    once it is marked the command is refused with the error
    [UnknownErc20CallCommand], and nothing is issued. *)
Theorem erc20_contract_init flag v n rt :
  invoked flag (9 + n) (InitErc20 v) rt -> (flag = None -> blank rt) ->
  exists r rt', erc20 rt = (r, rt') /\ token_serves (Some (default 1 flag)) n rt' /\
    match flag with
    | None => r = Ok tt /\ ledger rt' ≡ minted (get_caller (rt_context rt)) v /\ ledger_ok (ledger rt')
    | Some _ => r = Err (IE_Host (EE_Revert 65541)) /\ ledger rt' ≡ ledger rt
    end.
Proof using All.
  intros Hi Hb. destruct (prologue flag (5 + n) _ rt Hi) as (rt1 & rt2 & rt3 & E1 & E2 & E3 & D2 & D3 & I3).
  unfold erc20. rewrite (ebind_run _ _ _ _ _ E1). destruct flag as [f|].
  - unfold entry_point. rewrite (ebind_run _ _ _ _ _ E2). eexists _, rt2. split; [apply revert_user|].
    split; [|split; [done | by apply (idle_ledger (Some f) (9 + n) _ rt rt2 (iv_serves _ _ _ _ Hi) D2); lia]].
    eapply (invoked_idle (Some f) (9 + n) n); [exact Hi | exact D2 | lia].
  - pose proof (idle_ledger None (9 + n) _ rt rt3 (iv_serves _ _ _ _ Hi) D3 ltac:(lia)) as El.
    rewrite (blank_ledger rt (Hb eq_refl)) in El. set (caller := get_caller (rt_context rt)) in *.
    assert (In caller hs) as Hin by apply Hi. assert (is_unsigned 512 v) as Hv by apply Hi.
    assert (lg_balance (ledger rt3) caller = 0) as Eb by exact (equiv_balance _ _ caller El Hin).
    assert (lg_supply (ledger rt3) = 0) as Es by apply El.
    destruct (mint_gives (1 + n) rt3 caller v) as (rt4 & E4 & S4 & L4);
      [apply I3 | rewrite El; apply empty_ledger_ok | done | unfold is_amount, is_unsigned in *; cbn; lia
      | rewrite Es; unfold is_unsigned in Hv; cbn; lia |].
    destruct (mark_as_initialized_run None n rt4 S4) as (rt5 & E5 & S5 & C5).
    assert (ledger rt5 ≡ minted caller v) as L5.
    { transitivity (ledger rt4); [by apply same_token_ledger, same_token_of|]. rewrite L4, Eb, Es, El. done. }
    exists (Ok tt), rt5. split; [unfold constructor, ebind; by rewrite E2, E3, E4|]. split; [done|].
    split; [done|]. split; [done|]. rewrite L5. by apply minted_ok.
Qed.
End runs.
