(* ===== verification/Vesting.v ===== *)
(** The logic of the example vesting contract, over any storage that implements
    the trait: an amount that is released to a recipient over time, which an
    administrator may pause and, after a long enough pause, take back.  Source:
    [contracts/examples/vesting-logic/src/lib.rs]. *)

From S2P Require Import Prelude.

Inductive VestingError :=
| NotEnoughBalance
| AdminReleaseErrorNotPaused
| AdminReleaseErrorNothingToWithdraw
| AdminReleaseErrorNotEnoughTimeElapsed
| AlreadyPaused
| AlreadyUnpaused.

(** [key]: the names of the stored values. *)
Definition CLIFF_TIMESTAMP : bytes := str "cliff_timestamp".
Definition CLIFF_AMOUNT : bytes := str "cliff_amount".
Definition DRIP_DURATION : bytes := str "drip_duration".
Definition DRIP_AMOUNT : bytes := str "drip_amount".
Definition TOTAL_AMOUNT : bytes := str "total_amount".
Definition RELEASED_AMOUNT : bytes := str "released_amount".
Definition ADMIN_RELEASE_DURATION : bytes := str "admin_release_duration".
Definition PAUSE_FLAG : bytes := str "is_paused".
Definition ON_PAUSE_DURATION : bytes := str "on_pause_duration".
Definition LAST_PAUSE_TIMESTAMP : bytes := str "last_pause_timestamp".

(** The required methods of the trait, and the arithmetic of its amounts and
    times. *)
Class VestingTrait (S E : Type) := {
  current_timestamp : eff S E Z;
  set_amount : bytes -> Z -> eff S E unit;
  amount : bytes -> eff S E Z;
  set_time : bytes -> Z -> eff S E unit;
  time : bytes -> eff S E Z;
  set_boolean : bytes -> bool -> eff S E unit;
  boolean : bytes -> eff S E bool;
  num_add : Z -> Z -> eff S E Z;
  num_sub : Z -> Z -> eff S E Z;
  num_mul : Z -> Z -> eff S E Z;
  num_div : Z -> Z -> eff S E Z;
}.

(** * The provided methods *)

Section vesting.
Context {S E : Type} `{VestingTrait S E}.

Definition set_cliff_timestamp (v : Z) : eff S E unit := set_time CLIFF_TIMESTAMP v.
Definition cliff_timestamp : eff S E Z := time CLIFF_TIMESTAMP.
Definition set_cliff_amount (v : Z) : eff S E unit := set_amount CLIFF_AMOUNT v.
Definition cliff_amount : eff S E Z := amount CLIFF_AMOUNT.
Definition set_drip_duration (v : Z) : eff S E unit := set_time DRIP_DURATION v.
Definition drip_duration : eff S E Z := time DRIP_DURATION.
Definition set_drip_amount (v : Z) : eff S E unit := set_amount DRIP_AMOUNT v.
Definition drip_amount : eff S E Z := amount DRIP_AMOUNT.
Definition set_total_amount (v : Z) : eff S E unit := set_amount TOTAL_AMOUNT v.
Definition total_amount : eff S E Z := amount TOTAL_AMOUNT.
Definition set_released_amount (v : Z) : eff S E unit := set_amount RELEASED_AMOUNT v.
Definition released_amount : eff S E Z := amount RELEASED_AMOUNT.
Definition set_admin_release_duration (v : Z) : eff S E unit := set_time ADMIN_RELEASE_DURATION v.
Definition admin_release_duration : eff S E Z := time ADMIN_RELEASE_DURATION.
Definition set_on_pause_duration (v : Z) : eff S E unit := set_time ON_PAUSE_DURATION v.
Definition on_pause_duration : eff S E Z := time ON_PAUSE_DURATION.
Definition set_last_pause_timestamp (v : Z) : eff S E unit := set_time LAST_PAUSE_TIMESTAMP v.
Definition last_pause_timestamp : eff S E Z := time LAST_PAUSE_TIMESTAMP.
Definition set_paused_flag (b : bool) : eff S E unit := set_boolean PAUSE_FLAG b.
Definition paused_flag : eff S E bool := boolean PAUSE_FLAG.
Definition is_paused : eff S E bool := paused_flag.

Definition init (cliff_timestamp cliff_amount drip_duration drip_amount total_amount admin_release_duration : Z)
    : eff S E unit :=
  let! _ := set_cliff_timestamp cliff_timestamp in
  let! _ := set_cliff_amount cliff_amount in
  let! _ := set_drip_duration drip_duration in
  let! _ := set_drip_amount drip_amount in
  let! _ := set_total_amount total_amount in
  let! _ := set_admin_release_duration admin_release_duration in
  let! _ := set_released_amount 0 in
  let! _ := set_paused_flag false in
  let! _ := set_on_pause_duration 0 in
  set_last_pause_timestamp 0.

Definition total_paused_duration : eff S E Z :=
  let! on_pause := on_pause_duration in
  let! paused := is_paused in
  let! current_pause :=
    if paused : bool then
      let! now := current_timestamp in
      let! last := last_pause_timestamp in
      num_sub now last
    else eret 0 in
  num_add on_pause current_pause.

Definition available_amount : eff S E Z :=
  let! now := current_timestamp in
  let! cliff := cliff_timestamp in
  let! total_paused := total_paused_duration in
  let! start := num_add cliff total_paused in
  if now <? start then eret 0
  else
    let! total := total_amount in
    let! drip_duration := drip_duration in
    let! drip_amount := drip_amount in
    let! released := released_amount in
    let! available := cliff_amount in
    let! since_cliff := num_sub now cliff in
    let! time_diff := num_sub since_cliff total_paused in
    let! available_drips := if drip_duration =? 0 then eret 0 else num_div time_diff drip_duration in
    let! dripped := num_mul drip_amount available_drips in
    let! sum := num_add available dripped in
    let! available := num_sub sum released in
    eret (Z.min available total).

Definition withdraw (amount : Z) : eff S E (unit + VestingError) :=
  let! available := available_amount in
  if available <? amount then eret (inr NotEnoughBalance)
  else
    let! released := released_amount in
    let! sum := num_add released amount in
    let! _ := set_released_amount sum in
    eret (inl tt).

Definition pause : eff S E (unit + VestingError) :=
  let! paused := is_paused in
  if negb paused then
    let! now := current_timestamp in
    let! _ := set_last_pause_timestamp now in
    let! _ := set_paused_flag true in
    eret (inl tt)
  else eret (inr AlreadyPaused).

Definition unpause : eff S E (unit + VestingError) :=
  let! paused := is_paused in
  if paused : bool then
    let! on_pause := on_pause_duration in
    let! last := last_pause_timestamp in
    let! now := current_timestamp in
    let! elapsed := num_sub now last in
    let! sum := num_add on_pause elapsed in
    let! _ := set_on_pause_duration sum in
    let! _ := set_paused_flag false in
    eret (inl tt)
  else eret (inr AlreadyUnpaused).

Definition admin_release : eff S E (Z + VestingError) :=
  let! paused := is_paused in
  if negb paused then eret (inr AdminReleaseErrorNotPaused)
  else
    let! last := last_pause_timestamp in
    let! now := current_timestamp in
    let! since_last_pause := num_sub now last in
    let! required_wait_duration := admin_release_duration in
    if since_last_pause <? required_wait_duration then eret (inr AdminReleaseErrorNotEnoughTimeElapsed)
    else
      let! total := total_amount in
      let! released := released_amount in
      if total =? released then eret (inr AdminReleaseErrorNothingToWithdraw)
      else
        let! amount_to_withdraw := num_sub total released in
        let! _ := set_released_amount total in
        eret (inl amount_to_withdraw).
End vesting.

(** * What the contract relies on *)

(** A storage as named numbers (a flag is one or zero), with the time of the
    execution, the largest number, and that it can serve a number of further
    accesses. *)
Class VestingView (S : Type) := {
  entry : S -> bytes -> option Z;
  now : S -> Z;
  num_max : Z;
  serves : nat -> S -> Prop;
}.

Definition vesting_names : list bytes :=
  [CLIFF_TIMESTAMP; CLIFF_AMOUNT; DRIP_DURATION; DRIP_AMOUNT; TOTAL_AMOUNT; RELEASED_AMOUNT;
   ADMIN_RELEASE_DURATION; PAUSE_FLAG; ON_PAUSE_DURATION; LAST_PAUSE_TIMESTAMP].

Definition is_num {S} `{VestingView S} (v : Z) : Prop := 0 <= v <= num_max.

Definition same_entries {S} `{VestingView S} (s s' : S) : Prop :=
  (forall n, In n vesting_names -> entry s' n = entry s n) /\ now s' = now s.

Definition entry_set {S} `{VestingView S} (name : bytes) (v : Z) (s s' : S) : Prop :=
  (forall n, In n vesting_names -> entry s' n = if decide (n = name) then Some v else entry s n) /\ now s' = now s.

Definition bit (b : bool) : Z := if b then 1 else 0.

(** A computation that succeeds just when its result can be represented. *)
Definition computes {S E} (m : eff S E Z) (ok : bool) (z : Z) (s : S) : Prop :=
  if ok then m s = (Ok z, s) else forall r s', m s <> (Ok r, s').

Class VestingLaws (S E : Type) `{VestingTrait S E, VestingView S} : Prop := {
  serves_less : forall n s, serves (Datatypes.S n) s -> serves n s;
  now_num : forall s, is_num (now s);
  one_num : 1 <= num_max;
  timestamp_law : forall n s, serves (Datatypes.S n) s ->
    exists s', current_timestamp s = (Ok (now s), s') /\ serves n s' /\ same_entries s s';
  amount_law : forall n name v s, serves (Datatypes.S n) s -> In name vesting_names -> entry s name = Some v ->
    exists s', amount name s = (Ok v, s') /\ serves n s' /\ same_entries s s';
  time_law : forall n name v s, serves (Datatypes.S n) s -> In name vesting_names -> entry s name = Some v ->
    exists s', time name s = (Ok v, s') /\ serves n s' /\ same_entries s s';
  boolean_law : forall n name b s, serves (Datatypes.S n) s -> In name vesting_names -> entry s name = Some (bit b) ->
    exists s', boolean name s = (Ok b, s') /\ serves n s' /\ same_entries s s';
  set_amount_law : forall n name v s, serves (Datatypes.S n) s -> In name vesting_names -> is_num v ->
    exists s', set_amount name v s = (Ok tt, s') /\ serves n s' /\ entry_set name v s s';
  set_time_law : forall n name v s, serves (Datatypes.S n) s -> In name vesting_names -> is_num v ->
    exists s', set_time name v s = (Ok tt, s') /\ serves n s' /\ entry_set name v s s';
  set_boolean_law : forall n name b s, serves (Datatypes.S n) s -> In name vesting_names ->
    exists s', set_boolean name b s = (Ok tt, s') /\ serves n s' /\ entry_set name (bit b) s s';
  num_add_law : forall a b s, is_num a -> is_num b -> computes (num_add a b) (a + b <=? num_max) (a + b) s;
  num_sub_law : forall a b s, is_num a -> is_num b -> computes (num_sub a b) (b <=? a) (a - b) s;
  num_mul_law : forall a b s, is_num a -> is_num b -> computes (num_mul a b) (a * b <=? num_max) (a * b) s;
  num_div_law : forall a b s, is_num a -> is_num b -> b <> 0 -> num_div a b s = (Ok (a / b), s);
}.

(** * The vault *)

Record Vault := mk_vault {
  v_cliff_timestamp : Z;
  v_cliff_amount : Z;
  v_drip_duration : Z;
  v_drip_amount : Z;
  v_total : Z;
  v_released : Z;
  v_admin_release_duration : Z;
  v_paused : bool;
  v_on_pause : Z;
  v_last_pause : Z;
}.

Definition vault_fields (v : Vault) : list (bytes * Z) :=
  [(CLIFF_TIMESTAMP, v_cliff_timestamp v); (CLIFF_AMOUNT, v_cliff_amount v); (DRIP_DURATION, v_drip_duration v);
   (DRIP_AMOUNT, v_drip_amount v); (TOTAL_AMOUNT, v_total v); (RELEASED_AMOUNT, v_released v);
   (ADMIN_RELEASE_DURATION, v_admin_release_duration v); (PAUSE_FLAG, bit (v_paused v));
   (ON_PAUSE_DURATION, v_on_pause v); (LAST_PAUSE_TIMESTAMP, v_last_pause v)].

Definition with_released (r : Z) (v : Vault) : Vault :=
  mk_vault (v_cliff_timestamp v) (v_cliff_amount v) (v_drip_duration v) (v_drip_amount v) (v_total v) r
    (v_admin_release_duration v) (v_paused v) (v_on_pause v) (v_last_pause v).

Definition with_pause (paused : bool) (on_pause last_pause : Z) (v : Vault) : Vault :=
  mk_vault (v_cliff_timestamp v) (v_cliff_amount v) (v_drip_duration v) (v_drip_amount v) (v_total v) (v_released v)
    (v_admin_release_duration v) paused on_pause last_pause.

(** How long the vault has been paused, and the time that has counted. *)
Definition paused_for (v : Vault) (t : Z) : Z :=
  v_on_pause v + if v_paused v then t - v_last_pause v else 0.

Definition counted (v : Vault) (t : Z) : Z := t - paused_for v t.

(** The amount that has vested. *)
Definition vested (v : Vault) (t : Z) : Z :=
  if counted v t <? v_cliff_timestamp v then 0
  else v_cliff_amount v
    + v_drip_amount v * (if v_drip_duration v =? 0 then 0
                         else (counted v t - v_cliff_timestamp v) / v_drip_duration v).

(** The pauses lie in the past. *)
Definition timely (v : Vault) (t : Z) : Prop :=
  0 <= v_on_pause v /\ if v_paused v then v_on_pause v <= v_last_pause v <= t else v_on_pause v <= t.

Section vault.
Context {S E : Type} `{VestingLaws S E}.
Implicit Types s : S.

Definition holds s (v : Vault) : Prop := Forall (fun '(name, z) => entry s name = Some z) (vault_fields v).

Definition vault_ok (v : Vault) : Prop := Forall (fun '(name, z) => is_num z) (vault_fields v).

(** The intermediate results can be represented. *)
Definition fits (v : Vault) (t : Z) : Prop :=
  v_cliff_timestamp v + paused_for v t <= num_max /\ vested v t <= num_max.

Lemma holds_field s v name z : holds s v -> In (name, z) (vault_fields v) -> entry s name = Some z.
Proof. unfold holds. rewrite List.Forall_forall. intros Hh Hin. exact (Hh _ Hin). Qed.

Lemma ok_field v name z : vault_ok v -> In (name, z) (vault_fields v) -> is_num z.
Proof. unfold vault_ok. rewrite List.Forall_forall. intros Hh Hin. exact (Hh _ Hin). Qed.

Lemma field_name v name z : In (name, z) (vault_fields v) -> In name vesting_names.
Proof. intros Hin. by apply (in_map fst) in Hin. Qed.

Lemma holds_same s s' v : same_entries s s' -> holds s v -> holds s' v.
Proof.
  unfold holds. rewrite !List.Forall_forall. intros [He _] Hh [name z] Hin. rewrite He by by apply (field_name v _ z).
  exact (Hh _ Hin).
Qed.

(** What a method must do: give the result, and leave the vault. *)
Definition gives {X} (n : nat) (m : eff S E X) s (x : X) (v : Vault) : Prop :=
  exists s', m s = (Ok x, s') /\ serves n s' /\ holds s' v /\ now s' = now s.

Definition stops {X} (m : eff S E X) s : Prop := forall r s', m s <> (Ok r, s').

Lemma vault_serves_some k n s : serves (k + n) s -> serves n s.
Proof. induction k as [|k IH]; [done|]. intros Hs. by apply IH, serves_less. Qed.

Lemma vault_gives_less k {X} n (m : eff S E X) s x v : gives (k + n) m s x v -> gives n m s x v.
Proof.
  intros (s' & Hr & Hs & Hv). exists s'. split; [done|]. split; [by apply (vault_serves_some k) | done].
Qed.

Lemma gives_bind {X Y} n n' (m : eff S E X) (f : X -> eff S E Y) s x v y v' :
  gives n m s x v -> (forall s1, serves n s1 -> holds s1 v -> now s1 = now s -> gives n' (f x) s1 y v') ->
  gives n' (ebind m f) s y v'.
Proof.
  intros (s1 & Hr & Hs & Hh & Hn) Hf. unfold gives. rewrite (ebind_run _ _ _ _ _ Hr).
  destruct (Hf s1 Hs Hh Hn) as (s2 & Hr2 & Hs2 & Hh2 & Hn2). exists s2. split_and!; [done..|congruence].
Qed.

Lemma stops_bind {X Y} n (m : eff S E X) (f : X -> eff S E Y) s x v :
  gives n m s x v -> (forall s1, serves n s1 -> holds s1 v -> now s1 = now s -> stops (f x) s1) -> stops (ebind m f) s.
Proof.
  intros (s1 & Hr & Hs & Hh & Hn) Hf r s2. rewrite (ebind_run _ _ _ _ _ Hr). by apply Hf.
Qed.

Lemma stops_first {X Y} (m : eff S E X) (f : X -> eff S E Y) s : stops m s -> stops (ebind m f) s.
Proof. intros Hm r s' Hr. apply ebind_ok in Hr as (x & s1 & Hr & _). by apply (Hm x s1). Qed.

Lemma gives_ret {X} n s (x : X) v : serves n s -> holds s v -> gives n (eret x) s x v.
Proof. intros Hs Hh. by exists s. Qed.

(** ** Accesses *)

Lemma gives_now n s v : serves (Datatypes.S n) s -> holds s v -> gives n current_timestamp s (now s) v.
Proof.
  intros Hs Hh. destruct (timestamp_law n s Hs) as (s' & Hr & Hs' & He). exists s'.
  split_and!; [done..| by apply (holds_same s) | by destruct He].
Qed.

Lemma gives_amount n name z s v :
  In (name, z) (vault_fields v) -> serves (Datatypes.S n) s -> holds s v -> gives n (amount name) s z v.
Proof.
  intros Hin Hs Hh. destruct (amount_law n name z s Hs (field_name _ _ _ Hin) (holds_field _ _ _ _ Hh Hin)) as (s' & Hr & Hs' & He).
  exists s'. split_and!; [done..| by apply (holds_same s) | by destruct He].
Qed.

Lemma gives_time n name z s v :
  In (name, z) (vault_fields v) -> serves (Datatypes.S n) s -> holds s v -> gives n (time name) s z v.
Proof.
  intros Hin Hs Hh. destruct (time_law n name z s Hs (field_name _ _ _ Hin) (holds_field _ _ _ _ Hh Hin)) as (s' & Hr & Hs' & He).
  exists s'. split_and!; [done..| by apply (holds_same s) | by destruct He].
Qed.

Lemma gives_paused n s v : serves (Datatypes.S n) s -> holds s v -> gives n is_paused s (v_paused v) v.
Proof.
  intros Hs Hh. assert (In (PAUSE_FLAG, bit (v_paused v)) (vault_fields v)) as Hin by (cbn; tauto).
  destruct (boolean_law n PAUSE_FLAG (v_paused v) s Hs (field_name _ _ _ Hin) (holds_field _ _ _ _ Hh Hin))
    as (s' & Hr & Hs' & He).
  exists s'. split_and!; [done..| by apply (holds_same s) | by destruct He].
Qed.

(** The vault that has the new value in the field. *)
Definition sets (name : bytes) (z : Z) (v v' : Vault) : Prop :=
  forall n x, In (n, x) (vault_fields v') -> if decide (n = name) then x = z else In (n, x) (vault_fields v).

Lemma entry_set_holds s s' name z v v' : entry_set name z s s' -> sets name z v v' -> holds s v -> holds s' v'.
Proof.
  unfold holds. rewrite !List.Forall_forall. intros [He _] Hw Hh [n x] Hin. rewrite He by by apply (field_name v' _ x).
  specialize (Hw n x Hin). case_decide; [by subst|]. exact (Hh _ Hw).
Qed.

Lemma gives_set_amount n name z s v v' :
  sets name z v v' -> In name vesting_names -> is_num z -> serves (Datatypes.S n) s -> holds s v ->
  gives n (set_amount name z) s tt v'.
Proof.
  intros Hw Hin Hz Hs Hh. destruct (set_amount_law n name z s Hs Hin Hz) as (s' & Hr & Hs' & He).
  exists s'. split_and!; [done..| by apply (entry_set_holds s s' name z v) | by destruct He].
Qed.

Lemma gives_set_time n name z s v v' :
  sets name z v v' -> In name vesting_names -> is_num z -> serves (Datatypes.S n) s -> holds s v ->
  gives n (set_time name z) s tt v'.
Proof.
  intros Hw Hin Hz Hs Hh. destruct (set_time_law n name z s Hs Hin Hz) as (s' & Hr & Hs' & He).
  exists s'. split_and!; [done..| by apply (entry_set_holds s s' name z v) | by destruct He].
Qed.

Lemma gives_set_flag n b s v v' :
  sets PAUSE_FLAG (bit b) v v' -> serves (Datatypes.S n) s -> holds s v -> gives n (set_paused_flag b) s tt v'.
Proof.
  intros Hw Hs Hh. destruct (set_boolean_law n PAUSE_FLAG b s Hs) as (s' & Hr & Hs' & He); [cbn; tauto|].
  exists s'. split_and!; [done..| by apply (entry_set_holds s s' PAUSE_FLAG (bit b) v) | by destruct He].
Qed.

Lemma gives_pure {X} n (m : eff S E X) s x v : m s = (Ok x, s) -> serves n s -> holds s v -> gives n m s x v.
Proof. intros Hr Hs Hh. by exists s. Qed.

Lemma gives_add n a b s v :
  is_num a -> is_num b -> a + b <= num_max -> serves n s -> holds s v -> gives n (num_add a b) s (a + b) v.
Proof.
  intros Ha Hb Hm. apply gives_pure. pose proof (num_add_law a b s Ha Hb) as Hl.
  by rewrite (proj2 (Z.leb_le _ _) Hm) in Hl.
Qed.

Lemma gives_sub n a b s v :
  is_num a -> is_num b -> b <= a -> serves n s -> holds s v -> gives n (num_sub a b) s (a - b) v.
Proof.
  intros Ha Hb Hm. apply gives_pure. pose proof (num_sub_law a b s Ha Hb) as Hl.
  by rewrite (proj2 (Z.leb_le _ _) Hm) in Hl.
Qed.

Lemma gives_mul n a b s v :
  is_num a -> is_num b -> a * b <= num_max -> serves n s -> holds s v -> gives n (num_mul a b) s (a * b) v.
Proof.
  intros Ha Hb Hm. apply gives_pure. pose proof (num_mul_law a b s Ha Hb) as Hl.
  by rewrite (proj2 (Z.leb_le _ _) Hm) in Hl.
Qed.

Lemma stops_sub a b s : is_num a -> is_num b -> a < b -> stops (num_sub a b) s.
Proof.
  intros Ha Hb Hm. pose proof (num_sub_law a b s Ha Hb) as Hl. by rewrite (proj2 (Z.leb_gt _ _) Hm) in Hl.
Qed.

Lemma stops_add a b s : is_num a -> is_num b -> num_max < a + b -> stops (num_add a b) s.
Proof.
  intros Ha Hb Hm. pose proof (num_add_law a b s Ha Hb) as Hl. by rewrite (proj2 (Z.leb_gt _ _) Hm) in Hl.
Qed.

Lemma stops_mul a b s : is_num a -> is_num b -> num_max < a * b -> stops (num_mul a b) s.
Proof.
  intros Ha Hb Hm. pose proof (num_mul_law a b s Ha Hb) as Hl. by rewrite (proj2 (Z.leb_gt _ _) Hm) in Hl.
Qed.

(** The numbers of a vault. *)
Lemma vault_nums v : vault_ok v ->
  is_num (v_cliff_timestamp v) /\ is_num (v_cliff_amount v) /\ is_num (v_drip_duration v) /\ is_num (v_drip_amount v)
  /\ is_num (v_total v) /\ is_num (v_released v) /\ is_num (v_admin_release_duration v) /\ is_num (v_on_pause v)
  /\ is_num (v_last_pause v).
Proof.
  intros Hv. split_and!; (eapply ok_field; [exact Hv|]; cbn; tauto).
Qed.

Lemma vault_ok_intro v :
  is_num (v_cliff_timestamp v) -> is_num (v_cliff_amount v) -> is_num (v_drip_duration v) -> is_num (v_drip_amount v) ->
  is_num (v_total v) -> is_num (v_released v) -> is_num (v_admin_release_duration v) -> is_num (v_on_pause v) ->
  is_num (v_last_pause v) -> vault_ok v.
Proof.
  intros. assert (is_num (bit (v_paused v))) as Hb by (pose proof one_num; unfold is_num, bit; destruct (v_paused v); lia).
  unfold vault_ok, vault_fields. by repeat (apply List.Forall_cons; [done|]).
Qed.

(** An access to a field, and its continuation. *)
Ltac access :=
  first [apply gives_time | apply gives_amount | apply gives_paused | apply gives_now];
  [try (cbn; tauto) | eassumption | eassumption] || (first [apply gives_paused | apply gives_now]; eassumption).

Ltac next := eapply gives_bind; [access | intros ?s ?Hs ?Hh ?Hn].

Lemma total_paused_gives n s v :
  serves (4 + n) s -> holds s v -> vault_ok v -> timely v (now s) ->
  gives n total_paused_duration s (paused_for v (now s)) v.
Proof.
  intros Hs Hh Hv [Ht0 Ht]. apply vault_nums in Hv as (? & ? & ? & ? & ? & ? & ? & Ho & Hl).
  pose proof (now_num s) as Hnow. unfold total_paused_duration, on_pause_duration, paused_for. cbn [Nat.add] in Hs.
  next. next. destruct (v_paused v).
  - eapply gives_bind.
    + next. next. apply gives_sub; try eassumption; [congruence | lia].
    + intros s5 Hs5 Hh5 Hn5. unfold is_num in *. replace (now s1) with (now s) by congruence.
      apply gives_add; unfold is_num; (done || lia).
  - eapply gives_bind; [by apply (gives_ret (2 + n))|]. intros s5 Hs5 Hh5 Hn5. apply (vault_gives_less 2).
    unfold is_num in *. apply gives_add; unfold is_num; (done || lia).
Qed.

(** The amount on offer: nothing before the cliff, and then what has vested and is
    not released, at most the total. *)
Definition offered (v : Vault) (t : Z) : Z :=
  if counted v t <? v_cliff_timestamp v then 0 else Z.min (vested v t - v_released v) (v_total v).

Definition dripped (v : Vault) (t : Z) : Z :=
  v_drip_amount v * (if v_drip_duration v =? 0 then 0 else (counted v t - v_cliff_timestamp v) / v_drip_duration v).

Lemma drips_num v t :
  vault_ok v -> timely v t -> is_num t -> v_cliff_timestamp v <= counted v t ->
  is_num (counted v t - v_cliff_timestamp v)
  /\ is_num (if v_drip_duration v =? 0 then 0 else (counted v t - v_cliff_timestamp v) / v_drip_duration v).
Proof.
  intros Hv [Ht0 Ht] Hnum Hc. apply vault_nums in Hv as (Hcl & ? & Hdd & ? & ? & ? & ? & Ho & Hl).
  assert (is_num (counted v t - v_cliff_timestamp v)) as Hd.
  { unfold counted, paused_for, is_num in *. destruct (v_paused v); lia. }
  split; [done|]. destruct (Z.eqb_spec (v_drip_duration v) 0); [unfold is_num in *; lia|].
  unfold is_num in *. split; [apply Z.div_pos; lia|]. transitivity (counted v t - v_cliff_timestamp v); [|lia].
  apply Z.div_le_upper_bound; nia.
Qed.

(** A run that comes to the rest [k] of the code. *)
Definition reaches {X} (n : nat) (m k : eff S E X) s (v : Vault) : Prop :=
  exists s', m s = k s' /\ serves n s' /\ holds s' v /\ now s' = now s.

Lemma reaches_bind {X Y} n n' (m : eff S E X) (f : X -> eff S E Y) (k : eff S E Y) s x v :
  gives n m s x v -> (forall s1, serves n s1 -> holds s1 v -> now s1 = now s -> reaches n' (f x) k s1 v) ->
  reaches n' (ebind m f) k s v.
Proof.
  intros (s1 & Hr & Hs & Hh & Hn) Hf. unfold reaches. rewrite (ebind_run _ _ _ _ _ Hr).
  destruct (Hf s1 Hs Hh Hn) as (s2 & Hr2 & Hs2 & Hh2 & Hn2). exists s2. split_and!; [done..|congruence].
Qed.

Lemma reaches_here {X} n (m : eff S E X) s v : serves n s -> holds s v -> reaches n m m s v.
Proof. intros Hs Hh. by exists s. Qed.

Ltac pass := eapply reaches_bind; [access | intros ?s ?Hs ?Hh ?Hn].
Ltac compute_with lemma :=
  eapply reaches_bind; [apply lemma; [..|eassumption|eassumption] | intros ?s ?Hs ?Hh ?Hn].

Lemma start_after v t :
  vault_ok v -> timely v t -> is_num t ->
  is_num (paused_for v t) /\ (t <? v_cliff_timestamp v + paused_for v t) = (counted v t <? v_cliff_timestamp v).
Proof.
  intros Hv [Ht0 Ht] Hnow. apply vault_nums in Hv as (Hcl & ? & ? & ? & ? & ? & ? & Ho & Hl).
  split; [unfold paused_for, is_num in *; destruct (v_paused v); lia|]. unfold counted.
  destruct (Z.ltb_spec t (v_cliff_timestamp v + paused_for v t)), (Z.ltb_spec (t - paused_for v t) (v_cliff_timestamp v));
    lia || done.
Qed.

(** [available_amount] comes to its last subtraction, or stops before the cliff. *)
Lemma available_reaches n s v :
  serves (11 + n) s -> holds s v -> vault_ok v -> timely v (now s) -> fits v (now s) ->
  reaches n available_amount
    (if counted v (now s) <? v_cliff_timestamp v then eret 0
     else let! a := num_sub (vested v (now s)) (v_released v) in eret (Z.min a (v_total v))) s v.
Proof.
  intros Hs Hh Hv Ht [Hf1 Hf2]. pose proof (now_num s) as Hnow.
  pose proof (vault_nums v Hv) as (Hcl & Hca & Hdd & Hda & Hto & Hre & Had & Ho & Hl).
  destruct (start_after v (now s) Hv Ht Hnow) as [Hp Hst]. cbn [Nat.add] in Hs.
  unfold available_amount. pass. unfold cliff_timestamp. pass.
  eapply reaches_bind; [apply (total_paused_gives (5 + n)); (done || congruence)|]. intros s3 Hs3 Hh3 Hn3.
  replace (now s1) with (now s) by congruence.
  compute_with gives_add; [done..|]. rewrite Hst. unfold vested in *.
  destruct (Z.ltb_spec (counted v (now s)) (v_cliff_timestamp v)) as [Hb|Ha].
  { exists s2. split; [done|]. split; [by apply (vault_serves_some 5)|]. split; [done|congruence]. }
  destruct (drips_num v (now s) Hv Ht Hnow Ha) as [Hd1 Hd2].
  unfold total_amount, drip_duration, drip_amount, released_amount, cliff_amount. do 5 pass.
  unfold counted in *. compute_with gives_sub; [done.. | unfold is_num in *; lia |].
  compute_with gives_sub; [unfold is_num in *; lia | done | lia |].
  replace (now s - v_cliff_timestamp v - paused_for v (now s)) with (now s - paused_for v (now s) - v_cliff_timestamp v) by lia.
  eapply reaches_bind with (n := n); [|intros sd Hsd Hhd Hnd].
  { instantiate (1 := if v_drip_duration v =? 0 then 0 else (now s - paused_for v (now s) - v_cliff_timestamp v) / v_drip_duration v).
    destruct (Z.eqb_spec (v_drip_duration v) 0) as [|Hz]; [by apply gives_ret|].
    apply gives_pure; [by apply num_div_law | done..]. }
  compute_with gives_mul; [done.. | unfold is_num in *; nia |].
  compute_with gives_add; [done | unfold is_num in *; nia | done |].
  eexists. split; [reflexivity|]. split; [eassumption|]. split; [eassumption|]. congruence.
Qed.

Lemma available_gives n s v :
  serves (11 + n) s -> holds s v -> vault_ok v -> timely v (now s) -> fits v (now s) ->
  counted v (now s) < v_cliff_timestamp v \/ v_released v <= vested v (now s) ->
  gives n available_amount s (offered v (now s)) v.
Proof.
  intros Hs Hh Hv Ht Hf Hr. destruct (available_reaches n s v Hs Hh Hv Ht Hf) as (s' & Hm & Hs' & Hh' & Hn).
  unfold gives. rewrite Hm. unfold offered. destruct (Z.ltb_spec (counted v (now s)) (v_cliff_timestamp v)) as [|Hc]; [by exists s'|].
  destruct Hr as [|Hr]; [lia|]. pose proof (vault_nums v Hv) as (_ & _ & _ & _ & _ & Hre & _). destruct Hf as [_ Hf].
  destruct (gives_sub n (vested v (now s)) (v_released v) s' v) as (s2 & Hm2 & Hs2 & Hh2 & Hn2);
    [unfold is_num in *; lia | done.. |].
  exists s2. rewrite (ebind_run _ _ _ _ _ Hm2). split_and!; [done..|congruence].
Qed.

Lemma available_stops s v :
  serves 11 s -> holds s v -> vault_ok v -> timely v (now s) -> fits v (now s) ->
  v_cliff_timestamp v <= counted v (now s) -> 0 <= vested v (now s) < v_released v -> stops available_amount s.
Proof.
  intros Hs Hh Hv Ht Hf Hc Hr r s1. destruct (available_reaches 0 s v Hs Hh Hv Ht Hf) as (s' & Hm & _).
  rewrite Hm, (proj2 (Z.ltb_ge _ _) Hc). revert r s1. apply stops_first.
  pose proof (vault_nums v Hv) as (_ & _ & _ & _ & _ & Hre & _). apply stops_sub; [|done|lia].
  destruct Hf. unfold is_num in *. lia.
Qed.

Ltac halt_after := eapply stops_bind; [access | intros ?s ?Hs ?Hh ?Hn].
Ltac halt_with lemma :=
  eapply stops_bind; [apply lemma; [..|eassumption|eassumption] | intros ?s ?Hs ?Hh ?Hn].

(** What cannot be represented is not computed. *)
Lemma available_overflows s v :
  serves 11 s -> holds s v -> vault_ok v -> timely v (now s) -> ~ fits v (now s) -> stops available_amount s.
Proof.
  intros Hs Hh Hv Ht Hf. pose proof (now_num s) as Hnow.
  pose proof (vault_nums v Hv) as (Hcl & Hca & Hdd & Hda & Hto & Hre & Had & Ho & Hl).
  destruct (start_after v (now s) Hv Ht Hnow) as [Hp Hst].
  unfold available_amount. halt_after. unfold cliff_timestamp. halt_after.
  eapply stops_bind; [apply (total_paused_gives 5); (done || congruence)|]. intros s3 Hs3 Hh3 Hn3.
  replace (now s1) with (now s) by congruence.
  destruct (Z.leb_spec (v_cliff_timestamp v + paused_for v (now s)) num_max) as [Hle|Hgt];
    [|by apply stops_first, stops_add].
  assert (num_max < vested v (now s)) as Hbig by (unfold fits in Hf; lia).
  halt_with gives_add; [done..|]. rewrite Hst. unfold vested in Hbig.
  destruct (Z.ltb_spec (counted v (now s)) (v_cliff_timestamp v)) as [Hb|Ha]; [unfold is_num in *; lia|].
  destruct (drips_num v (now s) Hv Ht Hnow Ha) as [Hd1 Hd2].
  unfold total_amount, drip_duration, drip_amount, released_amount, cliff_amount. do 5 halt_after.
  unfold counted in *. halt_with gives_sub; [done.. | unfold is_num in *; lia |].
  halt_with gives_sub; [unfold is_num in *; lia | done | lia |].
  replace (now s - v_cliff_timestamp v - paused_for v (now s)) with (now s - paused_for v (now s) - v_cliff_timestamp v) by lia.
  eapply (stops_bind 0 _ _ _
    (if v_drip_duration v =? 0 then 0 else (now s - paused_for v (now s) - v_cliff_timestamp v) / v_drip_duration v) v);
    [|intros sd Hsd Hhd Hnd].
  { destruct (Z.eqb_spec (v_drip_duration v) 0) as [|Hz]; [by apply gives_ret|].
    apply gives_pure; [by apply num_div_law | done..]. }
  set (d := if v_drip_duration v =? 0 then 0 else _) in *.
  destruct (Z.leb_spec (v_drip_amount v * d) num_max) as [Hm|Hm]; [|by apply stops_first, stops_mul].
  halt_with gives_mul; [done..|]. apply stops_first, stops_add; [done | unfold is_num in *; nia | done].
Qed.

(** ** Calls *)

Inductive VestingCall := Call_withdraw (amount : Z) | Call_pause | Call_unpause | Call_admin_release.

(** The answer to a call: a released amount, or the error. *)
Definition run_call (call : VestingCall) : eff S E (Z + VestingError) :=
  match call with
  | Call_withdraw a => let! r := withdraw a in eret (match r with inl _ => inl a | inr e => inr e end)
  | Call_pause => let! r := pause in eret (match r with inl _ => inl 0 | inr e => inr e end)
  | Call_unpause => let! r := unpause in eret (match r with inl _ => inl 0 | inr e => inr e end)
  | Call_admin_release => admin_release
  end.

(** What the vault promises at time [t]. *)
Definition spec_call (call : VestingCall) (t : Z) (v : Vault) : (Z * Vault) + VestingError :=
  match call with
  | Call_withdraw a =>
      if offered v t <? a then inr NotEnoughBalance else inl (a, with_released (v_released v + a) v)
  | Call_pause => if v_paused v then inr AlreadyPaused else inl (0, with_pause true (v_on_pause v) t v)
  | Call_unpause =>
      if v_paused v then inl (0, with_pause false (v_on_pause v + (t - v_last_pause v)) (v_last_pause v) v)
      else inr AlreadyUnpaused
  | Call_admin_release =>
      if negb (v_paused v) then inr AdminReleaseErrorNotPaused
      else if t - v_last_pause v <? v_admin_release_duration v then inr AdminReleaseErrorNotEnoughTimeElapsed
      else if v_total v =? v_released v then inr AdminReleaseErrorNothingToWithdraw
      else inl (v_total v - v_released v, with_released (v_total v) v)
  end.

(** The releases so far are covered. *)
Definition covered (call : VestingCall) (t : Z) (v : Vault) : Prop :=
  match call with
  | Call_withdraw a => is_num a /\ (counted v t < v_cliff_timestamp v \/ v_released v <= vested v t)
      /\ v_released v + a <= num_max
  | Call_admin_release => v_released v <= v_total v
  | _ => True
  end.

(** The fields of a vault with one of them changed. *)
Ltac set_field :=
  let nm := fresh in let x := fresh in let Hin := fresh in
  intros nm x Hin; cbn in Hin; decompose sum Hin; simplify_eq; (case_decide; [done|]); cbn; tauto.

Lemma withdraw_gives n a s v :
  serves (13 + n) s -> holds s v -> vault_ok v -> timely v (now s) -> fits v (now s) ->
  covered (Call_withdraw a) (now s) v ->
  if offered v (now s) <? a then gives n (withdraw a) s (inr NotEnoughBalance) v
  else gives n (withdraw a) s (inl tt) (with_released (v_released v + a) v).
Proof.
  intros Hs Hh Hv Ht Hf (Ha & Hc & Hm). pose proof (vault_nums v Hv) as (_ & _ & _ & _ & _ & Hre & _).
  pose proof (available_gives (2 + n) s v Hs Hh Hv Ht Hf Hc) as Hav. unfold withdraw.
  destruct (Z.ltb_spec (offered v (now s)) a) as [Hlt|Hge].
  - eapply gives_bind; [exact Hav|]. intros s1 Hs1 Hh1 Hn1. rewrite (proj2 (Z.ltb_lt _ _) Hlt).
    apply (vault_gives_less 2). by apply gives_ret.
  - eapply gives_bind; [exact Hav|]. intros s1 Hs1 Hh1 Hn1. rewrite (proj2 (Z.ltb_ge _ _) Hge). unfold released_amount. next.
    eapply gives_bind; [by apply (gives_add (1 + n))|]. intros s2 Hs2 Hh2 Hn2.
    eapply gives_bind; [eapply (gives_set_amount n); [| | | exact Hs2 | exact Hh2]|intros s3 Hs3 Hh3 Hn3; by apply gives_ret].
    + set_field.
    + cbn; tauto.
    + unfold is_num in *. lia.
Qed.

Lemma pause_gives n s v :
  serves (4 + n) s -> holds s v -> vault_ok v ->
  if v_paused v then gives n pause s (inr AlreadyPaused) v
  else gives n pause s (inl tt) (with_pause true (v_on_pause v) (now s) v).
Proof.
  intros Hs Hh Hv. cbn [Nat.add] in Hs. pose proof (now_num s) as Hnow. unfold pause. destruct (v_paused v) eqn:Ep.
  - next. rewrite Ep. cbn. apply (vault_gives_less 3). by apply gives_ret.
  - next. rewrite Ep. cbn [negb]. next.
    eapply gives_bind; [apply (gives_set_time (1 + n) LAST_PAUSE_TIMESTAMP (now s0) _ v (with_pause false (v_on_pause v) (now s0) v))|].
    + rewrite <- Ep. set_field.
    + cbn; tauto.
    + unfold is_num in *. by rewrite Hn.
    + done.
    + done.
    + intros s3 Hs3 Hh3 Hn3. rewrite <- Hn.
      eapply gives_bind; [eapply (gives_set_flag n _ _ _ (with_pause true (v_on_pause v) (now s0) v));
        [|exact Hs3|exact Hh3]; set_field|]. intros s4 Hs4 Hh4 Hn4. by apply gives_ret.
Qed.

Lemma unpause_gives n s v :
  serves (6 + n) s -> holds s v -> vault_ok v -> timely v (now s) ->
  if v_paused v then gives n unpause s (inl tt)
    (with_pause false (v_on_pause v + (now s - v_last_pause v)) (v_last_pause v) v)
  else gives n unpause s (inr AlreadyUnpaused) v.
Proof.
  intros Hs Hh Hv [Ht0 Ht]. cbn [Nat.add] in Hs. pose proof (now_num s) as Hnow.
  pose proof (vault_nums v Hv) as (_ & _ & _ & _ & _ & _ & _ & Ho & Hl). unfold unpause. destruct (v_paused v) eqn:Ep.
  - next. rewrite Ep. unfold on_pause_duration, last_pause_timestamp. next. next. next.
    replace (now s2) with (now s) by congruence.
    eapply gives_bind; [apply (gives_sub (2 + n)); (eassumption || lia)|]. intros s4 Hs4 Hh4 Hn4.
    eapply gives_bind; [apply (gives_add (2 + n)); (eassumption || (unfold is_num in *; lia))|]. intros s5 Hs5 Hh5 Hn5.
    eapply gives_bind; [apply (gives_set_time (1 + n) ON_PAUSE_DURATION _ _ v
      (with_pause true (v_on_pause v + (now s - v_last_pause v)) (v_last_pause v) v))|].
    + rewrite <- Ep. set_field.
    + cbn; tauto.
    + unfold is_num in *. lia.
    + done.
    + done.
    + intros s6 Hs6 Hh6 Hn6. eapply gives_bind; [eapply (gives_set_flag n _ _ _
        (with_pause false (v_on_pause v + (now s - v_last_pause v)) (v_last_pause v) v));
        [|exact Hs6|exact Hh6]; set_field|]. intros s7 Hs7 Hh7 Hn7. by apply gives_ret.
  - next. rewrite Ep. apply (vault_gives_less 5). by apply gives_ret.
Qed.

(** The common course of [admin_release] up to the subtraction. *)
Lemma admin_reaches n s v :
  serves (7 + n) s -> holds s v -> vault_ok v -> timely v (now s) ->
  reaches (1 + n) admin_release
    (if negb (v_paused v) then eret (inr AdminReleaseErrorNotPaused)
     else if now s - v_last_pause v <? v_admin_release_duration v
     then eret (inr AdminReleaseErrorNotEnoughTimeElapsed)
     else if v_total v =? v_released v then eret (inr AdminReleaseErrorNothingToWithdraw)
     else let! a := num_sub (v_total v) (v_released v) in
          let! _ := set_released_amount (v_total v) in eret (inl a)) s v.
Proof.
  intros Hs Hh Hv [Ht0 Ht]. cbn [Nat.add] in Hs. pose proof (now_num s) as Hnow.
  pose proof (vault_nums v Hv) as (_ & _ & _ & _ & _ & _ & _ & Ho & Hl). unfold admin_release. pass.
  destruct (v_paused v) eqn:Ep; cbn [negb].
  - unfold last_pause_timestamp. pass. pass. replace (now s1) with (now s) by congruence.
    compute_with gives_sub; [done.. | lia |]. unfold admin_release_duration. pass.
    destruct (_ <? _).
    { eexists. split; [reflexivity|]. split; [apply (vault_serves_some 2); eassumption|]. split; [done|congruence]. }
    unfold total_amount, released_amount. do 2 pass.
    eexists. split; [reflexivity|]. split; [eassumption|]. split; [done|congruence].
  - eexists. split; [reflexivity|]. split; [apply (vault_serves_some 5); eassumption|]. split; [done|congruence].
Qed.

Lemma gives_reached {X} n n' (m k : eff S E X) s x v v' :
  reaches n m k s v -> (forall s1, serves n s1 -> holds s1 v -> now s1 = now s -> gives n' k s1 x v') ->
  gives n' m s x v'.
Proof.
  intros (s1 & Hm & Hs & Hh & Hn) Hk. destruct (Hk s1 Hs Hh Hn) as (s2 & Hr & Hs2 & Hh2 & Hn2).
  exists s2. rewrite Hm. split_and!; [done..|congruence].
Qed.

Lemma admin_gives n s v :
  serves (7 + n) s -> holds s v -> vault_ok v -> timely v (now s) -> v_released v <= v_total v ->
  match spec_call Call_admin_release (now s) v with
  | inl (a, v') => gives n admin_release s (inl a) v'
  | inr e => gives n admin_release s (inr e) v
  end.
Proof.
  intros Hs Hh Hv Ht Hc. pose proof (vault_nums v Hv) as (_ & _ & _ & _ & Hto & Hre & _).
  pose proof (admin_reaches n s v Hs Hh Hv Ht) as Hm. cbn [spec_call].
  destruct (negb (v_paused v)); [|destruct (_ <? _); [|destruct (_ =? _)]]; (eapply gives_reached; [exact Hm|]);
    intros s1 Hs1 Hh1 Hn1; try (apply (vault_gives_less 1); by apply gives_ret).
  eapply gives_bind; [by apply (gives_sub (1 + n))|]. intros s2 Hs2 Hh2 Hn2.
  eapply gives_bind; [eapply (gives_set_amount n _ _ _ _ (with_released (v_total v) v));
    [|cbn; tauto|done|exact Hs2|exact Hh2]; set_field|]. intros s3 Hs3 Hh3 Hn3. by apply gives_ret.
Qed.

Lemma vesting_refines_at call n s v :
  serves (13 + n) s -> holds s v -> vault_ok v -> timely v (now s) -> fits v (now s) -> covered call (now s) v ->
  match spec_call call (now s) v with
  | inl (a, v') => gives n (run_call call) s (inl a) v'
  | inr e => gives n (run_call call) s (inr e) v
  end.
Proof.
  intros Hs Hh Hv Ht Hf Hc. destruct call as [a| | |]; cbn [run_call spec_call].
  - pose proof (withdraw_gives n a s v Hs Hh Hv Ht Hf Hc) as Hw.
    destruct (offered v (now s) <? a); (eapply gives_bind; [exact Hw|]; intros; by apply gives_ret).
  - pose proof (pause_gives n s v (vault_serves_some 9 (4 + n) s Hs) Hh Hv) as Hp.
    destruct (v_paused v); (eapply gives_bind; [exact Hp|]; intros; by apply gives_ret).
  - pose proof (unpause_gives n s v (vault_serves_some 7 (6 + n) s Hs) Hh Hv Ht) as Hp.
    destruct (v_paused v); (eapply gives_bind; [exact Hp|]; intros; by apply gives_ret).
  - exact (admin_gives n s v (vault_serves_some 6 (7 + n) s Hs) Hh Hv Ht Hc).
Qed.

(** Where the code aborts although the vault has an answer: what has vested cannot
    be computed, less has vested than was released, or the sum of the releases
    cannot be represented; and the administrator cannot take back a negative rest. *)
Definition aborts (call : VestingCall) (t : Z) (v : Vault) : bool :=
  match call with
  | Call_withdraw a =>
      negb ((v_cliff_timestamp v + paused_for v t <=? num_max) && (vested v t <=? num_max))
      || (v_cliff_timestamp v <=? counted v t) && (vested v t <? v_released v)
      || (a <=? offered v t) && (num_max <? v_released v + a)
  | Call_admin_release =>
      match spec_call Call_admin_release t v with inl _ => v_total v <? v_released v | inr _ => false end
  | _ => false
  end.

Lemma vested_nonneg v t : vault_ok v -> timely v t -> is_num t -> 0 <= vested v t.
Proof.
  intros Hv Ht Hn. pose proof (vault_nums v Hv) as (_ & Hca & _ & Hda & _). unfold vested.
  destruct (Z.ltb_spec (counted v t) (v_cliff_timestamp v)) as [|Hc]; [lia|].
  destruct (drips_num v t Hv Ht Hn Hc) as [_ Hd]. unfold is_num in *. nia.
Qed.

Lemma withdraw_stops a s v :
  serves 13 s -> holds s v -> vault_ok v -> timely v (now s) -> is_num a ->
  aborts (Call_withdraw a) (now s) v = true -> stops (withdraw a) s.
Proof.
  intros Hs Hh Hv Ht Ha Hb. pose proof (vault_nums v Hv) as (_ & _ & _ & _ & _ & Hre & _).
  pose proof (vault_serves_some 2 11 s Hs) as Hs11. pose proof (vested_nonneg v (now s) Hv Ht (now_num s)) as Hn.
  unfold withdraw. cbn in Hb. apply orb_true_iff in Hb as [[Hf%negb_true_iff|Hr]%orb_true_iff|Ho].
  - apply stops_first. apply (available_overflows s v); [done..|]. intros [Hx%Z.leb_le Hy%Z.leb_le]. by rewrite Hx, Hy in Hf.
  - apply andb_true_iff in Hr as [Hc%Z.leb_le Hl%Z.ltb_lt]. apply stops_first.
    destruct (decide (fits v (now s))) as [Hf|Hf]; [by apply (available_stops s v) | by apply (available_overflows s v)].
  - apply andb_true_iff in Ho as [Hle%Z.leb_le Hgt%Z.ltb_lt].
    destruct (decide (fits v (now s))) as [Hf|Hf]; [|by apply stops_first, (available_overflows s v)].
    destruct (decide (v_cliff_timestamp v <= counted v (now s) /\ vested v (now s) < v_released v)) as [[Hc Hl]|Hc];
      [by apply stops_first, (available_stops s v)|].
    eapply stops_bind; [apply (available_gives 2 s v); [done..|lia]|]. intros s1 Hs1 Hh1 Hn1.
    rewrite (proj2 (Z.ltb_ge _ _) Hle). unfold released_amount. halt_after. by apply stops_first, stops_add.
Qed.

(** Every call, whatever has been released. *)
Lemma vesting_settles call n s v :
  serves (13 + n) s -> holds s v -> vault_ok v -> timely v (now s) ->
  match call with Call_withdraw a => is_num a | _ => True end ->
  if aborts call (now s) v then stops (run_call call) s
  else match spec_call call (now s) v with
       | inl (a, v') => gives n (run_call call) s (inl a) v'
       | inr e => gives n (run_call call) s (inr e) v
       end.
Proof.
  intros Hs Hh Hv Ht Ha. pose proof (vault_nums v Hv) as (_ & _ & _ & _ & Hto & Hre & _). destruct call as [a| | |].
  - destruct (aborts (Call_withdraw a) (now s) v) eqn:Eb.
    { apply stops_first. apply (withdraw_stops a s v); try done. apply (vault_serves_some n). by rewrite Nat.add_comm. }
    cbn in Eb. apply orb_false_iff in Eb as [[Hf%negb_false_iff Hr]%orb_false_iff Ho].
    apply andb_true_iff in Hf as [Hx%Z.leb_le Hy%Z.leb_le].
    assert (v_cliff_timestamp v <= counted v (now s) -> v_released v <= vested v (now s)) as Hc.
    { intros Hc%Z.leb_le. rewrite Hc in Hr. cbn in Hr. by apply Z.ltb_ge in Hr. }
    cbn [run_call spec_call]. destruct (Z.ltb_spec (offered v (now s)) a) as [Hlt|Hge].
    + eapply (gives_bind n n _ _ _ (inr NotEnoughBalance) v); [|intros s1 Hs1 Hh1 Hn1; by apply gives_ret]. unfold withdraw.
      eapply gives_bind; [apply (available_gives (2 + n) s v); [done..|lia]|]. intros s1 Hs1 Hh1 Hn1.
      rewrite (proj2 (Z.ltb_lt _ _) Hlt). apply (vault_gives_less 2). by apply gives_ret.
    + assert (v_released v + a <= num_max) as Hm.
      { rewrite (proj2 (Z.leb_le _ _) Hge) in Ho. cbn in Ho. by apply Z.ltb_ge in Ho. }
      pose proof (withdraw_gives n a s v Hs Hh Hv Ht (conj Hx Hy)) as Hw. rewrite (proj2 (Z.ltb_ge _ _) Hge) in Hw.
      eapply gives_bind; [apply Hw; split; [done|]; split; [lia | done]|]. intros s1 Hs1 Hh1 Hn1. by apply gives_ret.
  - pose proof (pause_gives n s v (vault_serves_some 9 (4 + n) s Hs) Hh Hv) as Hp. cbn [aborts run_call spec_call].
    destruct (v_paused v); (eapply gives_bind; [exact Hp|]; intros; by apply gives_ret).
  - pose proof (unpause_gives n s v (vault_serves_some 7 (6 + n) s Hs) Hh Hv Ht) as Hp. cbn [aborts run_call spec_call].
    destruct (v_paused v); (eapply gives_bind; [exact Hp|]; intros; by apply gives_ret).
  - pose proof (vault_serves_some 6 (7 + n) s Hs) as Hs7. cbn [aborts].
    destruct (Z.ltb_spec (v_total v) (v_released v)) as [Hlt|Hge];
      [|pose proof (admin_gives n s v Hs7 Hh Hv Ht Hge) as Hg; by destruct (spec_call Call_admin_release (now s) v)].
    destruct (admin_reaches n s v Hs7 Hh Hv Ht) as (s1 & Hm & Hs1 & Hh1 & Hn1). cbn [spec_call run_call].
    assert (forall e, admin_release s = eret (inr e) s1 -> gives n admin_release s (inr e) v) as Herr.
    { intros e He. exists s1. split; [exact He|]. split; [by apply (vault_serves_some 1) | done]. }
    destruct (negb (v_paused v)); [by apply Herr|]. destruct (_ <? _); [by apply Herr|].
    destruct (_ =? _); [by apply Herr|]. intros r s2. rewrite Hm. revert r s2. by apply stops_first, stops_sub.
Qed.

(** The vault implements what it promises. A withdrawal is refused when less
    is on offer and otherwise recorded; the vault is paused and resumed, and the
    administrator takes back what is left after a long enough pause; each call
    has the specified answer and leaves the specified vault, and an error
    changes nothing. *)
Theorem vesting_refines call n s v :
  serves (13 + n) s -> holds s v -> vault_ok v -> timely v (now s) -> fits v (now s) -> covered call (now s) v ->
  match spec_call call (now s) v with
  | inl (a, v') => gives n (run_call call) s (inl a) v'
  | inr e => gives n (run_call call) s (inr e) v
  end.
Proof. intros Hs Hh Hv Ht Hf Hc. by apply vesting_refines_at. Qed.

(** ** The life of a vault *)

Lemma entry_set_other name name' z x s s' :
  entry_set name z s s' -> In name' vesting_names -> entry s name' = Some x -> name' <> name -> entry s' name' = Some x.
Proof. intros [He _] Hin Hx Hne. by rewrite He, decide_False by done. Qed.

Lemma entry_set_this name z s s' : entry_set name z s s' -> In name vesting_names -> entry s' name = Some z.
Proof. intros [He _] Hin. by rewrite He, decide_True by done. Qed.

(** One write of a new vault. *)
Ltac put law :=
  edestruct law as (?s & ?Hr & ?Hs & ?He); [eassumption | cbn; tauto | eassumption |];
  erewrite ebind_run by eassumption.

(** A new vault has the configured terms and has released nothing. *)
Lemma init_gives n s cts ca dd da tot adm :
  Forall is_num [cts; ca; dd; da; tot; adm] -> serves (10 + n) s ->
  gives n (init cts ca dd da tot adm) s tt (mk_vault cts ca dd da tot 0 adm false 0 0).
Proof.
  intros Hf Hs. cbn [Nat.add] in Hs. repeat (apply Forall_cons_iff in Hf as [? Hf]).
  assert (is_num 0) as H0n by (unfold is_num in *; lia). unfold gives, init.
  unfold set_cliff_timestamp, set_cliff_amount, set_drip_duration, set_drip_amount, set_total_amount,
    set_admin_release_duration, set_released_amount, set_paused_flag, set_on_pause_duration, set_last_pause_timestamp.
  put (set_time_law (9 + n) CLIFF_TIMESTAMP cts). put (set_amount_law (8 + n) CLIFF_AMOUNT ca).
  put (set_time_law (7 + n) DRIP_DURATION dd). put (set_amount_law (6 + n) DRIP_AMOUNT da).
  put (set_amount_law (5 + n) TOTAL_AMOUNT tot). put (set_time_law (4 + n) ADMIN_RELEASE_DURATION adm).
  put (set_amount_law (3 + n) RELEASED_AMOUNT 0).
  edestruct (set_boolean_law (2 + n) PAUSE_FLAG false) as (s7 & Hr7 & Hs7 & He7); [eassumption | cbn; tauto |].
  rewrite (ebind_run _ _ _ _ _ Hr7). put (set_time_law (1 + n) ON_PAUSE_DURATION 0).
  edestruct (set_time_law n LAST_PAUSE_TIMESTAMP 0) as (s9 & Hr9 & Hs9 & He9); [eassumption | cbn; tauto | exact H0n |].
  exists s9. split; [exact Hr9|]. split; [done|].
  split; [|repeat match goal with He : entry_set _ _ _ _ |- _ => destruct He as [_ ->] end; done].
  repeat constructor; first
    [ eapply entry_set_this; [eassumption | cbn; tauto]
    | repeat first [ eapply entry_set_this; [eassumption | cbn; tauto]
                   | eapply entry_set_other; [eassumption | cbn; tauto | | discriminate] ] ].
Qed.

(** What does not change. *)
Definition same_terms (v v' : Vault) : Prop :=
  v_cliff_timestamp v' = v_cliff_timestamp v /\ v_cliff_amount v' = v_cliff_amount v
  /\ v_drip_duration v' = v_drip_duration v /\ v_drip_amount v' = v_drip_amount v /\ v_total v' = v_total v.

Lemma vested_mono v v' t t' :
  same_terms v v' -> vault_ok v -> counted v t <= counted v' t' -> vested v t <= vested v' t'.
Proof.
  intros (E1 & E2 & E3 & E4 & _) Hv Hc. apply vault_nums in Hv as (Hcl & Hca & Hdd & Hda & _). unfold vested.
  rewrite E1, E2, E3, E4. unfold is_num in *.
  assert (v_cliff_timestamp v <= counted v' t' ->
    0 <= (if v_drip_duration v =? 0 then 0 else (counted v' t' - v_cliff_timestamp v) / v_drip_duration v)) as Hp.
  { intros. destruct (Z.eqb_spec (v_drip_duration v) 0); [lia|]. apply Z.div_pos; lia. }
  destruct (Z.ltb_spec (counted v t) (v_cliff_timestamp v)), (Z.ltb_spec (counted v' t') (v_cliff_timestamp v)); try nia.
  apply Zplus_le_compat_l, Z.mul_le_mono_nonneg_l; [lia|]. destruct (Z.eqb_spec (v_drip_duration v) 0); [lia|].
  apply Z.div_le_mono; lia.
Qed.

(** Up to the time [T], the results can be represented. *)
Definition horizon (T : Z) (v : Vault) : Prop :=
  is_num T /\ v_cliff_timestamp v + T <= num_max /\ v_cliff_amount v + v_drip_amount v * T <= num_max.

Lemma horizon_fits T v t : horizon T v -> vault_ok v -> timely v t -> 0 <= t <= T -> fits v t.
Proof.
  intros (HT & Hc & Hd) Hv [Ht0 Ht] HtT. apply vault_nums in Hv as (Hcl & Hca & Hdd & Hda & _ & _ & _ & Ho & Hl).
  assert (0 <= paused_for v t <= t) as Hp by (unfold paused_for; destruct (v_paused v); lia).
  split; [lia|]. unfold vested. destruct (Z.ltb_spec (counted v t) (v_cliff_timestamp v)) as [|Hge]; [unfold is_num in *; lia|].
  transitivity (v_cliff_amount v + v_drip_amount v * T); [|done]. apply Zplus_le_compat_l.
  unfold is_num in *. apply Z.mul_le_mono_nonneg_l; [lia|]. unfold counted in *.
  destruct (Z.eqb_spec (v_drip_duration v) 0); [lia|]. transitivity (t - paused_for v t - v_cliff_timestamp v); [|lia].
  apply Z.div_le_upper_bound; nia.
Qed.

(** Time passes, or a call other than [admin_release] returns. *)
Inductive vault_step (T : Z) s : S -> Prop :=
| step_time s' : (forall name, In name vesting_names -> entry s' name = entry s name) -> now s <= now s' <= T ->
    vault_step T s s'
| step_call call r s' : call <> Call_admin_release -> serves 13 s ->
    match call with Call_withdraw a => is_num a | _ => True end ->
    run_call call s = (Ok r, s') -> vault_step T s s'.

(** The vault of a state, at whose time no more is released than has vested. *)
Record sound (T : Z) s (v : Vault) : Prop := {
  sd_holds : holds s v;
  sd_ok : vault_ok v;
  sd_timely : timely v (now s);
  sd_time : now s <= T;
  sd_horizon : horizon T v;
  sd_released : v_released v <= vested v (now s);
}.

Lemma spec_call_sound call t v a v' :
  call <> Call_admin_release -> vault_ok v -> timely v t -> is_num t -> fits v t -> v_released v <= vested v t ->
  match call with Call_withdraw a => is_num a | _ => True end ->
  spec_call call t v = inl (a, v') ->
  same_terms v v' /\ v_released v <= v_released v' <= vested v' t /\ timely v' t /\ vault_ok v'.
Proof.
  intros Hna Hv [Ht0 Ht] Hnum Hf Hr Ha. pose proof (vault_nums v Hv) as (Hcl & Hca & Hdd & Hda & Hto & Hre & Had & Ho & Hl).
  destruct call as [b| | |]; [| | |done]; cbn [spec_call].
  - destruct (Z.ltb_spec (offered v t) b) as [|Hge]; intros [= <- <-]. split; [done|].
    assert (v_released v + b <= vested v t) as Hle.
    { revert Hge Hr. unfold offered, vested. destruct (_ <? v_cliff_timestamp v); [unfold is_num in *; lia|].
      destruct (_ =? 0); lia. }
    split; [split; [unfold is_num in *; cbn; lia | exact Hle]|]. split; [done|].
    destruct Hf as [_ Hf]. apply vault_ok_intro; try done. unfold is_num in *; cbn; lia.
  - destruct (v_paused v) eqn:Ep; [done|]. intros [= <- <-]. split; [done|].
    assert (counted (with_pause true (v_on_pause v) t v) t = counted v t) as Hc
      by (unfold counted, paused_for; cbn; rewrite Ep; lia).
    split; [split; [done|]; transitivity (vested v t); [done|]; apply vested_mono; (done || lia)|].
    split; [split; cbn; lia|]. by apply vault_ok_intro.
  - destruct (v_paused v) eqn:Ep; [|done]. intros [= <- <-]. split; [done|].
    assert (counted (with_pause false (v_on_pause v + (t - v_last_pause v)) (v_last_pause v) v) t = counted v t) as Hc
      by (unfold counted, paused_for; cbn; rewrite Ep; lia).
    split; [split; [done|]; transitivity (vested v t); [done|]; apply vested_mono; (done || lia)|].
    split; [split; cbn; lia|]. apply vault_ok_intro; try done. unfold is_num in *; cbn; lia.
Qed.

Lemma vault_step_sound T s s' v :
  vault_step T s s' -> sound T s v -> exists v', sound T s' v' /\ same_terms v v' /\ v_released v <= v_released v'.
Proof.
  intros Hst [Hh Hv Ht Hle Hz Hr]. destruct Hst as [s' He [Hn1 Hn2]|call r s' Hna Hs Ha Hrun].
  - exists v. split; [|split; [done|lia]]. destruct Ht as [Ht0 Ht]. split; try done.
    + unfold holds in *. rewrite List.Forall_forall in Hh |- *. intros [nm x] Hin. rewrite He by by apply (field_name v _ x).
      exact (Hh _ Hin).
    + split; [done|]. destruct (v_paused v); lia.
    + transitivity (vested v (now s)); [done|]. apply vested_mono; [done..|].
      unfold counted, paused_for. destruct (v_paused v); lia.
  - pose proof (now_num s) as Hnow. pose proof (horizon_fits T v (now s) Hz Hv Ht ltac:(unfold is_num in *; lia)) as Hf.
    assert (covered call (now s) v \/ spec_call call (now s) v = inr NotEnoughBalance) as Hcov.
    { destruct call as [a| | |]; try (by left). cbn. destruct (Z.ltb_spec (offered v (now s)) a) as [|Hge]; [by right|].
      left. split; [done|]. split; [by right|]. destruct Hf as [_ Hf]. revert Hge Hr Hf. unfold offered, vested.
      destruct (_ <? v_cliff_timestamp v); [unfold is_num in *; lia|]. destruct (_ =? 0); lia. }
    assert (match spec_call call (now s) v with
            | inl (a, v') => gives 0 (run_call call) s (inl a) v'
            | inr e => gives 0 (run_call call) s (inr e) v
            end) as Hg.
    { destruct Hcov as [Hc|Hc]; [by apply (vesting_refines_at call 0 s v)|]. destruct call as [a| | |]; cbn in Hc |- *;
        try (by repeat case_match; simplify_eq).
      destruct (Z.ltb_spec (offered v (now s)) a) as [Hlt|]; [|done]. eapply gives_bind.
      - eapply gives_bind; [by apply (available_gives 2); [..|right]|]. intros s1 Hs1 Hh1 Hn1.
        rewrite (proj2 (Z.ltb_lt _ _) Hlt). by apply gives_ret.
      - intros s1 Hs1 Hh1 Hn1. apply (vault_gives_less 2). by apply gives_ret. }
    destruct (spec_call call (now s) v) as [[a v']|e] eqn:Es; destruct Hg as (s1 & Hr1 & _ & Hh1 & Hn1);
      rewrite Hrun in Hr1; injection Hr1 as -> <-.
    + destruct (spec_call_sound call (now s) v a v' Hna Hv Ht Hnow Hf Hr Ha Es) as (Hst & [Hr1 Hr2] & Ht' & Hv').
      exists v'. split; [|split; [done|lia]]. rewrite <- Hn1 in *. split; try done.
      destruct Hst as (Ea & Eb & _ & Ed & _). unfold horizon in *. by rewrite Ea, Eb, Ed.
    + exists v. split; [|split; [done|lia]]. rewrite <- Hn1 in *. by split.
Qed.

(** C26: nothing is released before it has vested. However time passes and
    withdrawals, pauses and resumptions follow each other, the released amount
    never decreases and never exceeds what the cliff and the drips have unlocked
    by then, where the time during pauses does not count. *)
Theorem vesting_never_early T s s' v :
  rtc (vault_step T) s s' -> sound T s v ->
  exists v', holds s' v' /\ same_terms v v' /\ v_released v <= v_released v' <= vested v' (now s').
Proof.
  intros Hs. revert v. induction Hs as [s|s1 s2 s3 H12 _ IH]; intros v Hv.
  - exists v. split; [apply Hv|]. split; [done|]. split; [done | apply Hv].
  - destruct (vault_step_sound T s1 s2 v H12 Hv) as (v2 & Hv2 & (E1 & E2 & E3 & E4 & E5) & Hr).
    destruct (IH v2 Hv2) as (v3 & Hh & (F1 & F2 & F3 & F4 & F5) & Hr3 & Hv3).
    exists v3. split; [done|]. split; [unfold same_terms; repeat split; congruence | lia].
Qed.

(** The total does not bound what is released. The total caps the amount on
    offer and not the sum of the releases, so a recipient who has received the
    total can withdraw again as long as the schedule unlocks more; a release by
    the administrator, when its turn comes, then aborts. *)
Theorem vesting_exceeds_total a s v :
  serves 20 s -> holds s v -> vault_ok v -> timely v (now s) -> fits v (now s) ->
  v_released v = v_total v -> v_cliff_timestamp v <= counted v (now s) ->
  0 < a <= v_total v -> v_released v + a <= vested v (now s) ->
  exists s', withdraw a s = (Ok (inl tt), s') /\ holds s' (with_released (v_total v + a) v)
    /\ v_total v < v_released (with_released (v_total v + a) v)
    /\ (v_paused v = true -> v_admin_release_duration v <= now s - v_last_pause v -> stops admin_release s').
Proof.
  intros Hs Hh Hv Ht Hf Hr Hc Ha Hle. pose proof (vault_nums v Hv) as (_ & _ & _ & _ & Hto & Hre & _).
  assert (covered (Call_withdraw a) (now s) v) as Hcov.
  { destruct Hf as [_ Hf]. unfold is_num in *. split; [unfold is_num; lia|]. split; [right; lia | lia]. }
  pose proof (withdraw_gives 7 a s v Hs Hh Hv Ht Hf Hcov) as Hw.
  rewrite (proj2 (Z.ltb_ge (offered v (now s)) a)) in Hw; cycle 1.
  { unfold offered. rewrite (proj2 (Z.ltb_ge _ _) Hc). lia. }
  destruct Hw as (s' & Hw & Hs' & Hh' & Hn). exists s'. rewrite Hr in Hh'. split; [done|]. split; [done|].
  split; [cbn; lia|]. intros Hp Hd r s2. destruct Hf as [_ Hf]. pose proof (vault_nums v Hv) as (? & ? & ? & ? & _ & _ & ? & ? & ?).
  destruct (admin_reaches 0 s' (with_released (v_total v + a) v) Hs' Hh') as (s1 & Hm & _).
  { apply vault_ok_intro; try done. unfold is_num in *. cbn. lia. }
  { by rewrite Hn. }
  rewrite Hm, Hn. cbn. rewrite Hp. cbn [negb]. rewrite (proj2 (Z.ltb_ge _ _) Hd), (proj2 (Z.eqb_neq _ _)) by lia.
  revert r s2. apply stops_first, stops_sub; [done | unfold is_num in *; lia | lia].
Qed.

(** Taking back the rest blocks the recipient. When the administrator releases
    before everything has vested, the recorded release exceeds what has vested,
    the amount on offer cannot be computed any more, and every withdrawal aborts
    instead of being refused. *)
Theorem vesting_admin_release_aborts s v :
  serves 20 s -> holds s v -> vault_ok v -> timely v (now s) -> fits v (now s) ->
  v_paused v = true -> v_admin_release_duration v <= now s - v_last_pause v ->
  v_cliff_timestamp v <= counted v (now s) -> v_released v <= vested v (now s) < v_total v ->
  exists s', admin_release s = (Ok (inl (v_total v - v_released v)), s') /\ forall a, stops (withdraw a) s'.
Proof.
  intros Hs Hh Hv Ht Hf Hp Hw Hc Hr. pose proof (vault_nums v Hv) as (? & ? & ? & ? & Hto & Hre & ? & ? & ?).
  pose proof (admin_gives 13 s v Hs Hh Hv Ht ltac:(lia)) as Ha. cbn [spec_call] in Ha. rewrite Hp in Ha. cbn [negb] in Ha.
  rewrite (proj2 (Z.ltb_ge _ _) Hw), (proj2 (Z.eqb_neq (v_total v) (v_released v))) in Ha by lia.
  destruct Ha as (s' & Ha & Hs' & Hh' & Hn). exists s'. split; [done|]. intros a. apply stops_first.
  apply (available_stops s' (with_released (v_total v) v)); rewrite ?Hn; try done.
  - apply (vault_serves_some 2). done.
  - by apply vault_ok_intro.
  - change (0 <= vested v (now s) < v_total v). unfold is_num in *. lia.
Qed.
End vault.
