(* ===== verification/VestingContract.v ===== *)
(** The example vesting contract: the commands it understands, its cells in local
    storage, the accounts that may call it, the entry point, the proxy that
    accounts call it through and the code that deploys it.  Sources:
    [contracts/examples/vesting-smart-contract/src/vesting.rs], [api.rs],
    [proxy.rs], [deployer.rs], [error.rs] and [lib.rs] beside it. *)

From stdpp Require Import gmap.
From S2P Require Import Prelude BTreeMap Bytesrepr Uint Types CLValues Account StoredValue Transform.
From S2P Require Import Trie TrackingCopy ApiError ProtocolData ExecutionError RuntimeContext.
From S2P Require Import ExtractURefs Runtime HostFunctions EngineState ContractApi Vesting.

(** * [error.rs] *)

Module vesting_error.
Inductive Error :=
| UnknownApiCommand
| UnknownDeployCommand
| UnknownProxyCommand
| UnknownConstructorCommand
| UnknownVestingCallCommand
| AlreadyPaused
| AlreadyUnpaused
| NotTheAdminAccount
| NotTheRecipientAccount
| UnexpectedVestingError
| NotEnoughBalance
| PurseTransferError
| PurseBalanceCheckError
| NotPaused
| NothingToWithdraw
| NotEnoughTimeElapsed
| LocalPurseKeyMissing
| UnexpectedType
| MissingLocalKey
| MissingArgument0
| MissingArgument1
| MissingArgument2
| MissingArgument3
| MissingArgument4
| MissingArgument5
| MissingArgument6
| MissingArgument7
| MissingArgument8
| MissingArgument9
| InvalidArgument0
| InvalidArgument1
| InvalidArgument2
| InvalidArgument3
| InvalidArgument4
| InvalidArgument5
| InvalidArgument6
| InvalidArgument7
| InvalidArgument8
| InvalidArgument9
| UnsupportedNumberOfArguments.

(** [error as u16]. *)
Definition discriminant (e : Error) : Z :=
  match e with
  | UnknownApiCommand => 1 | UnknownDeployCommand => 2 | UnknownProxyCommand => 3 | UnknownConstructorCommand => 4
  | UnknownVestingCallCommand => 5 | AlreadyPaused => 6 | AlreadyUnpaused => 7 | NotTheAdminAccount => 8
  | NotTheRecipientAccount => 9 | UnexpectedVestingError => 10 | NotEnoughBalance => 11 | PurseTransferError => 12
  | PurseBalanceCheckError => 13 | NotPaused => 14 | NothingToWithdraw => 15 | NotEnoughTimeElapsed => 16
  | LocalPurseKeyMissing => 17 | UnexpectedType => 18 | MissingLocalKey => 19 | MissingArgument0 => 20
  | MissingArgument1 => 21 | MissingArgument2 => 22 | MissingArgument3 => 23 | MissingArgument4 => 24
  | MissingArgument5 => 25 | MissingArgument6 => 26 | MissingArgument7 => 27 | MissingArgument8 => 28
  | MissingArgument9 => 29 | InvalidArgument0 => 30 | InvalidArgument1 => 31 | InvalidArgument2 => 32
  | InvalidArgument3 => 33 | InvalidArgument4 => 34 | InvalidArgument5 => 35 | InvalidArgument6 => 36
  | InvalidArgument7 => 37 | InvalidArgument8 => 38 | InvalidArgument9 => 39 | UnsupportedNumberOfArguments => 40
  end.

Definition missing_argument (i : Z) : Error :=
  match i with
  | 0 => MissingArgument0 | 1 => MissingArgument1 | 2 => MissingArgument2 | 3 => MissingArgument3
  | 4 => MissingArgument4 | 5 => MissingArgument5 | 6 => MissingArgument6 | 7 => MissingArgument7
  | 8 => MissingArgument8 | 9 => MissingArgument9 | _ => UnsupportedNumberOfArguments
  end.

Definition invalid_argument (i : Z) : Error :=
  match i with
  | 0 => InvalidArgument0 | 1 => InvalidArgument1 | 2 => InvalidArgument2 | 3 => InvalidArgument3
  | 4 => InvalidArgument4 | 5 => InvalidArgument5 | 6 => InvalidArgument6 | 7 => InvalidArgument7
  | 8 => InvalidArgument8 | 9 => InvalidArgument9 | _ => UnsupportedNumberOfArguments
  end.

Definition into_api_error (e : Error) : ApiError := Api_User (discriminant e).
End vesting_error.
Coercion vesting_error.into_api_error : vesting_error.Error >-> ApiError.

(** * [api.rs] *)

Definition DEPLOY : bytes := str "deploy".
Definition INIT : bytes := str "init".
Definition PAUSE : bytes := str "pause".
Definition UNPAUSE : bytes := str "unpause".
Definition WITHDRAW : bytes := str "withdraw".
Definition WITHDRAW_PROXY : bytes := str "withdraw_proxy".
Definition ADMIN_RELEASE : bytes := str "admin_release".
Definition ADMIN_RELEASE_PROXY : bytes := str "admin_release_proxy".

Record VestingConfig := mk_vesting_config {
  cfg_cliff_time : Z;
  cfg_cliff_amount : Z;
  cfg_drip_period : Z;
  cfg_drip_amount : Z;
  cfg_total_amount : Z;
  cfg_admin_release_period : Z;
}.

Inductive Api :=
| Deploy (name : bytes) (admin recipient : PublicKey) (vesting_config : VestingConfig)
| Init (admin recipient : PublicKey) (vesting_config : VestingConfig)
| Pause
| Unpause
| WithdrawProxy (amount : Z)
| Withdraw (purse : PurseId) (amount : Z)
| AdminReleaseProxy
| AdminRelease (purse : PurseId).

(** The conversions between a 32-byte array and [U256]. *)
Class U256Bytes := {
  u256_from_array : bytes -> Z;
  u256_into_array : Z -> bytes;
}.

Section contract.
Context {L G Mem Module : Type} {F : ForeignErrors} `{!Platform Mem Module} {W : WasmValues} {WR : WasmResults}.
Context {heap : Heap Mem} {imports : Imports L G Mem Module} {alloc : Allocator} {u256 : U256Bytes}.

#[local] Abbreviation RT := (Runtime L G Mem Module).
#[local] Abbreviation T A := (eff RT InterpreterError A).

Definition get_arg {A} (c : Codec A) (i : Z) : T A :=
  let! o := runtime.get_arg c i in
  let! r := option_or_revert_with (vesting_error.missing_argument i) o in
  unwrap_or_revert_with (vesting_error.invalid_argument i) r.

Definition get_vesting_config (arg_shift : Z) : T VestingConfig :=
  let! cliff_time := get_arg u512_codec arg_shift in
  let! cliff_amount := get_arg u512_codec (arg_shift + 1) in
  let! drip_period := get_arg u512_codec (arg_shift + 2) in
  let! drip_amount := get_arg u512_codec (arg_shift + 3) in
  let! total_amount := get_arg u512_codec (arg_shift + 4) in
  let! admin_release_period := get_arg u512_codec (arg_shift + 5) in
  eret (mk_vesting_config cliff_time cliff_amount drip_period drip_amount total_amount admin_release_period).

Definition from_args_with_shift (arg_shift : Z) : T Api :=
  let! method_name := get_arg string_codec arg_shift in
  if bool_decide (method_name = DEPLOY) then
    let! vesting_contract_name := get_arg string_codec (arg_shift + 1) in
    let! admin := get_arg public_key_codec (arg_shift + 2) in
    let! recipient := get_arg public_key_codec (arg_shift + 3) in
    let! vesting_conf := get_vesting_config (arg_shift + 4) in
    eret (Deploy vesting_contract_name admin recipient vesting_conf)
  else if bool_decide (method_name = INIT) then
    let! admin := get_arg public_key_codec (arg_shift + 1) in
    let! recipient := get_arg public_key_codec (arg_shift + 2) in
    let! vesting_conf := get_vesting_config (arg_shift + 3) in
    eret (Init admin recipient vesting_conf)
  else if bool_decide (method_name = PAUSE) then eret Pause
  else if bool_decide (method_name = UNPAUSE) then eret Unpause
  else if bool_decide (method_name = WITHDRAW_PROXY) then
    let! amount := get_arg u512_codec (arg_shift + 1) in
    eret (WithdrawProxy amount)
  else if bool_decide (method_name = WITHDRAW) then
    let! purse := get_arg purse_id_codec (arg_shift + 1) in
    let! amount := get_arg u512_codec (arg_shift + 2) in
    eret (Withdraw purse amount)
  else if bool_decide (method_name = ADMIN_RELEASE) then
    let! purse := get_arg purse_id_codec (arg_shift + 1) in
    eret (AdminRelease purse)
  else if bool_decide (method_name = ADMIN_RELEASE_PROXY) then eret AdminReleaseProxy
  else revert vesting_error.UnknownApiCommand.

Definition from_args : T Api := from_args_with_shift 0.

Definition from_args_in_proxy : T Api := from_args_with_shift 1.

Definition destination_contract : T ContractRef :=
  let! hash := get_arg (u8_array_codec 32) 0 in eret (ContractRef_Hash hash).

(** * [vesting.rs] *)

Definition INIT_FLAG_KEY : bytes := replicate 32 x01.
Definition ADMIN_KEY : bytes := str "admin_account".
Definition RECIPIENT_KEY : bytes := str "recipient_account".
Definition PURSE_NAME : bytes := str "vesting_main_purse".

(** [read_local(&name).unwrap_or_revert_with(..).unwrap_or_revert_with(..)]. *)
Definition read_named {A} (c : Codec A) (name : bytes) : T A :=
  let! r := storage.read_local string_codec c name in
  let! o := unwrap_or_revert_with vesting_error.MissingLocalKey r in
  option_or_revert_with vesting_error.UnexpectedType o.

Definition write_named (name : bytes) (value : Z) : T unit := storage.write_local string_codec clt_u512 name value.

(** [impl VestingTrait<U512, U512> for VestingContract]; an overflow and a division
    by zero panic. *)
#[global] Instance vesting_contract : VestingTrait RT InterpreterError := {|
  current_timestamp := runtime.get_blocktime;
  set_amount := write_named;
  amount := read_named u512_codec;
  set_time := write_named;
  time := read_named u512_codec;
  set_boolean name value := write_named name (if value then 1 else 0);
  boolean name := let! val := read_named u512_codec name in eret (val =? 1);
  num_add a b := checked (uint_add 512 a b);
  num_sub a b := checked (uint_sub a b);
  num_mul a b := checked (uint_mul 512 a b);
  num_div a b := checked (if b =? 0 then Panic else Ok (a / b));
|}.

Definition set_account (key : bytes) (value : PublicKey) : T unit :=
  storage.write_local string_codec clt_u256 key (u256_from_array value).

Definition account (key : bytes) : T PublicKey :=
  let! val := read_named u256_codec key in eret (u256_into_array val).

Definition set_admin_account (admin : PublicKey) : T unit := set_account ADMIN_KEY admin.

Definition admin_account : T PublicKey := account ADMIN_KEY.

Definition set_recipient_account (recipient : PublicKey) : T unit := set_account RECIPIENT_KEY recipient.

Definition recipient_account : T PublicKey := account RECIPIENT_KEY.

Definition verify_admin_account : T unit :=
  let! admin := admin_account in
  let! caller := runtime.get_caller in
  if bool_decide (admin <> caller) then revert vesting_error.NotTheAdminAccount else eret tt.

Definition verify_recipient_account : T unit :=
  let! recipient := recipient_account in
  let! caller := runtime.get_caller in
  if bool_decide (recipient <> caller) then revert vesting_error.NotTheRecipientAccount else eret tt.

Definition local_purse : T PurseId :=
  let! found := runtime.get_key PURSE_NAME in
  let! key := option_or_revert_with vesting_error.LocalPurseKeyMissing found in
  option_or_revert_with vesting_error.UnexpectedType (as_uref key).

Definition transfer_out_clx_to_purse (purse : PurseId) (amount : Z) : T unit :=
  let! local_purse := local_purse in
  let! r := system.transfer_from_purse_to_purse local_purse purse amount in
  unwrap_or_revert_with vesting_error.PurseTransferError r.

Definition construct : T unit :=
  let! api := from_args in
  match api with
  | Init admin recipient vesting_config =>
      let! _ := set_admin_account admin in
      let! _ := set_recipient_account recipient in
      init (cfg_cliff_time vesting_config) (cfg_cliff_amount vesting_config) (cfg_drip_period vesting_config)
        (cfg_drip_amount vesting_config) (cfg_total_amount vesting_config) (cfg_admin_release_period vesting_config)
  | _ => revert vesting_error.UnknownConstructorCommand
  end.

(** The commands, once the caller is known to be the right one. *)
Definition pause_command : T unit :=
  let! r := pause in
  match r with
  | inl _ => eret tt
  | inr AlreadyPaused => revert vesting_error.AlreadyPaused
  | inr _ => revert vesting_error.UnexpectedVestingError
  end.

Definition unpause_command : T unit :=
  let! r := unpause in
  match r with
  | inl _ => eret tt
  | inr AlreadyUnpaused => revert vesting_error.AlreadyUnpaused
  | inr _ => revert vesting_error.UnexpectedVestingError
  end.

Definition withdraw_command (purse : PurseId) (amount : Z) : T unit :=
  let! r := withdraw amount in
  match r with
  | inl _ => transfer_out_clx_to_purse purse amount
  | inr NotEnoughBalance => revert vesting_error.NotEnoughBalance
  | inr _ => revert vesting_error.UnexpectedVestingError
  end.

Definition admin_release_command (purse : PurseId) : T unit :=
  let! r := admin_release in
  match r with
  | inl amount => transfer_out_clx_to_purse purse amount
  | inr AdminReleaseErrorNotPaused => revert vesting_error.NotPaused
  | inr AdminReleaseErrorNothingToWithdraw => revert vesting_error.NothingToWithdraw
  | inr AdminReleaseErrorNotEnoughTimeElapsed => revert vesting_error.NotEnoughTimeElapsed
  | inr _ => revert vesting_error.UnexpectedVestingError
  end.

Definition entry_point : T unit :=
  let! api := from_args in
  match api with
  | Pause => let! _ := verify_admin_account in pause_command
  | Unpause => let! _ := verify_admin_account in unpause_command
  | Withdraw purse amount => let! _ := verify_recipient_account in withdraw_command purse amount
  | AdminRelease purse => let! _ := verify_admin_account in admin_release_command purse
  | _ => revert vesting_error.UnknownVestingCallCommand
  end.

Definition is_not_initialized : T bool :=
  let! r := storage.read_local (u8_array_codec 32) i32_codec INIT_FLAG_KEY in
  let! flag := unwrap_or_revert api_from_bytesrepr r in
  eret (match flag with None => true | Some _ => false end).

Definition mark_as_initialized : T unit := storage.write_local (u8_array_codec 32) clt_i32 INIT_FLAG_KEY 1.

Definition vesting : T unit :=
  let! fresh := is_not_initialized in
  if fresh then let! _ := construct in mark_as_initialized else entry_point.

(** * [proxy.rs] *)

(** The contract is called for its effects. *)
Definition call_for_unit (vault_ref : ContractRef) (args : list (outcome CLValueError CLValue)) : T unit :=
  runtime.call_contract vault_ref args unit_codec.

Definition vesting_proxy : T unit :=
  let! vault_ref := destination_contract in
  let! api := from_args_in_proxy in
  match api with
  | Pause => call_for_unit vault_ref [from_t clt_string PAUSE]
  | Unpause => call_for_unit vault_ref [from_t clt_string UNPAUSE]
  | WithdrawProxy amount =>
      let! new_purse := system.create_purse in
      let! _ := call_for_unit vault_ref
        [from_t clt_string WITHDRAW; from_t clt_purse_id new_purse; from_t clt_u512 amount] in
      let! main_purse := account.get_main_purse in
      let! r := system.transfer_from_purse_to_purse new_purse main_purse amount in
      unwrap_or_revert_with vesting_error.PurseTransferError r
  | AdminReleaseProxy =>
      let! new_purse := system.create_purse in
      let! _ := call_for_unit vault_ref [from_t clt_string ADMIN_RELEASE; from_t clt_purse_id new_purse] in
      let! main_purse := account.get_main_purse in
      let! found := system.get_balance new_purse in
      let! amount := option_or_revert_with vesting_error.PurseBalanceCheckError found in
      let! r := system.transfer_from_purse_to_purse new_purse main_purse amount in
      unwrap_or_revert_with vesting_error.PurseTransferError r
  | _ => revert vesting_error.UnknownProxyCommand
  end.

(** * [deployer.rs] and [lib.rs] *)

Definition VESTING_CONTRACT_NAME : bytes := str "vesting".
Definition VESTING_PROXY_CONTRACT_NAME : bytes := str "vesting_proxy".

Definition deploy_vesting_contract (name : bytes) (admin recipient : PublicKey) (vesting_config : VestingConfig) : T unit :=
  let! main_purse := account.get_main_purse in
  let! vesting_purse := system.create_purse in
  let! r := system.transfer_from_purse_to_purse main_purse vesting_purse (cfg_total_amount vesting_config) in
  let! _ := unwrap_or_revert_with vesting_error.PurseTransferError r in
  let vesting_urefs := bt_insert PURSE_NAME (Key_URef vesting_purse) bt_empty in
  let! vesting_ref := storage.store_function_at_hash VESTING_CONTRACT_NAME vesting_urefs in
  let! _ := call_for_unit vesting_ref
    [from_t clt_string INIT; from_t clt_public_key admin; from_t clt_public_key recipient;
     from_t clt_u512 (cfg_cliff_time vesting_config); from_t clt_u512 (cfg_cliff_amount vesting_config);
     from_t clt_u512 (cfg_drip_period vesting_config); from_t clt_u512 (cfg_drip_amount vesting_config);
     from_t clt_u512 (cfg_total_amount vesting_config); from_t clt_u512 (cfg_admin_release_period vesting_config)] in
  let! vesting_turef := storage.new_turef clt_key (key_from_contract_ref vesting_ref) in
  runtime.put_key name (turef.into_key vesting_turef).

Definition deploy_proxy : T unit :=
  let! proxy_ref := storage.store_function_at_hash VESTING_PROXY_CONTRACT_NAME bt_empty in
  let! proxy_turef := storage.new_turef clt_key (key_from_contract_ref proxy_ref) in
  runtime.put_key VESTING_PROXY_CONTRACT_NAME (turef.into_key proxy_turef).

Definition deploy : T unit :=
  let! api := from_args in
  match api with
  | Deploy name admin recipient vesting_config =>
      let! _ := deploy_vesting_contract name admin recipient vesting_config in
      deploy_proxy
  | _ => revert vesting_error.UnknownDeployCommand
  end.

Definition call : T unit := deploy.
End contract.
