(* ===== verification/VestingRuns.v ===== *)
(** The example vesting contract, run against the host functions: its cells in
    local storage implement the storage the vesting logic asks for, only the
    accounts it was set up with get past its checks, and the entry point does
    what the vault promises.  Sources:
    [contracts/examples/vesting-smart-contract/src/vesting.rs] and [api.rs]
    beside it. *)

From stdpp Require Import gmap.
From S2P Require Import Prelude BTreeMap Bytesrepr Uint Types CLValues Account StoredValue Transform.
From S2P Require Import Trie TrackingCopy ApiError ProtocolData ExecutionError RuntimeContext ContextSafety.
From S2P Require Import ExtractURefs Runtime HostFunctions RuntimeSafety EngineState ContractApi ContractRuns LocalCells.
From S2P Require Import Vesting VestingContract.

(** An account survives being stored as a number. *)
Class U256BytesLaws {u256 : U256Bytes} : Prop := {
  u256_range : forall a, is_bytes 32 a -> is_unsigned 256 (u256_from_array a);
  u256_roundtrip : forall a, is_bytes 32 a -> u256_into_array (u256_from_array a) = a;
}.

(** * The cells *)

Definition field_cells : list bytes := map wire_vec vesting_names.
Definition account_cells : list bytes := [wire_vec ADMIN_KEY; wire_vec RECIPIENT_KEY].
Definition all_cells : list bytes := field_cells ++ account_cells ++ [INIT_FLAG_KEY].

Lemma all_cells_distinct : NoDup all_cells.
Proof. apply (bool_decide_eq_true_1 (NoDup all_cells)). vm_compute. reflexivity. Qed.

Lemma name_wire name : In name (ADMIN_KEY :: RECIPIENT_KEY :: vesting_names) -> to_bytes string_codec name = Ok (wire_vec name).
Proof. intros Hin. repeat (destruct Hin as [<-|Hin]; [reflexivity|]). destruct Hin. Qed.

(** The three groups have no cell in common. *)
Lemma groups_apart kb kb' kb'' :
  In kb field_cells -> In kb' account_cells -> kb'' = INIT_FLAG_KEY -> kb <> kb' /\ kb <> kb'' /\ kb' <> kb''.
Proof.
  intros H1 H2 ->. pose proof all_cells_distinct as Hn. unfold all_cells in Hn.
  apply NoDup_app in Hn as (_ & Hd & Hn2). apply NoDup_app in Hn2 as (_ & Hd2 & _).
  split_and!; intros ->.
  - apply (Hd kb'); [by apply list_elem_of_In | apply elem_of_app; left; by apply list_elem_of_In].
  - apply (Hd INIT_FLAG_KEY); [by apply list_elem_of_In | apply elem_of_app; right; by left].
  - apply (Hd2 INIT_FLAG_KEY); [by apply list_elem_of_In | by left].
Qed.

Section runs.
Context {L G Mem Module : Type} `{LinkedHashMapLaws L, Rng G} `{MeterLaws} {dbg : DebugText} {qtext : QueryText}.
Context {mtext : MismatchText} {hasher : Hasher} {F : ForeignErrors} `{!Platform Mem Module} {W : WasmValues} {WL : WasmValuesLaws}.
Context {WR : WasmResults} {WRL : WasmResultsLaws} {heap : Heap Mem} `{!HeapView Mem} {HL : HeapLaws Mem Module}.
Context {alloc : Allocator} {layout : Layout} {E : Type} {u256 : U256Bytes} {U256L : U256BytesLaws}.
Context (reader : Key -> outcome E (option StoredValue)) (into_error : E -> ExecError).
Context (overflow_checks : bool).
Context (invoke_call : Module -> eff (Runtime L G Mem Module) InterpreterError unit).

#[local] Instance vesting_imports : Imports L G Mem Module := host_imports reader into_error overflow_checks invoke_call.
#[local] Abbreviation RT := (Runtime L G Mem Module).
Implicit Types rt : RT.

#[local] Abbreviation num_cell := (cell reader clt_u512).
#[local] Abbreviation account_cell := (cell reader clt_u256).

(** What the contract was set up with: the flag, the administrator and the
    recipient. *)
Record Setup := mk_setup { su_flag : option Z; su_admin : option Z; su_recipient : option Z }.

Definition setup_of rt : Setup :=
  mk_setup (cell reader clt_i32 rt INIT_FLAG_KEY) (account_cell rt (wire_vec ADMIN_KEY)) (account_cell rt (wire_vec RECIPIENT_KEY)).

(** The cells can be used [n] more times, at a time that can be represented. *)
Record vault_serves (setup : Setup) (n : nat) rt : Prop := {
  vs_fields : serving reader clt_u512 (is_unsigned 512) field_cells n rt;
  vs_accounts : serving reader clt_u256 (is_unsigned 256) account_cells n rt;
  vs_flag : serving reader clt_i32 (is_signed 32) [INIT_FLAG_KEY] n rt;
  vs_setup : setup_of rt = setup;
  vs_apart : forall kb kb', In kb all_cells -> In kb' all_cells -> local_key rt kb = local_key rt kb' -> kb = kb';
  vs_time : is_unsigned 64 (rc_blocktime (rt_context rt));
}.

#[local] Instance vault_view (setup : Setup) : VestingView RT := {|
  entry rt name := num_cell rt (wire_vec name);
  now rt := wrap_unsigned 64 (rc_blocktime (rt_context rt));
  num_max := 2 ^ 512 - 1;
  serves := vault_serves setup;
|}.

Lemma kept_time cost rt rt' : kept reader cost rt rt' -> rc_blocktime (rt_context rt') = rc_blocktime (rt_context rt).
Proof. by intros [(s & m & ->) _ _]. Qed.

Lemma vault_serves_idle setup n m cost rt rt' :
  vault_serves setup n rt -> idle reader cost rt rt' -> Z.of_nat m * 256 + cost <= Z.of_nat n * 256 ->
  vault_serves setup m rt' /\ same_entries (H := vault_view setup) rt rt'.
Proof.
  intros [Hf Ha Hi Hs Hd Ht] [Hk Hv] Hm.
  destruct (serving_same _ _ _ _ n m cost rt rt' Hf Hk) as [Hf' Ef]; [by intros | done |].
  destruct (serving_same _ _ _ _ n m cost rt rt' Ha Hk) as [Ha' Ea]; [by intros | done |].
  destruct (serving_same _ _ _ _ n m cost rt rt' Hi Hk) as [Hi' Ei]; [by intros | done |].
  split; [split; try done|split].
  - rewrite <- Hs. unfold setup_of. by rewrite Ei, !Ea by (cbn; tauto).
  - intros kb kb'. rewrite !(kept_local_key reader _ _ _ _ Hk). apply Hd.
  - by rewrite (kept_time _ _ _ Hk).
  - intros name Hin. cbn. by rewrite Ef by by apply in_map.
  - cbn. by rewrite (kept_time _ _ _ Hk).
Qed.

Lemma field_cell_in name : In name vesting_names -> In (wire_vec name) field_cells.
Proof. apply in_map. Qed.

Lemma read_field_run name v setup n rt :
  vault_serves setup (S n) rt -> In name vesting_names -> num_cell rt (wire_vec name) = Some v ->
  exists rt', read_named u512_codec name rt = (Ok v, rt') /\ vault_serves setup n rt'
    /\ same_entries (H := vault_view setup) rt rt'.
Proof.
  intros Hs Hin Hc.
  destruct (read_cell_run reader into_error overflow_checks invoke_call clt_u512 _ string_codec name (wire_vec name) _ n rt
    (vs_fields _ _ _ Hs) (field_cell_in name Hin)) as (rt' & Er & Kp & _ & Hv); [apply name_wire; cbn; tauto|].
  rewrite Hc in Er. exists rt'. split; [unfold read_named; by erewrite ebind_run; [|exact Er]|].
  apply (vault_serves_idle setup (S n) n 256 rt rt' Hs); [done|lia].
Qed.

Lemma write_field_run name v setup n rt :
  vault_serves setup (S n) rt -> In name vesting_names -> is_unsigned 512 v ->
  exists rt', write_named name v rt = (Ok tt, rt') /\ vault_serves setup n rt'
    /\ entry_set (H := vault_view setup) name v rt rt'.
Proof.
  intros Hs Hin Hv. pose proof (field_cell_in name Hin) as Hf.
  destruct (write_cell_run reader into_error overflow_checks invoke_call clt_u512 _ string_codec name (wire_vec name) v _ n rt
    (vs_fields _ _ _ Hs) Hf) as (rt' & Ew & Kp & Hc & Hcell & Hview); [apply name_wire; cbn; tauto | done |].
  exists rt'. split; [exact Ew|].
  assert (forall kb, In kb all_cells -> kb <> wire_vec name -> view reader rt' (local_key rt kb) = view reader rt (local_key rt kb)) as Hoth.
  { intros kb Hkb Hne. apply Hview. intros He. apply Hne. apply (vs_apart _ _ _ Hs); [done | | done]. apply in_or_app. by left. }
  destruct (serving_same _ _ _ _ (S n) n 256 rt rt' (vs_accounts _ _ _ Hs) Kp) as [Ha' Ea].
  { intros kb Hkb. apply Hoth; [apply in_or_app; right; apply in_or_app; by left|].
    intros ->. by destruct (groups_apart _ _ INIT_FLAG_KEY Hf Hkb eq_refl). }
  { lia. }
  destruct (serving_same _ _ _ _ (S n) n 256 rt rt' (vs_flag _ _ _ Hs) Kp) as [Hi' Ei].
  { intros kb [<-|[]]. apply Hoth; [apply in_or_app; right; apply in_or_app; right; by left|].
    intros He. destruct (groups_apart _ (wire_vec ADMIN_KEY) INIT_FLAG_KEY Hf) as (_ & Hne & _); [by left | done | congruence]. }
  { lia. }
  split; [split; try done|split].
  - rewrite <- (vs_setup _ _ _ Hs). unfold setup_of. by rewrite Ei, !Ea by (cbn; tauto).
  - intros kb kb'. rewrite !(kept_local_key reader _ _ _ _ Kp). apply Hs.
  - rewrite (kept_time _ _ _ Kp). apply Hs.
  - intros name' Hin'. cbn. rewrite Hcell by by apply field_cell_in. destruct (decide (name' = name)) as [->|Hne]; [by rewrite decide_True|].
    rewrite decide_False; [done|]. by intros ?%wire_vec_inj.
  - cbn. by rewrite (kept_time _ _ _ Kp).
Qed.

(** The contract's storage keeps the vault. *)
#[local] Instance vault_laws (setup : Setup) : VestingLaws (H0 := vault_view setup) RT InterpreterError.
Proof using All.
  split; cbn [serves now entry vault_view current_timestamp set_amount amount set_time time set_boolean boolean vesting_contract].
  - intros n rt [Hf Ha Hi Hs Hd Ht]. split; try done; by apply (serving_less _ _ _ _ (S n) n); [lia|].
  - intros rt. destruct (wrap_unsigned_range 64 (rc_blocktime (rt_context rt)) ltac:(lia)) as [H0' H1'].
    split; [done|]. cbn [num_max vault_view]. transitivity (2 ^ 64); lia.
  - done.
  - intros n rt Hs. destruct (get_blocktime_run reader into_error overflow_checks invoke_call rt (vs_time _ _ _ Hs)) as (m & Eb & Hm).
    { pose proof (sv_room _ _ _ _ _ _ (vs_fields _ _ _ Hs)). lia. }
    exists (set_memory m rt). rewrite wrap_unsigned_small by apply Hs. split; [exact Eb|].
    apply (vault_serves_idle setup (S n) n 256 rt _ Hs); [|lia]. apply (idle_memory reader); [apply (vs_fields _ _ _ Hs) | lia].
  - intros n name v rt Hs Hin Hc. by apply read_field_run.
  - intros n name v rt Hs Hin Hc. by apply read_field_run.
  - intros n name b rt Hs Hin Hc. destruct (read_field_run name (bit b) setup n rt Hs Hin Hc) as (rt' & Er & Hr).
    exists rt'. rewrite (ebind_run _ _ _ _ _ Er). by destruct b.
  - intros n name v rt Hs Hin Hv. apply write_field_run; [done.. | destruct Hv; unfold is_unsigned; cbn [num_max vault_view] in *; lia].
  - intros n name v rt Hs Hin Hv. apply write_field_run; [done.. | destruct Hv; unfold is_unsigned; cbn [num_max vault_view] in *; lia].
  - intros n name b rt Hs Hin. apply write_field_run; [done.. | unfold is_unsigned, bit; destruct b; lia].
  - intros a b rt Ha Hb. unfold computes, is_num, num_add, vesting_contract, uint_add, checked, elift in *. cbn in *.
    destruct (Z.leb_spec (a + b) (2 ^ 512 - 1)); [rewrite (proj2 (Z.ltb_lt _ _)) by lia; done|].
    rewrite (proj2 (Z.ltb_ge _ _)) by lia. done.
  - intros a b rt Ha Hb. unfold computes, num_sub, vesting_contract, uint_sub, checked, elift. cbn. by destruct (b <=? a).
  - intros a b rt Ha Hb. unfold computes, is_num, num_mul, vesting_contract, uint_mul, checked, elift in *. cbn in *.
    destruct (Z.leb_spec (a * b) (2 ^ 512 - 1)); [rewrite (proj2 (Z.ltb_lt _ _)) by lia; done|].
    rewrite (proj2 (Z.ltb_ge _ _)) by lia. done.
  - intros a b rt Ha Hb Hne. unfold num_div, vesting_contract, checked, elift. by rewrite (proj2 (Z.eqb_neq _ _) Hne).
Qed.

(** * Arguments *)

Definition config_args (c : VestingConfig) : list (outcome CLValueError CLValue) :=
  [from_t clt_u512 (cfg_cliff_time c); from_t clt_u512 (cfg_cliff_amount c); from_t clt_u512 (cfg_drip_period c);
   from_t clt_u512 (cfg_drip_amount c); from_t clt_u512 (cfg_total_amount c); from_t clt_u512 (cfg_admin_release_period c)].

(** The arguments of a command, as a caller packs them. *)
Definition api_args (api : Api) : list (outcome CLValueError CLValue) :=
  match api with
  | Deploy name admin recipient c =>
      [from_t clt_string DEPLOY; from_t clt_string name; from_t clt_public_key admin; from_t clt_public_key recipient]
      ++ config_args c
  | Init admin recipient c =>
      [from_t clt_string INIT; from_t clt_public_key admin; from_t clt_public_key recipient] ++ config_args c
  | Pause => [from_t clt_string PAUSE]
  | Unpause => [from_t clt_string UNPAUSE]
  | WithdrawProxy v => [from_t clt_string WITHDRAW_PROXY; from_t clt_u512 v]
  | Withdraw p v => [from_t clt_string WITHDRAW; from_t clt_purse_id p; from_t clt_u512 v]
  | AdminReleaseProxy => [from_t clt_string ADMIN_RELEASE_PROXY]
  | AdminRelease p => [from_t clt_string ADMIN_RELEASE; from_t clt_purse_id p]
  end.

Definition config_valid (c : VestingConfig) : Prop :=
  is_unsigned 512 (cfg_cliff_time c) /\ is_unsigned 512 (cfg_cliff_amount c) /\ is_unsigned 512 (cfg_drip_period c)
  /\ is_unsigned 512 (cfg_drip_amount c) /\ is_unsigned 512 (cfg_total_amount c)
  /\ is_unsigned 512 (cfg_admin_release_period c).

Definition api_valid (api : Api) : Prop :=
  match api with
  | Deploy name admin recipient c => short_name name /\ is_bytes 32 admin /\ is_bytes 32 recipient /\ config_valid c
  | Init admin recipient c => is_bytes 32 admin /\ is_bytes 32 recipient /\ config_valid c
  | Pause | Unpause | AdminReleaseProxy => True
  | WithdrawProxy v => is_unsigned 512 v
  | Withdraw p v => uref_valid p /\ is_unsigned 512 v
  | AdminRelease p => uref_valid p
  end.

Lemma vesting_get_arg_gives {A} (t : CLTyped A) valid `{CellType A t valid} i v a rt :
  rc_args (rt_context rt) !! Z.to_nat i = Some v -> from_t t a = Ok v -> valid a -> is_unsigned 32 i ->
  104 <= room (rt_memory rt) ->
  exists m, VestingContract.get_arg (clt_codec t) i rt = (Ok a, set_memory m rt) /\ room (rt_memory rt) - 104 <= room m.
Proof.
  intros Hi Hf Ha Hu Hr. destruct (typed_arg_run reader into_error overflow_checks invoke_call t valid i v a rt Hi Hf Ha Hu Hr)
    as (m & Eg & Hm). exists m. split; [|done]. unfold VestingContract.get_arg. by erewrite ebind_run; [|exact Eg].
Qed.

Lemma get_config_run c vs i rt :
  Forall2 (fun x y => x = Ok y) (config_args c) vs -> config_valid c -> 0 <= i <= 100 ->
  (forall k v, vs !! k = Some v -> rc_args (rt_context rt) !! Z.to_nat (i + Z.of_nat k) = Some v) ->
  624 <= room (rt_memory rt) ->
  exists m, get_vesting_config i rt = (Ok c, set_memory m rt) /\ room (rt_memory rt) - 624 <= room m.
Proof.
  intros Hc (H1' & H2' & H3' & H4' & H5' & H6') Hi Hat Hr. unfold config_args in Hc.
  repeat match goal with Hf : Forall2 _ (_ :: _) _ |- _ => apply Forall2_cons_inv_l in Hf as (? & ? & ? & Hf & ?); subst end.
  apply Forall2_nil_inv_l in Hc as ->.
  pose proof (Hat 0%nat _ eq_refl) as A0. pose proof (Hat 1%nat _ eq_refl) as A1. pose proof (Hat 2%nat _ eq_refl) as A2.
  pose proof (Hat 3%nat _ eq_refl) as A3. pose proof (Hat 4%nat _ eq_refl) as A4. pose proof (Hat 5%nat _ eq_refl) as A5.
  change (Z.of_nat 1) with 1 in *. change (Z.of_nat 2) with 2 in *. change (Z.of_nat 3) with 3 in *.
  change (Z.of_nat 4) with 4 in *. change (Z.of_nat 5) with 5 in *. rewrite Z.add_0_r in A0. clear Hat.
  destruct c as [c1 c2 c3 c4 c5 c6]. cbn [cfg_cliff_time cfg_cliff_amount cfg_drip_period cfg_drip_amount cfg_total_amount cfg_admin_release_period] in *.
  unfold get_vesting_config. do 6 take_arg @vesting_get_arg_gives. eexists. split; [reflexivity | cbn in *; lia].
Qed.

Lemma vesting_from_args_run api vs shift rt :
  try_collect id (api_args api) = Ok vs -> api_valid api -> shift = 0 \/ shift = 1 ->
  drop (Z.to_nat shift) (rc_args (rt_context rt)) = vs -> 1040 <= room (rt_memory rt) ->
  exists m, from_args_with_shift shift rt = (Ok api, set_memory m rt) /\ room (rt_memory rt) - 1040 <= room m.
Proof.
  intros Hc Hv Hs Hd Hr. apply try_collect_ok in Hc.
  assert (forall k v, vs !! k = Some v -> rc_args (rt_context rt) !! Z.to_nat (shift + Z.of_nat k) = Some v) as Hat.
  { intros k v. rewrite <- Hd, lookup_drop. intros <-. f_equal. lia. }
  assert (forall v, vs !! 0%nat = Some v -> rc_args (rt_context rt) !! Z.to_nat shift = Some v) as H0'
    by (intros v Hv0; rewrite <- (Hat 0%nat v Hv0); f_equal; lia).
  unfold from_args_with_shift. destruct api; cbn [api_args api_valid app] in *;
    repeat match goal with Hf : Forall2 _ (from_t _ _ :: _) _ |- _ =>
      apply Forall2_cons_inv_l in Hf as (? & ? & ? & Hf & ?); subst end;
    unfold id in *; pose proof (H0' _ eq_refl) as A0;
    try pose proof (Hat 1%nat _ eq_refl) as A1; try pose proof (Hat 2%nat _ eq_refl) as A2;
    try pose proof (Hat 3%nat _ eq_refl) as A3; change (Z.of_nat 1) with 1 in *; change (Z.of_nat 2) with 2 in *;
    change (Z.of_nat 3) with 3 in *; take_arg @vesting_get_arg_gives; pick_method; repeat take_arg @vesting_get_arg_gives.
  all: lazymatch goal with
    | Hf : Forall2 _ (config_args ?c) ?xs |- exists m, ebind (get_vesting_config ?i) _ ?rt1 = _ /\ _ =>
        destruct (get_config_run c xs i rt1 Hf) as (mc & Eg & Hmc);
          [ tauto | lia
          | intros k v Hk; lazymatch i with
              | _ + 4 => rewrite <- (Hat (4 + k)%nat v Hk)
              | _ + 3 => rewrite <- (Hat (3 + k)%nat v Hk)
              end; cbn; f_equal; lia
          | cbn in *; lia | rewrite (ebind_run _ _ _ _ _ Eg); clear Eg; cbn in Hmc ]
    | _ => idtac
    end; eexists; (split; [reflexivity | cbn in *; lia]).
Qed.

(** * Calls of the contract *)

(** The contract is called with a command. *)
Record invoked (setup : Setup) (n : nat) (api : Api) rt : Prop := {
  iv_serves : vault_serves setup n rt;
  iv_args : try_collect id (api_args api) = Ok (rc_args (rt_context rt));
  iv_valid : api_valid api;
  iv_caller : is_bytes 32 (get_caller (rt_context rt));
}.

Lemma serves_ready setup n rt : vault_serves setup n rt -> ready reader rt /\ Z.of_nat n * 256 <= room (rt_memory rt).
Proof. intros Hs. split; apply (vs_fields _ _ _ Hs). Qed.

Lemma vesting_invoked_idle setup n m api cost rt rt' :
  invoked setup n api rt -> idle reader cost rt rt' -> Z.of_nat m * 256 + cost <= Z.of_nat n * 256 -> invoked setup m api rt'.
Proof.
  intros [Hs Ha Hv Hc] Hi Hm. destruct (idle_context reader _ _ _ Hi) as [Ea Ec].
  destruct (vault_serves_idle setup n m cost rt rt' Hs Hi Hm) as [Hs' _].
  split; [done | by rewrite Ea | done | by rewrite Ec].
Qed.

Lemma vesting_is_not_initialized_run setup n rt :
  vault_serves setup (S n) rt ->
  exists rt', is_not_initialized rt = (Ok (match su_flag setup with None => true | Some _ => false end), rt')
    /\ idle reader 256 rt rt'.
Proof.
  intros Hs. destruct (read_cell_run reader into_error overflow_checks invoke_call clt_i32 _ (u8_array_codec 32)
    INIT_FLAG_KEY INIT_FLAG_KEY _ n rt (vs_flag _ _ _ Hs)) as (rt' & Er & Kp & _ & Hv); [by left | done |].
  rewrite <- (vs_setup _ _ _ Hs). exists rt'. split; [|done]. unfold is_not_initialized.
  erewrite ebind_run; [|exact Er]. cbn [su_flag setup_of]. by destruct (cell reader clt_i32 rt INIT_FLAG_KEY).
Qed.

(** What the contract does before it acts. *)
Lemma vesting_prologue setup n api rt :
  invoked setup (6 + n) api rt ->
  exists rt1 rt2, is_not_initialized rt = (Ok (match su_flag setup with None => true | Some _ => false end), rt1)
    /\ from_args rt1 = (Ok api, rt2) /\ idle reader 1536 rt rt2 /\ invoked setup n api rt2.
Proof.
  intros Hi. destruct (vesting_is_not_initialized_run setup (5 + n) rt (iv_serves _ _ _ _ Hi)) as (rt1 & E1 & D1).
  assert (invoked setup (5 + n) api rt1) as I1 by (eapply vesting_invoked_idle; [exact Hi | exact D1 | lia]).
  destruct (serves_ready _ _ _ (iv_serves _ _ _ _ I1)) as [Hrd Hroom].
  destruct (vesting_from_args_run api (rc_args (rt_context rt1)) 0 rt1 (iv_args _ _ _ _ I1) (iv_valid _ _ _ _ I1)) as (m & Ea & Hm);
    [by left | done | lia |].
  assert (idle reader 1280 rt1 (set_memory m rt1)) as D2 by (apply (idle_memory reader); [done | lia]).
  pose proof (idle_trans reader _ _ _ _ _ D1 D2) as D12. exists rt1, (set_memory m rt1). split_and!; [done..|].
  eapply vesting_invoked_idle; [exact Hi | exact D12 | lia].
Qed.

(** ** Who may call *)

(** The check of the caller against a stored account. *)
Lemma verify_run key (error : vesting_error.Error) a setup n api rt :
  In key [ADMIN_KEY; RECIPIENT_KEY] -> is_bytes 32 a -> account_cell rt (wire_vec key) = Some (u256_from_array a) ->
  invoked setup (2 + n) api rt ->
  exists rt', idle reader 512 rt rt' /\
    (let! x := account key in
     let! caller := runtime.get_caller in
     if bool_decide (x <> caller) then revert error else eret tt) rt
    = (if decide (a = get_caller (rt_context rt)) then Ok tt
       else Err (IE_Host (EE_Revert (api_error_to_u32 error))), rt').
Proof.
  intros Hkey Ha Hc Hi. assert (In (wire_vec key) account_cells) as Hin by (cbn in *; intuition subst; auto).
  destruct (read_cell_run reader into_error overflow_checks invoke_call clt_u256 _ string_codec key (wire_vec key) _ (1 + n) rt
    (vs_accounts _ _ _ (iv_serves _ _ _ _ Hi)) Hin) as (rt1 & Er & Kp & _ & Hv); [apply name_wire; cbn in *; tauto|].
  rewrite Hc in Er. assert (idle reader 256 rt rt1) as D1 by done.
  assert (invoked setup (1 + n) api rt1) as I1 by (eapply vesting_invoked_idle; [exact Hi | exact D1 | lia]).
  destruct (serves_ready _ _ _ (iv_serves _ _ _ _ I1)) as [Hrd Hroom].
  destruct (get_caller_run reader into_error overflow_checks invoke_call rt1 (iv_caller _ _ _ _ I1)) as (m & Ec & Hm); [lia|].
  assert (idle reader 256 rt1 (set_memory m rt1)) as D2 by (apply (idle_memory reader); [done | lia]).
  exists (set_memory m rt1). split; [exact (idle_trans reader _ _ _ _ _ D1 D2)|].
  destruct (idle_context reader _ _ _ D1) as [_ E1]. rewrite E1 in Ec.
  assert (account key rt = (Ok a, rt1)) as Ek.
  { unfold account, read_named. rewrite (ebind_run _ _ _ (u256_from_array a) rt1);
      [by rewrite u256_roundtrip | by erewrite ebind_run; [|exact Er]]. }
  rewrite (ebind_run _ _ _ _ _ Ek). erewrite ebind_run; [|exact Ec].
  destruct (decide (a = get_caller (rt_context rt))) as [Heq|Hne].
  - rewrite bool_decide_eq_false_2; [done | tauto].
  - rewrite bool_decide_eq_true_2 by done. apply revert_run. destruct error; cbn; unfold is_unsigned; lia.
Qed.

(** The call a command makes, and the account that may make it. *)
Definition call_of (api : Api) : option VestingCall :=
  match api with
  | Pause => Some Call_pause
  | Unpause => Some Call_unpause
  | Withdraw _ v => Some (Call_withdraw v)
  | AdminRelease _ => Some Call_admin_release
  | _ => None
  end.

Definition authorized (api : Api) (admin recipient : PublicKey) : PublicKey :=
  match api with Withdraw _ _ => recipient | _ => admin end.

Definition refusal (api : Api) : vesting_error.Error :=
  match api with Withdraw _ _ => vesting_error.NotTheRecipientAccount | _ => vesting_error.NotTheAdminAccount end.

(** An initialized contract, with its two accounts. *)
Definition set_up (f : Z) (admin recipient : PublicKey) : Setup :=
  mk_setup (Some f) (Some (u256_from_array admin)) (Some (u256_from_array recipient)).

(** The rest of a command once the caller is known to be the right one. *)
Definition act (api : Api) : eff RT InterpreterError unit :=
  match api with
  | Pause => pause_command
  | Unpause => unpause_command
  | Withdraw purse amount => withdraw_command purse amount
  | AdminRelease purse => admin_release_command purse
  | _ => eret tt
  end.

Lemma guarded_run f admin recipient api call n rt :
  is_bytes 32 admin -> is_bytes 32 recipient -> invoked (set_up f admin recipient) (8 + n) api rt ->
  call_of api = Some call ->
  exists rt', idle reader 2048 rt rt' /\
    vesting rt = if decide (authorized api admin recipient = get_caller (rt_context rt)) then act api rt'
                 else (Err (IE_Host (EE_Revert (api_error_to_u32 (refusal api)))), rt').
Proof.
  intros Ha Hr Hi Hc. destruct (vesting_prologue _ (2 + n) api rt Hi) as (rt1 & rt2 & E1 & E2 & D2 & I2).
  pose proof (vs_setup _ _ _ (iv_serves _ _ _ _ I2)) as Hset. unfold setup_of, set_up in Hset. injection Hset as _ Had Hre.
  destruct (idle_context reader _ _ _ D2) as [_ Ec].
  destruct (verify_run ADMIN_KEY vesting_error.NotTheAdminAccount admin (set_up f admin recipient) n api rt2) as (rta & Da & Va);
    [by left | done | done | done |].
  destruct (verify_run RECIPIENT_KEY vesting_error.NotTheRecipientAccount recipient (set_up f admin recipient) n api rt2) as (rtr & Dr & Vr);
    [by right; left | done | done | done |].
  rewrite Ec in Va, Vr. unfold vesting. rewrite (ebind_run _ _ _ _ _ E1). cbn [su_flag set_up]. unfold entry_point.
  rewrite (ebind_run _ _ _ _ _ E2).
  unfold verify_admin_account, admin_account, verify_recipient_account, recipient_account.
  pose proof (idle_trans reader _ _ _ _ _ D2 Da). pose proof (idle_trans reader _ _ _ _ _ D2 Dr).
  destruct api; try discriminate Hc; cbn [authorized refusal act];
    [exists rta | exists rta | exists rtr | exists rta]; (split; [done|]); unfold ebind at 1;
    [rewrite Va | rewrite Va | rewrite Vr | rewrite Va]; repeat case_decide; done.
Qed.

Section initialized.
Context (f : Z) (admin recipient : PublicKey) (admin_key : is_bytes 32 admin) (recipient_key : is_bytes 32 recipient).
#[local] Instance init_view : VestingView RT := vault_view (set_up f admin recipient).
#[local] Instance init_laws : VestingLaws RT InterpreterError := vault_laws (set_up f admin recipient).

Lemma idle_holds n cost rt rt' v :
  vault_serves (set_up f admin recipient) n rt -> idle reader cost rt rt' -> cost <= Z.of_nat n * 256 ->
  (holds rt v <-> holds rt' v) /\ now rt' = now rt.
Proof.
  intros Hs Hi Hc. destruct (vault_serves_idle _ n 0 cost rt rt' Hs Hi) as [_ He]; [lia|].
  split; [|apply He]. split; [by apply holds_same|]. apply holds_same.
  split; [intros name Hin; symmetry; by apply He | symmetry; apply He].
Qed.

(** Only the two accounts act. A command to pause, to resume or to take back
    the rest reverts with [NotTheAdminAccount] (65544) unless the caller is the
    stored administrator, and one to withdraw reverts with
    [NotTheRecipientAccount] (65545) unless the caller is the stored recipient;
    nothing in the contract's storage changes then. *)
Theorem vesting_contract_guarded api call n rt :
  invoked (set_up f admin recipient) (8 + n) api rt -> call_of api = Some call ->
  get_caller (rt_context rt) <> match api with Withdraw _ _ => recipient | _ => admin end ->
  exists rt', vesting rt = (Err (IE_Host (EE_Revert (match api with Withdraw _ _ => 65545 | _ => 65544 end))), rt')
    /\ vault_serves (set_up f admin recipient) n rt' /\ forall k, view reader rt' k = view reader rt k.
Proof using All.
  intros Hi Hc Hne. destruct (guarded_run f admin recipient api call n rt admin_key recipient_key Hi Hc) as (rt' & D & E').
  exists rt'. split.
  - rewrite E', decide_False by (by destruct api; cbn; congruence). by destruct api.
  - split; [|apply D]. by destruct (vault_serves_idle _ (8 + n) n 2048 rt rt' (iv_serves _ _ _ _ Hi) D); [lia|].
Qed.

(** The user error a failed call reverts with. *)
Definition failure_code (e : VestingError) : vesting_error.Error :=
  match e with
  | NotEnoughBalance => vesting_error.NotEnoughBalance
  | AdminReleaseErrorNotPaused => vesting_error.NotPaused
  | AdminReleaseErrorNothingToWithdraw => vesting_error.NothingToWithdraw
  | AdminReleaseErrorNotEnoughTimeElapsed => vesting_error.NotEnoughTimeElapsed
  | AlreadyPaused => vesting_error.AlreadyPaused
  | AlreadyUnpaused => vesting_error.AlreadyUnpaused
  end.

(** The payment a released amount is followed by. *)
Definition payout (api : Api) (amount : Z) : eff RT InterpreterError unit :=
  match api with
  | Withdraw purse _ | AdminRelease purse => transfer_out_clx_to_purse purse amount
  | _ => eret tt
  end.

Lemma vesting_revert_user {A} (e : vesting_error.Error) rt :
  revert (A := A) e rt = (Err (IE_Host (EE_Revert (api_error_to_u32 e))), rt).
Proof. apply revert_run. destruct e; cbn; unfold is_unsigned; lia. Qed.

(** The errors of a call. *)
Definition own_error (call : VestingCall) (e : VestingError) : Prop :=
  match call, e with
  | Call_pause, AlreadyPaused | Call_unpause, AlreadyUnpaused | Call_withdraw _, NotEnoughBalance
  | Call_admin_release, AdminReleaseErrorNotPaused
  | Call_admin_release, AdminReleaseErrorNothingToWithdraw
  | Call_admin_release, AdminReleaseErrorNotEnoughTimeElapsed => True
  | _, _ => False
  end.

Lemma spec_error_own call t v e : spec_call call t v = inr e -> own_error call e.
Proof. destruct call; cbn; repeat case_match; intros [=]; by subst. Qed.

(** The commands end as the calls of the vault do. *)
Lemma act_run api call rt r rt' :
  call_of api = Some call -> run_call call rt = (Ok r, rt') ->
  match r with inl _ => True | inr e => own_error call e end ->
  act api rt = match r with
               | inl a => payout api a rt'
               | inr e => (Err (IE_Host (EE_Revert (api_error_to_u32 (failure_code e)))), rt')
               end.
Proof.
  intros Hc Hr Ho. destruct api; try discriminate Hc; injection Hc as <-; cbn [run_call act payout] in *;
    unfold pause_command, unpause_command, withdraw_command, admin_release_command.
  1-3: apply ebind_ok in Hr as (x & s1 & Hx & [= <- <-]); rewrite (ebind_run _ _ _ _ _ Hx);
    destruct x as [u|[]]; (done || apply vesting_revert_user).
  rewrite (ebind_run _ _ _ _ _ Hr). destruct r as [a|[]]; (done || apply vesting_revert_user).
Qed.

(** A command does not get past a call that does not return. *)
Lemma act_stops api call rt : call_of api = Some call -> stops (run_call call) rt -> stops (act api) rt.
Proof.
  intros Hc Hs u rt' Hu. destruct api; try discriminate Hc; injection Hc as <-; cbn [run_call act] in *;
    unfold pause_command, unpause_command, withdraw_command, admin_release_command in Hu;
    apply ebind_ok in Hu as (x & s1 & Hx & _); [..|by destruct (Hs x s1)];
    (eapply Hs; by rewrite (ebind_run _ _ _ _ _ Hx)).
Qed.

Lemma call_amount api call :
  call_of api = Some call -> api_valid api -> match call with Call_withdraw a => is_num a | _ => True end.
Proof.
  destruct api; intros [= <-] Hv; try exact I. destruct Hv as [_ Hv]. unfold is_num, is_unsigned in *.
  cbn [num_max vault_view init_view]. lia.
Qed.

(** C25: the contract is the vault, except where it aborts. The initialized
    contract is called by the account that may call it, in a block that is not
    earlier than the pauses its storage records. It does then to the terms, releases
    and pauses in its storage what the vault promises at the time of the block; a
    released amount is then paid out of the contract's purse, and a failure reverts
    with its user error and leaves the vault. The exception is [aborts]: a withdrawal
    does not return when a sum on its way exceeds 512 bits or when more is released than
    has vested, as after the administrator took back the rest, and neither does a
    release by the administrator when more is released than the total. *)
Theorem vesting_contract_refines api call v n rt :
  invoked (set_up f admin recipient) (21 + n) api rt -> call_of api = Some call ->
  get_caller (rt_context rt) = match api with Withdraw _ _ => recipient | _ => admin end ->
  holds rt v -> vault_ok v -> timely v (now rt) ->
  if aborts call (now rt) v then forall u rt', vesting rt <> (Ok u, rt')
  else exists rt', vault_serves (set_up f admin recipient) n rt' /\
    match spec_call call (now rt) v with
    | inl (a, v') => vesting rt = payout api a rt' /\ holds rt' v'
    | inr e => vesting rt = (Err (IE_Host (EE_Revert (api_error_to_u32 (failure_code e)))), rt') /\ holds rt' v
    end.
Proof using All.
  intros Hi Hc Hcaller Hh Hv Ht.
  destruct (guarded_run f admin recipient api call (13 + n) rt admin_key recipient_key Hi Hc) as (rt1 & D & E').
  rewrite decide_True in E' by (by destruct api; cbn; congruence).
  destruct (idle_holds (21 + n) 2048 rt rt1 v (iv_serves _ _ _ _ Hi) D) as [Hhh Hnow]; [lia|].
  destruct (vault_serves_idle _ (21 + n) (13 + n) 2048 rt rt1 (iv_serves _ _ _ _ Hi) D) as [Hs1 _]; [lia|].
  pose proof (vesting_settles call n rt1 v Hs1 (proj1 Hhh Hh) Hv) as Hg. rewrite Hnow in Hg.
  specialize (Hg Ht (call_amount api call Hc (iv_valid _ _ _ _ Hi))). rewrite E'. destruct (aborts call (now rt) v).
  { exact (act_stops api call rt1 Hc Hg). }
  destruct (spec_call call (now rt) v) as [[a v']|e] eqn:Es; destruct Hg as (rt' & Hr & Hs' & Hh' & _);
    exists rt'; (split; [done|]); (split; [|done]).
  - exact (act_run api call rt1 (inl a) rt' Hc Hr I).
  - exact (act_run api call rt1 (inr e) rt' Hc Hr (spec_error_own _ _ _ _ Es)).
Qed.
End initialized.
End runs.
