(* ===== verification/Contracts.v ===== *)
(** The contracts that clients deploy, the examples and the installers of the
    system contracts, over the interface of contracts.  Sources:
    [contracts/client/], [contracts/explorer/faucet], [contracts/examples/] and
    [contracts/system/] (the installers), the [src/lib.rs] of each. *)

From stdpp Require Import gmap.
From S2P Require Import Prelude BTreeMap Bytesrepr Uint Types CLValues Account StoredValue Transform.
From S2P Require Import Trie TrackingCopy Mint Stakes ProofOfStake ApiError ProtocolData ExecutionError RuntimeContext.
From S2P Require Import ExtractURefs Runtime HostFunctions PosContract EngineState ContractApi.

Section shared.
Context {L G Mem Module : Type} {F : ForeignErrors} `{!Platform Mem Module} {W : WasmValues} {WR : WasmResults}.
Context {heap : Heap Mem} {imports : Imports L G Mem Module} {alloc : Allocator}.

#[local] Abbreviation T A := (eff (Runtime L G Mem Module) InterpreterError A).

(** [runtime::get_arg(i)] with [MissingArgument] and [InvalidArgument]. *)
Definition arg {A} (c : Codec A) (i : Z) : T A :=
  let! o := runtime.get_arg c i in
  let! r := option_or_revert_with Api_MissingArgument o in
  unwrap_or_revert_with Api_InvalidArgument r.
End shared.

(** * Clients *)

Module client.
Section client.
Context {L G Mem Module : Type} {F : ForeignErrors} `{!Platform Mem Module} {W : WasmValues} {WR : WasmResults}.
Context {heap : Heap Mem} {imports : Imports L G Mem Module} {alloc : Allocator}.

#[local] Abbreviation T A := (eff (Runtime L G Mem Module) InterpreterError A).

(** [contracts/client/revert]. *)
Definition call_revert : T unit := revert (Api_User 100).

(** [contracts/client/transfer-to-account]; the amount is a [u64]. *)
Definition call_transfer_to_account : T unit :=
  let! public_key := arg public_key_codec 0 in
  let! transfer_amount := arg u64_codec 1 in
  let! r := system.transfer_to_account public_key transfer_amount in
  let! _ := unwrap_or_revert id r in
  eret tt.

(** [contracts/client/bonding]. *)
Definition BOND_METHOD_NAME : bytes := str "bond".

Definition call_bonding : T unit :=
  let! pos_pointer := system.get_proof_of_stake in
  let! source_purse := account.get_main_purse in
  let! bonding_purse := system.create_purse in
  let! bond_amount := arg u64_codec 0 in
  let! r := system.transfer_from_purse_to_purse source_purse bonding_purse bond_amount in
  let! _ := unwrap_or_revert id r in
  runtime.call_contract pos_pointer
    [from_t clt_string BOND_METHOD_NAME; from_t clt_u512 bond_amount; from_t clt_purse_id bonding_purse] unit_codec.

(** [contracts/client/unbonding]. *)
Definition UNBOND_METHOD_NAME : bytes := str "unbond".

Definition call_unbonding : T unit :=
  let! pos_pointer := system.get_proof_of_stake in
  let! unbond_amount := arg (option_codec u64_codec) 0 in
  runtime.call_contract pos_pointer
    [from_t clt_string UNBOND_METHOD_NAME; from_t (clt_option clt_u512) unbond_amount] unit_codec.

(** [contracts/examples/bonding-call]. *)
Definition call_bonding_example : T unit :=
  let! pos_pointer := system.get_proof_of_stake in
  let! source_purse := account.get_main_purse in
  let! bonding_purse := system.create_purse in
  let! bond_amount := arg u512_codec 0 in
  let! r := system.transfer_from_purse_to_purse source_purse bonding_purse bond_amount in
  let! _ := unwrap_or_revert id r in
  runtime.call_contract pos_pointer
    [from_t clt_string BOND_METHOD_NAME; from_t clt_u512 bond_amount; from_t clt_purse_id bonding_purse] unit_codec.

(** [contracts/examples/unbonding-call]. *)
Definition call_unbonding_example : T unit :=
  let! pos_pointer := system.get_proof_of_stake in
  let! unbond_amount := arg (option_codec u512_codec) 0 in
  runtime.call_contract pos_pointer
    [from_t clt_string UNBOND_METHOD_NAME; from_t (clt_option clt_u512) unbond_amount] unit_codec.

(** [contracts/client/standard-payment]. *)
Definition GET_PAYMENT_PURSE : bytes := str "get_payment_purse".
Definition SET_REFUND_PURSE : bytes := str "set_refund_purse".

Definition standard_payment_delegate : T unit :=
  let! amount := arg u512_codec 0 in
  let! main_purse := account.get_main_purse in
  let! pos_pointer := system.get_proof_of_stake in
  let! payment_purse := runtime.call_contract pos_pointer [from_t clt_string GET_PAYMENT_PURSE] purse_id_codec in
  let! r := system.transfer_from_purse_to_purse main_purse payment_purse amount in
  unwrap_or_revert id r.

(** [contracts/client/standard-payment-stored]. *)
Definition DESTINATION_HASH : bytes := str "hash".
Definition DESTINATION_UREF : bytes := str "uref".
Definition PAY_FUNCTION_NAME : bytes := str "pay".
Definition STANDARD_PAYMENT_CONTRACT_NAME : bytes := str "standard_payment".
Definition UnknownDestination : ApiError := Api_User 1.

Definition store_at_hash : T Key :=
  let! pointer := storage.store_function_at_hash PAY_FUNCTION_NAME bt_empty in
  eret (key_from_contract_ref pointer).

Definition store_at_uref : T Key :=
  let! pointer := storage.store_function PAY_FUNCTION_NAME bt_empty in
  let! uref := option_or_revert_with Api_UnexpectedContractRefVariant (contract_ref_into_uref pointer) in
  eret (Key_URef uref).

Definition call_standard_payment_stored : T unit :=
  let! destination := arg string_codec 0 in
  let! key :=
    if bool_decide (destination = DESTINATION_HASH) then store_at_hash
    else if bool_decide (destination = DESTINATION_UREF) then store_at_uref
    else revert UnknownDestination in
  runtime.put_key STANDARD_PAYMENT_CONTRACT_NAME key.

(** [contracts/client/named-purse-payment]. *)
Definition call_named_purse_payment : T unit :=
  let! purse_name := arg string_codec 0 in
  let! found := runtime.get_key purse_name in
  let! purse_key := option_or_revert_with Api_InvalidPurseName found in
  let! purse := option_or_revert_with Api_InvalidPurse (as_uref purse_key) in
  let! amount := arg u512_codec 1 in
  let! pos_pointer := system.get_proof_of_stake in
  let! payment_purse := runtime.call_contract pos_pointer [from_t clt_string GET_PAYMENT_PURSE] purse_id_codec in
  let! _ := runtime.call_contract pos_pointer [from_t clt_string SET_REFUND_PURSE; from_t clt_purse_id purse] unit_codec in
  let! r := system.transfer_from_purse_to_purse purse payment_purse amount in
  unwrap_or_revert id r.

(** [contracts/explorer/faucet]: a read that fails counts as no value. *)
Definition call_faucet : T unit :=
  let! public_key := arg public_key_codec 0 in
  let! amount := arg u512_codec 1 in
  let! found := storage.read_local public_key_codec u512_codec public_key in
  match match found with inl o => o | inr _ => None end with
  | Some _ => revert (Api_User 1)
  | None =>
      let! r := system.transfer_to_account public_key amount in
      let! _ := unwrap_or_revert id r in
      storage.write_local public_key_codec clt_u512 public_key amount
  end.
End client.
End client.

(** * Examples *)

Module examples.
Definition UnknownMethodName : ApiError := Api_User 0.

(** [Vec<String>]. *)
Definition clt_vec_string {alloc : Allocator} : CLTyped (list bytes) := mk_cl_typed (CL_List CL_String) vec_string_codec.

Section examples.
Context {L G Mem Module : Type} {F : ForeignErrors} `{!Platform Mem Module} {W : WasmValues} {WR : WasmResults}.
Context {heap : Heap Mem} {imports : Imports L G Mem Module} {alloc : Allocator}.

#[local] Abbreviation T A := (eff (Runtime L G Mem Module) InterpreterError A).

(** [contracts/examples/counter-define]. *)
Definition COUNT_KEY : bytes := str "count".
Definition COUNTER_EXT : bytes := str "counter_ext".
Definition COUNTER_INCREMENT : bytes := str "counter_increment".
Definition COUNTER_KEY : bytes := str "counter".
Definition COUNTER_INC_KEY : bytes := str "counter_inc".
Definition GET_METHOD : bytes := str "get".
Definition INC_METHOD : bytes := str "inc".

Definition counter_ext : T unit :=
  let! found := runtime.get_key COUNT_KEY in
  let! key := option_or_revert found in
  let! t := unwrap_or_revert turef.api_from_turef (turef.try_from_key key) in
  let! method_name := arg string_codec 0 in
  if bool_decide (method_name = INC_METHOD) then storage.add clt_i32 t 1
  else if bool_decide (method_name = GET_METHOD) then
    let! r := storage.read i32_codec t in
    let! o := unwrap_or_revert_with Api_Read r in
    let! result := option_or_revert_with Api_ValueNotFound o in
    let! value := cl_value_of clt_i32 result in
    runtime.ret value
  else revert UnknownMethodName.

(** The contract a name stands for. *)
Definition named_contract (name : bytes) : T ContractRef :=
  let! found := runtime.get_key name in
  let! key := option_or_revert_with Api_GetKey found in
  option_or_revert_with Api_UnexpectedKeyVariant (to_contract_ref key).

Definition counter_increment : T unit :=
  let! contract_ref := named_contract COUNTER_KEY in
  runtime.call_contract contract_ref [from_t clt_string INC_METHOD] unit_codec.

Definition call_counter_define : T unit :=
  let! counter_local_key := storage.new_turef clt_i32 0 in
  let counter_urefs := bt_insert COUNT_KEY (turef.into_key counter_local_key) bt_empty in
  let! pointer := storage.store_function_at_hash COUNTER_EXT counter_urefs in
  let! _ := runtime.put_key COUNTER_KEY (key_from_contract_ref pointer) in
  let! inc_pointer := storage.store_function_at_hash COUNTER_INCREMENT bt_empty in
  runtime.put_key COUNTER_INC_KEY (key_from_contract_ref inc_pointer).

(** [contracts/examples/counter-call]. *)
Definition call_counter_call : T unit :=
  let! contract_ref := named_contract COUNTER_KEY in
  let! _ := runtime.call_contract contract_ref [from_t clt_string INC_METHOD] unit_codec in
  let! _ := runtime.call_contract contract_ref [from_t clt_string GET_METHOD] i32_codec in
  eret tt.

(** [contracts/examples/hello-name-define] and [hello-name-call]. *)
Definition HELLO_NAME_EXT : bytes := str "hello_name_ext".
Definition HELLO_NAME_KEY : bytes := str "hello_name".
Definition HELLOWORLD_KEY : bytes := str "helloworld".

Definition hello_name (name : bytes) : bytes := str "Hello, " ++ name.

Definition hello_name_ext : T unit :=
  let! name := arg string_codec 0 in
  let! value := cl_value_of clt_string (hello_name name) in
  runtime.ret value.

Definition call_hello_name_define : T unit :=
  let! pointer := storage.store_function_at_hash HELLO_NAME_EXT bt_empty in
  runtime.put_key HELLO_NAME_KEY (key_from_contract_ref pointer).

Definition call_hello_name_call : T unit :=
  let! contract_ref := named_contract HELLO_NAME_KEY in
  let! result := runtime.call_contract contract_ref [from_t clt_string (str "World")] string_codec in
  if bool_decide (str "Hello, World" = result) then
    let! t := storage.new_turef clt_string result in
    runtime.put_key HELLOWORLD_KEY (turef.into_key t)
  else abort.

(** [contracts/examples/mailing-list-define]. *)
Definition LIST_KEY : bytes := str "list".
Definition MAILING_KEY : bytes := str "mailing".
Definition MAILING_LIST_EXT : bytes := str "mailing_list_ext".

Definition get_list_key (name : bytes) : T turef.TURef :=
  let! found := runtime.get_key name in
  let! key := option_or_revert_with Api_GetKey found in
  unwrap_or_revert turef.api_from_turef (turef.try_from_key key).

(** [storage::read(key)] with [Read] and [ValueNotFound]. *)
Definition read_list (t : turef.TURef) : T (list bytes) :=
  let! r := storage.read vec_string_codec t in
  let! o := unwrap_or_revert_with Api_Read r in
  option_or_revert_with Api_ValueNotFound o.

Definition update_list (name : bytes) : T unit :=
  let! list_key := get_list_key LIST_KEY in
  let! list := read_list list_key in
  storage.write clt_vec_string list_key (list ++ [name]).

Definition sub (name : bytes) : T (option turef.TURef) :=
  let! known := runtime.has_key name in
  if known : bool then
    let! t := storage.new_turef clt_vec_string [str "Hello again!"] in
    eret (Some t)
  else
    let! new_key := storage.new_turef clt_vec_string [str "Welcome!"] in
    let! _ := runtime.put_key name (turef.into_key new_key) in
    let! _ := update_list name in
    eret (Some new_key).

(** The loop of [publish]. *)
Fixpoint publish_to (msg : bytes) (names : list bytes) : T unit :=
  match names with
  | [] => eret tt
  | name :: names' =>
      let! uref := get_list_key name in
      let! messages := read_list uref in
      let! _ := storage.write clt_vec_string uref (messages ++ [msg]) in
      publish_to msg names'
  end.

Definition publish (msg : bytes) : T unit :=
  let! list_key := get_list_key LIST_KEY in
  let! curr_list := read_list list_key in
  publish_to msg curr_list.

Definition mailing_list_ext : T unit :=
  let! method_name := arg string_codec 0 in
  let! arg1 := arg string_codec 1 in
  if bool_decide (method_name = str "sub") then
    let! r := sub arg1 in
    let! value := cl_value_of (clt_option clt_key) (turef.into_key <$> r) in
    runtime.ret value
  else if bool_decide (method_name = str "pub") then publish arg1
  else revert UnknownMethodName.

Definition call_mailing_list_define : T unit :=
  let! list_key := storage.new_turef clt_vec_string [] in
  let mailing_list_urefs := bt_insert LIST_KEY (turef.into_key list_key) bt_empty in
  let! pointer := storage.store_function_at_hash MAILING_LIST_EXT mailing_list_urefs in
  runtime.put_key MAILING_KEY (key_from_contract_ref pointer).

(** [contracts/examples/mailing-list-call]. *)
Definition MAIL_FEED_KEY : bytes := str "mail_feed".
Definition PUB_METHOD : bytes := str "pub".
Definition SUB_METHOD : bytes := str "sub".

Inductive FeedError := GetKeyNameURef | BadSubKey | GetMessagesURef | FindMessagesURef | NoMessages | NoSubKey.

Definition feed_error (e : FeedError) : ApiError :=
  Api_User match e with
           | GetKeyNameURef => 0 | BadSubKey => 1 | GetMessagesURef => 2
           | FindMessagesURef => 3 | NoMessages => 4 | NoSubKey => 5
           end.

Definition call_mailing_list_call : T unit :=
  let! contract_ref := named_contract MAILING_KEY in
  let! subscribed := runtime.call_contract contract_ref
    [from_t clt_string SUB_METHOD; from_t clt_string (str "CasperLabs")] (option_codec key_codec) in
  let! sub_key := option_or_revert_with (feed_error NoSubKey) subscribed in
  let! _ := runtime.put_key MAIL_FEED_KEY sub_key in
  let! found := runtime.get_key MAIL_FEED_KEY in
  let! key_name_uref := option_or_revert_with (feed_error GetKeyNameURef) found in
  if bool_decide (sub_key <> key_name_uref) then revert (feed_error BadSubKey)
  else
    let! _ := runtime.call_contract contract_ref
      [from_t clt_string PUB_METHOD; from_t clt_string (str "Hello, World!")] unit_codec in
    let! list_key := unwrap_or_revert turef.api_from_turef (turef.try_from_key sub_key) in
    let! r := storage.read vec_string_codec list_key in
    let! o := unwrap_or_revert_with (feed_error GetMessagesURef) r in
    let! messages := option_or_revert_with (feed_error FindMessagesURef) o in
    match messages with
    | [] => revert (feed_error NoMessages)
    | _ => eret tt
    end.
End examples.
End examples.

(** * [contracts/examples/keys-manager] *)

Module keys_manager.
Module error.
Inductive Error :=
| UnknownApiCommand
| PermissionDenied
| ThresholdViolation
| MaxKeysLimit
| DuplicateKey
| KeyManagementThresholdError
| DeploymentThresholdError
| InsufficientTotalWeight
| MissingArgument0
| MissingArgument1
| MissingArgument2
| InvalidArgument0
| InvalidArgument1
| InvalidArgument2
| UnsupportedNumberOfArguments.

Definition discriminant (e : Error) : Z :=
  match e with
  | UnknownApiCommand => 1 | PermissionDenied => 2 | ThresholdViolation => 3 | MaxKeysLimit => 4 | DuplicateKey => 5
  | KeyManagementThresholdError => 6 | DeploymentThresholdError => 7 | InsufficientTotalWeight => 8
  | MissingArgument0 => 20 | MissingArgument1 => 21 | MissingArgument2 => 22 | InvalidArgument0 => 23
  | InvalidArgument1 => 24 | InvalidArgument2 => 25 | UnsupportedNumberOfArguments => 30
  end.

Definition missing_argument (i : Z) : Error :=
  match i with
  | 0 => MissingArgument0 | 1 => MissingArgument1 | 2 => MissingArgument2 | _ => UnsupportedNumberOfArguments
  end.

Definition invalid_argument (i : Z) : Error :=
  match i with
  | 0 => InvalidArgument0 | 1 => InvalidArgument1 | 2 => InvalidArgument2 | _ => UnsupportedNumberOfArguments
  end.

Definition into_api_error (e : Error) : ApiError := Api_User (discriminant e).
End error.

Definition SET_KEY_WEIGHT : bytes := str "set_key_weight".
Definition SET_DEPLOYMENT_THRESHOLD : bytes := str "set_deployment_threshold".
Definition SET_KEY_MANAGEMENT_THRESHOLD : bytes := str "set_key_management_threshold".

Inductive Api :=
| SetKeyWeight (key : PublicKey) (weight : Weight)
| SetDeploymentThreshold (threshold : Weight)
| SetKeyManagementThreshold (threshold : Weight).

Section keys_manager.
Context {L G Mem Module : Type} {F : ForeignErrors} `{!Platform Mem Module} {W : WasmValues} {WR : WasmResults}.
Context {heap : Heap Mem} {imports : Imports L G Mem Module} {alloc : Allocator}.

#[local] Abbreviation T A := (eff (Runtime L G Mem Module) InterpreterError A).

Definition get_arg {A} (c : Codec A) (i : Z) : T A :=
  let! o := runtime.get_arg c i in
  let! r := option_or_revert_with (error.into_api_error (error.missing_argument i)) o in
  unwrap_or_revert_with (error.into_api_error (error.invalid_argument i)) r.

Definition from_args : T Api :=
  let! method_name := get_arg string_codec 0 in
  if bool_decide (method_name = SET_KEY_WEIGHT) then
    let! key := get_arg public_key_codec 1 in
    let! weight := get_arg u8_codec 2 in
    eret (SetKeyWeight key weight)
  else if bool_decide (method_name = SET_DEPLOYMENT_THRESHOLD) then
    let! threshold := get_arg u8_codec 1 in
    eret (SetDeploymentThreshold threshold)
  else if bool_decide (method_name = SET_KEY_MANAGEMENT_THRESHOLD) then
    let! threshold := get_arg u8_codec 1 in
    eret (SetKeyManagementThreshold threshold)
  else revert (error.into_api_error error.UnknownApiCommand).

Definition add_key (key : PublicKey) (weight : Weight) : T (unit + error.Error) :=
  let! r := account.add_associated_key key weight in
  eret match r with
       | inl _ => inl tt
       | inr MaxKeysLimit => inr error.MaxKeysLimit
       | inr DuplicateKey => inr error.DuplicateKey
       | inr AddKey_PermissionDenied => inr error.PermissionDenied
       end.

Definition add_or_update_key (key : PublicKey) (weight : Weight) : T (unit + error.Error) :=
  let! r := account.update_associated_key key weight in
  match r with
  | inl _ => eret (inl tt)
  | inr UpdateKey_MissingKey => add_key key weight
  | inr UpdateKey_PermissionDenied => eret (inr error.PermissionDenied)
  | inr UpdateKey_ThresholdViolation => eret (inr error.ThresholdViolation)
  end.

Definition remove_key_if_exists (key : PublicKey) : T (unit + error.Error) :=
  let! r := account.remove_associated_key key in
  eret match r with
       | inl _ | inr RemoveKey_MissingKey => inl tt
       | inr RemoveKey_PermissionDenied => inr error.PermissionDenied
       | inr RemoveKey_ThresholdViolation => inr error.ThresholdViolation
       end.

Definition set_threshold (permission_level : ActionType) (threshold : Weight) : T (unit + error.Error) :=
  let! r := account.set_action_threshold permission_level threshold in
  eret match r with
       | inl _ => inl tt
       | inr KeyManagementThresholdError => inr error.KeyManagementThresholdError
       | inr DeploymentThresholdError => inr error.DeploymentThresholdError
       | inr SetThreshold_PermissionDeniedError => inr error.PermissionDenied
       | inr InsufficientTotalWeight => inr error.InsufficientTotalWeight
       end.

Definition execute : T unit :=
  let! api := from_args in
  let! result :=
    match api with
    | SetKeyWeight key weight => if weight =? 0 then remove_key_if_exists key else add_or_update_key key weight
    | SetDeploymentThreshold threshold => set_threshold Deployment threshold
    | SetKeyManagementThreshold threshold => set_threshold KeyManagement threshold
    end in
  unwrap_or_revert error.into_api_error result.
End keys_manager.
End keys_manager.

(** * Installers *)

Module install.
Section install.
Context {L G Mem Module : Type} {F : ForeignErrors} `{!Platform Mem Module} {W : WasmValues} {WR : WasmResults}.
Context {heap : Heap Mem} {imports : Imports L G Mem Module} {alloc : Allocator} {text : StakeText}.

#[local] Abbreviation T A := (eff (Runtime L G Mem Module) InterpreterError A).

(** [storage::store_function(..).into_uref()] with its error, returned. *)
Definition store_and_return (name : bytes) (named_keys : BTreeMap bytes Key) : T unit :=
  let! pointer := storage.store_function name named_keys in
  let! uref := option_or_revert_with Api_UnexpectedContractRefVariant (contract_ref_into_uref pointer) in
  let! return_value := cl_value_of clt_uref uref in
  runtime.ret return_value.

(** [contracts/system/mint-install]. *)
Definition MINT_FUNCTION_NAME : bytes := str "mint_ext".

Definition call_mint_install : T unit := store_and_return MINT_FUNCTION_NAME bt_empty.

(** [contracts/system/pos-install]. *)
Definition PLACEHOLDER_KEY : Key := Key_Hash (replicate 32 x00).
Definition POS_FUNCTION_NAME : bytes := str "pos_ext".

Definition mint_purse (mint : ContractRef) (amount : Z) : T PurseId :=
  let! result := runtime.call_contract mint [from_t clt_string (str "mint"); from_t clt_u512 amount]
    (result_codec uref_codec mint_error_codec) in
  unwrap_or_revert api_from_mint result.

(** The fold over the stakes; an overflow panics. *)
Fixpoint total_bonds (x : Z) (balances : list Z) : T Z :=
  match balances with
  | [] => eret x
  | y :: balances' => let! z := checked (uint_add 512 x y) in total_bonds z balances'
  end.

Definition call_pos_install : T unit :=
  let! mint_uref := arg uref_codec 0 in
  let mint := ContractRef_URef (uref_new (uref_addr mint_uref) READ) in
  let! genesis_validators := arg (btreemap_codec public_key_codec u512_codec) 1 in
  let named_keys := bt_collect (map (fun e => (stake_name e, PLACEHOLDER_KEY)) genesis_validators) in
  let! total := total_bonds 0 (map snd genesis_validators) in
  let! bonding_purse := mint_purse mint total in
  let! payment_purse := mint_purse mint 0 in
  let! rewards_purse := mint_purse mint 0 in
  let named_keys := bt_insert POS_BONDING_PURSE (Key_URef bonding_purse) named_keys in
  let named_keys := bt_insert POS_PAYMENT_PURSE (Key_URef payment_purse) named_keys in
  let named_keys := bt_insert POS_REWARDS_PURSE (Key_URef rewards_purse) named_keys in
  store_and_return POS_FUNCTION_NAME named_keys.
End install.
End install.
