(* ===== verification/Ipc.v ===== *)
(** The messages exchanged with the node.  Each message is the record or the choice
    its definition declares: a field of message type may be absent, a choice
    ([oneof]) may be unset, and a field of scalar type always has a value.
    Sources: [protobuf/io/casperlabs/casper/consensus/state.proto],
    [ipc/transforms.proto], [ipc/ipc.proto]. *)

From S2P Require Import Prelude.

Module state.
Record BigInt := mk_BigInt { value : bytes; bit_width : Z }.

Inductive AccessRights := UNKNOWN | READ | WRITE | ADD | READ_ADD | READ_WRITE | ADD_WRITE | READ_ADD_WRITE.

Record Key_URef := mk_Key_URef { uref : bytes; access_rights : AccessRights }.

Inductive Key_oneof_value :=
| address (account : bytes)
| hash (hash : bytes)
| uref_value (uref : Key_URef)
| local (hash : bytes).

Definition Key : Type := option Key_oneof_value.

Record NamedKey := mk_NamedKey { name : bytes; key : option Key }.

Record ProtocolVersion := mk_ProtocolVersion { major : Z; minor : Z; patch : Z }.

Record Contract := mk_Contract {
  body : bytes;
  contract_named_keys : list NamedKey;
  contract_protocol_version : option ProtocolVersion;
}.

Record Account_AssociatedKey := mk_AssociatedKey { associated_public_key : bytes; weight : Z }.

Record Account_ActionThresholds := mk_ActionThresholds {
  deployment_threshold : Z;
  key_management_threshold : Z;
}.

Record Account := mk_Account {
  public_key : bytes;
  purse_id : option Key_URef;
  named_keys : list NamedKey;
  associated_keys : list Account_AssociatedKey;
  action_thresholds : option Account_ActionThresholds;
}.

Inductive CLType_Simple :=
| BOOL | I32 | I64 | U8 | U32 | U64 | U128 | U256 | U512 | UNIT | STRING | KEY | UREF.

Inductive CLType :=
| mk_CLType (variants : option CLType_oneof_variants)
with CLType_oneof_variants :=
| simple_type (s : CLType_Simple)
| option_type (inner : option CLType)
| list_type (inner : option CLType)
| fixed_list_type (inner : option CLType) (len : Z)
| result_type (ok err : option CLType)
| map_type (key value : option CLType)
| tuple1_type (type0 : option CLType)
| tuple2_type (type0 type1 : option CLType)
| tuple3_type (type0 type1 type2 : option CLType)
| any_type.

Record CLValue := mk_CLValue { cl_type : option CLType; serialized_value : bytes }.

Inductive StoredValue_oneof_variants :=
| cl_value (v : CLValue)
| account_value (a : Account)
| contract_value (c : Contract).

Definition StoredValue : Type := option StoredValue_oneof_variants.
End state.

Module transforms.
Record TypeMismatch := mk_TypeMismatch { expected : bytes; found : bytes }.

(** The failure instance: a type mismatch, if any. *)
Definition TransformFailure : Type := option TypeMismatch.

Inductive Transform_oneof_transform_instance :=
| identity
| add_i32 (value : Z)
| add_u64 (value : Z)
| write (value : option state.StoredValue)
| add_keys (value : list state.NamedKey)
| failure (f : TransformFailure)
| add_big_int (value : option state.BigInt).

Definition Transform : Type := option Transform_oneof_transform_instance.

Record TransformEntry := mk_TransformEntry { entry_key : option state.Key; entry_transform : option Transform }.
End transforms.

Module ipc.
Inductive DeployPayload_oneof_payload :=
| deploy_code (code args : bytes)
| stored_contract_hash (hash args : bytes)
| stored_contract_name (stored_contract_name args : bytes)
| stored_contract_uref (uref args : bytes).

Definition DeployPayload : Type := option DeployPayload_oneof_payload.

Record Bond := mk_Bond { validator_public_key : bytes; stake : option state.BigInt }.

Record DeployItem := mk_DeployItem {
  address : bytes;
  session : option DeployPayload;
  payment : option DeployPayload;
  gas_price : Z;
  authorization_keys : list bytes;
  deploy_hash : bytes;
}.

Record ExecuteRequest := mk_ExecuteRequest {
  parent_state_hash : bytes;
  block_time : Z;
  deploys : list DeployItem;
  execute_protocol_version : option state.ProtocolVersion;
}.

Inductive Op_oneof_op_instance := read_op | write_op | add_op | noop_op.

Definition Op : Type := option Op_oneof_op_instance.

Record OpEntry := mk_OpEntry { op_key : option state.Key; operation : option Op }.

Record ExecutionEffect := mk_ExecutionEffect {
  op_map : list OpEntry;
  transform_map : list transforms.TransformEntry;
}.

Inductive DeployError_oneof_value := gas_error | exec_error (message : bytes).

Definition DeployError : Type := option DeployError_oneof_value.

Record DeployResult_ExecutionResult := mk_ExecutionResult {
  effects : option ExecutionEffect;
  error : option DeployError;
  cost : option state.BigInt;
}.

Inductive DeployResult_oneof_value :=
| precondition_failure (message : bytes)
| execution_result (r : DeployResult_ExecutionResult).

Definition DeployResult : Type := option DeployResult_oneof_value.

(** The choice of [ExecuteResponse]. *)
Inductive ExecuteResponse :=
| execute_success (deploy_results : list DeployResult)
| missing_parent (hash : bytes).

Record CommitRequest := mk_CommitRequest {
  prestate_hash : bytes;
  commit_effects : list transforms.TransformEntry;
  commit_protocol_version : option state.ProtocolVersion;
}.

(** The choice of [CommitResponse]. *)
Inductive CommitResponse :=
| commit_success (poststate_hash : bytes) (bonded_validators : list Bond)
| missing_prestate (hash : bytes)
| key_not_found (key : state.Key)
| type_mismatch (m : transforms.TypeMismatch)
| failed_transform (message : bytes).

Record QueryRequest := mk_QueryRequest {
  state_hash : bytes;
  base_key : option state.Key;
  path : list bytes;
  query_protocol_version : option state.ProtocolVersion;
}.

(** The choice of [QueryResponse]. *)
Inductive QueryResponse := query_success (value : bytes) | query_failure (message : bytes).

Record ChainSpec_GenesisAccount := mk_GenesisAccount {
  genesis_public_key : bytes;
  balance : option state.BigInt;
  bonded_amount : option state.BigInt;
}.

Record ChainSpec_CostTable_WasmCosts := mk_WasmCosts {
  regular : Z;
  div : Z;
  mul : Z;
  mem : Z;
  initial_mem : Z;
  grow_mem : Z;
  memcpy : Z;
  max_stack_height : Z;
  opcodes_mul : Z;
  opcodes_div : Z;
}.

Record ChainSpec_CostTable := mk_CostTable { wasm : option ChainSpec_CostTable_WasmCosts }.

Record ChainSpec_DeployConfig := mk_DeployConfig { max_ttl_millis : Z; max_dependencies : Z }.

Record ChainSpec_GenesisConfig := mk_GenesisConfig {
  genesis_name : bytes;
  timestamp : Z;
  genesis_protocol_version : option state.ProtocolVersion;
  mint_installer : bytes;
  pos_installer : bytes;
  accounts : list ChainSpec_GenesisAccount;
  costs : option ChainSpec_CostTable;
  deploy_config : option ChainSpec_DeployConfig;
}.

(** The choices of [GenesisResponse] and [UpgradeResponse]. *)
Inductive GenesisResponse :=
| genesis_success (poststate_hash : bytes) (effect : option ExecutionEffect)
| genesis_failed_deploy (message : bytes).

Record DeployCode := mk_DeployCode { code : bytes; args : bytes }.

Record ChainSpec_UpgradePoint := mk_UpgradePoint {
  activation_point : option Z;
  upgrade_protocol_version : option state.ProtocolVersion;
  upgrade_installer : option DeployCode;
  new_costs : option ChainSpec_CostTable;
  new_deploy_config : option ChainSpec_DeployConfig;
}.

Record UpgradeRequest := mk_UpgradeRequest {
  upgrade_parent_state_hash : bytes;
  upgrade_point : option ChainSpec_UpgradePoint;
  current_protocol_version : option state.ProtocolVersion;
}.

Inductive UpgradeResponse :=
| upgrade_success (post_state_hash : bytes) (effect : option ExecutionEffect)
| upgrade_failed_deploy (message : bytes).
End ipc.
