(* ===== verification/StateMappings.v ===== *)
(** Conversions between values of the global state and the messages that carry
    them, and between transforms and theirs, with the proof that a value crosses
    unchanged.  Sources: [engine-grpc-server/src/engine_server/mappings/mod.rs],
    [mappings/state/*.rs], [mappings/transforms/*.rs]. *)

From stdpp Require Import gmap.
From S2P Require Import Prelude BTreeMap Bytesrepr Uint Types CLValues Account StoredValue Transform Ipc.

(** * Texts of errors *)

(** The traits [Debug] and [Display]; the texts themselves are those of derived
    implementations and of libraries. *)
Class Debug (A : Type) := debug : A -> bytes.
Class Display (A : Type) := display : A -> bytes.

(** The decimal text of the [uint] crate's integers; the parser takes the width
    and fails with the text of its error. *)
Class UintText := {
  uint_display : Z -> bytes;
  uint_from_dec_str : Z -> bytes -> Z + bytes;
}.

(** Relied on: a number reads back from its decimal digits. *)
Class UintTextLaws `{UintText} : Prop :=
  uint_dec_roundtrip : forall w z, (w = 128 \/ w = 256 \/ w = 512) -> is_unsigned w z ->
    uint_from_dec_str w (uint_display z) = inl z.

(** * Errors *)

(** [ParsingError], by its text. *)
Definition ParsingError : Type := bytes.

Definition vec_to_array (input : bytes) (input_name : bytes) : outcome ParsingError bytes :=
  if zlen input =? 32 then Ok input else Err (input_name ++ str " must be 32 bytes.").

(** * Keys *)

Definition access_rights_into (r : AccessRights) : state.AccessRights :=
  if r =? READ then state.READ
  else if r =? WRITE then state.WRITE
  else if r =? ADD then state.ADD
  else if r =? READ_ADD then state.READ_ADD
  else if r =? READ_WRITE then state.READ_WRITE
  else if r =? ADD_WRITE then state.ADD_WRITE
  else if r =? READ_ADD_WRITE then state.READ_ADD_WRITE
  else state.UNKNOWN.

(** The rights of a new message are [UNKNOWN]. *)
Definition uref_into (u : URef) : state.Key_URef :=
  state.mk_Key_URef (uref_addr u)
    match uref_access_rights u with Some r => access_rights_into r | None => state.UNKNOWN end.

Definition uref_try_from (pb_uref : state.Key_URef) : outcome ParsingError URef :=
  let? addr := vec_to_array (state.uref pb_uref) (str "Protobuf URef addr") in
  let maybe_access_rights :=
    match state.access_rights pb_uref with
    | state.UNKNOWN => None
    | state.READ => Some READ
    | state.WRITE => Some WRITE
    | state.ADD => Some ADD
    | state.READ_ADD => Some READ_ADD
    | state.READ_WRITE => Some READ_WRITE
    | state.ADD_WRITE => Some ADD_WRITE
    | state.READ_ADD_WRITE => Some READ_ADD_WRITE
    end in
  Ok match maybe_access_rights with
     | Some access_rights => uref_new addr access_rights
     | None => remove_access_rights (uref_new addr READ)
     end.

Definition key_into (k : Key) : state.Key :=
  Some match k with
       | Key_Account account => state.address account
       | Key_Hash hash => state.hash hash
       | Key_URef u => state.uref_value (uref_into u)
       | Key_Local hash => state.local hash
       end.

Definition key_try_from (pb_key : state.Key) : outcome ParsingError Key :=
  let? pb_key := ok_or pb_key (str "Unable to parse Protobuf Key") in
  match pb_key with
  | state.address account =>
      let? account := vec_to_array account (str "Protobuf Key::Account") in Ok (Key_Account account)
  | state.hash hash =>
      let? hash := vec_to_array hash (str "Protobuf Key::Hash") in Ok (Key_Hash hash)
  | state.uref_value pb_uref => let? u := uref_try_from pb_uref in Ok (Key_URef u)
  | state.local hash =>
      let? hash := vec_to_array hash (str "Protobuf Key::Local") in Ok (Key_Local hash)
  end.

Definition named_key_into (e : bytes * Key) : state.NamedKey := state.mk_NamedKey e.1 (Some (key_into e.2)).

(** An absent message is taken as the empty one. *)
Definition named_key_try_from (pb : state.NamedKey) : outcome ParsingError (bytes * Key) :=
  let? key := key_try_from (default None (state.key pb)) in
  Ok (state.name pb, key).

Definition named_keys_into (m : BTreeMap bytes Key) : list state.NamedKey := map named_key_into m.

(** The loop of [TryFrom<Vec<NamedKey>> for NamedKeyMap]: a name that comes again
    replaces the earlier one. *)
Fixpoint named_keys_loop (m : BTreeMap bytes Key) (pb_named_keys : list state.NamedKey)
    : outcome ParsingError (BTreeMap bytes Key) :=
  match pb_named_keys with
  | [] => Ok m
  | pb :: rest =>
      let? '(name, key) := named_key_try_from pb in
      named_keys_loop (bt_insert name key m) rest
  end.

Definition named_keys_try_from : list state.NamedKey -> outcome ParsingError (BTreeMap bytes Key) :=
  named_keys_loop bt_empty.

Definition protocol_version_into (v : ProtocolVersion) : state.ProtocolVersion :=
  state.mk_ProtocolVersion (major v) (minor v) (patch v).

Definition protocol_version_from (pb : state.ProtocolVersion) : ProtocolVersion :=
  mk_semver (state.major pb) (state.minor pb) (state.patch pb).

(** [take_protocol_version().into()]. *)
Definition take_protocol_version (pb : option state.ProtocolVersion) : ProtocolVersion :=
  protocol_version_from (default (state.mk_ProtocolVersion 0 0 0) pb).

(** * Typed values *)

Fixpoint cl_type_into (t : CLType) : state.CLType :=
  state.mk_CLType (Some
    match t with
    | CL_Bool => state.simple_type state.BOOL
    | CL_I32 => state.simple_type state.I32
    | CL_I64 => state.simple_type state.I64
    | CL_U8 => state.simple_type state.U8
    | CL_U32 => state.simple_type state.U32
    | CL_U64 => state.simple_type state.U64
    | CL_U128 => state.simple_type state.U128
    | CL_U256 => state.simple_type state.U256
    | CL_U512 => state.simple_type state.U512
    | CL_Unit => state.simple_type state.UNIT
    | CL_String => state.simple_type state.STRING
    | CL_Key => state.simple_type state.KEY
    | CL_URef => state.simple_type state.UREF
    | CL_Option inner => state.option_type (Some (cl_type_into inner))
    | CL_List inner => state.list_type (Some (cl_type_into inner))
    | CL_FixedList inner len => state.fixed_list_type (Some (cl_type_into inner)) len
    | CL_Result ok err => state.result_type (Some (cl_type_into ok)) (Some (cl_type_into err))
    | CL_Map key value => state.map_type (Some (cl_type_into key)) (Some (cl_type_into value))
    | CL_Tuple1 t0 => state.tuple1_type (Some (cl_type_into t0))
    | CL_Tuple2 t0 t1 => state.tuple2_type (Some (cl_type_into t0)) (Some (cl_type_into t1))
    | CL_Tuple3 t0 t1 t2 =>
        state.tuple3_type (Some (cl_type_into t0)) (Some (cl_type_into t1)) (Some (cl_type_into t2))
    | CL_Any => state.any_type
    end).

Definition unable_to_parse_cl_type : ParsingError := str "Unable to parse Protobuf CLType".

(** Taking an absent component gives a message without variant, which does not
    parse. *)
Fixpoint cl_type_try_from (pb_type : state.CLType) : outcome ParsingError CLType :=
  let take inner := match inner with Some t => cl_type_try_from t | None => Err unable_to_parse_cl_type end in
  match pb_type with
  | state.mk_CLType None => Err unable_to_parse_cl_type
  | state.mk_CLType (Some v) =>
      match v with
      | state.simple_type state.BOOL => Ok CL_Bool
      | state.simple_type state.I32 => Ok CL_I32
      | state.simple_type state.I64 => Ok CL_I64
      | state.simple_type state.U8 => Ok CL_U8
      | state.simple_type state.U32 => Ok CL_U32
      | state.simple_type state.U64 => Ok CL_U64
      | state.simple_type state.U128 => Ok CL_U128
      | state.simple_type state.U256 => Ok CL_U256
      | state.simple_type state.U512 => Ok CL_U512
      | state.simple_type state.UNIT => Ok CL_Unit
      | state.simple_type state.STRING => Ok CL_String
      | state.simple_type state.KEY => Ok CL_Key
      | state.simple_type state.UREF => Ok CL_URef
      | state.option_type inner => let? t := take inner in Ok (CL_Option t)
      | state.list_type inner => let? t := take inner in Ok (CL_List t)
      | state.fixed_list_type inner len => let? t := take inner in Ok (CL_FixedList t len)
      | state.result_type ok err => let? t0 := take ok in let? t1 := take err in Ok (CL_Result t0 t1)
      | state.map_type key value => let? t0 := take key in let? t1 := take value in Ok (CL_Map t0 t1)
      | state.tuple1_type type0 => let? t0 := take type0 in Ok (CL_Tuple1 t0)
      | state.tuple2_type type0 type1 => let? t0 := take type0 in let? t1 := take type1 in Ok (CL_Tuple2 t0 t1)
      | state.tuple3_type type0 type1 type2 =>
          let? t0 := take type0 in let? t1 := take type1 in let? t2 := take type2 in Ok (CL_Tuple3 t0 t1 t2)
      | state.any_type => Ok CL_Any
      end
  end.

Definition cl_value_into (v : CLValue) : state.CLValue := state.mk_CLValue (Some (cl_type_into (cl_type v))) (cl_bytes v).

(** The bytes are taken as they are. *)
Definition cl_value_try_from (pb : state.CLValue) : outcome ParsingError CLValue :=
  let? t := cl_type_try_from (default (state.mk_CLType None) (state.cl_type pb)) in
  Ok (mk_cl_value t (state.serialized_value pb)).

(** * Wide integers *)

Section texts.
Context {ut : UintText} `{!Debug CLValueError, !Debug AddKeyFailure, !Display SetThresholdFailure}.

Definition invalid_bit_width (bit_width : Z) : ParsingError :=
  str "Protobuf BigInt bit width of " ++ decimal 10 bit_width ++ str " is invalid".

(** [From<U128>], [From<U256>] and [From<U512>] for [BigInt], by width. *)
Definition uint_into (w : Z) (z : Z) : state.BigInt := state.mk_BigInt (uint_display z) w.

Definition uint_try_from (w : Z) (pb : state.BigInt) : outcome ParsingError Z :=
  if state.bit_width pb =? w then
    match uint_from_dec_str w (state.value pb) with inl z => Ok z | inr error => Err error end
  else Err (invalid_bit_width (state.bit_width pb)).

Definition big_int_try_from (pb : state.BigInt) : outcome ParsingError CLValue :=
  let? cl_value_result :=
    if state.bit_width pb =? 128 then let? z := uint_try_from 128 pb in Ok (from_t clt_u128 z)
    else if state.bit_width pb =? 256 then let? z := uint_try_from 256 pb in Ok (from_t clt_u256 z)
    else if state.bit_width pb =? 512 then let? z := uint_try_from 512 pb in Ok (from_t clt_u512 z)
    else Err (invalid_bit_width (state.bit_width pb)) in
  omap_err debug cl_value_result.

(** * Accounts and contracts *)

Definition associated_key_into (e : PublicKey * Weight) : state.Account_AssociatedKey := state.mk_AssociatedKey e.1 e.2.

Definition weight_from (value : Z) (value_name : bytes) : outcome ParsingError Weight :=
  if value <=? 255 then Ok value
  else Err (str "Unable to convert " ++ decimal 10 value ++ str " to u8 while parsing " ++ value_name).

Definition associated_key_try_from (pb : state.Account_AssociatedKey) : outcome ParsingError (PublicKey * Weight) :=
  let? public_key := vec_to_array (state.associated_public_key pb) (str "Protobuf Account::AssociatedKey") in
  let? weight := weight_from (state.weight pb) (str "Protobuf AssociatedKey::Weight") in
  Ok (public_key, weight).

Definition account_into (a : Account) : state.Account :=
  state.mk_Account (account_public_key a) (Some (uref_into (account_purse_id a))) (named_keys_into (account_named_keys a))
    (map associated_key_into (associated_keys a))
    (Some (state.mk_ActionThresholds (deployment (action_thresholds a)) (key_management (action_thresholds a)))).

(** The loop over the associated keys. *)
Fixpoint associated_keys_loop (keys : AssociatedKeys) (pbs : list state.Account_AssociatedKey)
    : outcome ParsingError AssociatedKeys :=
  match pbs with
  | [] => Ok keys
  | pb :: rest =>
      let? '(key, weight) := associated_key_try_from pb in
      let? keys := omap_err (fun error => str "Error parsing Protobuf Account::AssociatedKeys: " ++ debug error)
        (add_key keys key weight) in
      associated_keys_loop keys rest
  end.

Definition account_try_from (pb : state.Account) : outcome ParsingError Account :=
  let? public_key := vec_to_array (state.public_key pb) (str "Protobuf Account::PublicKey") in
  let? named_keys := named_keys_try_from (state.named_keys pb) in
  let? pb_uref := ok_or (state.purse_id pb) (str "Protobuf Account missing PurseId field") in
  let? purse_id := uref_try_from pb_uref in
  let? associated_keys := associated_keys_loop bt_empty (state.associated_keys pb) in
  let? pb_action_thresholds :=
    ok_or (state.action_thresholds pb) (str "Protobuf Account missing ActionThresholds field") in
  let? deployment :=
    weight_from (state.deployment_threshold pb_action_thresholds) (str "Protobuf DeploymentThreshold") in
  let? key_management :=
    weight_from (state.key_management_threshold pb_action_thresholds) (str "Protobuf KeyManagementThreshold") in
  let? action_thresholds := omap_err display (action_thresholds_new deployment key_management) in
  Ok (mk_account public_key named_keys purse_id associated_keys action_thresholds).

Definition contract_into (c : Contract) : state.Contract :=
  state.mk_Contract (contract_bytes c) (named_keys_into (contract_named_keys c))
    (Some (protocol_version_into (contract_protocol_version c))).

Definition contract_try_from (pb : state.Contract) : outcome ParsingError Contract :=
  let? named_keys := named_keys_try_from (state.contract_named_keys pb) in
  let protocol_version := take_protocol_version (state.contract_protocol_version pb) in
  Ok (mk_contract (state.body pb) named_keys protocol_version).

Definition stored_value_into (v : StoredValue) : state.StoredValue :=
  Some match v with
       | SV_CLValue cl_value => state.cl_value (cl_value_into cl_value)
       | SV_Account account => state.account_value (account_into account)
       | SV_Contract contract => state.contract_value (contract_into contract)
       end.

Definition stored_value_try_from (pb : state.StoredValue) : outcome ParsingError StoredValue :=
  let? pb := ok_or pb (str "Unable to parse Protobuf StoredValue") in
  match pb with
  | state.cl_value v => let? v := cl_value_try_from v in Ok (SV_CLValue v)
  | state.account_value a => let? a := account_try_from a in Ok (SV_Account a)
  | state.contract_value c => let? c := contract_try_from c in Ok (SV_Contract c)
  end.

(** * Transforms *)

Definition type_mismatch_into (m : TypeMismatch) : transforms.TypeMismatch :=
  transforms.mk_TypeMismatch (tm_expected m) (tm_found m).

(** A failed serialization panics: the messages have no form for it. *)
Definition transform_error_into {E} (e : TransformError) : outcome E transforms.TransformFailure :=
  match e with
  | TE_TypeMismatch m => Ok (Some (type_mismatch_into m))
  | TE_Serialization _ => Panic
  end.

Definition transform_error_try_from (pb : transforms.TransformFailure) : outcome ParsingError TransformError :=
  let? m := ok_or pb (str "Unable to parse Protobuf TransformFailure") in
  Ok (TE_TypeMismatch (mk_type_mismatch (transforms.expected m) (transforms.found m))).

Definition transform_into {E} (t : Transform) : outcome E transforms.Transform :=
  outcome_map Some
    match t with
    | Identity => Ok transforms.identity
    | AddInt32 i => Ok (transforms.add_i32 i)
    | AddUInt64 u => Ok (transforms.add_u64 u)
    | Write value => Ok (transforms.write (Some (stored_value_into value)))
    | AddKeys keys_map => Ok (transforms.add_keys (named_keys_into keys_map))
    | Failure transform_error => outcome_map transforms.failure (transform_error_into transform_error)
    | AddUInt128 u => Ok (transforms.add_big_int (Some (uint_into 128 u)))
    | AddUInt256 u => Ok (transforms.add_big_int (Some (uint_into 256 u)))
    | AddUInt512 u => Ok (transforms.add_big_int (Some (uint_into 512 u)))
    end.

Definition transform_try_from (pb : transforms.Transform) : outcome ParsingError Transform :=
  let? pb := ok_or pb (str "Unable to parse Protobuf Transform") in
  match pb with
  | transforms.identity => Ok Identity
  | transforms.add_keys value => let? m := named_keys_try_from value in Ok (AddKeys m)
  | transforms.add_i32 value => Ok (AddInt32 value)
  | transforms.add_u64 value => Ok (AddUInt64 value)
  | transforms.add_big_int value =>
      let? cl_value := big_int_try_from (default (state.mk_BigInt [] 0) value) in
      match cl_type cl_value with
      | CL_U128 => let? z := omap_err debug (into_t clt_u128 cl_value) in Ok (AddUInt128 z)
      | CL_U256 => let? z := omap_err debug (into_t clt_u256 cl_value) in Ok (AddUInt256 z)
      | CL_U512 => let? z := omap_err debug (into_t clt_u512 cl_value) in Ok (AddUInt512 z)
      | other => Err (str "Protobuf BigInt was turned into a non-uint Value type: " ++ cl_type_debug other)
      end
  | transforms.write value => let? v := stored_value_try_from (default None value) in Ok (Write v)
  | transforms.failure f => let? e := transform_error_try_from f in Ok (Failure e)
  end.

Definition transform_entry_into {E} (e : Key * Transform) : outcome E transforms.TransformEntry :=
  let? t := transform_into e.2 in
  Ok (transforms.mk_TransformEntry (Some (key_into e.1)) (Some t)).

Definition transform_entry_try_from (pb : transforms.TransformEntry) : outcome ParsingError (Key * Transform) :=
  let? pb_key := ok_or (transforms.entry_key pb) (str "Protobuf TransformEntry missing Key field") in
  let? key := key_try_from pb_key in
  let? pb_transform := ok_or (transforms.entry_transform pb) (str "Protobuf TransformEntry missing Transform field") in
  let? transform := transform_try_from pb_transform in
  Ok (key, transform).

(** The loop of [TryFrom<Vec<TransformEntry>> for TransformMap]: transforms of one
    key are merged. *)
Fixpoint transform_map_loop {dbg : DebugText} (transforms_merged : gmap Key Transform) (pbs : list transforms.TransformEntry)
    : outcome ParsingError (gmap Key Transform) :=
  match pbs with
  | [] => Ok transforms_merged
  | pb :: rest =>
      let? '(key, transform) := transform_entry_try_from pb in
      transform_map_loop (insert_add transform_add transform_default transforms_merged key transform) rest
  end.

Definition transform_map_try_from {dbg : DebugText} : list transforms.TransformEntry -> outcome ParsingError (gmap Key Transform) :=
  transform_map_loop ∅.
End texts.

(** * Values cross unchanged *)

(** A conversion and its inverse, on the values that can cross. *)
Class Mapping {E A M} (into : A -> M) (from : M -> outcome E A) (portable : A -> Prop) : Prop :=
  mapping_roundtrip : forall a, portable a -> from (into a) = Ok a.

(** A reference whose rights are the empty set would arrive without rights. *)
Definition uref_portable (u : URef) : Prop := uref_valid u /\ uref_access_rights u <> Some 0.

Definition key_portable (k : Key) : Prop :=
  match k with
  | Key_URef u => uref_portable u
  | Key_Account b | Key_Hash b | Key_Local b => is_bytes 32 b
  end.

Definition named_keys_portable (m : BTreeMap bytes Key) : Prop := bt_wf m /\ Forall (fun e => key_portable e.2) m.

Definition account_portable (a : Account) : Prop :=
  is_bytes 32 (account_public_key a) /\ named_keys_portable (account_named_keys a)
  /\ uref_portable (account_purse_id a) /\ associated_keys_valid (associated_keys a)
  /\ thresholds_valid (action_thresholds a)
  /\ deployment (action_thresholds a) <= key_management (action_thresholds a).

Definition stored_value_portable (v : StoredValue) : Prop :=
  match v with
  | SV_CLValue _ => True
  | SV_Account a => account_portable a
  | SV_Contract c => named_keys_portable (contract_named_keys c)
  end.

Definition transform_portable (t : Transform) : Prop :=
  match t with
  | Identity | AddInt32 _ | AddUInt64 _ => True
  | Write v => stored_value_portable v
  | AddUInt128 z => is_unsigned 128 z
  | AddUInt256 z => is_unsigned 256 z
  | AddUInt512 z => is_unsigned 512 z
  | AddKeys m => named_keys_portable m
  | Failure e => exists m, e = TE_TypeMismatch m
  end.

Lemma vec_to_array_ok b name : is_bytes 32 b -> vec_to_array b name = Ok b.
Proof. intros Hb. unfold vec_to_array, zlen. by rewrite Hb. Qed.

Lemma vec_to_array_inv b name a : vec_to_array b name = Ok a -> a = b /\ is_bytes 32 b.
Proof.
  unfold vec_to_array, zlen, is_bytes. destruct (Z.eqb_spec (Z.of_nat (length b)) 32) as [Hb|]; [|done].
  intros [= <-]. split; [done | lia].
Qed.

#[export] Hint Rewrite vec_to_array_ok using done : mapping.

Lemma access_rights_roundtrip r :
  rights_valid r -> r <> 0 ->
  match access_rights_into r with
  | state.UNKNOWN => None
  | state.READ => Some READ
  | state.WRITE => Some WRITE
  | state.ADD => Some ADD
  | state.READ_ADD => Some READ_ADD
  | state.READ_WRITE => Some READ_WRITE
  | state.ADD_WRITE => Some ADD_WRITE
  | state.READ_ADD_WRITE => Some READ_ADD_WRITE
  end = Some r.
Proof.
  intros Hv Hne. unfold rights_valid in Hv.
  assert (r = 1 \/ r = 2 \/ r = 3 \/ r = 4 \/ r = 5 \/ r = 6 \/ r = 7) as Hr by lia.
  by repeat destruct Hr as [->|Hr]; [..|subst r].
Qed.

#[export] Instance uref_mapping : Mapping uref_into uref_try_from uref_portable.
Proof.
  intros [addr rights] [[Ha Hr] Hne]. cbn in Ha, Hr, Hne. unfold uref_try_from, uref_into. cbn [state.uref state.access_rights uref_addr uref_access_rights].
  rewrite vec_to_array_ok by done. cbn [obind]. destruct rights as [r|]; [|done]. cbn in Hr.
  rewrite access_rights_roundtrip; [done | done | by intros ->].
Qed.

#[export] Instance key_mapping : Mapping key_into key_try_from key_portable.
Proof.
  intros [b|b|u|b] Hk; cbn in *; rewrite ?vec_to_array_ok by done; try done. by rewrite (uref_mapping u Hk).
Qed.

#[export] Instance named_key_mapping : Mapping named_key_into named_key_try_from (fun e => key_portable e.2).
Proof. intros [name k] Hk. unfold named_key_try_from. change (default None _) with (key_into k).
  by rewrite (key_mapping k Hk). Qed.

Lemma named_keys_loop_run acc m :
  Forall (fun e => key_portable e.2) m -> named_keys_loop acc (named_keys_into m) = Ok (bt_extend acc m).
Proof.
  intros Hm. revert acc. induction Hm as [|[name k] m Hk _ IH]; intros acc; [done|].
  cbn [named_keys_into map named_keys_loop]. rewrite (named_key_mapping (name, k) Hk). cbn. apply IH.
Qed.

#[export] Instance named_keys_mapping : Mapping named_keys_into named_keys_try_from named_keys_portable.
Proof.
  intros m [Hw Hm]. unfold named_keys_try_from. rewrite named_keys_loop_run by done. f_equal. by apply bt_collect_sorted.
Qed.

#[export] Instance cl_type_mapping : Mapping cl_type_into cl_type_try_from (fun _ => True).
Proof.
  intros t _. induction t; try reflexivity; cbn in *;
    repeat match goal with E : cl_type_try_from _ = _ |- _ => rewrite E; clear E; cbn end; reflexivity.
Qed.

#[export] Instance cl_value_mapping : Mapping cl_value_into cl_value_try_from (fun _ => True).
Proof. intros [t b] _. unfold cl_value_try_from. change (default _ _) with (cl_type_into t). by rewrite (cl_type_mapping t I). Qed.

Lemma protocol_version_roundtrip v : take_protocol_version (Some (protocol_version_into v)) = v.
Proof. by destruct v. Qed.

Section laws.
Context `{UintTextLaws} `{!Debug CLValueError, !Debug AddKeyFailure, !Display SetThresholdFailure}.

Lemma weight_from_ok z name : is_unsigned 8 z -> weight_from z name = Ok z.
Proof. unfold is_unsigned, weight_from. intros Hz. by rewrite (proj2 (Z.leb_le z 255)) by lia. Qed.

#[export] Instance associated_key_mapping :
  Mapping associated_key_into associated_key_try_from (pair_valid (is_bytes 32) (is_unsigned 8)).
Proof.
  intros [k w] [Hk Hw]. unfold associated_key_try_from. cbn. rewrite vec_to_array_ok by done. cbn. by rewrite weight_from_ok.
Qed.

Lemma associated_keys_loop_run (acc m : AssociatedKeys) :
  Forall (pair_valid (is_bytes 32) (is_unsigned 8)) m -> bt_wf (acc ++ m) -> zlen (acc ++ m) <= MAX_KEYS ->
  associated_keys_loop acc (map associated_key_into m) = Ok (acc ++ m).
Proof.
  intros Hm. revert acc. induction Hm as [|[k w] m Hk _ IH]; intros acc Hwf Hn; [by rewrite app_nil_r|].
  cbn [map associated_keys_loop]. rewrite (associated_key_mapping (k, w) Hk). cbn [obind].
  change ((k, w) :: m) with ([(k, w)] ++ m) in *. rewrite app_assoc in *.
  pose proof (bt_wf_prefix _ _ Hwf) as Hp. apply bt_insert_last in Hp as [Hi Hg].
  unfold add_key, bt_contains_key. rewrite Hg, Hi.
  rewrite (proj2 (Z.eqb_neq (zlen acc) MAX_KEYS)).
  - cbn [omap_err obind]. by apply IH.
  - revert Hn. rewrite !zlen_app. unfold zlen. cbn. lia.
Qed.

#[export] Instance account_mapping : Mapping account_into account_try_from account_portable.
Proof.
  intros [pk nk purse keys [d m]] (Hpk & Hnk & Hp & [(Hw & Hk & _) Hn] & [Hd Hm] & Hle). cbn in *.
  unfold account_try_from. cbn [account_into state.public_key state.named_keys state.purse_id state.associated_keys
    state.action_thresholds account_public_key account_named_keys account_purse_id associated_keys action_thresholds].
  rewrite vec_to_array_ok by done. cbn [obind]. rewrite (named_keys_mapping nk Hnk). cbn [obind ok_or].
  rewrite (uref_mapping purse Hp). cbn [obind]. rewrite (associated_keys_loop_run bt_empty keys) by done. cbn.
  rewrite !weight_from_ok by done. cbn. unfold action_thresholds_new. by rewrite Z.gtb_ltb, (proj2 (Z.ltb_ge m d)).
Qed.

#[export] Instance contract_mapping :
  Mapping contract_into contract_try_from (fun c => named_keys_portable (contract_named_keys c)).
Proof.
  intros [body nk v] Hk. unfold contract_try_from. cbn [contract_into state.contract_named_keys contract_named_keys].
  rewrite (named_keys_mapping nk Hk). cbn [obind]. by destruct v.
Qed.

#[export] Instance stored_value_mapping : Mapping stored_value_into stored_value_try_from stored_value_portable.
Proof.
  intros [v|a|c] Hv; unfold stored_value_try_from, stored_value_into; cbn [ok_or obind].
  - by rewrite (cl_value_mapping v I).
  - by rewrite (account_mapping a Hv).
  - by rewrite (contract_mapping c Hv).
Qed.

Lemma uint_try_from_ok w z :
  (w = 128 \/ w = 256 \/ w = 512) -> is_unsigned w z -> uint_try_from w (uint_into w z) = Ok z.
Proof.
  intros Hw Hz. unfold uint_try_from. cbn [uint_into state.bit_width state.value]. rewrite Z.eqb_refl.
  by rewrite (uint_dec_roundtrip w z Hw Hz).
Qed.

Lemma big_int_roundtrip (T : CLTyped Z) w z :
  T = clt_u128 /\ w = 128 \/ T = clt_u256 /\ w = 256 \/ T = clt_u512 /\ w = 512 -> is_unsigned w z ->
  exists v, big_int_try_from (uint_into w z) = Ok v /\ cl_type v = clt_type T /\ into_t T v = Ok z.
Proof.
  intros HT Hz. assert (w = 128 \/ w = 256 \/ w = 512) as Hw by tauto.
  assert (CodecLaws (clt_codec T) (is_unsigned w)) as laws.
  { destruct HT as [[-> ->]|[[-> ->]|[-> ->]]]; apply _. }
  assert (exists v, from_t T z = Ok v) as [v Hv].
  { destruct HT as [[-> ->]|[[-> ->]|[-> ->]]]; by eexists. }
  exists v. split; [|exact (into_from_t T _ z v Hz Hv)].
  unfold big_int_try_from. change (state.bit_width (uint_into w z)) with w. pose proof (uint_try_from_ok w z Hw Hz) as Eu.
  destruct HT as [[-> ->]|[[-> ->]|[-> ->]]]; cbn [Z.eqb Pos.eqb]; rewrite Eu; cbn [obind]; by rewrite Hv.
Qed.

Lemma wide_roundtrip T w z :
  T = clt_u128 /\ w = 128 \/ T = clt_u256 /\ w = 256 \/ T = clt_u512 /\ w = 512 -> is_unsigned w z ->
  transform_try_from (Some (transforms.add_big_int (Some (uint_into w z))))
    = Ok (if w =? 128 then AddUInt128 z else if w =? 256 then AddUInt256 z else AddUInt512 z).
Proof.
  intros HT Hz. destruct (big_int_roundtrip T w z HT Hz) as (v & E1 & E2 & E3).
  unfold transform_try_from. cbn [ok_or obind from_option id]. rewrite E1. cbn [obind]. rewrite E2.
  destruct HT as [[-> ->]|[[-> ->]|[-> ->]]]; cbn [clt_type clt_u128 clt_u256 clt_u512]; by rewrite E3.
Qed.

(** A transform crosses unchanged, unless it is the failure to serialize. *)
Lemma transform_roundtrip {E} t :
  transform_portable t -> exists m, transform_into (E := E) t = Ok m /\ transform_try_from m = Ok t.
Proof.
  destruct t as [|v|z|z|z|z|z|m|e]; intros Ht; cbn in Ht; try (by eexists).
  - eexists. split; [reflexivity|]. cbn [transform_try_from ok_or obind]. change (default None _) with (stored_value_into v).
    by rewrite (stored_value_mapping v Ht).
  - eexists. split; [reflexivity|]. apply (wide_roundtrip clt_u128 128); [by left | done].
  - eexists. split; [reflexivity|]. apply (wide_roundtrip clt_u256 256); [by right; left | done].
  - eexists. split; [reflexivity|]. apply (wide_roundtrip clt_u512 512); [by right; right | done].
  - eexists. split; [reflexivity|]. cbn [transform_try_from ok_or obind]. by rewrite (named_keys_mapping m Ht).
  - destruct Ht as [[x y] ->]. by eexists.
Qed.

Lemma transform_entry_roundtrip {E} k t :
  key_portable k -> transform_portable t ->
  exists m, transform_entry_into (E := E) (k, t) = Ok m /\ transform_entry_try_from m = Ok (k, t).
Proof.
  intros Hk Ht. destruct (transform_roundtrip (E := E) t Ht) as (m & Em & Er). unfold transform_entry_into. cbn [fst snd].
  rewrite Em. eexists. split; [reflexivity|]. unfold transform_entry_try_from. cbn [transforms.entry_key transforms.entry_transform ok_or obind].
  rewrite (key_mapping k Hk). cbn [obind]. by rewrite Er.
Qed.

(** Transforms sent one per key, in any order, arrive as the same map. *)
Lemma transform_map_loop_run {dbg : DebugText} {E} acc l :
  Forall (fun e => key_portable e.1 /\ transform_portable e.2) l -> NoDup l.*1 -> Forall (fun e => acc !! e.1 = None) l ->
  exists pbs, try_collect (transform_entry_into (E := E)) l = Ok pbs
    /\ transform_map_loop acc pbs = Ok (list_to_map l ∪ acc).
Proof.
  intros Hl. revert acc. induction Hl as [|[k t] l [Hk Ht] _ IH]; intros acc Hnd Hacc.
  - exists []. split; [done|]. cbn. by rewrite (left_id_L ∅ (∪)).
  - cbn in Hk, Ht, Hnd. apply NoDup_cons in Hnd as [Hnew Hnd]. apply Forall_cons in Hacc as [Ha Hacc]. cbn in Ha.
    destruct (transform_entry_roundtrip (E := E) k t Hk Ht) as (m & Em & Er).
    destruct (IH (<[k := t]> acc)) as (pbs & Ep & Eq); [done | |].
    { apply Forall_forall. intros e He. rewrite lookup_insert_ne; [by eapply Forall_forall in Hacc|].
      intros ->. apply Hnew. by apply list_elem_of_fmap_2. }
    exists (m :: pbs). cbn [try_collect]. rewrite Em. cbn [obind]. rewrite Ep. split; [done|].
    cbn [transform_map_loop]. rewrite Er. cbn [obind]. unfold insert_add. rewrite Ha.
    replace (transform_add transform_default t) with t by (by destruct t). rewrite Eq. f_equal.
    cbn [list_to_map foldr fst snd]. rewrite <- insert_union_r by (by apply not_elem_of_list_to_map_1). apply insert_union_l.
Qed.

Lemma transform_map_roundtrip {dbg : DebugText} {E} (m : gmap Key Transform) l :
  l ≡ₚ map_to_list m -> map_Forall (fun k t => key_portable k /\ transform_portable t) m ->
  exists pbs, try_collect (transform_entry_into (E := E)) l = Ok pbs /\ transform_map_try_from pbs = Ok m.
Proof.
  intros Hp Hm. destruct (transform_map_loop_run (E := E) ∅ l) as (pbs & E1 & E2).
  - rewrite Hp. apply map_Forall_to_list in Hm. by eapply Forall_impl; [exact Hm | intros []].
  - rewrite Hp. apply NoDup_fst_map_to_list.
  - apply Forall_forall. intros e _. apply lookup_empty.
  - exists pbs. split; [done|]. unfold transform_map_try_from. rewrite E2, (right_id_L ∅ (∪)). f_equal.
    transitivity (list_to_map (map_to_list m) : gmap Key Transform); [|apply list_to_map_to_list].
    apply list_to_map_proper; [|done]. rewrite Hp. apply NoDup_fst_map_to_list.
Qed.
End laws.

(** * What is accepted *)

(** The invariants that a parsed value satisfies, whatever the message. *)
Definition account_formed (a : Account) : Prop :=
  is_bytes 32 (account_public_key a) /\ named_keys_portable (account_named_keys a) /\ uref_portable (account_purse_id a)
  /\ bt_wf (associated_keys a) /\ zlen (associated_keys a) <= MAX_KEYS
  /\ Forall (fun e => is_bytes 32 e.1 /\ e.2 <= 255) (associated_keys a)
  /\ deployment (action_thresholds a) <= key_management (action_thresholds a) <= 255.

Definition transform_formed (t : Transform) : Prop :=
  match t with
  | Write (SV_Account a) => account_formed a
  | Write (SV_Contract c) => named_keys_portable (contract_named_keys c)
  | AddKeys m => named_keys_portable m
  | Failure e => exists m, e = TE_TypeMismatch m
  | _ => True
  end.

Ltac accepted := repeat match goal with
  | X : obind _ _ = Ok _ |- _ => apply obind_ok in X as (? & ? & ?)
  | X : Ok _ = Ok _ |- _ => apply Ok_inj in X; subst
  | X : vec_to_array _ _ = Ok _ |- _ => apply vec_to_array_inv in X as [-> ?]
  | X : ok_or ?o _ = Ok _ |- _ => destruct o eqn:?; [apply Ok_inj in X; subst | discriminate X]
  end.

Lemma uref_try_from_portable pb u : uref_try_from pb = Ok u -> uref_portable u.
Proof.
  intros Hu. unfold uref_try_from in Hu. accepted. split; [split; [by destruct (state.access_rights pb)|]|];
    destruct (state.access_rights pb); cbn; unfold rights_valid, READ_ADD, READ_WRITE, ADD_WRITE, READ_ADD_WRITE, READ, WRITE, ADD; cbn; done || lia.
Qed.

Lemma key_try_from_portable pb k : key_try_from pb = Ok k -> key_portable k.
Proof.
  intros Hk. unfold key_try_from in Hk. destruct pb as [v|]; [|done]. cbn [ok_or obind] in Hk.
  destruct v; accepted; cbn; try done. by eapply uref_try_from_portable.
Qed.

Lemma named_keys_loop_portable pbs acc m :
  named_keys_portable acc -> named_keys_loop acc pbs = Ok m -> named_keys_portable m.
Proof.
  revert acc. induction pbs as [|pb pbs IH]; intros acc Ha Hm; cbn in Hm; [by apply Ok_inj in Hm as <-|].
  apply obind_ok in Hm as ([name key] & Hn & Hm). apply (IH _) in Hm; [done|].
  apply obind_ok in Hn as (k & Hk & Hn). apply Ok_inj in Hn. injection Hn as <- <-.
  destruct Ha as [Hw Hf]. split; [by apply bt_wf_insert|]. apply bt_insert_Forall; [|done].
  by apply key_try_from_portable in Hk.
Qed.

Lemma named_keys_try_from_portable pbs m : named_keys_try_from pbs = Ok m -> named_keys_portable m.
Proof. apply named_keys_loop_portable. split; [apply bt_wf_empty | done]. Qed.

Section accepted.
Context {ut : UintText} `{!Debug CLValueError, !Debug AddKeyFailure, !Display SetThresholdFailure}.

Lemma weight_from_inv z name w : weight_from z name = Ok w -> w = z /\ w <= 255.
Proof. unfold weight_from. destruct (Z.leb_spec z 255); [|done]. by intros [= <-]. Qed.

Definition keys_formed (m : AssociatedKeys) : Prop :=
  bt_wf m /\ zlen m <= MAX_KEYS /\ Forall (fun e => is_bytes 32 e.1 /\ e.2 <= 255) m.

Lemma associated_keys_loop_formed pbs acc m :
  keys_formed acc -> associated_keys_loop acc pbs = Ok m -> keys_formed m.
Proof.
  revert acc. induction pbs as [|pb pbs IH]; intros acc Ha Hm; cbn in Hm; [by apply Ok_inj in Hm as <-|].
  apply obind_ok in Hm as ([k w] & Hk & Hm). apply obind_ok in Hm as (acc' & Hadd & Hm). apply (IH _) in Hm; [done|].
  unfold associated_key_try_from in Hk. accepted. destruct Ha as (Hw & Hl & Hf).
  match goal with X : weight_from _ _ = Ok _ |- _ => apply weight_from_inv in X as [_ ?] end. simplify_eq.
  destruct (add_key acc (state.associated_public_key pb) w) as [acc''| |] eqn:Ea; [|done..]. apply Ok_inj in Hadd as ->.
  unfold add_key in Ea. destruct (Z.eqb_spec (zlen acc) MAX_KEYS); [done|].
  destruct (bt_contains_key _ _) eqn:Ec; [done|]. apply Ok_inj in Ea as <-.
  split; [by apply bt_wf_insert|]. split; [|by apply bt_insert_Forall]. rewrite zlen_insert, Ec by done. lia.
Qed.

Lemma account_try_from_formed pb a : account_try_from pb = Ok a -> account_formed a.
Proof.
  intros Ha. unfold account_try_from in Ha. accepted.
  repeat match goal with
  | X : named_keys_try_from _ = Ok _ |- _ => apply named_keys_try_from_portable in X
  | X : uref_try_from _ = Ok _ |- _ => apply uref_try_from_portable in X
  | X : weight_from _ _ = Ok _ |- _ => apply weight_from_inv in X as [_ ?]
  | X : associated_keys_loop _ _ = Ok _ |- _ => apply associated_keys_loop_formed in X as (? & ? & ?); [|split; [apply bt_wf_empty | by split]]
  end.
  match goal with X : omap_err _ (action_thresholds_new ?d ?k) = Ok _ |- _ =>
    unfold action_thresholds_new in X; rewrite Z.gtb_ltb in X; destruct (Z.ltb_spec k d); [done|]; apply Ok_inj in X as <-
  end.
  do 6 (split; [done|]). cbn. lia.
Qed.

Lemma stored_value_try_from_formed pb v :
  stored_value_try_from pb = Ok v -> transform_formed (Write v).
Proof.
  intros Hv. unfold stored_value_try_from in Hv. destruct pb as [[]|]; [..|done]; cbn [ok_or obind] in Hv; accepted; cbn.
  - done.
  - by eapply account_try_from_formed.
  - unfold contract_try_from in *. accepted. by eapply named_keys_try_from_portable.
Qed.

Lemma transform_try_from_formed pb t : transform_try_from pb = Ok t -> transform_formed t.
Proof.
  intros Ht. unfold transform_try_from in Ht. destruct pb as [[]|]; [..|done]; cbn [ok_or obind] in Ht; accepted; cbn;
    try done; [by eapply stored_value_try_from_formed | by eapply named_keys_try_from_portable | |].
  - unfold transform_error_try_from in *. accepted. by eexists.
  - destruct (cl_type _); try done; accepted; done.
Qed.

Lemma entry_try_from_formed pb k t :
  transform_entry_try_from pb = Ok (k, t) -> key_portable k /\ transform_formed t.
Proof.
  intros He. unfold transform_entry_try_from in He. accepted.
  match goal with X : (_, _) = (_, _) |- _ => injection X as <- <- end.
  split; [by eapply key_try_from_portable | by eapply transform_try_from_formed].
Qed.
End accepted.

(** ** Parsing does not panic *)

Lemma omap_err_safe {E E' A} (f : E -> E') (m : outcome E A) : m <> Panic -> omap_err f m <> Panic.
Proof. destruct m; [discriminate.. | congruence]. Qed.

Lemma ok_or_safe {E A} (o : option A) (e : E) : ok_or o e <> Panic.
Proof. by destruct o. Qed.

Lemma vec_to_array_safe b name : vec_to_array b name <> Panic.
Proof. unfold vec_to_array. by destruct (_ =? _). Qed.

(** Steps through a parser, down to the components that parse by other rules. *)
Ltac parses := repeat first
  [ discriminate | simple apply vec_to_array_safe | simple apply ok_or_safe | simple apply omap_err_safe
  | simple apply obind_safe; [|intros ?] | progress cbv zeta ].

Lemma uref_try_from_safe pb : uref_try_from pb <> Panic.
Proof. unfold uref_try_from. parses. Qed.

Lemma key_try_from_safe pb : key_try_from pb <> Panic.
Proof. unfold key_try_from. apply obind_safe; [parses|]. intros []; parses. apply uref_try_from_safe. Qed.

Lemma named_keys_loop_safe pbs acc : named_keys_loop acc pbs <> Panic.
Proof.
  revert acc. induction pbs as [|pb pbs IH]; intros acc; [done|]. cbn. apply obind_safe; [|intros [name key]; apply IH].
  unfold named_key_try_from. parses. apply key_try_from_safe.
Qed.

Lemma cl_type_try_from_safe pb : cl_type_try_from pb <> Panic.
Proof.
  revert pb. fix IH 1. intros [[[[]|[]|[]|[]|[] []|[] []|[]|[] []|[] [] []|]|]]; cbn; parses; apply IH.
Qed.

Section safe.
Context {ut : UintText} `{!Debug CLValueError, !Debug AddKeyFailure, !Display SetThresholdFailure}.

Lemma weight_from_safe z name : weight_from z name <> Panic.
Proof. unfold weight_from. by destruct (_ <=? _). Qed.

Lemma associated_keys_loop_safe pbs acc : associated_keys_loop acc pbs <> Panic.
Proof.
  revert acc. induction pbs as [|pb pbs IH]; intros acc; [done|]. cbn. apply obind_safe.
  - unfold associated_key_try_from. parses. apply weight_from_safe.
  - intros [k w]. apply obind_safe; [|intros keys; apply IH]. parses. unfold add_key. by repeat case_match.
Qed.

Lemma account_try_from_safe pb : account_try_from pb <> Panic.
Proof.
  unfold account_try_from. parses.
  - apply named_keys_loop_safe.
  - apply uref_try_from_safe.
  - apply associated_keys_loop_safe.
  - apply weight_from_safe.
  - apply weight_from_safe.
  - unfold action_thresholds_new. by case_match.
Qed.

Lemma stored_value_try_from_safe pb : stored_value_try_from pb <> Panic.
Proof.
  unfold stored_value_try_from. apply obind_safe; [parses|]. intros []; parses.
  - unfold cl_value_try_from. parses. apply cl_type_try_from_safe.
  - apply account_try_from_safe.
  - unfold contract_try_from. parses. apply named_keys_loop_safe.
Qed.

Lemma wide_from_t_safe T z : T = clt_u128 \/ T = clt_u256 \/ T = clt_u512 -> from_t T z <> Panic.
Proof. by intros [->|[->| ->]]. Qed.

Lemma wide_into_t_safe T v : T = clt_u128 \/ T = clt_u256 \/ T = clt_u512 -> into_t T v <> Panic.
Proof.
  intros HT. unfold into_t. case_match; [|done]. apply omap_err_safe. unfold deserialize. apply obind_safe.
  - destruct HT as [->|[->| ->]]; [apply (clt_num_safe NU128) | apply (clt_num_safe NU256) | apply (clt_num_safe NU512)].
  - intros []. by case_match.
Qed.

Lemma uint_try_from_safe w pb : uint_try_from w pb <> Panic.
Proof. unfold uint_try_from. by repeat case_match. Qed.

Lemma big_int_try_from_safe pb : big_int_try_from pb <> Panic.
Proof.
  assert (forall T w, T = clt_u128 \/ T = clt_u256 \/ T = clt_u512 ->
    (let? r := (let? z := uint_try_from w pb in Ok (from_t T z)) in omap_err debug r) <> Panic) as Hw.
  { intros T w HT. rewrite obind_assoc. apply obind_safe; [apply uint_try_from_safe|]. intros z. cbn [obind]. parses. by apply wide_from_t_safe. }
  unfold big_int_try_from. repeat case_match; [apply Hw; tauto.. | done].
Qed.

Lemma transform_try_from_safe pb : transform_try_from pb <> Panic.
Proof.
  unfold transform_try_from. apply obind_safe; [parses|]. intros []; parses.
  - apply stored_value_try_from_safe.
  - apply named_keys_loop_safe.
  - unfold transform_error_try_from. parses.
  - apply big_int_try_from_safe.
  - case_match; parses; apply wide_into_t_safe; tauto.
Qed.

(** C28: a message parses or is refused, and what it parses to is well formed.
    Parsing an entry of a commit never panics. Whatever the message holds, an
    entry that is accepted has a key of the right length; a written account has a
    purse and names of the right form, at most [MAX_KEYS] distinct keys of weight at
    most 255 and a deployment threshold not above that of key management; names
    added or written with a contract are of the right form. *)
Theorem accepted_entries_formed pb :
  match transform_entry_try_from pb with
  | Ok (k, t) => key_portable k /\ transform_formed t
  | Err _ => True
  | Panic => False
  end.
Proof.
  destruct (transform_entry_try_from pb) as [[k t]|e|] eqn:He; [by apply entry_try_from_formed in He | done |].
  revert He. unfold transform_entry_try_from. parses; [apply key_try_from_safe | apply transform_try_from_safe].
Qed.
End safe.
