(* ===== verification/IpcMappings.v ===== *)
(** Conversions between the requests and results of the engine and the messages
    that carry them.  Sources:
    [engine-grpc-server/src/engine_server/mappings/mod.rs], [mappings/ipc/*.rs]. *)

From stdpp Require Import gmap.
From S2P Require Import Prelude BTreeMap Bytesrepr Uint Types CLValues Account StoredValue Transform.
From S2P Require Import Trie ProtocolData ExecutionError ExecutionResult EngineState Ipc StateMappings.

(** * Errors *)

Inductive MappingError :=
| InvalidStateHashLength (expected actual : Z)
| InvalidPublicKeyLength (expected actual : Z)
| InvalidDeployHashLength (expected actual : Z)
| ME_ParsingError (e : ParsingError)
| InvalidStateHash (msg : bytes)
| MissingPayload
| TryFromSliceError.

Definition PUBLIC_KEY_LENGTH : Z := 32.
Definition DEPLOY_HASH_LENGTH : Z := 32.

Definition invalid_public_key_length (actual : Z) : MappingError := InvalidPublicKeyLength PUBLIC_KEY_LENGTH actual.

Definition invalid_deploy_hash_length (actual : Z) : MappingError := InvalidDeployHashLength DEPLOY_HASH_LENGTH actual.

(** A length, in decimal. *)
Definition length_text (n : Z) : bytes := decimal 20 n.

#[global] Instance mapping_error_display : Display MappingError := fun e =>
  match e with
  | InvalidStateHashLength expected actual =>
      str "Invalid hash length: expected " ++ length_text expected ++ str ", actual " ++ length_text actual
  | InvalidPublicKeyLength expected actual =>
      str "Invalid public key length: expected " ++ length_text expected ++ str ", actual " ++ length_text actual
  | InvalidDeployHashLength expected actual =>
      str "Invalid deploy hash length: expected " ++ length_text expected ++ str ", actual " ++ length_text actual
  | ME_ParsingError message => str "Parsing error: " ++ message
  | InvalidStateHash message => str "Invalid hash: " ++ message
  | MissingPayload => str "Missing payload"
  | TryFromSliceError => str "Unable to convert from slice"
  end.

Definition engine_error_from_mapping {F : ForeignErrors} (e : MappingError) : EngineError :=
  match e with
  | InvalidStateHashLength expected actual => ES_InvalidHashLength expected actual
  | _ => ES_DeployError
  end.

(** [TryFrom<&[u8]>] for hashes and public keys: 32 bytes. *)
Definition bytes32_try_from (b : bytes) : option bytes := if zlen b =? 32 then Some b else None.

(** * Cost tables *)

Definition wasm_costs_into (c : WasmCosts) : ipc.ChainSpec_CostTable_WasmCosts :=
  ipc.mk_WasmCosts (wc_regular c) (wc_div c) (wc_mul c) (wc_mem c) (wc_initial_mem c) (wc_grow_mem c) (wc_memcpy c)
    (wc_max_stack_height c) (wc_opcodes_mul c) (wc_opcodes_div c).

Definition wasm_costs_from (pb : ipc.ChainSpec_CostTable_WasmCosts) : WasmCosts :=
  mk_wasm_costs (ipc.regular pb) (ipc.div pb) (ipc.mul pb) (ipc.mem pb) (ipc.initial_mem pb) (ipc.grow_mem pb)
    (ipc.memcpy pb) (ipc.max_stack_height pb) (ipc.opcodes_mul pb) (ipc.opcodes_div pb).

(** [take_wasm().into()]; the fields of an absent table are zero. *)
Definition take_wasm (pb : option ipc.ChainSpec_CostTable) : WasmCosts :=
  wasm_costs_from (default (ipc.mk_WasmCosts 0 0 0 0 0 0 0 0 0 0) (pb ≫= ipc.wasm)).

(** * Deploys *)

Definition payload_from (pb : ipc.DeployPayload_oneof_payload) : ExecutableDeployItem :=
  match pb with
  | ipc.deploy_code code args => ModuleBytes code args
  | ipc.stored_contract_hash hash args => StoredContractByHash hash args
  | ipc.stored_contract_name name args => StoredContractByName name args
  | ipc.stored_contract_uref uref args => StoredContractByURef uref args
  end.

Definition payload_into (edi : ExecutableDeployItem) : ipc.DeployPayload :=
  Some match edi with
       | ModuleBytes module_bytes args => ipc.deploy_code module_bytes args
       | StoredContractByHash hash args => ipc.stored_contract_hash hash args
       | StoredContractByName name args => ipc.stored_contract_name name args
       | StoredContractByURef uref args => ipc.stored_contract_uref uref args
       end.

(** [take_session().payload.map(Into::into).ok_or_else(...)]. *)
Definition take_payload (pb : option ipc.DeployPayload) : outcome MappingError ExecutableDeployItem :=
  ok_or (payload_from <$> default None pb) MissingPayload.

Definition public_key_try_from (raw : bytes) : outcome MappingError PublicKey :=
  ok_or (bytes32_try_from raw) (invalid_public_key_length (zlen raw)).

(** The elements of a [BTreeSet], in order. *)
Definition set_collect (keys : list PublicKey) : list PublicKey := bt_keys (bt_collect (map (fun k => (k, tt)) keys)).

Definition deploy_item_try_from (pb : ipc.DeployItem) : outcome MappingError DeployItem :=
  let? address := public_key_try_from (ipc.address pb) in
  let? session := take_payload (ipc.session pb) in
  let? payment := take_payload (ipc.payment pb) in
  let? authorization_keys := try_collect public_key_try_from (ipc.authorization_keys pb) in
  let? deploy_hash := ok_or (bytes32_try_from (ipc.deploy_hash pb)) (invalid_deploy_hash_length (zlen (ipc.deploy_hash pb))) in
  Ok (mk_deploy_item address session payment (ipc.gas_price pb) (set_collect authorization_keys) deploy_hash).

Definition deploy_item_into (item : DeployItem) : ipc.DeployItem :=
  ipc.mk_DeployItem (di_address item) (Some (payload_into (di_session item))) (Some (payload_into (di_payment item)))
    (di_gas_price item) (di_authorization_keys item) (di_deploy_hash item).

Section mappings.
Context {dbg : DebugText} {F : ForeignErrors} {ut : UintText}.
Context `{!Debug CLValueError, !Debug AddKeyFailure, !Display SetThresholdFailure}.
Context `{!Debug Key, !Debug ExecError, !Debug InterpreterError, !Display StorageError, !Display EngineError}.

(** A deploy that does not parse is a failed precondition in its place. *)
Definition parsed_deploy {E} (deploy_item : ipc.DeployItem) : outcome E (DeployItem + ExecutionResult) :=
  match deploy_item_try_from deploy_item with
  | Ok item => Ok (inl item)
  | Err err => Ok (inr (precondition_failure (engine_error_from_mapping err)))
  | Panic => Panic
  end.

Definition execute_request_try_from (request : ipc.ExecuteRequest) : outcome ipc.ExecuteResponse ExecuteRequest :=
  let parent_state_hash := ipc.parent_state_hash request in
  if negb (zlen parent_state_hash =? Z.of_nat BLAKE2B_DIGEST_LENGTH) then Err (ipc.missing_parent parent_state_hash)
  else
    let? hash := ok_or (bytes32_try_from parent_state_hash) (ipc.missing_parent parent_state_hash) in
    let? deploys := try_collect parsed_deploy (ipc.deploys request) in
    Ok (mk_execute_request hash (ipc.block_time request) deploys
      (take_protocol_version (ipc.execute_protocol_version request))).

(** A deploy that did not parse becomes an empty message. *)
Definition execute_request_into (req : ExecuteRequest) : ipc.ExecuteRequest :=
  ipc.mk_ExecuteRequest (er_parent_state_hash req) (er_block_time req)
    (map (fun res =>
      match res with
      | inl deploy_item => deploy_item_into deploy_item
      | inr _ => ipc.mk_DeployItem [] None None 0 [] []
      end) (er_deploys req))
    (Some (protocol_version_into (er_protocol_version req))).

(** * Effects and results *)

Definition op_entry_into (e : Key * Op) : ipc.OpEntry :=
  ipc.mk_OpEntry (Some (key_into e.1))
    (Some (Some match e.2 with
                | Op_Read => ipc.read_op
                | Op_Write => ipc.write_op
                | Op_Add => ipc.add_op
                | Op_NoOp => ipc.noop_op
                end)).

Definition execution_effect_into {E} (effect : ExecutionEffect) : outcome E ipc.ExecutionEffect :=
  let pb_op_map := map op_entry_into (map_to_list (effect_ops effect)) in
  let? pb_transform_map := try_collect transform_entry_into (map_to_list (effect_transforms effect)) in
  Ok (ipc.mk_ExecutionEffect pb_op_map pb_transform_map).

Inductive DeployErrorType := DeployErrorType_None | OutOfGas | Exec (msg : bytes).

Definition deploy_result {E} (error_type : DeployErrorType) (effect : ExecutionEffect) (cost : Z)
    : outcome E ipc.DeployResult :=
  let error := match error_type with
               | DeployErrorType_None => None
               | OutOfGas => Some (Some ipc.gas_error)
               | Exec msg => Some (Some (ipc.exec_error msg))
               end in
  let? effects := execution_effect_into effect in
  Ok (Some (ipc.execution_result (ipc.mk_ExecutionResult (Some effects) error (Some (uint_into 512 cost))))).

Definition execution_success {E} (effect : ExecutionEffect) (cost : Z) : outcome E ipc.DeployResult :=
  deploy_result DeployErrorType_None effect cost.

Definition precondition_error {E} (msg : bytes) : outcome E ipc.DeployResult := Ok (Some (ipc.precondition_failure msg)).

Definition execution_error {E} (msg : bytes) (effect : ExecutionEffect) (cost : Z) : outcome E ipc.DeployResult :=
  deploy_result (Exec msg) effect cost.

Definition out_of_gas_error {E} (effect : ExecutionEffect) (cost : Z) : outcome E ipc.DeployResult :=
  deploy_result OutOfGas effect cost.

Definition exit_code_text (status : Z) : bytes := str "Exit code: " ++ decimal 10 status.

Definition key_not_found_text (key : Key) : bytes := str "Key " ++ debug key ++ str " not found.".

(** The error of a host function is looked for in a trap of the interpreter. *)
Definition interpreter_error_text (error : InterpreterError) : bytes :=
  match error with
  | IE_Host (EE_Revert status) => exit_code_text status
  | IE_Host (EE_KeyNotFound key) => key_not_found_text key
  | IE_Host EE_InvalidContext => str "Invalid execution context."
  | IE_Host other => debug other
  | error => debug error
  end.

Definition exec_error_result {E} (exec_error : ExecError) (effect : ExecutionEffect) (cost : Z) : outcome E ipc.DeployResult :=
  match exec_error with
  | EE_GasLimit => out_of_gas_error effect cost
  | EE_KeyNotFound key => execution_error (key_not_found_text key) effect cost
  | EE_Revert status => execution_error (exit_code_text status) effect cost
  | EE_Interpreter error => execution_error (interpreter_error_text error) effect cost
  | other => execution_error (debug other) effect cost
  end.

Definition engine_error_result {E} (engine_state_error : EngineError) (effect : ExecutionEffect) (cost : Z)
    : outcome E ipc.DeployResult :=
  match engine_state_error with
  | ES_InvalidHashLength _ _ | ES_InvalidPublicKeyLength _ _ | ES_InvalidProtocolVersion _ | ES_InvalidUpgradeConfig
  | ES_WasmPreprocessingError _ | ES_WasmSerializationError _ | ES_ExecError EE_DeploymentAuthorizationFailure
  | ES_AuthorizationError => precondition_error (display engine_state_error)
  | ES_StorageError storage_error => execution_error (display storage_error) effect cost
  | ES_MissingSystemContractError msg => execution_error msg effect cost
  | ES_InsufficientPaymentError | ES_DeployError | ES_FinalizationError | ES_SerializationError _ | ES_MintError _ =>
      execution_error (display engine_state_error) effect cost
  | ES_ExecError exec_error => exec_error_result exec_error effect cost
  end.

Definition deploy_result_from {E} (r : ExecutionResult) : outcome E ipc.DeployResult :=
  match r with
  | Success effect cost => execution_success effect cost
  | ExecutionResult.Failure error effect cost => engine_error_result error effect cost
  end.

(** * Bonds and genesis *)

Definition bond_into (e : PublicKey * Z) : ipc.Bond := ipc.mk_Bond e.1 (Some (uint_into 512 e.2)).

(** [take_stake().try_into()?], also for balances. *)
Definition take_u512 (pb : option state.BigInt) : outcome MappingError Z :=
  omap_err ME_ParsingError (uint_try_from 512 (default (state.mk_BigInt [] 0) pb)).

Definition bond_try_from (pb : ipc.Bond) : outcome MappingError (PublicKey * Z) :=
  let? public_key := public_key_try_from (ipc.validator_public_key pb) in
  let? stake := take_u512 (ipc.stake pb) in
  Ok (public_key, stake).

Definition genesis_account_into (a : GenesisAccount) : ipc.ChainSpec_GenesisAccount :=
  ipc.mk_GenesisAccount (ga_public_key a) (Some (uint_into 512 (ga_balance a))) (Some (uint_into 512 (ga_bonded_amount a))).

Definition genesis_account_try_from (pb : ipc.ChainSpec_GenesisAccount) : outcome MappingError GenesisAccount :=
  let? public_key := public_key_try_from (ipc.genesis_public_key pb) in
  let? balance := take_u512 (ipc.balance pb) in
  let? bonded_amount := take_u512 (ipc.bonded_amount pb) in
  Ok (mk_genesis_account public_key balance bonded_amount).

Definition genesis_config_into (c : GenesisConfig) : ipc.ChainSpec_GenesisConfig :=
  ipc.mk_GenesisConfig (gc_name c) (gc_timestamp c) (Some (protocol_version_into (gc_protocol_version c)))
    (gc_mint_installer_bytes c) (gc_proof_of_stake_installer_bytes c) (map genesis_account_into (gc_accounts c))
    (Some (ipc.mk_CostTable (Some (wasm_costs_into (gc_wasm_costs c))))) None.

Definition genesis_config_try_from (pb : ipc.ChainSpec_GenesisConfig) : outcome MappingError GenesisConfig :=
  let protocol_version := take_protocol_version (ipc.genesis_protocol_version pb) in
  let? accounts := try_collect genesis_account_try_from (ipc.accounts pb) in
  let wasm_costs := take_wasm (ipc.costs pb) in
  Ok (mk_genesis_config (ipc.genesis_name pb) (ipc.timestamp pb) protocol_version (ipc.mint_installer pb)
    (ipc.pos_installer pb) accounts wasm_costs).

(** * Queries and upgrades *)

Record QueryRequest := mk_query_request { qr_state_hash : Blake2bHash; qr_key : Key; qr_path : list bytes }.

Definition query_request_try_from (query_request : ipc.QueryRequest) : outcome MappingError QueryRequest :=
  let state_hash := ipc.state_hash query_request in
  let? _ := oguard (negb (zlen state_hash =? Z.of_nat BLAKE2B_DIGEST_LENGTH))
    (InvalidStateHashLength (Z.of_nat BLAKE2B_DIGEST_LENGTH) (zlen state_hash)) in
  let? state_hash := ok_or (bytes32_try_from state_hash) TryFromSliceError in
  let? key := omap_err ME_ParsingError (key_try_from (default None (ipc.base_key query_request))) in
  Ok (mk_query_request state_hash key (ipc.path query_request)).

(** [None] for an empty field. *)
Definition non_empty (b : bytes) : option bytes := match b with [] => None | _ => Some b end.

Definition upgrade_request_try_from (pb : ipc.UpgradeRequest) : outcome MappingError UpgradeConfig :=
  let? pre_state_hash :=
    ok_or (bytes32_try_from (ipc.upgrade_parent_state_hash pb)) (InvalidStateHash (str "pre_state_hash")) in
  let current_protocol_version := take_protocol_version (ipc.current_protocol_version pb) in
  let upgrade_point := default (ipc.mk_UpgradePoint None None None None None) (ipc.upgrade_point pb) in
  let new_protocol_version := take_protocol_version (ipc.upgrade_protocol_version upgrade_point) in
  let '(upgrade_installer_bytes, upgrade_installer_args) :=
    match ipc.upgrade_installer upgrade_point with
    | None => (None, None)
    | Some upgrade_installer => (non_empty (ipc.code upgrade_installer), non_empty (ipc.args upgrade_installer))
    end in
  let wasm_costs := match ipc.new_costs upgrade_point with
                    | None => None
                    | Some new_costs => Some (take_wasm (Some new_costs))
                    end in
  let activation_point := ipc.activation_point upgrade_point in
  Ok (mk_upgrade_config pre_state_hash current_protocol_version new_protocol_version upgrade_installer_args
    upgrade_installer_bytes wasm_costs activation_point).
End mappings.

(** * Requests cross unchanged *)

Definition deploy_item_portable (item : DeployItem) : Prop :=
  is_bytes 32 (di_address item) /\ is_bytes 32 (di_deploy_hash item) /\ Forall (is_bytes 32) (di_authorization_keys item)
  /\ StronglySorted (fun a b => ord_cmp a b = Lt) (di_authorization_keys item).

Lemma bytes32_ok b : is_bytes 32 b -> bytes32_try_from b = Some b.
Proof. intros Hb. unfold bytes32_try_from, zlen. by rewrite Hb. Qed.

Lemma public_key_ok b : is_bytes 32 b -> public_key_try_from b = Ok b.
Proof. intros Hb. unfold public_key_try_from. by rewrite bytes32_ok. Qed.

Lemma try_collect_map {E A B C} (f : A -> B) (g : B -> outcome E C) (h : A -> C) l :
  Forall (fun a => g (f a) = Ok (h a)) l -> try_collect g (map f l) = Ok (map h l).
Proof. induction 1 as [|a l Ha _ IH]; [done|]. cbn. by rewrite Ha, IH. Qed.

Lemma try_collect_id {E A B} (f : A -> B) (g : B -> outcome E A) l :
  Forall (fun a => g (f a) = Ok a) l -> try_collect g (map f l) = Ok l.
Proof. intros Hl. rewrite (try_collect_map f g id) by done. by rewrite map_id. Qed.

Lemma set_collect_sorted keys : StronglySorted (fun a b => ord_cmp a b = Lt) keys -> set_collect keys = keys.
Proof.
  intros Hs. unfold set_collect. rewrite bt_collect_sorted.
  - unfold bt_keys. rewrite map_map. apply map_id.
  - unfold bt_wf. induction Hs as [|k keys _ IH Hk]; [constructor|]. constructor; [done|].
    apply Forall_map. by eapply Forall_impl; [exact Hk|].
Qed.

#[export] Instance deploy_item_mapping : Mapping deploy_item_into deploy_item_try_from deploy_item_portable.
Proof.
  intros [address session payment price keys hash] (Ha & Hh & Hk & Hs). cbn in *. unfold deploy_item_try_from.
  cbn [deploy_item_into ipc.address ipc.session ipc.payment ipc.authorization_keys ipc.deploy_hash ipc.gas_price
    di_address di_session di_payment di_gas_price di_authorization_keys di_deploy_hash].
  rewrite (public_key_ok address Ha). cbn [obind].
  assert (forall e, take_payload (Some (payload_into e)) = Ok e) as Ep by by intros [].
  rewrite !Ep. cbn [obind].
  rewrite <- (map_id keys) at 1. rewrite (try_collect_id id public_key_try_from)
    by (eapply Forall_impl; [exact Hk | intros b Hb; by apply public_key_ok]).
  cbn [obind]. rewrite bytes32_ok by done. cbn [ok_or obind]. by rewrite set_collect_sorted.
Qed.

Section laws.
Context {dbg : DebugText} {F : ForeignErrors} `{UintTextLaws}.
Context `{!Debug CLValueError, !Debug AddKeyFailure, !Display SetThresholdFailure}.
Context `{!Debug Key, !Debug ExecError, !Debug InterpreterError, !Display StorageError, !Display EngineError}.

Definition execute_request_portable (r : ExecuteRequest) : Prop :=
  is_bytes 32 (er_parent_state_hash r)
  /\ Forall (fun d => match d with inl item => deploy_item_portable item | inr _ => True end) (er_deploys r).

(** A request as it is read back: whatever stood in the place of a deploy that had not
    parsed, an empty deploy was sent, and that does not parse. *)
Definition resent (r : ExecuteRequest) : ExecuteRequest :=
  mk_execute_request (er_parent_state_hash r) (er_block_time r)
    (map (fun d => match d with inl item => inl item | inr _ => inr (precondition_failure ES_DeployError) end) (er_deploys r))
    (er_protocol_version r).

Lemma execute_request_read_back r :
  execute_request_portable r -> execute_request_try_from (execute_request_into r) = Ok (resent r).
Proof.
  destruct r as [hash time deploys v]. intros [Hh Hd]. cbn in Hh, Hd. unfold execute_request_try_from.
  cbn [execute_request_into ipc.parent_state_hash ipc.block_time ipc.deploys ipc.execute_protocol_version
    er_parent_state_hash er_block_time er_deploys er_protocol_version].
  unfold zlen. rewrite Hh. change (negb (Z.of_nat 32 =? Z.of_nat BLAKE2B_DIGEST_LENGTH)) with false.
  cbn iota. rewrite bytes32_ok by done. cbn [ok_or obind].
  rewrite (try_collect_map _ _ (fun d => match d with inl item => inl item | inr _ => inr (precondition_failure ES_DeployError) end)).
  - cbn [obind]. by rewrite protocol_version_roundtrip.
  - eapply Forall_impl; [exact Hd|]. intros [item|r] Hi; [|done]. unfold parsed_deploy. by rewrite (deploy_item_mapping item Hi).
Qed.

Lemma take_u512_ok z : is_unsigned 512 z -> take_u512 (Some (uint_into 512 z)) = Ok z.
Proof. intros Hz. unfold take_u512. cbn [from_option id]. by rewrite uint_try_from_ok by tauto. Qed.

#[export] Instance bond_mapping : Mapping bond_into bond_try_from (pair_valid (is_bytes 32) (is_unsigned 512)).
Proof.
  intros [k z] [Hk Hz]. unfold bond_try_from. cbn [bond_into ipc.validator_public_key ipc.stake fst snd].
  rewrite (public_key_ok k Hk). cbn [obind]. by rewrite take_u512_ok.
Qed.

Definition genesis_account_portable (a : GenesisAccount) : Prop :=
  is_bytes 32 (ga_public_key a) /\ is_unsigned 512 (ga_balance a) /\ is_unsigned 512 (ga_bonded_amount a).

#[export] Instance genesis_account_mapping :
  Mapping genesis_account_into genesis_account_try_from genesis_account_portable.
Proof.
  intros [k b d] (Hk & Hb & Hd). cbn in *. unfold genesis_account_try_from.
  cbn [genesis_account_into ipc.genesis_public_key ipc.balance ipc.bonded_amount ga_public_key ga_balance ga_bonded_amount].
  rewrite (public_key_ok k Hk). cbn [obind]. rewrite !take_u512_ok by done. done.
Qed.

#[export] Instance genesis_config_mapping :
  Mapping genesis_config_into genesis_config_try_from (fun c => Forall genesis_account_portable (gc_accounts c)).
Proof.
  intros [name time v mint pos accounts costs] Ha. cbn in Ha. unfold genesis_config_try_from.
  cbn [genesis_config_into ipc.genesis_name ipc.timestamp ipc.genesis_protocol_version ipc.mint_installer ipc.pos_installer
    ipc.accounts ipc.costs gc_name gc_timestamp gc_protocol_version gc_mint_installer_bytes gc_proof_of_stake_installer_bytes gc_accounts gc_wasm_costs].
  rewrite try_collect_id by (eapply Forall_impl; [exact Ha | intros a Hp; by apply genesis_account_mapping]).
  cbn [obind]. rewrite protocol_version_roundtrip. by destruct costs.
Qed.

(** ** Results *)

(** The errors reported as failed preconditions. *)
Definition precondition_reported (e : EngineError) : bool :=
  match e with
  | ES_InvalidHashLength _ _ | ES_InvalidPublicKeyLength _ _ | ES_InvalidProtocolVersion _ | ES_InvalidUpgradeConfig
  | ES_WasmPreprocessingError _ | ES_WasmSerializationError _ | ES_ExecError EE_DeploymentAuthorizationFailure
  | ES_AuthorizationError => true
  | _ => false
  end.

Definition effects_portable (effect : ExecutionEffect) : Prop :=
  map_Forall (fun k t => key_portable k /\ transform_portable t) (effect_transforms effect).

(** The transforms in a message are those of an effect, in whatever order they are
    read. *)
Definition effects_carried (pb : ipc.ExecutionEffect) (effect : ExecutionEffect) : Prop :=
  forall l, l ≡ₚ ipc.transform_map pb -> transform_map_try_from l = Ok (effect_transforms effect).

(** The text of a failure that is not a precondition; a revert, an unknown key and a
    wrong context in a host function are found in the trap of the interpreter. *)
Definition failure_text (e : EngineError) : bytes :=
  match e with
  | ES_StorageError storage_error => display storage_error
  | ES_MissingSystemContractError msg => msg
  | ES_ExecError (EE_Revert status) | ES_ExecError (EE_Interpreter (IE_Host (EE_Revert status))) =>
      str "Exit code: " ++ decimal 10 status
  | ES_ExecError (EE_KeyNotFound key) | ES_ExecError (EE_Interpreter (IE_Host (EE_KeyNotFound key))) =>
      str "Key " ++ debug key ++ str " not found."
  | ES_ExecError (EE_Interpreter (IE_Host EE_InvalidContext)) => str "Invalid execution context."
  | ES_ExecError (EE_Interpreter (IE_Host error)) => debug error
  | ES_ExecError (EE_Interpreter error) => debug error
  | ES_ExecError error => debug error
  | e => display e
  end.

(** The error of a result: only gas that runs out outside the interpreter is an
    error of its own. *)
Definition failure_reported (r : ExecutionResult) : option ipc.DeployError :=
  match r with
  | Success _ _ => None
  | ExecutionResult.Failure (ES_ExecError EE_GasLimit) _ _ => Some (Some ipc.gas_error)
  | ExecutionResult.Failure e _ _ => Some (Some (ipc.exec_error (failure_text e)))
  end.

(** The failed precondition a result is reported as. *)
Definition precondition_of (r : ExecutionResult) : option EngineError :=
  match r with
  | ExecutionResult.Failure e _ _ => if precondition_reported e then Some e else None
  | Success _ _ => None
  end.

(** What the node is told of a result: a failed precondition with its text, or the
    error and, when they can be represented, the effects and the cost. *)
Definition reported (r : ExecutionResult) (pb : ipc.DeployResult) : Prop :=
  match precondition_of r with
  | Some e => pb = Some (ipc.precondition_failure (display e))
  | None =>
      exists er effects, pb = Some (ipc.execution_result er) /\ ipc.effects er = Some effects
        /\ ipc.error er = failure_reported r
        /\ (is_unsigned 512 (result_cost r) -> take_u512 (ipc.cost er) = Ok (result_cost r))
        /\ (effects_portable (result_effect r) -> effects_carried effects (result_effect r))
  end.

(** Effects with a value that could not be serialized have no message. *)
Definition unsendable (effect : ExecutionEffect) : Prop :=
  exists k e, effect_transforms effect !! k = Some (Transform.Failure (TE_Serialization e)).

Definition unreportable (r : ExecutionResult) : Prop := precondition_of r = None /\ unsendable (result_effect r).

Lemma transform_sent {E} t : (forall e, t <> Transform.Failure (TE_Serialization e)) -> exists m, transform_into (E := E) t = Ok m.
Proof. intros Ht. destruct t as [| | | | | | | |f]; try (by eexists). destruct f as [e|m]; [by destruct (Ht e) | by eexists]. Qed.

Lemma try_collect_sent {E A B} (f : A -> outcome E B) l :
  Forall (fun a => exists b, f a = Ok b) l -> exists bs, try_collect f l = Ok bs.
Proof. induction 1 as [|a l [b Hb] _ [bs Hbs]]; [by eexists|]. exists (b :: bs). cbn. by rewrite Hb, Hbs. Qed.

Lemma try_collect_panics {A B} (f : A -> outcome Empty_set B) l : Exists (fun a => f a = Panic) l -> try_collect f l = Panic.
Proof.
  induction 1 as [a l Ha|a l _ IH]; cbn; [by rewrite Ha|]. destruct (f a) as [b|[]|]; [|done]. cbn. by rewrite IH.
Qed.

Lemma unsendable_panics effect : unsendable effect -> execution_effect_into (E := Empty_set) effect = Panic.
Proof.
  intros (k & e & Hk). unfold execution_effect_into. rewrite try_collect_panics; [done|].
  apply Exists_exists. exists (k, Transform.Failure (TE_Serialization e)). split; [by apply elem_of_map_to_list | done].
Qed.

Lemma sendable_sent effect :
  ~ unsendable effect -> exists pb, execution_effect_into (E := Empty_set) effect = Ok pb.
Proof.
  intros Hs. unfold execution_effect_into.
  destruct (try_collect_sent (transform_entry_into (E := Empty_set)) (map_to_list (effect_transforms effect))) as [pbs ->];
    [|by eexists].
  apply Forall_forall. intros [k t] Hin%elem_of_map_to_list. unfold transform_entry_into. cbn [fst snd].
  destruct (transform_sent (E := Empty_set) t) as [m ->]; [|by eexists]. intros e ->. apply Hs. by exists k, e.
Qed.

Lemma execution_effect_crosses {E} effect :
  effects_portable effect -> exists pb, execution_effect_into (E := E) effect = Ok pb /\ effects_carried pb effect.
Proof.
  intros Hp. destruct (transform_map_roundtrip (E := E) (effect_transforms effect) _ (reflexivity _) Hp) as (pbs & Ep & _).
  unfold execution_effect_into. rewrite Ep. eexists. split; [reflexivity|]. intros l Hl. cbn in Hl.
  apply try_collect_ok in Ep. apply Forall2_flip in Ep.
  destruct (Permutation_Forall2 (symmetry Hl) Ep) as (l' & Hl' & El). apply Forall2_flip, try_collect_ok in El.
  destruct (transform_map_roundtrip (E := E) (effect_transforms effect) l' (symmetry Hl') Hp) as (pbs' & Ep' & Er).
  rewrite El in Ep'. by apply Ok_inj in Ep' as <-.
Qed.

(** The message of a result that is not a failed precondition. *)
Lemma deploy_result_reported ty r :
  precondition_of r = None ->
  match ty with
  | DeployErrorType_None => None
  | OutOfGas => Some (Some ipc.gas_error)
  | Exec msg => Some (Some (ipc.exec_error msg))
  end = failure_reported r ->
  (unsendable (result_effect r) -> deploy_result (E := Empty_set) ty (result_effect r) (result_cost r) = Panic)
  /\ (~ unsendable (result_effect r) ->
      exists pb, deploy_result (E := Empty_set) ty (result_effect r) (result_cost r) = Ok pb /\ reported r pb).
Proof.
  intros Hn Hf. unfold deploy_result, reported. rewrite Hn, Hf. split.
  - intros Hu. by rewrite unsendable_panics.
  - intros Hs. destruct (sendable_sent _ Hs) as [effects Ee]. rewrite Ee. eexists. split; [reflexivity|].
    eexists _, effects. split; [reflexivity|]. cbn. split; [done|]. split; [done|]. split; [apply take_u512_ok|].
    intros Hp. destruct (execution_effect_crosses (E := Empty_set) _ Hp) as (effects' & Ee' & Hc). rewrite Ee in Ee'. by apply Ok_inj in Ee' as <-.
Qed.

(** The node learns the cost, the effects and the failure of every result, or
    that a precondition failed; effects without a message are not survived. *)
Lemma result_reported r :
  (unreportable r -> deploy_result_from (E := Empty_set) r = Panic)
  /\ (~ unreportable r -> exists pb, deploy_result_from (E := Empty_set) r = Ok pb /\ reported r pb).
Proof.
  destruct (precondition_of r) as [e|] eqn:Ep.
  - split; [intros [Hx _]; congruence|]. intros _. unfold reported. rewrite Ep. destruct r as [e' effect cost|]; [|done].
    cbn in Ep. destruct (precondition_reported e') eqn:Er; [|done]. injection Ep as ->. cbn [deploy_result_from].
    unfold engine_error_result, precondition_error. destruct e; try discriminate Er; try (by eexists).
    destruct e; try discriminate Er. by eexists.
  - assert (exists ty, deploy_result_from (E := Empty_set) r = deploy_result ty (result_effect r) (result_cost r)
      /\ match ty with
         | DeployErrorType_None => None
         | OutOfGas => Some (Some ipc.gas_error)
         | Exec msg => Some (Some (ipc.exec_error msg))
         end = failure_reported r) as (ty & -> & Hf).
    { destruct r as [e effect cost|effect cost]; cbn [deploy_result_from result_effect result_cost]; [|by exists DeployErrorType_None].
      cbn in Ep. unfold engine_error_result, exec_error_result, interpreter_error_text, execution_error, out_of_gas_error.
      destruct e; try discriminate Ep; try (by eexists (Exec _)). repeat case_match; try discriminate Ep;
        first [by exists OutOfGas | by eexists (Exec _)]. }
    destruct (deploy_result_reported ty r Ep Hf) as [Hu Hs]. split; [intros [_ Hx]; by apply Hu|].
    intros Hx. apply Hs. intros Hy. by apply Hx.
Qed.

Lemma public_key_error b e : public_key_try_from b = Err e -> engine_error_from_mapping e = ES_DeployError.
Proof. unfold public_key_try_from. destruct (bytes32_try_from b); [done|]. by intros [= <-]. Qed.

Lemma deploy_item_error pb e : deploy_item_try_from pb = Err e -> engine_error_from_mapping e = ES_DeployError.
Proof.
  assert (forall o e, take_payload o = Err e -> engine_error_from_mapping e = ES_DeployError) as Hp.
  { intros o e'. unfold take_payload. destruct (payload_from <$> _); [done|]. by intros [= <-]. }
  assert (forall l e, try_collect public_key_try_from l = Err e -> engine_error_from_mapping e = ES_DeployError) as Hc.
  { induction l as [|b l IH]; [done|]. intros e' He. cbn in He. apply obind_err in He as [He|(k & _ & He)]; [by apply public_key_error in He|].
    apply obind_err in He as [He|(ks & _ & [=])]. by apply IH. }
  unfold deploy_item_try_from. intros He.
  apply obind_err in He as [He|(? & _ & He)]; [by apply public_key_error in He|].
  apply obind_err in He as [He|(? & _ & He)]; [by apply Hp in He|].
  apply obind_err in He as [He|(? & _ & He)]; [by apply Hp in He|].
  apply obind_err in He as [He|(? & _ & He)]; [by apply Hc in He|].
  apply obind_err in He as [He|(? & _ & [=])].
  destruct (bytes32_try_from _); [done|]. by injection He as <-.
Qed.

(** A deploy that does not parse is reported as executed, at no cost and without
    effects. *)
Lemma unparsed_deploy_reported {E E'} pb r :
  parsed_deploy (E := E) pb = Ok (inr r) ->
  r = precondition_failure ES_DeployError
  /\ deploy_result_from (E := E') r = execution_error (display ES_DeployError) effect_default 0.
Proof.
  unfold parsed_deploy. destruct (deploy_item_try_from pb) as [item|e|] eqn:Ed; [done| |done].
  intros [= <-]. by rewrite (deploy_item_error pb e Ed).
Qed.

(** Gas that runs out inside a contract is reported as an error of the execution:
    the trap of the interpreter is not looked into for it. *)
Lemma out_of_gas_reported {E} effect cost :
  deploy_result_from (E := E) (ExecutionResult.Failure (ES_ExecError (EE_Interpreter (IE_Host EE_GasLimit))) effect cost)
    = execution_error (debug (EE_GasLimit : ExecError)) effect cost.
Proof. done. Qed.

(** C29: values cross unchanged. Every stored value, every entry of effects, every
    genesis configuration and every bond whose parts have their lengths and ranges and
    in which no reference has the empty set of rights is read back from its message
    as it was. The exceptions are an entry of effects for a value that could not be
    serialized, whose message is not built (the engine panics), and in a request to execute the
    deploys that had not parsed: each is sent as an empty deploy and read back as
    the failed precondition [DeployError], whatever the failure was; the rest of the
    request is read back as it was. *)
Theorem messages_roundtrip :
  (forall v, stored_value_portable v -> stored_value_try_from (stored_value_into v) = Ok v)
  /\ (forall k t, key_portable k -> transform_portable t ->
        exists m, transform_entry_into (E := Empty_set) (k, t) = Ok m /\ transform_entry_try_from m = Ok (k, t))
  /\ (forall k e, transform_entry_into (E := Empty_set) (k, Transform.Failure (TE_Serialization e)) = Panic)
  /\ (forall r, execute_request_portable r -> execute_request_try_from (execute_request_into r) = Ok (resent r))
  /\ (forall c, Forall genesis_account_portable (gc_accounts c) -> genesis_config_try_from (genesis_config_into c) = Ok c)
  /\ (forall b, pair_valid (is_bytes 32) (is_unsigned 512) b -> bond_try_from (bond_into b) = Ok b).
Proof.
  split; [apply stored_value_mapping|]. split; [apply transform_entry_roundtrip|]. split; [done|].
  split; [apply execute_request_read_back|]. split; [apply genesis_config_mapping | apply bond_mapping].
Qed.
End laws.
