(* ===== verification/EngineServer.v ===== *)
(** The service the node talks to: each request is converted, given to the engine,
    and answered with what the engine returned.  Sources:
    [engine-grpc-server/src/engine_server/mod.rs]; logging and durations are left
    out. *)

From stdpp Require Import gmap.
From S2P Require Import Prelude BTreeMap Bytesrepr Uint Types CLValues Account StoredValue Transform.
From S2P Require Import Trie TrieStore TrieSpec TrieWrite GlobalState TrackingCopy Execution Mint ApiError ProtocolData ExecutionError RuntimeContext.
From S2P Require Import ExtractURefs Runtime ExecutionResult TrackingCopyExt Executor Stakes PosContract EngineState InMemoryState.
From S2P Require Import Ipc StateMappings IpcMappings.

Section server.
Context {L G Mem Module : Type} `{LinkedHashMap L, Rng G} {meter : Meter} {dbg : DebugText} {qtext : QueryText}.
Context {hasher : Hasher} {F : ForeignErrors} `{!Platform Mem Module, !WasmPrep Module} {alloc : Allocator}.
Context {S E : Type} `{!StateProvider S E} {text : StakeText} {ut : UintText}.
Context (into_error : E -> ExecError) (from_state_error : E -> EngineError).
Context (overflow_checks : bool).
Context (invoke_call : (Key -> outcome E (option StoredValue)) -> Module -> eff (Runtime L G Mem Module) InterpreterError unit).
Context `{!Debug CLValueError, !Debug AddKeyFailure, !Display SetThresholdFailure}.
Context `{!Debug Key, !Debug ExecError, !Debug InterpreterError, !Display StorageError, !Display EngineError}.
Context `{!Debug MappingError, !Debug EngineError, !Debug bytes, !Display Bytesrepr.Error, !Debug Bytesrepr.Error}.
Context `{!Display GenesisResult, !Display UpgradeResult}.

#[local] Abbreviation Engine := (EngineState S Module).
#[local] Abbreviation Handler := (eff Engine Empty_set).

Definition DEFAULT_PROTOCOL_VERSION : ProtocolVersion := V1_0_0.

(** * Queries *)

Definition query_response (result : outcome EngineError QueryResult) : outcome Empty_set ipc.QueryResponse :=
  match result with
  | Ok (QR_Success value) =>
      match stored_value_to_bytes value with
      | Ok serialized_value => Ok (ipc.query_success serialized_value)
      | Err error_msg => Ok (ipc.query_failure (str "Failed to serialize StoredValue: " ++ display error_msg))
      | Panic => Panic
      end
  | Ok (QR_ValueNotFound full_path) => Ok (ipc.query_failure (str "Value not found: " ++ debug full_path))
  | Ok QR_RootNotFound => Ok (ipc.query_failure (str "Root not found"))
  | Err err => Ok (ipc.query_failure (debug err))
  | Panic => Panic
  end.

Definition query (query_request : ipc.QueryRequest) : Handler ipc.QueryResponse := fun self =>
  (match query_request_try_from query_request with
   | Ok request =>
       query_response (run_query (L := L) into_error (qr_state_hash request) (qr_key request) (qr_path request) self)
   | Err err => Ok (ipc.query_failure (debug err))
   | Panic => Panic
   end, self).

(** * Executions *)

Definition execute (exec_request : ipc.ExecuteRequest) : Handler ipc.ExecuteResponse :=
  match execute_request_try_from exec_request with
  | Err err => eret err
  | Panic => elift Panic
  | Ok exec_request =>
      let! results := etry (run_execute into_error invoke_call exec_request) in
      match results with
      | inr error => eret (ipc.missing_parent error)
      | inl results =>
          let! protobuf_results := elift (try_collect deploy_result_from results) in
          eret (ipc.execute_success protobuf_results)
      end
  end.

(** * Commits *)

(** Versions before the first are taken as the first. *)
Definition commit_version (pb : option state.ProtocolVersion) : ProtocolVersion :=
  let protocol_version := take_protocol_version pb in
  if version_le DEFAULT_PROTOCOL_VERSION protocol_version then protocol_version else DEFAULT_PROTOCOL_VERSION.

Definition commit_response (pre_state_hash : Blake2bHash) (result : CommitResult + EngineError) : ipc.CommitResponse :=
  match result with
  | inl (CR_Success state_root bonded_validators) => ipc.commit_success state_root (map bond_into bonded_validators)
  | inl CR_RootNotFound => ipc.missing_prestate pre_state_hash
  | inl (CR_KeyNotFound key) => ipc.key_not_found (key_into key)
  | inl (CR_TypeMismatch m) => ipc.type_mismatch (type_mismatch_into m)
  | inl (CR_Serialization error) => ipc.failed_transform (debug error)
  | inr error => ipc.failed_transform (debug error)
  end.

Definition commit (commit_request : ipc.CommitRequest) : Handler ipc.CommitResponse :=
  let protocol_version := commit_version (ipc.commit_protocol_version commit_request) in
  match bytes32_try_from (ipc.prestate_hash commit_request) with
  | None => eret (ipc.failed_transform (str "Could not parse pre-state hash"))
  | Some pre_state_hash =>
      match transform_map_try_from (ipc.commit_effects commit_request) with
      | Err error_message => eret (ipc.failed_transform error_message)
      | Panic => elift Panic
      | Ok transforms =>
          let! result := etry (apply_effect from_state_error protocol_version pre_state_hash transforms) in
          eret (commit_response pre_state_hash result)
      end
  end.

(** * Genesis and upgrades *)

Definition run_genesis (genesis_config : ipc.ChainSpec_GenesisConfig) : Handler ipc.GenesisResponse :=
  match genesis_config_try_from genesis_config with
  | Err error => eret (ipc.genesis_failed_deploy (display error))
  | Panic => elift Panic
  | Ok genesis_config =>
      let! result := etry (commit_genesis into_error invoke_call genesis_config) in
      match result with
      | inl (GR_Success post_state_hash effect) =>
          let! effect := elift (execution_effect_into effect) in
          eret (ipc.genesis_success post_state_hash (Some effect))
      | inl genesis_result => eret (ipc.genesis_failed_deploy (display genesis_result))
      | inr err => eret (ipc.genesis_failed_deploy (display err))
      end
  end.

Definition upgrade (upgrade_request : ipc.UpgradeRequest) : Handler ipc.UpgradeResponse :=
  match upgrade_request_try_from upgrade_request with
  | Err error => eret (ipc.upgrade_failed_deploy (display error))
  | Panic => elift Panic
  | Ok upgrade_config =>
      let! result := etry (commit_upgrade into_error overflow_checks invoke_call upgrade_config) in
      match result with
      | inl (UR_Success post_state_hash effect) =>
          let! effect := elift (execution_effect_into effect) in
          eret (ipc.upgrade_success post_state_hash (Some effect))
      | inl upgrade_result => eret (ipc.upgrade_failed_deploy (display upgrade_result))
      | inr err => eret (ipc.upgrade_failed_deploy (display err))
      end
  end.
End server.

(** * What the node can rely on *)

Section guarantees.
Context {L G Mem Module : Type} `{LinkedHashMap L, Rng G} {meter : Meter} {dbg : DebugText} {qtext : QueryText}.
Context {hasher : Hasher} {F : ForeignErrors} `{!Platform Mem Module, !WasmPrep Module} {alloc : Allocator}.
Context {S E : Type} `{!StateProvider S E} {text : StakeText} {ut : UintText} `{!UintTextLaws}.
Context (into_error : E -> ExecError) (from_state_error : E -> EngineError).
Context (invoke_call : (Key -> outcome E (option StoredValue)) -> Module -> eff (Runtime L G Mem Module) InterpreterError unit).
Context `{!Debug CLValueError, !Debug AddKeyFailure, !Display SetThresholdFailure}.
Context `{!Debug Key, !Debug ExecError, !Debug InterpreterError, !Display StorageError, !Display EngineError}.
Context `{!Debug MappingError, !Debug EngineError, !Debug bytes, !Display Bytesrepr.Error, !Debug Bytesrepr.Error}.

#[local] Abbreviation Engine := (EngineState S Module).

(** The answer to a commit of transforms. *)
Definition commits (pre_state_hash : bytes) (version : ProtocolVersion) (transforms : gmap Key Transform) :
    eff Engine Empty_set ipc.CommitResponse :=
  let! result := etry (apply_effect from_state_error version pre_state_hash transforms) in
  eret (commit_response pre_state_hash result).

Lemma commit_carried pb effect pre_state_hash l version self :
  effects_carried pb effect -> is_bytes 32 pre_state_hash -> l ≡ₚ ipc.transform_map pb ->
  commit from_state_error (ipc.mk_CommitRequest pre_state_hash l version) self
    = commits pre_state_hash (commit_version version) (effect_transforms effect) self.
Proof.
  intros Hc Hh Hl. unfold commit, commits. cbn [ipc.prestate_hash ipc.commit_effects ipc.commit_protocol_version].
  by rewrite bytes32_ok, (Hc l Hl).
Qed.

Lemma results_reported results :
  (Exists unreportable results -> try_collect (deploy_result_from (E := Empty_set)) results = Panic)
  /\ (Forall (fun r => ~ unreportable r) results ->
      exists pbs, try_collect (deploy_result_from (E := Empty_set)) results = Ok pbs /\ Forall2 reported results pbs).
Proof.
  split.
  - intros He. apply try_collect_panics. eapply Exists_impl; [exact He|]. intros r. apply result_reported.
  - induction 1 as [|r results Hr _ (pbs & Ep & Hp)]; [by exists []|].
    destruct (proj2 (result_reported r) Hr) as (pb & Eb & Hb). exists (pb :: pbs). cbn. rewrite Eb. cbn. rewrite Ep.
    split; [done | by constructor].
Qed.

(** What the engine makes of a deploy of a request: the failed precondition
    [DeployError] when it does not parse, and otherwise the result of running it on the
    parent state, with whatever system contracts are cached by then. *)
Definition result_of (req : ipc.ExecuteRequest) (costs : WasmCosts) (self : Engine) (d : ipc.DeployItem)
    (r : ExecutionResult) : Prop :=
  match deploy_item_try_from d with
  | Ok item => exists cache self',
      deploy into_error invoke_call costs (take_protocol_version (ipc.execute_protocol_version req))
        (ipc.parent_state_hash req) (ipc.block_time req) item (mk_engine_state cache (es_state self)) = (Ok r, self')
  | _ => r = precondition_failure ES_DeployError
  end.

Lemma deploy_keeps_state costs version hash time item (self self' : Engine) o :
  deploy into_error invoke_call costs version hash time item self = (o, self') -> es_state self' = es_state self.
Proof.
  unfold deploy. case_match; [|by intros [= _ <-]..]. case_match; [|by intros [= _ <-]].
  case_match. case_match. by intros [= _ <-].
Qed.

Lemma execute_loop_results req costs request pbs deploys (self st self' : Engine) results :
  er_parent_state_hash request = ipc.parent_state_hash req -> er_block_time request = ipc.block_time req ->
  er_protocol_version request = take_protocol_version (ipc.execute_protocol_version req) ->
  try_collect (parsed_deploy (E := ipc.ExecuteResponse)) pbs = Ok deploys -> es_state st = es_state self ->
  execute_loop into_error invoke_call costs request deploys st = (Ok results, self') ->
  Forall2 (result_of req costs self) pbs results.
Proof.
  intros Eh Et Ev Hp%try_collect_ok. revert st results. induction Hp as [|pb d pbs deploys Hd _ IH]; intros st results Hst Hl.
  - cbn in Hl. injection Hl as <- _. constructor.
  - cbn [execute_loop] in Hl. apply ebind_ok in Hl as (r & s1 & Hr & Hl). apply ebind_ok in Hl as (rs & s2 & Hl & [= <- <-]).
    assert (result_of req costs self pb r /\ es_state s1 = es_state self) as [Hres Hs1].
    { unfold parsed_deploy in Hd. unfold result_of. destruct (deploy_item_try_from pb) as [item|e|] eqn:Ed; [|..|done];
        injection Hd as <-; cbn in Hr.
      - split; [|pose proof (deploy_keeps_state _ _ _ _ _ _ _ _ Hr); congruence].
        rewrite Eh, Et, Ev in Hr. exists (es_cache st), s1. rewrite <- Hst. by destruct st.
      - injection Hr as <- <-. split; [|done]. by rewrite (deploy_item_error pb e Ed). }
    constructor; [done | by eapply IH].
Qed.

Lemma run_execute_results req request (self self' : Engine) results :
  execute_request_try_from req = Ok request -> run_execute into_error invoke_call request self = (Ok results, self') ->
  exists costs, wasm_costs into_error (take_protocol_version (ipc.execute_protocol_version req)) self = Ok (Some costs)
    /\ Forall2 (result_of req costs self) (ipc.deploys req) results.
Proof.
  unfold execute_request_try_from. destruct (negb _); [done|]. unfold bytes32_try_from. destruct (_ =? _); [|done].
  cbn [ok_or obind]. intros Hreq. apply obind_ok in Hreq as (deploys & Hd & [= <-]). unfold run_execute.
  cbn [er_protocol_version er_deploys]. destruct (wasm_costs into_error _ self) as [[costs|]|e|] eqn:Ec; try discriminate.
  intros Hl. exists costs. split; [done|]. by eapply execute_loop_results; [..|exact Hl].
Qed.

(** C27: the node commits what was executed. A request to execute, once the engine has
    run it, has one result for each of its deploys, in order: a deploy that does not
    parse failed the precondition [DeployError], another one has the result of running
    it on the parent state. If the effects of a result, other than those
    of a failed precondition, contain a value that could not be serialized, the service panics.
    Otherwise it answers with one message per result: a failed precondition with its text,
    or the error (none, out of gas, or the text of the failure), the cost, and effects such
    that a commit of them, in whatever order they are sent and on whatever state, applies
    exactly the transforms of the execution and is answered as the engine says, when
    the cost fits 512 bits and no reference in the effects has the empty set of rights. *)
Theorem executed_effects_commit req request results (self self' : Engine) :
  execute_request_try_from req = Ok request ->
  run_execute into_error invoke_call request self = (Ok results, self') ->
  (exists costs, wasm_costs into_error (take_protocol_version (ipc.execute_protocol_version req)) self = Ok (Some costs)
     /\ Forall2 (result_of req costs self) (ipc.deploys req) results)
  /\ (Exists unreportable results -> execute into_error invoke_call req self = (Panic, self'))
  /\ (Forall (fun r => ~ unreportable r) results ->
      exists pbs, execute into_error invoke_call req self = (Ok (ipc.execute_success pbs), self')
        /\ Forall2 (fun r pb => reported r pb /\
             forall er effects, pb = Some (ipc.execution_result er) -> ipc.effects er = Some effects ->
             effects_portable (result_effect r) ->
             forall st h l version, is_bytes 32 h -> l ≡ₚ ipc.transform_map effects ->
               commit from_state_error (ipc.mk_CommitRequest h l version) st
                 = commits h (commit_version version) (effect_transforms (result_effect r)) st)
           results pbs).
Proof.
  intros Hreq Hrun. destruct (results_reported results) as [Hpanic Hsent].
  assert (execute into_error invoke_call req self
    = (match try_collect (deploy_result_from (E := Empty_set)) results with
       | Ok pbs => Ok (ipc.execute_success pbs) | Err e => Err e | Panic => Panic end, self')) as Hex.
  { unfold execute. rewrite Hreq. unfold ebind, etry. rewrite Hrun. cbn. unfold elift. by destruct (try_collect _ _) as [?|[]|]. }
  split; [by eapply run_execute_results|]. rewrite Hex. split; [intros He; by rewrite Hpanic|].
  intros Hf. destruct (Hsent Hf) as (pbs & -> & Hr). exists pbs. split; [done|].
  eapply Forall2_impl; [exact Hr|]. intros r pb Hrep. split; [done|]. intros er effects -> He Hp st h l version Hh Hl.
  unfold reported in Hrep. destruct (precondition_of r); [done|]. destruct Hrep as (er' & effects' & [= <-] & He' & _ & _ & Hc).
  rewrite He in He'. injection He' as ->. by eapply commit_carried; [apply Hc|..].
Qed.
End guarantees.

(** * Queries on the in-memory state *)

Section queries.
Context {hasher : Hasher} {hl : HasherLaws} {dbg : DebugText} {qtext : QueryText}.
Context {L Module : Type} `{LinkedHashMapLaws L} `{MeterLaws} {F : ForeignErrors} {ut : UintText}.
Context (into_error : StoreError InMemoryError -> ExecError).
Context `{!Debug CLValueError, !Debug AddKeyFailure, !Display SetThresholdFailure}.
Context `{!Debug MappingError, !Debug EngineError, !Debug bytes, !Display Bytesrepr.Error}.
Implicit Types self : EngineState InMemoryGlobalState Module.

#[local] Abbreviation root_wf := (root_wf key_codec stored_value_codec trie_store key_valid stored_value_valid).
#[local] Abbreviation value_at := (TrieSpec.value_at key_codec stored_value_codec trie_store).

(** The value that a path of names leads to from a key, in the map a root denotes:
    each name is one of the account or contract found so far. *)
Inductive leads_to (data : InMemoryData) (root : Blake2bHash) : Key -> list bytes -> StoredValue -> Prop :=
| leads_here key v : value_at data root (normalize key) v -> leads_to data root key [] v
| leads_on key c name key' path v :
    value_at data root (normalize key) c -> followed c name = Some key' ->
    leads_to data root key' path v -> leads_to data root key (name :: path) v.

(** A view reads the map its root denotes. *)
Lemma view_read_denoted data root key :
  root_wf data root -> key_valid key ->
  exists r, view_read trie_store data root key = Ok r /\ option_valid stored_value_valid r
    /\ forall v, r = Some v <-> value_at data root key v.
Proof.
  intros Hwf Hk. destruct (view_read_ok trie_store data root key Hwf Hk) as (r & Hr & Hv & Hs). exists r.
  split; [done|]. split; [done|]. intros v.
  destruct (read_spec key_codec stored_value_codec trie_store key_valid stored_value_valid KEY_FUEL data root key Hwf Hk
    (key_enough key Hk)) as (r' & Hr' & _ & Hd).
  unfold state_read in Hs. rewrite Hr' in Hs. injection Hs as ->. rewrite <- Hd. destruct r; split; congruence.
Qed.

Lemma new_view (reader : Key -> outcome (StoreError InMemoryError) (option StoredValue)) k :
  tc_view reader (tracking_copy_new (L := L)) k = reader k.
Proof. unfold tc_view. cbn [tc_cache muts_cached tracking_copy_new cache_new]. by rewrite lookup_empty. Qed.

(** What the tracking copy of a query resolves is what the path leads to. *)
Lemma resolve_leads data root path : root_wf data root -> forall key v, key_valid key ->
  path_value (view_read trie_store data root) (tracking_copy_new (L := L)) key path = Some v
    <-> leads_to data root key path v.
Proof.
  intros Hwf. induction path as [|name path IH]; intros key v Hk; unfold path_value; rewrite new_view;
    destruct (view_read_denoted data root (normalize key) Hwf (normalize_valid key Hk)) as (r & -> & Hok & Hd).
  - transitivity (r = Some v); [by destruct r; split|]. rewrite Hd. split; [apply leads_here | intros Hl; by inversion Hl].
  - transitivity (exists c key', r = Some c /\ followed c name = Some key' /\ leads_to data root key' path v).
    + destruct r as [c|]; [|split; [done | by intros (? & ? & [=] & _)]]. cbn [resolve].
      pose proof (followed_valid c name) as Hf. destruct (followed c name) as [key'|] eqn:Ef;
        [|split; [done | intros (? & ? & [= <-] & ? & _); congruence]].
      specialize (IH key' v (Hf key' Hok eq_refl)). unfold path_value in IH. rewrite IH.
      split; [by eauto | intros (? & ? & [= <-] & ? & ?); congruence].
    + split.
      * intros (c & key' & Hr%Hd & Hf & Hl). by eapply leads_on.
      * inversion 1 as [|? c ? key' ? ? Hc Hf Hl]; subst. exists c, key'. by rewrite Hd.
Qed.

Lemma leads_valid data root key path v :
  root_wf data root -> key_valid key -> leads_to data root key path v -> stored_value_valid v.
Proof.
  intros Hwf Hk Hl. induction Hl as [key v Hv|key c name key' path v Hc Hf _ IH];
    destruct (view_read_denoted data root (normalize key) Hwf (normalize_valid key Hk)) as (r & _ & Hok & Hd).
  - apply Hd in Hv as ->. exact Hok.
  - apply Hd in Hc as ->. apply IH. by apply (followed_valid c name).
Qed.

Lemma key_portable_valid key : key_portable key -> key_valid key.
Proof. destruct key; cbn; [done | done | by intros [? _] | done]. Qed.

Lemma request_read root key path version :
  is_bytes 32 root -> key_portable key ->
  query_request_try_from (ipc.mk_QueryRequest root (Some (key_into key)) path version) = Ok (mk_query_request root key path).
Proof.
  intros Hr Hk. unfold query_request_try_from. cbn [ipc.state_hash ipc.base_key ipc.path default from_option id].
  unfold zlen. rewrite Hr. change (negb (Z.of_nat 32 =? Z.of_nat BLAKE2B_DIGEST_LENGTH)) with false. cbn [oguard obind].
  rewrite bytes32_ok by done. cbn [ok_or obind]. rewrite (key_mapping key Hk). done.
Qed.

(** C30: a query is answered from the state. For the message of a query with a key, a
    path of names and a root of the in-memory state, the service answers without changing
    the engine. When the root is a well-formed one and the path leads, in the map it
    denotes, from the key over the names of accounts and contracts to a value, the answer
    is bytes from which that value is read back (or, for a value too large to serialize, the
    text of the error); when it leads nowhere, the answer is that nothing was found; and when
    nothing is stored under the root, that there is no such root. *)
Theorem query_answered key path root version self :
  key_portable key -> is_bytes 32 root ->
  let data := ms_environment (es_state self) in
  let answered := query (L := L) into_error (ipc.mk_QueryRequest root (Some (key_into key)) path version) self in
  (state_get trie_store data root = Ok None -> answered = (Ok (ipc.query_failure (str "Root not found")), self))
  /\ (root_wf data root ->
      (forall v, leads_to data root key path v ->
         (exists bs, answered = (Ok (ipc.query_success bs), self) /\ deserialize stored_value_codec bs = Ok v)
         \/ exists e, stored_value_to_bytes v = Err e
              /\ answered = (Ok (ipc.query_failure (str "Failed to serialize StoredValue: " ++ display e)), self))
      /\ ((forall v, ~ leads_to data root key path v) ->
         exists full_path : bytes, answered = (Ok (ipc.query_failure (str "Value not found: " ++ debug full_path)), self))).
Proof.
  intros Hk Hr data answered. unfold answered, query. rewrite request_read by done. cbn [qr_state_hash qr_key qr_path].
  unfold run_query, tracking_copy. cbn [sp_checkout in_memory_provider]. unfold ms_checkout, checkout. fold data. split.
  { intros ->. done. }
  intros Hwf. pose proof Hwf as (pb & Hat & _). unfold TrieSpec.at_hash in Hat. unfold state_get. rewrite Hat.
  cbn [omap_err obind fmap option_fmap option_map].
  pose proof (key_portable_valid key Hk) as Hkv. pose proof (view_reader_ok trie_store data root Hwf) as Hok.
  destruct (tc_query_resolves (view_read trie_store data root) (tracking_copy_new (L := L)) key path) as (r & s' & -> & _ & _ & Hv);
    [intros k Hkk; rewrite new_view; by apply Hok | apply tracking_copy_new_inv | done |].
  cbn [omap_err obind fst]. split.
  - intros v Hl. pose proof (leads_valid data root key path v Hwf Hkv Hl) as Hvalid.
    apply (resolve_leads data root path Hwf key v Hkv) in Hl. rewrite Hl in Hv. subst r. cbn [query_result_from query_response].
    destruct (stored_value_to_bytes v) as [bs|e|] eqn:Eb; [left; exists bs | right; by exists e | by destruct (stored_value_to_bytes_safe v)].
    split; [done|]. by apply (deserialize_serialize stored_value_codec stored_value_valid).
  - intros Hno. destruct (path_value _ _ _ _) as [v|] eqn:Ep.
    + by apply (resolve_leads data root path Hwf key v Hkv), Hno in Ep.
    + destruct Hv as [msg ->]. by exists msg.
Qed.
End queries.
