(* ===== verification/Logging.v ===== *)
(** The log of the engine: levels and the filter, structured messages from
    templates, the loggers, and the functions the engine logs with.  Sources:
    [engine-shared/src/logging/log_level.rs], [log_settings.rs], [log_message.rs],
    [logger.rs] and [mod.rs] beside them, [engine-shared/src/utils.rs]. *)

From stdpp Require Import gmap.
From S2P Require Import Prelude BTreeMap Types StoredValue.

(** * Levels *)

Inductive LogLevel := Fatal | LevelError | Warning | Info | Metric | Debug.

(** [self as u8]. *)
Definition log_level_value (l : LogLevel) : Z :=
  match l with Fatal => 0 | LevelError => 3 | Warning => 4 | Info => 5 | Metric => 6 | Debug => 7 end.

(** [Ord::cmp]: the most severe level is the greatest. *)
Definition log_level_cmp (self other : LogLevel) : comparison :=
  let x := log_level_value self in
  let y := log_level_value other in
  if x =? y then Eq else if x >? y then Lt else Gt.

Definition log_level_max (self other : LogLevel) : LogLevel :=
  let x := log_level_value self in
  let y := log_level_value other in
  if x =? y then other else if x >? y then other else self.

Definition log_level_min (self other : LogLevel) : LogLevel :=
  let x := log_level_value self in
  let y := log_level_value other in
  if x =? y then self else if x >? y then self else other.

(** The derived [Debug]. *)
Definition log_level_debug (l : LogLevel) : bytes :=
  match l with
  | Fatal => str "Fatal" | LevelError => str "Error" | Warning => str "Warning"
  | Info => str "Info" | Metric => str "Metric" | Debug => str "Debug"
  end.

(** [str::to_uppercase] of a name in ASCII. *)
Definition uppercase (b : byte) : byte :=
  let z := byte_to_Z b in
  if (97 <=? z) && (z <=? 122) then byte_of_Z (z - 32) else b.

Definition log_level_to_uppercase (l : LogLevel) : bytes := map uppercase (log_level_debug l).

(** The levels of the [log] crate. *)
Inductive CrateLevel := Crate_Error | Crate_Warn | Crate_Info | Crate_Debug | Crate_Trace.

(** [Into<log::Level> for LogLevel], and for [LogLevelFilter]. *)
Definition log_level_into (l : LogLevel) : CrateLevel :=
  match l with
  | Fatal => Crate_Error | LevelError => Crate_Error | Warning => Crate_Warn
  | Info => Crate_Info | Metric => Crate_Trace | Debug => Crate_Debug
  end.

(** * Settings *)

Abbreviation LogLevelFilter := LogLevel.

Definition LogLevelFilter_DEFAULT : LogLevelFilter := Info.
Definition LogLevelFilter_ERROR : LogLevelFilter := LevelError.

Definition from_input (input : option bytes) : LogLevelFilter :=
  match input with
  | Some input =>
      if bool_decide (input = str "fatal") then Fatal
      else if bool_decide (input = str "error") then LevelError
      else if bool_decide (input = str "warning") then Warning
      else if bool_decide (input = str "metric") then Metric
      else if bool_decide (input = str "debug") then Debug
      else Info
  | None => Info
  end.

(** The trait object of the settings. *)
Record LogSettingsProvider := mk_provider {
  provider_filter : LogLevel -> bool;
  get_process_id : Z;
  get_process_name : bytes;
  get_host_name : bytes;
  get_log_level_filter : LogLevelFilter;
}.

Record LogSettings := mk_settings {
  log_level_filter : LogLevelFilter;
  process_id : Z;
  process_name : bytes;
  host_name : bytes;
}.

(** [get_pid], of the number the system gives the process. *)
Definition get_pid (id : Z) : Z := wrap_signed 32 id.

(** [get_hostname], of the name the system gives the host, if it does. *)
Definition get_hostname (hostname : option bytes) : bytes :=
  match hostname with Some hostname => hostname | None => str "unknown-host" end.

Definition settings_new (id : Z) (hostname : option bytes) (process_name : bytes) (log_level_filter : LogLevelFilter) : LogSettings :=
  mk_settings log_level_filter (get_pid id) process_name (get_hostname hostname).

(** [log_level < self.log_level_filter.0]. *)
Definition settings_filter (self : LogSettings) (log_level : LogLevel) : bool :=
  match log_level_cmp log_level (log_level_filter self) with Lt => true | _ => false end.

Definition settings_provider (self : LogSettings) : LogSettingsProvider :=
  mk_provider (settings_filter self) (process_id self) (process_name self) (host_name self) (log_level_filter self).

Definition NopLogSettingsProvider : LogSettingsProvider :=
  mk_provider (fun _ => true) (-1) (str "unknown-process") (str "unknown-host") Info.

(** * Messages *)

Definition MESSAGE_TYPE : bytes := str "ee-structured".
Definition MESSAGE_TEMPLATE_KEY : bytes := str "message_template".

Abbreviation Properties := (BTreeMap bytes bytes).

(** The loop of [get_formatted_message].  Braces are ASCII, so a character that is
    not one is carried byte by byte. *)
Fixpoint format_loop (properties : Properties) (buf candidate_key : bytes) (key_seek : bool) (template : bytes) : bytes :=
  match template with
  | [] => buf
  | c :: rest =>
      if bool_decide (c = "{"%byte) then format_loop properties buf [] true rest
      else if bool_decide (c = "}"%byte) then
        if key_seek then
          format_loop properties
            (match bt_get candidate_key properties with Some v => buf ++ v | None => buf end) candidate_key false rest
        else format_loop properties buf candidate_key key_seek rest
      else if key_seek then format_loop properties buf (candidate_key ++ [c]) key_seek rest
      else format_loop properties (buf ++ [c]) candidate_key key_seek rest
  end.

Definition get_formatted_message (properties : Properties) (message_template : bytes) : bytes :=
  match message_template with
  | [] => []
  | _ => format_loop properties [] [] false message_template
  end.

Record LogMessage := mk_message {
  msg_timestamp : bytes;
  msg_process_id : Z;
  msg_process_name : bytes;
  msg_host_name : bytes;
  msg_log_level : LogLevel;
  msg_priority : Z;
  msg_message_type : bytes;
  msg_message_type_version : SemVer;
  msg_message_id : bytes;
  msg_description : bytes;
  msg_properties : Properties;
}.

(** What a line of the log is read back as. *)
Record LogLineItem := mk_line_item {
  timestamp : bytes;
  line_process_id : Z;
  line_process_name : bytes;
  line_host_name : bytes;
  log_level : bytes;
  priority : Z;
  message_type : bytes;
  message_type_version : bytes;
  message_id : bytes;
  description : bytes;
  properties : Properties;
}.

(** [Serialize for MessageTypeVersion]. *)
Definition message_type_version_text (v : SemVer) : bytes :=
  decimal 10 (major v) ++ str "." ++ decimal 10 (minor v) ++ str "." ++ decimal 10 (patch v).

(** The fields of a message by their names in the derived [Serialize] of
    [LogMessage] and [Deserialize] of [LogLineItem]. *)
Definition line_item_of (m : LogMessage) : LogLineItem :=
  mk_line_item (msg_timestamp m) (msg_process_id m) (msg_process_name m) (msg_host_name m)
    (log_level_debug (msg_log_level m)) (msg_priority m) (msg_message_type m)
    (message_type_version_text (msg_message_type_version m)) (msg_message_id m) (msg_description m) (msg_properties m).

(** [serde_json], for the two derived formats. *)
Class Json := {
  json_to_string : LogMessage -> option bytes;
  json_from_str : bytes -> option LogLineItem;
}.

(** Relied on: the text of a message is read back field by field, and is on one
    line, for it is not pretty-printed and control characters in it are escaped. *)
Class JsonLaws `{Json} : Prop := {
  json_roundtrip m json : json_to_string m = Some json -> json_from_str json = Some (line_item_of m);
  json_one_line m json : json_to_string m = Some json -> ~ In x0a json /\ ~ In x0d json;
}.

(** What the engine asks of its surroundings: the clock, as text and in
    milliseconds since the epoch if it is after it, and the hash of the standard
    library over the fields of a message. *)
Class LogSystem := {
  now_rfc3339 : bytes;
  millis_since_epoch : option Z;
  default_hash : SemVer -> Z -> bytes -> bytes -> bytes -> LogLevel -> Z -> bytes -> Properties -> Z;
}.

Section messages.
Context {sys : LogSystem}.

Definition new_props (provider : LogSettingsProvider) (log_level : LogLevel) (message_template : bytes)
    (properties : Properties) : LogMessage :=
  let properties := if bt_contains_key MESSAGE_TEMPLATE_KEY properties then properties
                    else bt_insert MESSAGE_TEMPLATE_KEY message_template properties in
  let version := mk_semver 1 0 0 in
  let process_id := get_process_id provider in
  let process_name := get_process_name provider in
  let host_name := get_host_name provider in
  let priority := log_level_value log_level in
  let description := get_formatted_message properties message_template in
  let hash := default_hash version process_id process_name host_name now_rfc3339 log_level priority description properties in
  mk_message now_rfc3339 process_id process_name host_name log_level priority MESSAGE_TYPE version
    (decimal 20 hash) description properties.

Definition new_msg (provider : LogSettingsProvider) (log_level : LogLevel) (message : bytes) : LogMessage :=
  new_props provider log_level (str "{message}") (bt_insert (str "message") message bt_empty).
End messages.

(** * Loggers *)

(** [str::find]: what follows the first occurrence. *)
Fixpoint after_first (pattern line : bytes) : option bytes :=
  if bool_decide (take (length pattern) line = pattern) then Some (drop (length pattern) line)
  else match line with [] => None | _ :: rest => after_first pattern rest end.

Definition PAYLOAD : bytes := str "payload=".

Definition from_log_line `{Json} (line : bytes) : option LogLineItem :=
  match after_first PAYLOAD line with Some slice => json_from_str slice | None => None end.

(** The buffer behind its mutex, which is poisoned when a thread panicked with it. *)
Record BufferedLogger := mk_buffered { queue : BTreeMap bytes LogLineItem; poisoned : bool }.

Definition get_buffered_logger : BufferedLogger := mk_buffered bt_empty false.

Definition set_queue (q : BTreeMap bytes LogLineItem) (b : BufferedLogger) : BufferedLogger := mk_buffered q (poisoned b).

Definition push (line : LogLineItem) (self : BufferedLogger) : BufferedLogger :=
  if poisoned self then self else set_queue (bt_insert (message_id line) line (queue self)) self.

Definition extract (id : bytes) (self : BufferedLogger) : option LogLineItem * BufferedLogger :=
  if poisoned self then (None, self)
  else if negb (bt_contains_key id (queue self)) then (None, self)
  else (bt_get id (queue self), set_queue (bt_remove id (queue self)) self).

Definition CORRELATION_ID_KEY : bytes := str "correlation_id".

(** The loop of [extract_correlated] over the keys. *)
Fixpoint correlated_loop (correlation_id : bytes) (keys : list bytes) (result : list LogLineItem)
    (guard : BTreeMap bytes LogLineItem) : list LogLineItem * BTreeMap bytes LogLineItem :=
  match keys with
  | [] => (result, guard)
  | key :: keys' =>
      match bt_get key guard with
      | Some value =>
          match bt_get CORRELATION_ID_KEY (properties value) with
          | Some c =>
              if bool_decide (c = correlation_id) then
                correlated_loop correlation_id keys' (result ++ [value]) (bt_remove key guard)
              else correlated_loop correlation_id keys' result guard
          | None => correlated_loop correlation_id keys' result guard
          end
      | None => correlated_loop correlation_id keys' result guard
      end
  end.

Definition extract_correlated (correlation_id : bytes) (self : BufferedLogger) : option (list LogLineItem) * BufferedLogger :=
  if poisoned self then (None, self)
  else
    let '(result, guard) := correlated_loop correlation_id (bt_keys (queue self)) [] (queue self) in
    (Some result, set_queue guard self).

(** The loop of [drain]. *)
Fixpoint drain_loop (keys : list bytes) (result : list LogLineItem) (guard : BTreeMap bytes LogLineItem)
    : list LogLineItem * BTreeMap bytes LogLineItem :=
  match keys with
  | [] => (result, guard)
  | key :: keys' =>
      match bt_get key guard with
      | Some value => drain_loop keys' (result ++ [value]) (bt_remove key guard)
      | None => drain_loop keys' result (bt_remove key guard)
      end
  end.

Definition drain (self : BufferedLogger) : list LogLineItem * BufferedLogger :=
  if poisoned self then ([], self)
  else ((drain_loop (bt_keys (queue self)) [] (queue self)).1, set_queue bt_empty self).

Definition reset (self : BufferedLogger) : BufferedLogger :=
  if poisoned self then self else set_queue bt_empty self.

(** The global logger, set once; the buffer; and what was printed. *)
Inductive Logger := TerminalLogger | BufferLogger.

Record LogState := mk_log_state {
  logger : option Logger;
  buffer : BufferedLogger;
  stdout : list bytes;
  provider : LogSettingsProvider;
}.

Definition TARGET : bytes := str "casperlabs_engine_shared::logging".

(** [enabled], for a record of the given target; every level is at most [Trace]. *)
Definition logger_enabled (target : bytes) : bool := bool_decide (take (length TARGET) target = TARGET).

(** [LOGGER_INIT.call_once]. *)
Definition initialize_logger (l : Logger) (s : LogState) : LogState :=
  match logger s with
  | None => mk_log_state (Some l) (buffer s) (stdout s) (provider s)
  | Some _ => s
  end.

(** [log::Log::log] of the logger that is set. *)
Definition emit `{Json} (target line : bytes) (s : LogState) : LogState :=
  if negb (logger_enabled target) then s
  else
    match logger s with
    | Some TerminalLogger => mk_log_state (logger s) (buffer s) (stdout s ++ [line]) (provider s)
    | Some BufferLogger =>
        match from_log_line line with
        | Some item => mk_log_state (logger s) (push item (buffer s)) (stdout s) (provider s)
        | None => s
        end
    | None => s
    end.

(** * The functions of the log *)

Section log.
Context {sys : LogSystem} `{Json}.

Definition JSON_ERROR : bytes := [x7b; x22] ++ str "error" ++ [x22] ++ str ": " ++ [x22]
  ++ str "encountered error serializing value" ++ [x22; x7d].

(** [jsonify(&log_message, false)]. *)
Definition jsonify (m : LogMessage) : bytes := match json_to_string m with Some json => json | None => JSON_ERROR end.

Definition log_line (m : LogMessage) : bytes :=
  msg_timestamp m ++ str " " ++ log_level_to_uppercase (msg_log_level m) ++ str " " ++ decimal 3 (msg_priority m)
    ++ str " " ++ msg_host_name m ++ str " " ++ msg_process_name m ++ str " payload=" ++ jsonify m.

(** [log_details]. *)
Definition log_details (log_level : LogLevel) (message_format : bytes) (properties : Properties) (s : LogState)
    : option bytes * LogState :=
  let s := initialize_logger TerminalLogger s in
  if provider_filter (provider s) log_level then (None, s)
  else
    let m := new_props (provider s) log_level message_format properties in
    (Some (msg_message_id m), emit TARGET (log_line m) s).

(** [log]. *)
Definition log (log_level : LogLevel) (log_message : bytes) (s : LogState) : option bytes * LogState :=
  let s := initialize_logger TerminalLogger s in
  if provider_filter (provider s) log_level then (None, s)
  else
    let m := new_msg (provider s) log_level log_message in
    (Some (msg_message_id m), emit TARGET (log_line m) s).

Definition log_fatal := log Fatal.
Definition log_error := log LevelError.
Definition log_warning := log Warning.
Definition log_info := log Info.
Definition log_debug := log Debug.

(** A number as it is printed by [{:?}]. *)
Definition signed_decimal (z : Z) : bytes := if z <? 0 then str "-" ++ decimal 20 (- z) else decimal 20 z.

(** A 64-bit float by its two texts. *)
Record F64 := mk_f64 { f64_display : bytes; f64_debug : bytes }.

Definition TIME_SERIES_DATA_KEY : bytes := str "time-series-data".

(** The line of the exposition format: the name, the tag, the value, the time. *)
Definition tsd_metric (metric tag : bytes) (metric_value : F64) (milliseconds : Z) : bytes :=
  metric ++ str "{tag=" ++ [x22] ++ tag ++ [x22] ++ str "} " ++ f64_display metric_value ++ str " " ++ signed_decimal milliseconds.

Definition metric_properties (correlation_id metric tag metric_key : bytes) (metric_value : F64) (milliseconds : Z) : Properties :=
  bt_insert (str "message") (metric ++ str " " ++ tag ++ str " " ++ f64_display metric_value)
    (bt_insert metric_key (f64_debug metric_value)
      (bt_insert TIME_SERIES_DATA_KEY (tsd_metric metric tag metric_value milliseconds)
        (bt_insert CORRELATION_ID_KEY correlation_id bt_empty))).

(** [log_metric]; a clock before the epoch panics. *)
Definition log_metric (correlation_id metric tag metric_key : bytes) (metric_value : F64) : eff LogState Empty_set (option bytes) :=
  fun s =>
    let s := initialize_logger TerminalLogger s in
    if provider_filter (provider s) Metric then (Ok None, s)
    else
      match millis_since_epoch with
      | None => (Panic, s)
      | Some from_epoch =>
          let milliseconds_since_epoch := wrap_signed 64 from_epoch in
          let '(id, s) := log_details Metric (str "{message}")
            (metric_properties correlation_id metric tag metric_key metric_value milliseconds_since_epoch) s in
          (Ok id, s)
      end.

(** [log_duration], of a duration in seconds. *)
Definition log_duration (correlation_id metric tag : bytes) (duration_in_seconds : F64) : eff LogState Empty_set (option bytes) :=
  fun s => log_metric correlation_id metric tag (str "duration_in_seconds") duration_in_seconds
             (initialize_logger TerminalLogger s).
End log.

(** * Which messages pass *)

Lemma log_level_cmp_spec l l' :
  match log_level_cmp l l' with
  | Eq => l = l'
  | Lt => log_level_value l > log_level_value l'
  | Gt => log_level_value l < log_level_value l'
  end.
Proof. by destruct l, l'. Qed.

(** A message is kept exactly when it is at least as severe as the setting. *)
Lemma settings_filter_spec s l :
  settings_filter s l = false <-> log_level_value l <= log_level_value (log_level_filter s).
Proof.
  unfold settings_filter. pose proof (log_level_cmp_spec l (log_level_filter s)) as Hc.
  destruct (log_level_cmp _ _); [subst; split; [lia | done] | split; [done | lia] | split; [lia | done]].
Qed.

(** [max] and [min] follow the order. *)
Lemma log_level_max_min l l' :
  (log_level_cmp l l' <> Gt -> log_level_max l l' = l' /\ log_level_min l l' = l)
  /\ (log_level_cmp l l' = Gt -> log_level_max l l' = l /\ log_level_min l l' = l').
Proof. destruct l, l'; cbn; split; by intros. Qed.

(** * Templates *)

(** A template is made of text and of names in braces. *)
Inductive Segment := Text (s : bytes) | Hole (key : bytes).

Definition render (segments : list Segment) : bytes :=
  concat (map (fun x => match x with Text s => s | Hole key => str "{" ++ key ++ str "}" end) segments).

Definition fill (properties : Properties) (segments : list Segment) : bytes :=
  concat (map (fun x => match x with
                        | Text s => s
                        | Hole key => match bt_get key properties with Some v => v | None => [] end
                        end) segments).

Definition no_braces (s : bytes) : Prop := ~ In "{"%byte s /\ ~ In "}"%byte s.

Definition segment_text (x : Segment) : bytes := match x with Text s | Hole s => s end.

Lemma format_text properties s rest buf key :
  no_braces s -> format_loop properties buf key false (s ++ rest) = format_loop properties (buf ++ s) key false rest.
Proof.
  revert buf. induction s as [|c s IH]; intros buf [Ho Hc]; cbn [app]; [by rewrite app_nil_r|].
  cbn in Ho, Hc. cbn [format_loop]. rewrite !bool_decide_eq_false_2 by (intros ->; tauto).
  rewrite IH by (split; tauto). by rewrite <- app_assoc.
Qed.

Lemma format_key properties s rest buf key :
  no_braces s -> format_loop properties buf key true (s ++ rest) = format_loop properties buf (key ++ s) true rest.
Proof.
  revert key. induction s as [|c s IH]; intros key [Ho Hc]; cbn [app]; [by rewrite app_nil_r|].
  cbn in Ho, Hc. cbn [format_loop]. rewrite !bool_decide_eq_false_2 by (intros ->; tauto).
  rewrite IH by (split; tauto). by rewrite <- app_assoc.
Qed.

(** The description of a message is its template with the properties filled in;
    names without a property are left out. *)
Theorem formatted_message_spec properties segments :
  Forall (fun x => no_braces (segment_text x)) segments ->
  get_formatted_message properties (render segments) = fill properties segments.
Proof.
  intros Hs. assert (forall buf key, format_loop properties buf key false (render segments) = buf ++ fill properties segments) as Hl.
  { induction Hs as [|x segments Hx Hs IH]; intros buf key; [by rewrite app_nil_r|].
    unfold render, fill. cbn [map concat]. destruct x as [s|k]; cbn in Hx.
    - rewrite format_text by done. unfold render in IH. rewrite IH. by rewrite <- app_assoc.
    - rewrite <- !app_assoc. change (str "{") with ["{"%byte]. cbn [app format_loop]. rewrite bool_decide_eq_true_2 by done.
      rewrite format_key by done. change (str "}") with ["}"%byte]. cbn [app format_loop].
      rewrite bool_decide_eq_false_2, bool_decide_eq_true_2 by done. unfold render in IH. rewrite IH.
      destruct (bt_get k properties); by rewrite <- ?app_assoc. }
  specialize (Hl [] []). unfold get_formatted_message. destruct (render segments); exact Hl.
Qed.

(** * The buffer *)

Lemma drain_loop_all m acc : drain_loop (bt_keys m) acc m = (acc ++ bt_values m, []).
Proof.
  revert acc. induction m as [|[k v] m IH]; intros acc; cbn; [by rewrite app_nil_r|].
  rewrite !ord_cmp_refl. unfold bt_keys, bt_values in IH. by rewrite IH, <- app_assoc.
Qed.

Lemma bt_remove_middle {V} (l : list (bytes * V)) k v m : bt_wf (l ++ (k, v) :: m) -> bt_remove k (l ++ (k, v) :: m) = l ++ m.
Proof.
  induction l as [|[k' v'] l IH]; cbn [app]; [cbn; by rewrite ord_cmp_refl|]. intros Hw.
  assert (ord_cmp k' k = Lt) as Hlt.
  { apply StronglySorted_inv in Hw as [_ Hf]. rewrite List.Forall_forall in Hf. apply (Hf (k, v)).
    apply in_or_app. right. by left. }
  cbn [bt_remove]. assert (ord_cmp k k' = Gt) as -> by (by apply ord_cmp_gt_lt).
  rewrite IH; [done|]. by apply StronglySorted_inv in Hw as [? _].
Qed.

(** The items that belong to a correlation. *)
Definition belongs (correlation_id : bytes) (item : LogLineItem) : bool :=
  bool_decide (bt_get CORRELATION_ID_KEY (properties item) = Some correlation_id).

Lemma correlated_loop_all c m kept acc :
  bt_wf (kept ++ m) ->
  correlated_loop c (bt_keys m) acc (kept ++ m)
    = (acc ++ List.filter (belongs c) (bt_values m), kept ++ List.filter (fun e => negb (belongs c e.2)) m).
Proof.
  revert kept acc. induction m as [|[k v] m IH]; intros kept acc Hw; [cbn; by rewrite !app_nil_r|].
  unfold bt_keys, bt_values in *. cbn [map fst snd correlated_loop List.filter].
  rewrite (bt_in_get k v (kept ++ (k, v) :: m)) by (done || (apply in_or_app; right; by left)).
  assert (belongs c v = match bt_get CORRELATION_ID_KEY (properties v) with Some d => bool_decide (d = c) | None => false end) as ->.
  { unfold belongs. destruct (bt_get _ _) as [d|]; [apply bool_decide_ext; naive_solver | by apply bool_decide_eq_false_2]. }
  assert (correlated_loop c (map fst m) acc (kept ++ (k, v) :: m)
    = (acc ++ List.filter (belongs c) (map snd m), kept ++ (k, v) :: List.filter (fun e => negb (belongs c e.2)) m)) as Hskip.
  { replace (kept ++ (k, v) :: m) with ((kept ++ [(k, v)]) ++ m) by (by rewrite <- app_assoc).
    rewrite IH by (by rewrite <- app_assoc). by rewrite <- app_assoc. }
  destruct (bt_get CORRELATION_ID_KEY (properties v)) as [d|]; [|exact Hskip].
  destruct (bool_decide (d = c)) eqn:Eb; cbn [negb map List.filter]; [|exact Hskip].
  rewrite bt_remove_middle by done. rewrite IH; [by rewrite <- app_assoc|].
  rewrite <- (bt_remove_middle kept k v m Hw). by apply bt_wf_remove.
Qed.

(** [drain] hands out every item in the order of the identifiers and empties the
    buffer; a poisoned buffer hands out nothing. *)
Theorem drain_spec b : drain b = if poisoned b then ([], b) else (bt_values (queue b), set_queue bt_empty b).
Proof. unfold drain. destruct (poisoned b); [done|]. by rewrite drain_loop_all. Qed.

(** [extract_correlated] hands out exactly the items of the correlation and leaves
    the others. *)
Theorem extract_correlated_spec c b :
  bt_wf (queue b) -> poisoned b = false ->
  extract_correlated c b
    = (Some (List.filter (belongs c) (bt_values (queue b))),
       set_queue (List.filter (fun e => negb (belongs c e.2)) (queue b)) b).
Proof. intros Hw Hp. unfold extract_correlated. by rewrite Hp, (correlated_loop_all c (queue b) []). Qed.

(** * Lines *)

Lemma after_first_payload a b : ~ In "="%byte a -> after_first PAYLOAD (a ++ PAYLOAD ++ b) = Some b.
Proof.
  induction a as [|c a IH]; intros Ha.
  { cbn [app]. unfold after_first. change (PAYLOAD ++ b) with ("p"%byte :: "a"%byte :: "y"%byte :: "l"%byte :: "o"%byte :: "a"%byte :: "d"%byte :: "="%byte :: b). by cbn. }
  cbn [app after_first]. rewrite bool_decide_eq_false_2; [apply IH; cbn in Ha; tauto|]. intros E.
  assert (nth_error (take (length PAYLOAD) (c :: a ++ PAYLOAD ++ b)) 7 = Some "="%byte) as Hn by (by rewrite E).
  change (length PAYLOAD) with 8%nat in Hn.
  do 7 (destruct a as [|? a]; [by vm_compute in Hn|]). cbn in Hn. injection Hn as ->. apply Ha. cbn. tauto.
Qed.

(** Text without an equals sign or the end of a line. *)
Definition separators : bytes := ["="%byte; x0a; x0d].
Definition plain (s : bytes) : Prop := Forall (fun c => ~ In c s) separators.

Lemma plain_nil : plain [].
Proof. apply List.Forall_forall. by intros c _ []. Qed.

Lemma plain_app s s' : plain s -> plain s' -> plain (s ++ s').
Proof.
  unfold plain. rewrite !List.Forall_forall. intros H1 H2 c Hc [Hi|Hi]%in_app_iff; [by apply (H1 c) | by apply (H2 c)].
Qed.

Lemma plain_digit z : plain [byte_of_Z (48 + z mod 10)].
Proof.
  pose proof (Z.mod_pos_bound z 10). assert (z mod 10 ∈ seqZ 0 10) as Hin by (rewrite elem_of_seqZ; lia).
  revert Hin. generalize (z mod 10). apply (Forall_forall (fun d => plain [byte_of_Z (48 + d)])). vm_compute.
  repeat constructor; intros [E|[]]; discriminate.
Qed.

Lemma decimal_plain fuel z : plain (decimal fuel z).
Proof.
  revert z. induction fuel as [|fuel IH]; intros z; cbn [decimal]; [exact plain_nil|].
  apply plain_app; [|apply plain_digit]. destruct (z <? 10); [exact plain_nil | apply IH].
Qed.

(** What [log_line] writes before the payload. *)
Definition log_line_head (m : LogMessage) : bytes :=
  msg_timestamp m ++ str " " ++ log_level_to_uppercase (msg_log_level m) ++ str " " ++ decimal 3 (msg_priority m)
    ++ str " " ++ msg_host_name m ++ str " " ++ msg_process_name m ++ str " ".

Lemma log_line_payload `{Json} m : log_line m = log_line_head m ++ PAYLOAD ++ jsonify m.
Proof.
  unfold log_line, log_line_head. change (str " payload=") with (str " " ++ PAYLOAD). by rewrite <- !app_assoc.
Qed.

Section lines.
Context {sys : LogSystem} {json : Json} {laws : JsonLaws}.

Definition plain_names (p : LogSettingsProvider) : Prop :=
  plain (get_host_name p) /\ plain (get_process_name p) /\ plain now_rfc3339.

Lemma log_line_head_plain p level template props : plain_names p -> plain (log_line_head (new_props p level template props)).
Proof.
  intros (Hh & Hn & Ht). unfold log_line_head.
  cbn [msg_timestamp msg_log_level msg_priority msg_host_name msg_process_name new_props].
  assert (plain (str " ")) as Hs by (apply List.Forall_forall; vm_compute; intuition congruence).
  repeat match goal with |- plain (_ ++ _) => apply plain_app end; try done; [|apply decimal_plain].
  destruct level; apply List.Forall_forall; vm_compute; intuition congruence.
Qed.

(** A line of the log is read back as the message it was made from. *)
Lemma log_line_roundtrip p level template props text :
  plain_names p -> json_to_string (new_props p level template props) = Some text ->
  from_log_line (log_line (new_props p level template props)) = Some (line_item_of (new_props p level template props)).
Proof.
  intros Hp Hj. rewrite log_line_payload. unfold from_log_line, jsonify. rewrite Hj, after_first_payload; [by apply json_roundtrip|].
  pose proof (log_line_head_plain p level template props Hp) as Hh. by inversion Hh.
Qed.

(** And it is one line. *)
Lemma log_line_one p level template props text :
  plain_names p -> json_to_string (new_props p level template props) = Some text ->
  ~ In x0a (log_line (new_props p level template props)) /\ ~ In x0d (log_line (new_props p level template props)).
Proof.
  intros Hp Hj. rewrite log_line_payload. unfold jsonify. rewrite Hj. destruct (json_one_line _ _ Hj) as [Ha Hd].
  pose proof (log_line_head_plain p level template props Hp) as Hh. unfold plain in Hh. rewrite List.Forall_forall in Hh.
  assert (~ In x0a PAYLOAD /\ ~ In x0d PAYLOAD) as [Hpa Hpd] by (vm_compute; intuition congruence).
  rewrite !in_app_iff. pose proof (Hh x0a) as H0. pose proof (Hh x0d) as H1. cbn in H0, H1. tauto.
Qed.

(** The message of a metric, and the line it is logged on. *)
Definition metric_message (p : LogSettingsProvider) (correlation_id metric tag metric_key : bytes) (metric_value : F64) (milliseconds : Z)
    : LogMessage :=
  new_props p Metric (str "{message}") (metric_properties correlation_id metric tag metric_key metric_value milliseconds).

Lemma initialize_terminal s :
  logger s <> Some BufferLogger ->
  initialize_logger TerminalLogger s = mk_log_state (Some TerminalLogger) (buffer s) (stdout s) (provider s).
Proof. by destruct s as [[[]|] b o p]. Qed.

Lemma emit_terminal line s :
  logger s = Some TerminalLogger -> emit TARGET line s = mk_log_state (logger s) (buffer s) (stdout s ++ [line]) (provider s).
Proof.
  intros Hl. unfold emit. assert (logger_enabled TARGET = true) as -> by (vm_compute; reflexivity). by rewrite Hl.
Qed.

(** A message that passes the filter is one line on the terminal. *)
Lemma log_details_line level template props s :
  logger s <> Some BufferLogger -> provider_filter (provider s) level = false ->
  let m := new_props (provider s) level template props in
  log_details level template props s
    = (Some (msg_message_id m), mk_log_state (Some TerminalLogger) (buffer s) (stdout s ++ [log_line m]) (provider s)).
Proof.
  intros Hl Hf. unfold log_details. rewrite initialize_terminal by done. cbn [provider]. rewrite Hf. by rewrite emit_terminal.
Qed.

Lemma log_metric_line c metric tag key v s ms :
  logger s <> Some BufferLogger -> provider_filter (provider s) Metric = false -> millis_since_epoch = Some ms ->
  let m := metric_message (provider s) c metric tag key v (wrap_signed 64 ms) in
  log_metric c metric tag key v s
    = (Ok (Some (msg_message_id m)), mk_log_state (Some TerminalLogger) (buffer s) (stdout s ++ [log_line m]) (provider s)).
Proof.
  intros Hl Hf Hm. unfold log_metric. rewrite initialize_terminal by done. cbn [provider]. rewrite Hf, Hm.
  by rewrite log_details_line.
Qed.

Lemma metric_message_tsd p c metric tag key v ms :
  key <> TIME_SERIES_DATA_KEY ->
  bt_get TIME_SERIES_DATA_KEY (msg_properties (metric_message p c metric tag key v ms)) = Some (tsd_metric metric tag v ms).
Proof.
  intros Hk. assert (bt_get TIME_SERIES_DATA_KEY (metric_properties c metric tag key v ms) = Some (tsd_metric metric tag v ms)) as E.
  { unfold metric_properties. rewrite !bt_get_insert_ne by done. by rewrite bt_get_insert_eq. }
  unfold metric_message, new_props. cbn [msg_properties]. destruct (bt_contains_key _ _); [done|].
  by rewrite bt_get_insert_ne.
Qed.
End lines.

(** * The settings in place *)

(** [set_log_settings_provider] and [get_log_settings_provider] of any number of
    threads, a step being one access to the two statics they share; the accesses
    of one order are those of [Ordering::SeqCst]. *)
Module Settings.
Inductive LogSettingsState := Uninitialized | Initializing | Initialized.

Definition into_usize (s : LogSettingsState) : Z :=
  match s with Uninitialized => 0 | Initializing => 1 | Initialized => 2 end.

Definition from_usize (z : Z) : LogSettingsState :=
  if z =? 1 then Initializing else if z =? 2 then Initialized else Uninitialized.

(** A reference to a provider is two words: where the object is, and where the
    functions of its type are. The static is not atomic, so that it is written and read
    word by word, in orders that are the compiler's choice. *)
Inductive Word := Data | Vtable.
Record ProviderRef := mk_provider_ref { data_word : Z; vtable_word : Z }.

Definition other (w : Word) : Word := match w with Data => Vtable | Vtable => Data end.

Definition word (w : Word) (r : ProviderRef) : Z := match w with Data => data_word r | Vtable => vtable_word r end.

Definition put_word (w : Word) (z : Z) (r : ProviderRef) : ProviderRef :=
  match w with Data => mk_provider_ref z (vtable_word r) | Vtable => mk_provider_ref (data_word r) z end.

(** The reference with the word [z] at [w] and [z'] at the other place. *)
Definition assemble (w : Word) (z z' : Z) : ProviderRef :=
  match w with Data => mk_provider_ref z z' | Vtable => mk_provider_ref z' z end.

Lemma assemble_word w r : assemble w (word w r) (word (other w) r) = r.
Proof. by destruct w, r. Qed.

Lemma put_both w p r : put_word (other w) (word (other w) p) (put_word w (word w p) r) = p.
Proof. by destruct w, p. Qed.

Record Statics := mk_statics { LOG_SETTINGS_STATE : Z; LOG_SETTINGS_PROVIDER : ProviderRef }.

(** Where a thread is: in [set_log_settings_provider] at the exchange, the
    assignment, its second word, the store, the waiting loop, the load after it; in
    [get_log_settings_provider] at the load, the read, its second word; or done. *)
Inductive Thread :=
  | SetExchange (p : ProviderRef)
  | SetAssign (p : ProviderRef)
  | SetAssignRest (p : ProviderRef)
  | SetStore (p : ProviderRef)
  | SetWait (p : ProviderRef)
  | SetReload (p : ProviderRef)
  | SetDone
  | GetLoad
  | GetRead
  | GetReadRest (first : Z)
  | GetDone (p : ProviderRef).

(** [AtomicUsize::compare_and_swap]: the value before it. *)
Definition compare_and_swap (current new : Z) (s : Statics) : Z * Statics :=
  (LOG_SETTINGS_STATE s, if LOG_SETTINGS_STATE s =? current then mk_statics new (LOG_SETTINGS_PROVIDER s) else s).

Section words.
Context (write_first read_first : Word).

Definition set_step (t : Thread) (s : Statics) : Thread * Statics :=
  match t with
  | SetExchange p =>
      let '(before, s) := compare_and_swap (into_usize Uninitialized) (into_usize Initializing) s in
      match from_usize before with
      | Uninitialized => (SetAssign p, s)
      | Initializing => (SetWait p, s)
      | Initialized => (SetDone, s)
      end
  | SetAssign p =>
      (SetAssignRest p,
       mk_statics (LOG_SETTINGS_STATE s) (put_word write_first (word write_first p) (LOG_SETTINGS_PROVIDER s)))
  | SetAssignRest p =>
      (SetStore p,
       mk_statics (LOG_SETTINGS_STATE s)
         (put_word (other write_first) (word (other write_first) p) (LOG_SETTINGS_PROVIDER s)))
  | SetStore _ => (SetDone, mk_statics (into_usize Initialized) (LOG_SETTINGS_PROVIDER s))
  | SetWait p => if LOG_SETTINGS_STATE s =? into_usize Initializing then (SetWait p, s) else (SetReload p, s)
  | SetReload p => if LOG_SETTINGS_STATE s =? into_usize Uninitialized then (SetExchange p, s) else (SetDone, s)
  | _ => (t, s)
  end.

Definition get_step (t : Thread) (s : Statics) : Thread * Statics :=
  match t with
  | GetLoad =>
      match from_usize (LOG_SETTINGS_STATE s) with
      | Initializing => (GetLoad, s)
      | _ => (GetRead, s)
      end
  | GetRead => (GetReadRest (word read_first (LOG_SETTINGS_PROVIDER s)), s)
  | GetReadRest first => (GetDone (assemble read_first first (word (other read_first) (LOG_SETTINGS_PROVIDER s))), s)
  | _ => (t, s)
  end.

Definition thread_step (t : Thread) (s : Statics) : Thread * Statics :=
  match t with
  | GetLoad | GetRead | GetReadRest _ | GetDone _ => get_step t s
  | _ => set_step t s
  end.

Record Process := mk_process { statics : Statics; threads : list Thread }.

(** The scheduler lets thread [i] take a step. *)
Definition schedule_one (i : nat) (s : Process) : Process :=
  match threads s !! i with
  | Some t =>
      let '(t', c) := thread_step t (statics s) in
      mk_process c (<[i := t']> (threads s))
  | None => s
  end.

Definition schedule (order : list nat) (s : Process) : Process := fold_left (fun s i => schedule_one i s) order s.

Definition starting (t : Thread) : Prop := match t with SetExchange _ | GetLoad => True | _ => False end.

(** The provider is at first the reference [nop] to the silent one. *)
Definition initial (nop : ProviderRef) (ts : list Thread) : Process := mk_process (mk_statics 0 nop) ts.

(** Which threads are between the exchange and the store. *)
Definition writing (t : Thread) : bool := match t with SetAssign _ | SetAssignRest _ | SetStore _ => true | _ => false end.

Section run.
Context (nop : ProviderRef).

(** One thread at most is writing, while the state says so; before that the
    provider is the silent one. *)
Record settings_inv (s : Process) : Prop := {
  inv_quiet : LOG_SETTINGS_STATE (statics s) <> 1 -> Forall (fun t => writing t = false) (threads s);
  inv_range : LOG_SETTINGS_STATE (statics s) = 0 \/ LOG_SETTINGS_STATE (statics s) = 1 \/ LOG_SETTINGS_STATE (statics s) = 2;
  inv_first : LOG_SETTINGS_STATE (statics s) = 0 -> LOG_SETTINGS_PROVIDER (statics s) = nop;
  inv_one : forall i j t t', threads s !! i = Some t -> threads s !! j = Some t' ->
    writing t = true -> writing t' = true -> i = j;
}.

Lemma inv_writing i t s : settings_inv s -> threads s !! i = Some t -> writing t = true -> LOG_SETTINGS_STATE (statics s) = 1.
Proof.
  intros Hi Ht Hw. destruct (decide (LOG_SETTINGS_STATE (statics s) = 1)) as [|Hne]; [done|].
  pose proof (Forall_lookup_1 _ _ _ _ (inv_quiet s Hi Hne) Ht). congruence.
Qed.

Lemma no_writer_inv s :
  Forall (fun t => writing t = false) (threads s) ->
  LOG_SETTINGS_STATE (statics s) = 0 /\ LOG_SETTINGS_PROVIDER (statics s) = nop
    \/ LOG_SETTINGS_STATE (statics s) = 2 ->
  settings_inv s.
Proof.
  intros Hf Hs. split; [done | lia | intuition lia|]. intros i j t t' Hi _ Hw _.
  pose proof (Forall_lookup_1 _ _ _ _ Hf Hi). congruence.
Qed.

(** A step of a thread that is not writing, and does not start to, keeps the
    invariant whatever it does to itself. *)
Lemma inv_local_step i t t' s :
  settings_inv s -> threads s !! i = Some t -> (writing t' = true -> writing t = true) ->
  settings_inv (mk_process (statics s) (<[i := t']> (threads s))).
Proof.
  intros Hinv Ht Hw. pose proof (lookup_lt_Some _ _ _ Ht) as Hlt.
  assert (forall j u, <[i := t']> (threads s) !! j = Some u -> writing u = true ->
    exists u', threads s !! j = Some u' /\ writing u' = true) as Hback.
  { intros j u Hj Hu. destruct (decide (i = j)) as [<-|Hne].
    - rewrite list_lookup_insert_eq in Hj by done. injection Hj as <-. eauto.
    - rewrite list_lookup_insert_ne in Hj by done. eauto. }
  split; cbn [statics threads].
  - intros Hne. apply Forall_lookup_2. intros j u Hj. destruct (writing u) eqn:Eu; [|done].
    destruct (Hback j u Hj Eu) as (u' & Hu' & E'). pose proof (Forall_lookup_1 _ _ _ _ (inv_quiet s Hinv Hne) Hu'). congruence.
  - exact (inv_range s Hinv).
  - exact (inv_first s Hinv).
  - intros j k u v Hj Hk Eu Ev. destruct (Hback j u Hj Eu) as (u' & ? & ?), (Hback k v Hk Ev) as (v' & ? & ?).
    by eapply (inv_one s Hinv).
Qed.

(** With one thread writing, the others are not. *)
Lemma inv_one_writing i t s p st :
  settings_inv s -> threads s !! i = Some t ->
  (writing t = true \/ LOG_SETTINGS_STATE (statics s) <> 1) ->
  settings_inv (mk_process (mk_statics 1 p) (<[i := st]> (threads s))).
Proof.
  intros Hinv Ht Hw. pose proof (lookup_lt_Some _ _ _ Ht) as Hlt.
  assert (forall j u, i <> j -> threads s !! j = Some u -> writing u = false) as Hothers.
  { intros j u Hne Hj. destruct (writing u) eqn:Eu; [|done]. destruct Hw as [Hw|Hw].
    - destruct Hne. by eapply (inv_one s Hinv).
    - by apply (inv_writing j u s Hinv) in Eu. }
  split; cbn; [done | lia | done|]. intros j k u v Hj Hk Eu Ev.
  destruct (decide (i = j)) as [<-|Hij], (decide (i = k)) as [<-|Hik]; [done| | |].
  all: rewrite ?list_lookup_insert_ne in Hj by done; rewrite ?list_lookup_insert_ne in Hk by done.
  - by rewrite (Hothers k v) in Ev.
  - by rewrite (Hothers j u) in Eu.
  - by rewrite (Hothers j u) in Eu.
Qed.

Lemma inv_store i t s :
  settings_inv s -> threads s !! i = Some t -> writing t = true ->
  settings_inv (mk_process (mk_statics 2 (LOG_SETTINGS_PROVIDER (statics s))) (<[i := SetDone]> (threads s))).
Proof.
  intros Hinv Ht Hw. pose proof (lookup_lt_Some _ _ _ Ht) as Hlt. apply no_writer_inv; cbn; [|by right].
  apply Forall_lookup_2. intros j u Hj. destruct (decide (i = j)) as [<-|Hne].
  - rewrite list_lookup_insert_eq in Hj by done. by injection Hj as <-.
  - rewrite list_lookup_insert_ne in Hj by done. destruct (writing u) eqn:Eu; [|done]. destruct Hne.
    by eapply (inv_one s Hinv).
Qed.

Lemma schedule_one_inv i s : settings_inv s -> settings_inv (schedule_one i s).
Proof.
  intros Hinv. unfold schedule_one. destruct (threads s !! i) as [t|] eqn:Ht; [|done].
  destruct t; cbn [thread_step set_step get_step compare_and_swap];
    try (by apply (inv_local_step i _ _ s Hinv Ht)).
  - destruct (inv_range s Hinv) as [E|[E|E]]; rewrite E; cbn [from_usize Z.eqb into_usize];
      try (by apply (inv_local_step i _ _ s Hinv Ht)). apply (inv_one_writing i _ s _ _ Hinv Ht). right. lia.
  - rewrite (inv_writing i _ s Hinv Ht) by done. apply (inv_one_writing i _ s _ _ Hinv Ht). by left.
  - rewrite (inv_writing i _ s Hinv Ht) by done. apply (inv_one_writing i _ s _ _ Hinv Ht). by left.
  - by apply (inv_store i _ s Hinv Ht).
  - destruct (_ =? _); by apply (inv_local_step i _ _ s Hinv Ht).
  - destruct (_ =? _); by apply (inv_local_step i _ _ s Hinv Ht).
  - destruct (from_usize _); by apply (inv_local_step i _ _ s Hinv Ht).
Qed.

Lemma schedule_one_stable i s :
  settings_inv s -> LOG_SETTINGS_STATE (statics s) = 2 -> statics (schedule_one i s) = statics s.
Proof.
  intros Hinv E. unfold schedule_one. destruct (threads s !! i) as [t|] eqn:Ht; [|done].
  destruct t; cbn [thread_step set_step get_step compare_and_swap]; try done.
  - by rewrite E.
  - by rewrite (inv_writing i _ s Hinv Ht) in E by done.
  - by rewrite (inv_writing i _ s Hinv Ht) in E by done.
  - by rewrite (inv_writing i _ s Hinv Ht) in E by done.
  - by destruct (_ =? _).
  - by destruct (_ =? _).
  - by destruct (from_usize _).
Qed.

Lemma schedule_inv order s : settings_inv s -> settings_inv (schedule order s).
Proof. revert s. induction order as [|i order IH]; intros s Hs; [done|]. by apply IH, schedule_one_inv. Qed.

Lemma schedule_stable order s :
  settings_inv s -> LOG_SETTINGS_STATE (statics s) = 2 -> statics (schedule order s) = statics s.
Proof.
  revert s. induction order as [|i order IH]; intros s Hs E; [done|]. cbn. pose proof (schedule_one_stable i s Hs E) as E1.
  unfold schedule in IH. rewrite IH; [done | by apply schedule_one_inv | by rewrite E1].
Qed.

Lemma initial_inv ts : Forall starting ts -> settings_inv (initial nop ts).
Proof.
  intros Hs. apply no_writer_inv; cbn; [|by left]. eapply Forall_impl; [exact Hs|]. by intros [].
Qed.

(** A word is the one of the silent provider or of [p]. *)
Definition either (p : ProviderRef) (w : Word) (z : Z) : Prop := z = word w nop \/ z = word w p.

(** What readers got word by word. *)
Definition got (p : ProviderRef) (t : Thread) : Prop :=
  match t with
  | GetReadRest z => either p read_first z
  | GetDone q => forall w, either p w (word w q)
  | _ => True
  end.

(** The provider a thread was started to set. *)
Definition offer (t : Thread) : option ProviderRef :=
  match t with
  | SetExchange p | SetAssign p | SetAssignRest p | SetStore p | SetWait p | SetReload p => Some p
  | _ => None
  end.

(** What the provider is while a thread writes. *)
Definition written (s : Process) (t : Thread) : Prop :=
  match t with
  | SetAssign _ => LOG_SETTINGS_PROVIDER (statics s) = nop
  | SetAssignRest p => LOG_SETTINGS_PROVIDER (statics s) = put_word write_first (word write_first p) nop
  | SetStore p => LOG_SETTINGS_PROVIDER (statics s) = p
  | _ => True
  end.

Record values_inv (ts : list Thread) (s : Process) : Prop := {
  val_got : Forall (got (LOG_SETTINGS_PROVIDER (statics s))) (threads s);
  val_offers : Forall (fun t => forall p, offer t = Some p -> In (SetExchange p) ts) (threads s);
  val_written : Forall (written s) (threads s);
  val_set : LOG_SETTINGS_STATE (statics s) = 2 -> In (SetExchange (LOG_SETTINGS_PROVIDER (statics s))) ts;
}.

#[local] Instance word_eq_dec : EqDecision Word.
Proof. solve_decision. Defined.

Lemma word_put w w' z r : word w (put_word w' z r) = (if decide (w = w') then z else word w r).
Proof. by destruct w, w', r. Qed.

(** A word is written once, over that of the silent provider. *)
Lemma either_put p w w' z z' : word w' p = word w' nop -> either p w z -> either (put_word w' z' p) w z.
Proof. unfold either. rewrite word_put. case_decide; intros; subst; intuition congruence. Qed.

Lemma got_put p w z t : word w p = word w nop -> got p t -> got (put_word w z p) t.
Proof. intros Hw. destruct t; cbn; intros; by repeat apply either_put. Qed.

Lemma either_assembled p z : either p read_first z ->
  forall w, either p w (word w (assemble read_first z (word (other read_first) p))).
Proof. unfold either. destruct read_first, w; cbn; tauto. Qed.

(** A step that leaves the provider as it is. *)
Lemma values_step ts i t t' s c :
  values_inv ts s -> threads s !! i = Some t -> LOG_SETTINGS_PROVIDER c = LOG_SETTINGS_PROVIDER (statics s) ->
  got (LOG_SETTINGS_PROVIDER c) t' -> (offer t' = offer t \/ offer t' = None) ->
  written (mk_process c []) t' ->
  (LOG_SETTINGS_STATE c = 2 -> In (SetExchange (LOG_SETTINGS_PROVIDER c)) ts) ->
  values_inv ts (mk_process c (<[i := t']> (threads s))).
Proof.
  intros Hv Ht Hp Hg Ho Hw H2. split; cbn [statics threads]; [| | |done].
  - apply Forall_insert; [|done]. rewrite Hp. apply (val_got _ _ Hv).
  - apply Forall_insert; [apply (val_offers _ _ Hv)|]. intros p E. apply (Forall_lookup_1 _ _ _ _ (val_offers _ _ Hv) Ht).
    destruct Ho; congruence.
  - apply Forall_insert; [|by destruct t']. eapply Forall_impl; [apply (val_written _ _ Hv)|].
    intros []; cbn; rewrite ?Hp; done.
Qed.

(** The assignment of a word. *)
Lemma values_assign ts i t t' w z s :
  settings_inv s -> values_inv ts s -> threads s !! i = Some t -> writing t = true -> offer t' = offer t ->
  word w (LOG_SETTINGS_PROVIDER (statics s)) = word w nop ->
  let c := mk_statics (LOG_SETTINGS_STATE (statics s)) (put_word w z (LOG_SETTINGS_PROVIDER (statics s))) in
  written (mk_process c []) t' -> (forall q, got q t') ->
  values_inv ts (mk_process c (<[i := t']> (threads s))).
Proof.
  intros Hinv Hv Ht Hwr Hof Hw c Hn Hg. pose proof (Forall_lookup_1 _ _ _ _ (val_offers _ _ Hv) Ht) as Ho.
  subst c. split; cbn [statics threads LOG_SETTINGS_STATE LOG_SETTINGS_PROVIDER].
  - apply Forall_insert; [|done]. eapply Forall_impl; [apply (val_got _ _ Hv)|]. intros u. by apply got_put.
  - apply Forall_insert; [apply (val_offers _ _ Hv)|]. by rewrite Hof.
  - apply Forall_lookup_2. intros j u Hj. pose proof (lookup_lt_Some _ _ _ Ht).
    destruct (decide (i = j)) as [<-|Hne].
    + rewrite list_lookup_insert_eq in Hj by done. injection Hj as <-. by destruct t'.
    + rewrite list_lookup_insert_ne in Hj by done.
      destruct u; try done; destruct Hne; by eapply (inv_one s Hinv).
  - rewrite (inv_writing i t s Hinv Ht Hwr). lia.
Qed.

Lemma schedule_one_values ts i s : settings_inv s -> values_inv ts s -> values_inv ts (schedule_one i s).
Proof.
  intros Hinv Hv. unfold schedule_one. destruct (threads s !! i) as [t|] eqn:Ht; [|done].
  pose proof (val_set _ _ Hv) as H2. pose proof (Forall_lookup_1 _ _ _ _ (val_written _ _ Hv) Ht) as Hwr.
  pose proof (Forall_lookup_1 _ _ _ _ (val_got _ _ Hv) Ht) as Hg.
  pose proof (Forall_lookup_1 _ _ _ _ (val_offers _ _ Hv) Ht) as Ho.
  destruct t; cbn [thread_step set_step get_step compare_and_swap].
  2: { cbn in Hwr. by apply (values_assign ts i _ _ _ _ s Hinv Hv Ht); cbn; rewrite ?Hwr. }
  2: { cbn in Hwr. apply (values_assign ts i _ _ _ _ s Hinv Hv Ht); cbn; rewrite ?Hwr; try done.
       - by destruct write_first.
       - apply put_both. }
  - destruct (inv_range s Hinv) as [E|[E|E]]; rewrite E; cbn [from_usize Z.eqb into_usize];
      apply (values_step ts i _ _ s _ Hv Ht); cbn; auto; try lia. by apply (inv_first s Hinv).
  - apply (values_step ts i _ _ s _ Hv Ht); cbn; auto. intros _. cbn in Hwr. rewrite Hwr. by apply Ho.
  - destruct (_ =? _); apply (values_step ts i _ _ s _ Hv Ht); cbn; auto.
  - destruct (_ =? _); apply (values_step ts i _ _ s _ Hv Ht); cbn; auto.
  - apply (values_step ts i _ _ s _ Hv Ht); cbn; auto.
  - destruct (from_usize _); apply (values_step ts i _ _ s _ Hv Ht); cbn; auto.
  - apply (values_step ts i _ _ s _ Hv Ht); cbn; unfold either; auto.
  - apply (values_step ts i _ _ s _ Hv Ht); cbn; auto. by apply either_assembled.
  - apply (values_step ts i _ _ s _ Hv Ht); cbn; auto.
Qed.

Lemma initial_values ts : Forall starting ts -> values_inv ts (initial nop ts).
Proof.
  intros Hs. split; cbn [statics threads initial LOG_SETTINGS_STATE LOG_SETTINGS_PROVIDER]; [| | |done].
  - eapply Forall_impl; [exact Hs|]. by intros [].
  - apply List.Forall_forall. intros t Hin p E. rewrite List.Forall_forall in Hs. specialize (Hs t Hin).
    destruct t; try done. by injection E as ->.
  - eapply Forall_impl; [exact Hs|]. by intros [].
Qed.

Lemma schedule_values ts order s : settings_inv s -> values_inv ts s -> values_inv ts (schedule order s).
Proof.
  revert s. induction order as [|i order IH]; intros s Hs Hv; [done|].
  by apply IH; [apply schedule_one_inv | apply schedule_one_values].
Qed.

(** A reader that comes to the settings once they are in place. *)
Definition reads (p : ProviderRef) (t : Thread) : Prop :=
  match t with
  | GetLoad | GetRead => True
  | GetReadRest z => z = word read_first p
  | GetDone q => q = p
  | _ => False
  end.

Lemma schedule_reads later i t s :
  settings_inv s -> LOG_SETTINGS_STATE (statics s) = 2 -> threads s !! i = Some t ->
  reads (LOG_SETTINGS_PROVIDER (statics s)) t ->
  exists t', threads (schedule later s) !! i = Some t' /\ reads (LOG_SETTINGS_PROVIDER (statics s)) t'.
Proof.
  revert s t. induction later as [|j later IH]; intros s t Hi E Ht Hr; [by exists t|]. cbn.
  pose proof (schedule_one_stable j s Hi E) as Es. pose proof (lookup_lt_Some _ _ _ Ht) as Hlt.
  assert (exists t1, threads (schedule_one j s) !! i = Some t1 /\ reads (LOG_SETTINGS_PROVIDER (statics s)) t1) as (t1 & Ht1 & Hr1).
  { unfold schedule_one. destruct (threads s !! j) as [u|] eqn:Hu; [|by exists t].
    destruct (thread_step u (statics s)) as [u' c] eqn:Eu. cbn. destruct (decide (j = i)) as [->|Hne];
      [|exists t; by rewrite list_lookup_insert_ne].
    exists u'. rewrite list_lookup_insert_eq by done. split; [done|]. rewrite Ht in Hu. injection Hu as <-.
    destruct t; try done; cbn in Eu; [rewrite E in Eu; cbn in Eu|..]; simplify_eq; cbn in *; try done.
    rewrite Hr. apply assemble_word. }
  specialize (IH (schedule_one j s) t1 (schedule_one_inv j s Hi)). rewrite Es in IH. exact (IH E Ht1 Hr1).
Qed.

(** C33: Once some thread's provider is in place it stays: for threads that set and
    read the provider in any interleaving, when the state says initialized the
    provider is one that a thread was asked to set, no later step of any thread
    changes it, and each reader that loads the state from then on and is done got it.
    The words that an earlier reader got are each the silent provider's or that one's,
    and they need not be from the same. *)
Theorem settings_set_once ts order later :
  Forall starting ts -> LOG_SETTINGS_STATE (statics (schedule order (initial nop ts))) = 2 ->
  let s := schedule order (initial nop ts) in
  let p := LOG_SETTINGS_PROVIDER (statics s) in
  In (SetExchange p) ts
  /\ statics (schedule later s) = statics s
  /\ (forall i q, threads s !! i = Some GetLoad -> threads (schedule later s) !! i = Some (GetDone q) -> q = p)
  /\ forall i q, threads (schedule later s) !! i = Some (GetDone q) ->
       (data_word q = data_word nop \/ data_word q = data_word p)
       /\ (vtable_word q = vtable_word nop \/ vtable_word q = vtable_word p).
Proof.
  intros Hs E s p. pose proof (schedule_inv order _ (initial_inv ts Hs)) as Hi.
  pose proof (schedule_values ts order _ (initial_inv ts Hs) (initial_values ts Hs)) as Hv.
  pose proof (schedule_stable later s Hi E) as Est. split_and!; [by apply (val_set _ _ Hv) | done | |].
  - intros i q Hl Hq. destruct (schedule_reads later i GetLoad s Hi E Hl I) as (t' & Ht & Hr). by simplify_eq.
  - intros i q Hq. pose proof (val_got ts _ (schedule_values ts later s Hi Hv)) as Hg. rewrite Est in Hg.
    pose proof (Forall_lookup_1 _ _ _ _ Hg Hq) as Hw. exact (conj (Hw Data) (Hw Vtable)).
Qed.
End run.
End words.

(** A reader that loaded the state before the exchange reads the provider while
    the writer assigns it, and gets the object of one provider with the functions of
    the other. *)
Example settings_torn_read d v d' v' :
  let s := schedule Data Data [0; 1; 1; 0; 0]%nat
    (initial (mk_provider_ref d v) [GetLoad; SetExchange (mk_provider_ref d' v')]) in
  threads s = [GetDone (mk_provider_ref d' v); SetAssignRest (mk_provider_ref d' v')].
Proof. reflexivity. Qed.
End Settings.
