(* ===== verification/Metrics.v ===== *)
(** The metrics scraper: it reads the log of the engine, keeps the time series of
    the metrics in an accumulator, and serves them over HTTP.  Sources:
    [engine-metrics-scraper/src/accumulator.rs], [sink.rs] and [drain.rs]. *)

From stdpp Require Import list.
From S2P Require Import Prelude BTreeMap Types StoredValue Logging.

(** * The accumulator *)

Inductive AccumulationError := PoisonError.

Module Accumulator.
Section accumulator.
Context {T : Type}.

(** The queues behind their mutexes, with which drainer holds the main one, the
    timer behind its lock, and which of the locks are poisoned.  Times are in
    milliseconds. *)
Record Accumulator := mk_accumulator {
  main : list T;
  main_holder : option nat;
  main_poisoned : bool;
  alt : list T;
  alt_poisoned : bool;
  timer : Z;
  timer_poisoned : bool;
  expiration_duration : Z;
}.

Definition new (expiration_duration now : Z) : Accumulator :=
  mk_accumulator [] None false [] false now false expiration_duration.

Definition set_main (l : list T) (a : Accumulator) : Accumulator :=
  mk_accumulator l (main_holder a) (main_poisoned a) (alt a) (alt_poisoned a) (timer a) (timer_poisoned a) (expiration_duration a).
Definition set_main_holder (h : option nat) (a : Accumulator) : Accumulator :=
  mk_accumulator (main a) h (main_poisoned a) (alt a) (alt_poisoned a) (timer a) (timer_poisoned a) (expiration_duration a).
Definition set_alt (l : list T) (a : Accumulator) : Accumulator :=
  mk_accumulator (main a) (main_holder a) (main_poisoned a) l (alt_poisoned a) (timer a) (timer_poisoned a) (expiration_duration a).
Definition set_timer (now : Z) (a : Accumulator) : Accumulator :=
  mk_accumulator (main a) (main_holder a) (main_poisoned a) (alt a) (alt_poisoned a) now (timer_poisoned a) (expiration_duration a).

(** [Mutex::try_lock] of the main queue by the pusher. *)
Definition try_lock_main (a : Accumulator) : bool :=
  match main_holder a with Some _ => false | None => negb (main_poisoned a) end.

(** [timer.elapsed() > expiration_duration]. *)
Definition expired (now : Z) (a : Accumulator) : bool := now - timer a >? expiration_duration a.

(** [push], of the one pusher: with the main lock it keeps every drainer out until
    it returns, without it it touches only the alternative queue, which no
    drainer does; so it is one step among theirs. *)
Definition push (now : Z) (t : T) (a : Accumulator) : outcome AccumulationError unit * Accumulator :=
  if try_lock_main a then
    if alt_poisoned a then (Err PoisonError, a)
    else
      let a := if bool_decide (alt a = []) then a else set_alt [] (set_main (main a ++ alt a) a) in
      if timer_poisoned a then (Err PoisonError, a)
      else
        let a := if expired now a then set_main (tail (main a)) a else a in
        (Ok tt, set_main (main a ++ [t]) a)
  else if alt_poisoned a then (Err PoisonError, a)
  else (Ok tt, set_alt (alt a ++ [t]) a).

(** [drain] up to the lock of the main queue; no result while another holds it. *)
Definition drain_lock (drainer : nat) (a : Accumulator) : option (outcome AccumulationError unit * Accumulator) :=
  match main_holder a with
  | Some _ => None
  | None => Some (if main_poisoned a then (Err PoisonError, a) else (Ok tt, set_main_holder (Some drainer) a))
  end.

(** The rest of [drain], with the lock, which it releases. *)
Definition drain_take (now : Z) (a : Accumulator) : outcome AccumulationError (list T) * Accumulator :=
  if timer_poisoned a then (Err PoisonError, set_main_holder None a)
  else
    let ret := main a in
    (Ok ret, set_main_holder None (set_timer now (set_main [] a))).

Definition drain (drainer : nat) (now : Z) (a : Accumulator) : option (outcome AccumulationError (list T) * Accumulator) :=
  match drain_lock drainer a with
  | Some (Ok _, a) => Some (drain_take now a)
  | Some (Err e, a) => Some (Err e, a)
  | Some (Panic, a) => Some (Panic, a)
  | None => None
  end.

(** ** Runs of one pusher and any number of drainers *)

Inductive Event :=
  | Push (now : Z) (t : T)
  | DrainLock (drainer : nat)
  | DrainTake (drainer : nat) (now : Z).

(** What was pushed and what was drained so far, and how many pushes found the
    time up. *)
Record Run := mk_run { acc : Accumulator; pushed : list T; drained : list T; late : nat }.

Definition start (expiration_duration now : Z) : Run := mk_run (new expiration_duration now) [] [] 0.

(** An event that cannot happen, a lock that is held or a drain without it, is
    skipped. *)
Definition run_event (e : Event) (r : Run) : Run :=
  match e with
  | Push now t =>
      match push now t (acc r) with
      | (Ok _, a) =>
          mk_run a (pushed r ++ [t]) (drained r)
            (if try_lock_main (acc r) && expired now (acc r) then S (late r) else late r)
      | (_, a) => mk_run a (pushed r) (drained r) (late r)
      end
  | DrainLock d =>
      match drain_lock d (acc r) with
      | Some (_, a) => mk_run a (pushed r) (drained r) (late r)
      | None => r
      end
  | DrainTake d now =>
      if bool_decide (main_holder (acc r) = Some d) then
        match drain_take now (acc r) with
        | (Ok ret, a) => mk_run a (pushed r) (drained r ++ ret) (late r)
        | (_, a) => mk_run a (pushed r) (drained r) (late r)
        end
      else r
  end.

Definition run (events : list Event) (r : Run) : Run := fold_left (fun r e => run_event e r) events r.

(** What the accumulator holds, oldest first. *)
Definition content (a : Accumulator) : list T := main a ++ alt a.

(** Nobody panics with a lock. *)
Definition healthy (a : Accumulator) : Prop := main_poisoned a = false /\ alt_poisoned a = false /\ timer_poisoned a = false.

(** ** Push *)

Lemma alt_absorbed a :
  (if bool_decide (alt a = []) then a else set_alt [] (set_main (main a ++ alt a) a)) = set_alt [] (set_main (content a) a).
Proof.
  unfold content. destruct a as [m h mp al ap ti tp ex]; cbn. case_bool_decide as E; [|done]. subst. by rewrite app_nil_r.
Qed.

(** A push that finds the main queue free puts the item after all the others, and
    drops the oldest one if the time is up. *)
Lemma push_free now t a :
  healthy a -> main_holder a = None ->
  push now t a = (Ok tt, set_alt [] (set_main ((if expired now a then tail (content a) else content a) ++ [t]) a)).
Proof.
  intros (Hm & Ha & Ht) Hh. unfold push, try_lock_main. rewrite Hh, Hm, Ha, alt_absorbed. cbn [timer_poisoned set_main set_alt negb].
  rewrite Ht. change (expired now _) with (expired now a). by destruct (expired now a).
Qed.

(** A push during a drain does not wait for it. *)
Lemma push_during_drain now t a d :
  healthy a -> main_holder a = Some d -> push now t a = (Ok tt, set_alt (alt a ++ [t]) a).
Proof. intros (_ & Ha & _) Hh. unfold push, try_lock_main. by rewrite Hh, Ha. Qed.

Lemma content_push now t a :
  healthy a ->
  content (push now t a).2
    = (if try_lock_main a && expired now a then tail (content a) else content a) ++ [t].
Proof.
  intros Ha. destruct (main_holder a) as [d|] eqn:Eh.
  - rewrite (push_during_drain now t a d) by done. unfold content, try_lock_main. rewrite Eh. cbn. by rewrite app_assoc.
  - rewrite (push_free now t a) by done. unfold content, try_lock_main. rewrite Eh. destruct Ha as (-> & _).
    cbn. by rewrite app_nil_r.
Qed.

Lemma push_healthy now t a : healthy a -> (push now t a).1 = Ok tt /\ healthy (push now t a).2.
Proof.
  intros Ha. destruct (main_holder a) as [d|] eqn:Eh.
  - by rewrite (push_during_drain now t a d).
  - by rewrite (push_free now t a).
Qed.

(** ** Order *)

Record run_inv (r : Run) : Prop := {
  run_healthy : healthy (acc r);
  run_order : drained r ++ content (acc r) `sublist_of` pushed r;
  run_dropped : (length (pushed r) <= length (drained r ++ content (acc r)) + late r)%nat;
}.

Lemma tail_sublist (l : list T) : tail l `sublist_of` l.
Proof. destruct l; [done|]. by apply sublist_cons. Qed.

Lemma sublist_full (l k : list T) : l `sublist_of` k -> (length k <= length l)%nat -> l = k.
Proof.
  induction 1 as [|x l k Hs IH|x l k Hs IH]; cbn; intros Hl; [done | by rewrite IH by lia|].
  pose proof (sublist_length _ _ Hs). lia.
Qed.

Lemma length_tail_le (l : list T) : (length l <= length (tail l) + 1)%nat.
Proof. destruct l; cbn; lia. Qed.

Lemma push_inv now t r : run_inv r -> run_inv (run_event (Push now t) r).
Proof.
  intros [Hh Ho Hd]. cbn [run_event]. pose proof (push_healthy now t (acc r) Hh) as [Hok Hh'].
  pose proof (content_push now t (acc r) Hh) as Hc.
  destruct (push now t (acc r)) as [res a]. cbn in Hok, Hh', Hc. subst res.
  split; cbn [acc drained pushed late]; [done | |].
  - rewrite Hc, app_assoc. apply sublist_app; [|done].
    destruct (_ && _); [|done]. etrans; [|exact Ho]. apply sublist_app; [done | apply tail_sublist].
  - rewrite Hc. pose proof (length_tail_le (content (acc r))). revert Hd. rewrite !length_app. cbn [length].
    destruct (_ && _); lia.
Qed.

Lemma lock_inv d r : run_inv r -> run_inv (run_event (DrainLock d) r).
Proof.
  intros [Hh Ho Hd]. cbn [run_event]. unfold drain_lock. destruct (main_holder (acc r)); [done|].
  destruct (main_poisoned (acc r)); done.
Qed.

Lemma take_inv d now r : run_inv r -> run_inv (run_event (DrainTake d now) r).
Proof.
  intros [Hh Ho Hd]. cbn [run_event]. case_bool_decide as E; [|done]. unfold drain_take.
  pose proof Hh as (_ & _ & ->). unfold content in *. split; cbn; [done | by rewrite <- app_assoc|].
  by rewrite <- app_assoc.
Qed.

Lemma run_event_inv e r : run_inv r -> run_inv (run_event e r).
Proof. destruct e; auto using push_inv, lock_inv, take_inv. Qed.

Lemma run_inv_all events r : run_inv r -> run_inv (run events r).
Proof. revert r. induction events as [|e events IH]; intros r Hr; [done|]. by apply IH, run_event_inv. Qed.

Lemma start_inv expiration_duration now : run_inv (start expiration_duration now).
Proof. by split. Qed.
End accumulator.

Arguments Accumulator : clear implicits.
Arguments Event : clear implicits.
Arguments Run : clear implicits.

(** C31: One pusher and any number of drainers, their steps interleaved in any order:
    what was drained so far followed by what the accumulator holds is what was
    pushed, in its order, less at most one item for each push that found the time
    up; when no push did, nothing is lost, doubled or out of order. *)
Theorem accumulator_order {T} (expiration_duration now : Z) (events : list (Event T)) :
  let r := run events (start expiration_duration now) in
  drained r ++ main (acc r) ++ alt (acc r) `sublist_of` pushed r
  /\ (length (pushed r) <= length (drained r ++ main (acc r) ++ alt (acc r)) + late r)%nat
  /\ (late r = 0%nat -> drained r ++ main (acc r) ++ alt (acc r) = pushed r).
Proof.
  intros r. destruct (run_inv_all events _ (start_inv expiration_duration now)) as [_ Ho Hd]. fold r in Ho, Hd.
  unfold content in *. split_and!; [done.. |]. intros E. apply sublist_full; [done|]. lia.
Qed.

(** An item pushed during a drain is not part of the next drain, nor of the one
    after it: it waits for another push. *)
Example drain_misses_alternative :
  let r := run [DrainLock 0; Push 1 (str "a"); DrainTake 0 2; DrainLock 0; DrainTake 0 3] (start 5 0) in
  drained r = [] /\ drained (run [Push 4 (str "b"); DrainLock 0; DrainTake 0 5] r) = [str "a"; str "b"].
Proof. by vm_compute. Qed.
End Accumulator.

(** * The traits *)

(** [Pusher<T>] and [Drainer<T>], of a time that each call sees; a drain has no
    result while it waits for a lock. *)
Class Pusher (P T : Type) := {
  pusher_error : Type;
  pusher_push : Z -> T -> P -> outcome pusher_error unit * P;
}.

Class Drainer (D T : Type) := {
  drainer_error : Type;
  drainer_error_debug : drainer_error -> bytes;
  drainer_drain : Z -> D -> option (outcome drainer_error (list T) * D);
}.

#[export] Instance accumulator_pusher {T} : Pusher (Accumulator.Accumulator T) T := {
  pusher_push := Accumulator.push;
}.

#[export] Instance accumulator_drainer {T} : Drainer (Accumulator.Accumulator T) T := {
  drainer_error_debug := fun e => match e with PoisonError => str "PoisonError" end;
  drainer_drain := Accumulator.drain 0;
}.

(** What the sink and the server rely on: with [holds a l] that the accumulator
    [a] is ready and holds [l], a push in time adds the item after the others, and
    a drain hands out everything, oldest first, and leaves nothing. *)
Class Queue (Q T : Type) {pusher : Pusher Q T} {drainer : Drainer Q T} (holds : Z -> Q -> list T -> Prop) : Prop := {
  queue_push deadline q l now t : holds deadline q l -> now <= deadline ->
    exists q', pusher_push now t q = (Ok tt, q') /\ holds deadline q' (l ++ [t]);
  queue_drain deadline q l now : holds deadline q l ->
    exists q', drainer_drain now q = Some (Ok l, q') /\ exists deadline', holds deadline' q' [];
}.

(** Nothing waits in the alternative queue and no drain is under way. *)
Definition accumulator_holds {T} (deadline : Z) (a : Accumulator.Accumulator T) (l : list T) : Prop :=
  Accumulator.healthy a /\ Accumulator.main_holder a = None /\ Accumulator.alt a = [] /\ Accumulator.main a = l
  /\ deadline = Accumulator.timer a + Accumulator.expiration_duration a.

#[export] Instance accumulator_queue {T} : Queue (Accumulator.Accumulator T) T accumulator_holds.
Proof.
  split.
  - intros deadline a l now t (Hh & Hm & Ha & Hl & Hd) Hnow. cbn [pusher_push accumulator_pusher].
    rewrite Accumulator.push_free by done.
    assert (Accumulator.expired now a = false) as -> by (unfold Accumulator.expired; lia).
    eexists. split; [done|]. unfold Accumulator.content. rewrite Ha, Hl, app_nil_r. by repeat split; try apply Hh.
  - intros deadline a l now (Hh & Hm & Ha & Hl & Hd). cbn [drainer_drain accumulator_drainer].
    unfold Accumulator.drain, Accumulator.drain_lock, Accumulator.drain_take. rewrite Hm.
    destruct Hh as (Hmp & Hap & Htp). rewrite Hmp. cbn. rewrite Htp, Hl. eexists. split; [done|]. eexists. by repeat split.
Qed.

Lemma accumulator_new_holds {T} (expiration_duration now : Z) :
  accumulator_holds (T := T) (now + expiration_duration) (Accumulator.new expiration_duration now) [].
Proof. by repeat split. Qed.

(** * The sink *)

(** [parse_line]: the time series of a line of the log. *)
Definition parse_line `{Json} (item : bytes) : option bytes :=
  match from_log_line item with
  | Some item => bt_get TIME_SERIES_DATA_KEY (properties item)
  | None => None
  end.

(** [BufRead::lines]: a line ends in a newline, which goes with a carriage return
    before it; the last may end with the input. *)
Definition strip_cr (line : bytes) : bytes :=
  match last line with Some x0d => removelast line | _ => line end.

Fixpoint lines (line text : bytes) : list bytes :=
  match text with
  | [] => if bool_decide (line = []) then [] else [line]
  | x0a :: rest => strip_cr line :: lines [] rest
  | c :: rest => lines (line ++ [c]) rest
  end.

(** [start_sink], on the lines of the standard input, none for one that cannot be
    read, and the time of each. *)
Fixpoint start_sink `{Json} {P} `{Pusher P bytes} (lines : list (Z * option bytes)) (pusher : P) : outcome Empty_set unit * P :=
  match lines with
  | [] => (Ok tt, pusher)
  | (_, None) :: _ => (Panic, pusher)
  | (now, Some line) :: rest =>
      match parse_line line with
      | Some parsed_line =>
          match pusher_push now parsed_line pusher with
          | (Ok _, pusher) => start_sink rest pusher
          | (_, pusher) => (Panic, pusher)
          end
      | None => start_sink rest pusher
      end
  end.

(** * The server *)

(** [slice::join]. *)
Fixpoint join (separator : bytes) (l : list bytes) : bytes :=
  match l with
  | [] => []
  | [x] => x
  | x :: l' => x ++ separator ++ join separator l'
  end.

Record Request := mk_request { method : bytes; path : bytes }.
Record Response := mk_response { status : Z; body : bytes }.

(** The handler that [handler_factory] makes. *)
Definition handler {D} `{Drainer D bytes} (endpoint : bytes) (req : Request) (now : Z) (drainer : D) : option (Response * D) :=
  if bool_decide (method req = str "GET") && bool_decide (path req = endpoint) then
    match drainer_drain now drainer with
    | Some (Ok ret, drainer) => Some (mk_response 200 (join [x0a] ret), drainer)
    | Some (Err err, drainer) => Some (mk_response 500 (drainer_error_debug err), drainer)
    | _ => None
    end
  else Some (mk_response 404 [], drainer).

Section scraper.
Context `{json : Json}.
Context {Q : Type} {pusher : Pusher Q bytes} {drainer : Drainer Q bytes} {holds : Z -> Q -> list bytes -> Prop}.
Context {queue : Queue Q bytes holds}.

(** The sink keeps the time series of the lines that have one, in their order. *)
Lemma start_sink_holds deadline lines q l :
  holds deadline q l -> Forall (fun e => e.1 <= deadline) lines ->
  exists q', start_sink (map (fun e => (e.1, Some e.2)) lines) q = (Ok tt, q')
    /\ holds deadline q' (l ++ omap parse_line (map snd lines)).
Proof.
  intros Hq Hf. revert q l Hq. induction Hf as [|[now line] lines Hnow Hf IH]; intros q l Hq.
  { exists q. cbn. by rewrite app_nil_r. }
  cbn in *. destruct (parse_line line) as [t|]; [|by apply IH].
  destruct (queue_push deadline q l now t Hq Hnow) as (q' & -> & Hq'). destruct (IH q' _ Hq') as (q'' & E & Hq'').
  exists q''. split; [done|]. by rewrite <- app_assoc in Hq''.
Qed.

Lemma handler_get endpoint now deadline q l :
  holds deadline q l ->
  exists q', handler endpoint (mk_request (str "GET") endpoint) now q = Some (mk_response 200 (join [x0a] l), q')
    /\ exists deadline', holds deadline' q' [].
Proof.
  intros Hq. unfold handler. cbn [method path]. rewrite !bool_decide_eq_true_2 by done.
  destruct (queue_drain deadline q l now Hq) as (q' & E & Hd). cbn [andb]. rewrite E. eauto.
Qed.
End scraper.

(** * From the engine to the client *)

(** What is printed with a newline after each. *)
Definition printed (l : list bytes) : bytes := concat (map (fun x => x ++ [x0a]) l).

Lemma lines_one line rest acc :
  ~ In x0a line -> lines acc (line ++ x0a :: rest) = strip_cr (acc ++ line) :: lines [] rest.
Proof.
  revert acc. induction line as [|c line IH]; intros acc Hl; cbn [app]; [by rewrite app_nil_r|].
  cbn in Hl. assert (lines acc (c :: line ++ x0a :: rest) = lines (acc ++ [c]) (line ++ x0a :: rest)) as ->.
  { cbn [lines]. destruct c; try done. tauto. }
  rewrite IH by tauto. by rewrite <- app_assoc.
Qed.

Lemma strip_cr_none line : ~ In x0d line -> strip_cr line = line.
Proof.
  intros Hl. unfold strip_cr. destruct (last line) as [c|] eqn:E; [|done].
  apply last_Some in E as [l' ->]. rewrite in_app_iff in Hl. destruct c; try done. cbn in Hl. tauto.
Qed.

Lemma lines_printed l : Forall (fun x => ~ In x0a x /\ ~ In x0d x) l -> lines [] (printed l) = l.
Proof.
  induction 1 as [|x l [Hn Hr] Hl IH]; [done|]. unfold printed. cbn [map concat]. rewrite <- app_assoc. cbn [app].
  rewrite lines_one by done. cbn [app]. rewrite strip_cr_none by done. f_equal. exact IH.
Qed.

(** A call of [log_metric], with the surroundings it sees. *)
Record MetricCall := mk_call {
  call_system : LogSystem;
  call_millis : Z;
  call_correlation_id : bytes;
  call_metric : bytes;
  call_tag : bytes;
  call_key : bytes;
  call_value : F64;
}.

Definition log_call `{Json} (c : MetricCall) : eff LogState Empty_set (option bytes) :=
  log_metric (sys := call_system c) (call_correlation_id c) (call_metric c) (call_tag c) (call_key c) (call_value c).

Fixpoint log_calls `{Json} (calls : list MetricCall) : eff LogState Empty_set unit :=
  match calls with
  | [] => eret tt
  | c :: calls' => ebind (log_call c) (fun _ => log_calls calls')
  end.

(** Its message, its line and its time series. *)
Definition call_message (p : LogSettingsProvider) (c : MetricCall) : LogMessage :=
  metric_message (sys := call_system c) p (call_correlation_id c) (call_metric c) (call_tag c) (call_key c) (call_value c)
    (wrap_signed 64 (call_millis c)).

Definition call_tsd (c : MetricCall) : bytes :=
  tsd_metric (call_metric c) (call_tag c) (call_value c) (wrap_signed 64 (call_millis c)).

(** The clock is after the epoch, the names and the time are plain, the key of the
    value is its own, and the message has a text. *)
Record call_ok `{Json} (p : LogSettingsProvider) (c : MetricCall) : Prop := {
  ok_millis : @millis_since_epoch (call_system c) = Some (call_millis c);
  ok_names : plain_names (sys := call_system c) p;
  ok_key : call_key c <> TIME_SERIES_DATA_KEY;
  ok_text : is_Some (json_to_string (call_message p c));
}.

Section served.
Context `{json : Json} {laws : JsonLaws}.

Lemma call_parse p c : call_ok p c -> parse_line (log_line (call_message p c)) = Some (call_tsd c).
Proof.
  intros [_ Hn Hk [text Ht]]. unfold parse_line, call_message, metric_message.
  rewrite (log_line_roundtrip (sys := call_system c) p _ _ _ text Hn Ht). by apply (metric_message_tsd (sys := call_system c)).
Qed.

Lemma call_one_line p c : call_ok p c -> ~ In x0a (log_line (call_message p c)) /\ ~ In x0d (log_line (call_message p c)).
Proof. intros [_ Hn _ [text Ht]]. by eapply (log_line_one (sys := call_system c)). Qed.

Lemma log_calls_lines calls s :
  logger s <> Some BufferLogger -> provider_filter (provider s) Metric = false -> Forall (call_ok (provider s)) calls ->
  exists s', log_calls calls s = (Ok tt, s') /\ provider s' = provider s
    /\ stdout s' = stdout s ++ map (fun c => log_line (call_message (provider s) c)) calls.
Proof.
  intros Hl Hf Hc. revert s Hl Hf Hc. induction calls as [|c calls IH]; intros s Hl Hf Hc.
  { exists s. cbn. by rewrite app_nil_r. }
  inversion Hc as [|?? Hok Hc']; subst. cbn [log_calls]. unfold ebind, log_call.
  rewrite (log_metric_line (sys := call_system c) _ _ _ _ _ s (call_millis c) Hl Hf (ok_millis _ _ Hok)).
  match goal with |- context [log_calls calls ?x] => destruct (IH x) as (s' & E & Hp & Ho); [done..|] end.
  exists s'. rewrite E. split_and!; [done.. |]. rewrite Ho. cbn [stdout provider map]. by rewrite <- app_assoc.
Qed.

Lemma omap_parse p calls :
  Forall (call_ok p) calls -> omap parse_line (map (fun c => log_line (call_message p c)) calls) = map call_tsd calls.
Proof. induction 1 as [|c calls Hc _ IH]; [done|]. cbn [map omap list_omap]. rewrite call_parse by done. by f_equal. Qed.

Lemma zip_some (times : list Z) (l : list bytes) : zip times (map Some l) = map (fun e => (e.1, Some e.2)) (zip times l).
Proof. revert l. induction times as [|t times IH]; intros [|x l]; [done.. |]. cbn. f_equal. apply IH. Qed.

Lemma zip_times (times : list Z) (l : list bytes) (P : Z -> Prop) :
  length times = length l -> Forall P times -> map snd (zip times l) = l /\ Forall (fun e => P e.1) (zip times l).
Proof.
  revert l. induction times as [|t times IH]; intros [|x l] Hl Hf; try done. inversion Hf; subst.
  destruct (IH l) as [E F]; [by injection Hl | done|]. split; cbn; [f_equal; exact E | by constructor].
Qed.

(** C32: The metrics a process logs are what the scraper serves: when the terminal
    logger prints them, the output is piped to the sink of a new accumulator and
    arrives before it expires, a request for the endpoint is answered with the time
    series of every metric, in the order they were logged, one to a line, and
    leaves the accumulator empty. *)
Theorem metrics_served calls s expiration_duration created times now endpoint :
  logger s <> Some BufferLogger -> provider_filter (provider s) Metric = false -> stdout s = [] ->
  Forall (call_ok (provider s)) calls ->
  length times = length calls -> Forall (fun t => t <= created + expiration_duration) times ->
  exists s' a a',
    log_calls calls s = (Ok tt, s')
    /\ start_sink (zip times (map Some (lines [] (printed (stdout s'))))) (Accumulator.new expiration_duration created) = (Ok tt, a)
    /\ handler endpoint (mk_request (str "GET") endpoint) now a = Some (mk_response 200 (join [x0a] (map call_tsd calls)), a')
    /\ Accumulator.content a' = [].
Proof.
  intros Hl Hf Ho Hc Hlen Ht. destruct (log_calls_lines calls s Hl Hf Hc) as (s' & E & _ & Hs'). rewrite Ho in Hs'.
  cbn [app] in Hs'. set (ls := map _ calls) in *. assert (lines [] (printed (stdout s')) = ls) as Hlines.
  { rewrite Hs'. apply lines_printed, Forall_map. eapply Forall_impl; [exact Hc|]. apply call_one_line. }
  destruct (zip_times times ls (fun t => t <= created + expiration_duration)) as [Hz Hzt]; [by unfold ls; rewrite length_map | done|].
  destruct (start_sink_holds _ (zip times ls) _ _ (accumulator_new_holds expiration_duration created) Hzt) as (a & Ea & Ha).
  rewrite Hz in Ha. unfold ls in Ha. rewrite omap_parse in Ha by done. destruct (handler_get endpoint now _ a _ Ha) as (a' & Eh & d & Ha').
  exists s', a, a'. rewrite Hlines, zip_some. split_and!; [done.. |].
  destruct Ha' as (_ & _ & H1 & H2 & _). unfold Accumulator.content. by rewrite H1, H2.
Qed.
End served.
