(* ===== verification/Witnesses.v ===== *)
(** Concrete instances of the parameters (a hash function, a hexadecimal codec,
    a host) and, for every theorem with hypotheses, an input at which they
    hold. *)

From stdpp Require Import gmap.
From S2P Require Import Prelude BTreeMap Bytesrepr Uint Types CLValues Account StoredValue Transform.
From S2P Require Import Trie TrieStore TrieSpec TrieWrite TrieKeys GlobalState TrackingCopy Execution.
From S2P Require Import Mint Stakes ProofOfStake PosProgress.

(** * Instances *)

(** A hexadecimal codec. *)
Definition hex_digit (n : Z) : byte := byte_of_Z (if n <? 10 then 48 + n else 87 + n).

Definition hex_value (b : byte) : option Z :=
  let n := byte_to_Z b in
  if (48 <=? n) && (n <? 58) then Some (n - 48)
  else if (97 <=? n) && (n <? 103) then Some (n - 87)
  else None.

Definition hex_pair (b : byte) : bytes := [hex_digit (byte_to_Z b / 16); hex_digit (byte_to_Z b mod 16)].

Definition hex_encode (bs : bytes) : bytes := flat_map hex_pair bs.

Fixpoint hex_decode (s : bytes) : option bytes :=
  match s with
  | [] => Some []
  | [_] => None
  | a :: b :: s' =>
      match hex_value a, hex_value b, hex_decode s' with
      | Some x, Some y, Some bs => Some (byte_of_Z (16 * x + y) :: bs)
      | _, _, _ => None
      end
  end.

#[export] Instance hex_laws : HexLaws hex_encode hex_decode.
Proof.
  split.
  - intros b. induction b as [|x b IH]; [done|]. cbn [hex_encode flat_map hex_pair app length].
    fold (hex_encode b). rewrite IH. lia.
  - intros b. induction b as [|x b IH]; [done|]. cbn [hex_encode flat_map hex_pair app hex_decode].
    fold (hex_encode b). rewrite IH. by destruct x.
  - intros [|x b]; [done|]. by destruct x.
Qed.

(** A hash of the right length. *)
#[export] Instance demo_hasher : Hasher :=
  fun data => to_le_bytes 32 (fold_left (fun acc b => Z.land (31 * acc + byte_to_Z b) 4294967295) data 7).

#[export] Instance demo_hasher_laws : HasherLaws.
Proof. intros data. apply to_le_bytes_length. Qed.

(** Error messages without text. *)
#[export] Instance demo_debug_text : DebugText := {
  transform_debug _ := [];
  num_type_name _ := [];
}.

(** * Serialization and integers *)

Lemma btreemap_codec_witness :
  let bs := byte_of_Z 2 :: replicate 3 x00 ++ [x05; x01; x03; x02] in
  btreemap_from_bytes u8_codec u8_codec bs = Ok ([(3, 2); (5, 1)], [])
  /\ bt_wf (V := Z) [(3, 2); (5, 1)].
Proof.
  assert (CodecSafe u8_codec) as Hs by (intros [|]; done).
  destruct (btreemap_codec_spec u8_codec u8_codec (is_unsigned 8) (is_unsigned 8) Hs Hs) as [_ Hd].
  split; [by vm_compute|].
  apply (proj2 (Hd (byte_of_Z 2 :: replicate 3 x00 ++ [x05; x01; x03; x02])) _ []).
  by vm_compute.
Defined.

Lemma as_witness :
  as_ NI32 NU128 (-1) = 2 ^ 128 - 1 /\ eqmod 128 (as_ NI32 NU128 (-1)) (-1).
Proof.
  destruct (as_spec NI32 NU128 (-1)) as (_ & He & _); [by vm_compute|].
  split; [by vm_compute | exact He].
Defined.

Lemma uint_codec_witness :
  uint_to_bytes 64 256 = Ok [x02; x00; x01]
  /\ forall bs', uint_from_bytes 64 bs' = Ok (256, []) -> (3 <= length bs')%nat.
Proof.
  split; [by vm_compute|].
  apply (uint_codec_spec 64 256 [x02; x00; x01]); by vm_compute.
Defined.

(** * Types *)

Lemma check_next_version_witness :
  check_next_version true (mk_semver 1 2 3) (mk_semver 2 0 0) = Ok CodeIsRequired
  /\ check_next_version true (mk_semver 1 2 3) (mk_semver 1 1 9) = Ok Invalid.
Proof.
  split.
  - rewrite (check_next_version_spec true (mk_semver 1 2 3) (mk_semver 2 0 0)); by vm_compute.
  - rewrite (check_next_version_spec true (mk_semver 1 2 3) (mk_semver 1 1 9)); by vm_compute.
Defined.

Lemma uref_as_string_witness :
  let u1 := mk_uref (replicate 32 x01) None in
  let u2 := mk_uref (replicate 32 x01) (Some 0) in
  uref_as_string hex_encode u1 = uref_as_string hex_encode u2
  /\ uref_addr u1 = uref_addr u2
  /\ default 0 (uref_access_rights u1) = default 0 (uref_access_rights u2).
Proof.
  split; [by vm_compute|].
  apply (uref_as_string_inj hex_encode hex_decode (mk_uref (replicate 32 x01) None)
           (mk_uref (replicate 32 x01) (Some 0))); by vm_compute.
Defined.

Lemma parse_hash_witness :
  let h := replicate 32 xab in
  parse_hash hex_decode (hex_encode h) = Some (Key_Hash h)
  /\ parse_hash hex_decode (str "0x" ++ hex_encode h) = Some (Key_Hash h).
Proof. apply (parse_hash_encode hex_encode hex_decode (replicate 32 xab)). by vm_compute. Defined.

(** * Values *)

Lemma cl_value_witness :
  let v := mk_cl_value CL_U64 (to_le_bytes 8 7) in
  exists bs, cl_value_to_bytes v = Ok bs
    /\ deserialize cl_value_codec bs = Ok v /\ into_t (clt_num NU64) v = Ok 7
    /\ zlen bs = cl_value_serialized_len v.
Proof.
  eexists. split; [by vm_compute|].
  apply (cl_value_roundtrip (clt_num NU64) (num_valid NU64) 7); by vm_compute.
Defined.

(** * Accounts *)

Definition alice : PublicKey := replicate 32 x0a.
Definition bob : PublicKey := replicate 32 x0b.
Definition alice_account : Account :=
  account_create alice [] (uref_new (replicate 32 x07) READ_ADD_WRITE).

(** [alice] adds [bob], and asks for both of them to manage the account. *)
Definition shared_account : Account :=
  match (let? a := omap_err (fun _ => tt) (add_associated_key alice_account bob 1) in
         omap_err (fun _ => tt) (set_action_threshold a KeyManagement 2)) with
  | Ok a => a
  | _ => alice_account
  end.

Lemma account_never_locked_witness :
  rtc account_step alice_account shared_account
  /\ can_manage_keys_with shared_account [alice; bob] = true
  /\ can_manage_keys_with shared_account [alice] = false.
Proof.
  assert (rtc account_step alice_account shared_account) as Hr.
  { eapply rtc_l; [apply (step_add _ bob 1); [by vm_compute | by vm_compute]|].
    eapply rtc_once. apply (step_threshold _ KeyManagement 2); by vm_compute. }
  split; [exact Hr|].
  destruct (account_never_locked alice [] (uref_new (replicate 32 x07) READ_ADD_WRITE) shared_account Hr)
    as (Hm & _).
  split; [exact Hm | by vm_compute].
Defined.

Lemma key_changes_witness :
  remove_associated_key alice_account alice = Err RemoveKey_ThresholdViolation
  /\ exists a, update_associated_key alice_account alice 5 = Ok a.
Proof.
  destruct (key_changes_exact alice_account alice 5) as [Hr Hu];
    [apply account_create_inv | by vm_compute|].
  rewrite Hr, Hu. split; [by vm_compute | by eexists].
Defined.

Lemma associated_keys_decode_witness :
  let m := map (fun n => (replicate 32 (byte_of_Z n), 1)) [1; 2; 3; 4; 5; 6; 7; 8; 9; 10; 11] in
  exists bs, associated_keys_to_bytes m = Ok bs /\ deserialize associated_keys_codec bs = Panic.
Proof.
  eexists. split; [vm_compute; reflexivity|].
  rewrite (associated_keys_decode
    (map (fun n => (replicate 32 (byte_of_Z n), 1)) [1; 2; 3; 4; 5; 6; 7; 8; 9; 10; 11])).
  - by vm_compute.
  - repeat split; try by vm_compute. all: repeat constructor; by vm_compute.
  - by vm_compute.
Defined.

(** * Stored values and transforms *)

Lemma stored_value_witness :
  exists bs, stored_value_to_bytes (SV_Account shared_account) = Ok bs
    /\ stored_value_from_bytes (bs ++ [x2a]) = Ok (SV_Account shared_account, [x2a]).
Proof.
  eexists. split; [vm_compute; reflexivity|].
  apply stored_value_roundtrip; [|by vm_compute].
  repeat split; try by vm_compute. all: repeat constructor; by vm_compute.
Defined.

Definition u64_value (z : Z) : StoredValue := SV_CLValue (mk_cl_value CL_U64 (to_le_bytes 8 z)).

Lemma transform_add_witness :
  exists v', apply_transform (AddInt32 (-3)) (u64_value 10) = Ok v'
    /\ agree (apply_transform (transform_add (AddInt32 (-3)) (AddUInt64 5)) (u64_value 10))
         (apply_transform (AddUInt64 5) v').
Proof.
  exists (u64_value 7). split; [by vm_compute|].
  apply transform_add_apply; try by vm_compute.
  exists NU64. split; [by vm_compute|]. left. by vm_compute.
Defined.

(** * The trie and the global state *)

Definition state0 : InMemoryData * Blake2bHash :=
  match global_state_empty None with Ok x => x | _ => (∅, []) end.

#[local] Abbreviation state_wf x :=
  (root_wf key_codec stored_value_codec None key_valid stored_value_valid x.1 x.2).

Lemma state0_wf : state_wf state0.
Proof.
  destruct (global_state_empty_spec None) as (data & root & E & Hwf & _).
  unfold state0. rewrite E. exact Hwf.
Qed.

(** Keys that share a prefix, so that writing them builds an extension. *)
Definition key_of (a b : byte) : Key := Key_Hash (a :: replicate 30 x05 ++ [b]).

Definition effects1 : list (Key * Transform) :=
  [(key_of x01 x01, Write (u64_value 1)); (key_of x01 x02, Write (u64_value 2))].

(** The state after a commit, or the empty state where it does not succeed. *)
Definition after_commit (r : outcome (StoreError InMemoryError) (InMemoryData * CommitResult))
    : option (InMemoryData * Blake2bHash) :=
  match r with
  | Ok (data, CR_Success root []) => Some (data, root)
  | _ => None
  end.

Lemma after_commit_inv r data root :
  after_commit r = Some (data, root) -> r = Ok (data, CR_Success root []).
Proof. destruct r as [[d [|h []| | |]]|?|]; try done. by intros [= -> ->]. Qed.

Definition state1 : InMemoryData * Blake2bHash :=
  default state0 (after_commit (commit None state0.1 state0.2 effects1)).

Lemma effects1_ok : Forall effect_ok effects1 /\ List.NoDup (map fst effects1).
Proof. split; repeat constructor; try by vm_compute. by intros [[=]|[]]. Qed.

Lemma effects1_success :
  commit None state0.1 state0.2 effects1 = Ok (state1.1, CR_Success state1.2 []).
Proof.
  apply after_commit_inv. unfold state1.
  assert (match after_commit (commit None state0.1 state0.2 effects1) with
          | Some _ => true | None => false end = true) as Hs by (vm_compute; reflexivity).
  by destruct (after_commit _) as [[data root]|].
Qed.

Lemma effects1_safe : commit_no_collision None state0.1 state0.2 effects1 = true.
Proof. vm_compute. reflexivity. Qed.

Lemma effects1_committed : committed None state0.1 state0.2 effects1 state1.1 state1.2.
Proof.
  exact (commit_success None state0.1 state0.2 effects1 state1.1 state1.2 [] state0_wf
    (proj1 effects1_ok) (proj2 effects1_ok) effects1_safe effects1_success).
Qed.

Lemma state1_wf : state_wf state1.
Proof. exact (proj1 effects1_committed). Qed.

Lemma trie_read_witness :
  read key_codec stored_value_codec None KEY_FUEL state1.1 state1.2 (key_of x01 x02)
    = Ok (Found (u64_value 2))
  /\ value_at key_codec stored_value_codec None state1.1 state1.2 (key_of x01 x02) (u64_value 2).
Proof.
  destruct (trie_read_correct key_codec stored_value_codec None key_valid stored_value_valid
    KEY_FUEL state1.1 state1.2 (key_of x01 x02) state1_wf eq_refl (key_enough (key_of x01 x02) eq_refl))
    as (r & Hr & _ & Hv).
  assert (read key_codec stored_value_codec None KEY_FUEL state1.1 state1.2 (key_of x01 x02)
    = Ok (Found (u64_value 2))) as Hc by (vm_compute; reflexivity).
  split; [exact Hc|]. apply Hv. rewrite Hc in Hr. injection Hr as <-. reflexivity.
Defined.

Lemma trie_keys_witness :
  exists enough l, (forall fuel, (enough <= fuel)%nat ->
      keys key_codec stored_value_codec None fuel state1.1 state1.2 = Ok l)
    /\ In (key_of x01 x02) l.
Proof.
  destruct (trie_keys_correct key_codec stored_value_codec None key_valid stored_value_valid
    state1.1 state1.2 state1_wf) as (n & l & Hl & Hk & _).
  exists n, l. split; [exact Hl|]. apply Hk. exists (u64_value 2).
  destruct (read_spec key_codec stored_value_codec None key_valid stored_value_valid
    KEY_FUEL state1.1 state1.2 (key_of x01 x02) state1_wf eq_refl (key_enough (key_of x01 x02) eq_refl))
    as (r & Hr & _ & Hv).
  apply Hv. assert (read key_codec stored_value_codec None KEY_FUEL state1.1 state1.2 (key_of x01 x02)
    = Ok (Found (u64_value 2))) as Hc by (vm_compute; reflexivity).
  rewrite Hc in Hr. injection Hr as <-. reflexivity.
Defined.

(** A third key, whose path leaves the extension of the first two. *)
Definition key3 : Key := key_of x02 x01.

Lemma write3_safe es :
  write_elements key_codec stored_value_codec None KEY_FUEL state1.1 state1.2 key3 (u64_value 3) = Ok es ->
  no_collision key_codec stored_value_codec None state1.1 es.
Proof.
  intros E. apply no_collision_check.
  assert (match write_elements key_codec stored_value_codec None KEY_FUEL state1.1 state1.2
                  key3 (u64_value 3) with
          | Ok es => no_collision_b key_codec stored_value_codec None state1.1 es
          | _ => false end = true) as Hc by (vm_compute; reflexivity).
  rewrite E in Hc. exact Hc.
Qed.

Lemma write3_written :
  exists t' root', write key_codec stored_value_codec None KEY_FUEL state1.1 state1.2 key3 (u64_value 3)
    = Ok (t', Written root').
Proof.
  assert (match write key_codec stored_value_codec None KEY_FUEL state1.1 state1.2 key3 (u64_value 3) with
          | Ok (_, Written _) => true | _ => false end = true) as Hc by (vm_compute; reflexivity).
  destruct (write key_codec stored_value_codec None KEY_FUEL state1.1 state1.2 key3 (u64_value 3))
    as [[t' [root'| |]]|?|]; try discriminate Hc. exists t', root'. reflexivity.
Qed.

Lemma trie_write_read_witness :
  exists t' root',
    write key_codec stored_value_codec None KEY_FUEL state1.1 state1.2 key3 (u64_value 3)
      = Ok (t', Written root')
    /\ read key_codec stored_value_codec None KEY_FUEL t' root' key3 = Ok (Found (u64_value 3))
    /\ read key_codec stored_value_codec None KEY_FUEL t' root' (key_of x01 x02)
       = Ok (Found (u64_value 2)).
Proof.
  destruct write3_written as (t' & root' & E). exists t', root'. split; [exact E|].
  destruct (trie_write_read key_codec stored_value_codec None key_valid stored_value_valid
    KEY_FUEL state1.1 state1.2 key3 (u64_value 3) t' root' state1_wf eq_refl I (key_enough key3 eq_refl)
    (stored_value_to_bytes_safe _) write3_safe E) as (_ & Hr & Ho & _).
  split; [exact Hr|]. rewrite (Ho (key_of x01 x02) eq_refl (key_enough (key_of x01 x02) eq_refl)).
  - vm_compute. reflexivity.
  - vm_compute. discriminate.
Defined.

Lemma trie_write_outcome_witness :
  match write key_codec stored_value_codec None KEY_FUEL state1.1 state1.2 key3 (u64_value 3) with
  | Ok (_, WriteRootNotFound) | Panic => False
  | _ => True
  end.
Proof.
  pose proof (trie_write_outcome key_codec stored_value_codec None key_valid stored_value_valid
    KEY_FUEL state1.1 state1.2 key3 (u64_value 3) state1_wf eq_refl I (key_enough key3 eq_refl)
    (stored_value_to_bytes_safe _) write3_safe) as Ho.
  destruct (write key_codec stored_value_codec None KEY_FUEL state1.1 state1.2 key3 (u64_value 3))
    as [[t' [root'| |]]|?|]; try exact I; exact Ho.
Defined.

(** An addition to one key and a new key. *)
Definition effects2 : list (Key * Transform) :=
  [(key_of x01 x01, AddUInt64 41); (key3, Write (u64_value 3))].

Lemma effects2_ok : Forall effect_ok effects2 /\ List.NoDup (map fst effects2).
Proof. split; repeat constructor; try by vm_compute. by intros [[=]|[]]. Qed.

Lemma effects2_safe : commit_no_collision None state1.1 state1.2 effects2 = true.
Proof. vm_compute. reflexivity. Qed.

Lemma effects2_rev_safe : commit_no_collision None state1.1 state1.2 (rev effects2) = true.
Proof. vm_compute. reflexivity. Qed.

Lemma commit_witness :
  match commit None state1.1 state1.2 effects2 with
  | Ok (data, CR_Success root _) =>
      state_read None data root (key_of x01 x01) = Ok (Found (u64_value 42))
      /\ state_read None data root (key_of x01 x02) = Ok (Found (u64_value 2))
  | _ => False
  end.
Proof.
  pose proof (commit_correct None state1.1 state1.2 effects2 state1_wf (proj1 effects2_ok)
    (proj2 effects2_ok) effects2_safe) as Hc.
  assert (match after_commit (commit None state1.1 state1.2 effects2) with
          | Some _ => true | None => false end = true) as Hs by (vm_compute; reflexivity).
  destruct (commit None state1.1 state1.2 effects2) as [[data [|root vs| | |]]|?|]; try discriminate Hs.
  destruct Hc as (_ & _ & Hin & Hout). split.
  - destruct (Hin (key_of x01 x01) (AddUInt64 41) (or_introl eq_refl)) as (r & v & Hr & He & ->).
    vm_compute in Hr. injection Hr as <-. vm_compute in He. injection He as <-. vm_compute. reflexivity.
  - rewrite (Hout (key_of x01 x02) eq_refl).
    + vm_compute. reflexivity.
    + vm_compute. intros [E|[E|[]]]; discriminate E.
Defined.

Lemma commit_order_witness :
  match commit None state1.1 state1.2 effects2, commit None state1.1 state1.2 (rev effects2) with
  | Ok (data1, CR_Success root1 _), Ok (data2, CR_Success root2 _) =>
      state_read None data1 root1 key3 = state_read None data2 root2 key3
  | _, _ => False
  end.
Proof.
  assert (match after_commit (commit None state1.1 state1.2 effects2),
                after_commit (commit None state1.1 state1.2 (rev effects2)) with
          | Some _, Some _ => true | _, _ => false end = true) as Hs by (vm_compute; reflexivity).
  pose proof (fun data1 root1 vs1 data2 root2 vs2 =>
    commit_order_irrelevant None state1.1 state1.2 effects2 (rev effects2) data1 root1 vs1
      data2 root2 vs2 key3 state1_wf (proj1 effects2_ok) (proj2 effects2_ok)
      (Permutation_rev effects2) effects2_safe effects2_rev_safe) as Ho.
  destruct (commit None state1.1 state1.2 effects2) as [[data1 [|root1 vs1| | |]]|?|];
    try discriminate Hs.
  destruct (commit None state1.1 state1.2 (rev effects2)) as [[data2 [|root2 vs2| | |]]|?|];
    try (destruct vs1; discriminate Hs).
  exact (Ho data1 root1 vs1 data2 root2 vs2 eq_refl eq_refl eq_refl).
Defined.

(** Two writers, one of them active. *)
Lemma writers_exclusive_witness :
  exists s view, rtc Writers.step Writers.initial s
    /\ Writers.threads s !! 1%nat = Some (Writers.Active view)
    /\ forall tid2 view2, Writers.threads s !! tid2 = Some (Writers.Active view2) -> 1%nat = tid2.
Proof.
  pose (s1 := Writers.mk_state in_memory_default None {[ 1%nat := Writers.Waiting in_memory_default ]}).
  pose (s2 := Writers.mk_state in_memory_default (Some 1%nat)
                {[ 1%nat := Writers.Active in_memory_default ]}).
  assert (rtc Writers.step Writers.initial s2) as Hr.
  { eapply rtc_l; [by exists (Writers.Snapshot 1) | eapply rtc_once; by exists (Writers.Acquire 1)]. }
  exists s2, in_memory_default. split; [exact Hr|]. split; [reflexivity|].
  intros tid2 view2 H2.
  exact (Writers.writers_exclusive s2 1 tid2 in_memory_default view2 Hr eq_refl H2).
Defined.

(** * Executions *)

Module ExecutionWitness.

(** The linked hash map as the list of its entries. *)
#[export] Instance list_map : LinkedHashMap (list (Key * StoredValue)) := {
  lhm_new := [];
  lhm_entries l := l;
  lhm_insert k v l := entries_without k l ++ [(k, v)];
  lhm_pop_front l := match l with [] => None | (k, v) :: l' => Some (k, v, l') end;
  lhm_get_refresh k l :=
    match entries_get k l with
    | None => (None, l)
    | Some v => (Some v, entries_without k l ++ [(k, v)])
    end;
}.

#[export] Instance list_map_laws : LinkedHashMapLaws (list (Key * StoredValue)).
Proof.
  split; cbn; try done.
  - intros [|[k v] l]; done.
  - intros k l. destruct (entries_get k l) as [v|]; [by eexists|done].
Qed.

#[export] Instance demo_meter : Meter := fun _ _ => 1000.

#[export] Instance demo_meter_laws : MeterLaws.
Proof. intros k v. unfold measure, demo_meter. lia. Qed.

#[export] Instance demo_query_text : QueryText := {
  key_debug _ := [];
  stored_value_debug _ := [];
}.

Definition copy0 : TrackingCopy (list (Key * StoredValue)) := tracking_copy_new.

(** The state before the execution, a reader. *)
Definition base (k : Key) : outcome (StoreError InMemoryError) (option StoredValue) :=
  view_read None state1.1 state1.2 k.

Lemma base_ok : reader_ok base.
Proof. apply view_reader_ok. exact state1_wf. Qed.

(** An execution that reads a key, adds to it and writes another one. *)
Definition copy1 := snd (tc_read base (key_of x01 x01) copy0).
Definition copy2 := snd (tc_add base (key_of x01 x01) (u64_value 41) copy1).
Definition copy3 := tc_write key3 (u64_value 3) copy2.

Lemma copy1_steps : tc_run base copy1 ∅.
Proof. apply rtc_once. eapply tc_step_read; [|apply surjective_pairing]. reflexivity. Qed.

(** One more addition of an execution. *)
Lemma tc_run_add k value s X b :
  tc_run base s X -> key_valid k -> fst (tc_add base k value s) = Ok Add_Success -> add_exact base s k value = b ->
  tc_run base (snd (tc_add base k value s)) (if b then X else {[ normalize k ]} ∪ X).
Proof.
  intros Hs Hk Hr Hb. eapply rtc_r; [exact Hs|].
  pose proof (tc_step_add base k value _ s _ X Hk (surjective_pairing _)) as Hst.
  unfold lost_sums in Hst. by rewrite Hr, Hb in Hst.
Qed.

Lemma copy3_steps : tc_run base copy3 ∅.
Proof.
  eapply rtc_r; [apply (tc_run_add (key_of x01 x01) (u64_value 41) copy1 ∅ true copy1_steps)|by apply tc_step_write].
  all: vm_compute; reflexivity.
Qed.

Lemma copy3_safe : commit_no_collision None state1.1 state1.2 (execution_effects copy3) = true.
Proof. vm_compute. reflexivity. Qed.

(** An execution that adds a [U128] and then a [U256] to a [u64]: both additions
    succeed, and what is recorded for the key is a failure. *)
Definition wide_value (X : NumType) : StoredValue :=
  SV_CLValue (mk_cl_value (clt_type (clt_num X)) [x01; x05]).

Definition copy4 := snd (tc_add base (key_of x01 x01) (wide_value NU128) copy1).
Definition copy5 := snd (tc_add base (key_of x01 x01) (wide_value NU256) copy4).

Lemma copy5_steps : tc_run base copy5 ({[ normalize (key_of x01 x01) ]} ∪ ∅).
Proof.
  apply (tc_run_add (key_of x01 x01) (wide_value NU256) copy4 ∅ false).
  - apply (tc_run_add (key_of x01 x01) (wide_value NU128) copy1 ∅ true copy1_steps); vm_compute; reflexivity.
  - reflexivity.
  - vm_compute. reflexivity.
  - vm_compute. reflexivity.
Qed.

Lemma copy5_safe : commit_no_collision None state1.1 state1.2 (execution_effects copy5) = true.
Proof. vm_compute. reflexivity. Qed.


Lemma tracking_copy_witness :
  exists s', tc_read base key3 copy3 = (Ok (Some (u64_value 3)), s').
Proof.
  assert (tc_inv base copy3) as Hi by exact (proj1 (tc_steps_inv base copy3 ∅ base_ok copy3_steps)).
  destruct (tracking_copy_spec base copy3 key3 Hi) as ((s' & E & _) & _).
  assert (tc_view base copy3 (normalize key3) = Ok (Some (u64_value 3))) as Hv
    by (vm_compute; reflexivity).
  exists s'. rewrite E, Hv. reflexivity.
Defined.

Lemma tracking_copy_cache_witness :
  current_cache_size (tc_cache copy3) = 1000
  /\ total_size (lhm_entries (reads_cached (tc_cache copy3))) <= CACHE_SIZE.
Proof.
  destruct (tracking_copy_cache base copy3 ∅ base_ok copy3_steps) as [_ Hle].
  split; [vm_compute; reflexivity | exact Hle].
Defined.

(** An account with a name for a number, written to the state of the root. *)
Definition named_account : Account :=
  account_create alice [(str "total", key3)] (uref_new (replicate 32 x07) READ_ADD_WRITE).

Definition copy6 := tc_write (Key_Account alice) (SV_Account named_account) copy3.

Lemma named_account_valid : stored_value_valid (SV_Account named_account).
Proof.
  cbn. split; [reflexivity|]. split; [split; repeat constructor|]. split; [split; [reflexivity | by vm_compute]|].
  split; [|split; cbn; unfold is_unsigned; lia].
  split; [|by vm_compute]. split; [repeat constructor|]. split; [repeat constructor; by vm_compute | by vm_compute].
Qed.

Lemma copy6_steps : tc_run base copy6 ∅.
Proof. eapply rtc_r; [exact copy3_steps|]. apply tc_step_write; [reflexivity | exact named_account_valid]. Qed.

Lemma tc_query_witness :
  (exists s', tc_query base (Key_Account alice) [str "total"] copy6 = (Ok (Query_Success (u64_value 3)), s'))
  /\ exists msg s', tc_query base (Key_Account alice) [str "absent"] copy6 = (Ok (Query_ValueNotFound msg), s').
Proof.
  split.
  - destruct (tc_query_spec base copy6 ∅ (Key_Account alice) [str "total"] base_ok copy6_steps) as (r & s' & E & _ & _ & Hv);
      [reflexivity|].
    exists s'. rewrite E. replace (path_value _ _ _ _) with (Some (u64_value 3)) in Hv by (vm_compute; reflexivity).
    by rewrite Hv.
  - destruct (tc_query_spec base copy6 ∅ (Key_Account alice) [str "absent"] base_ok copy6_steps) as (r & s' & E & _ & _ & Hv);
      [reflexivity|].
    replace (path_value _ _ _ _) with (@None StoredValue) in Hv by (vm_compute; reflexivity).
    destruct Hv as [msg ->]. by exists msg, s'.
Defined.
End ExecutionWitness.

Lemma transform_mixed_widths_witness :
  exists e, apply_transform (transform_add (AddUInt128 1) (AddUInt256 2)) (u64_value 0) = Err e.
Proof.
  apply (transform_add_mixed_widths (mk_cl_value CL_U64 (to_le_bytes 8 0)) NU64 0 1 2); by vm_compute.
Defined.

(** * The mint *)

Module MintWitness.
Import ContractStorage.

#[export] Instance demo_addresses : AddressGenerator := fun n => replicate n x01.

#[export] Instance demo_addresses_laws : AddressLaws.
Proof.
  intros n m E. unfold address, demo_addresses in E. apply (f_equal length) in E.
  by rewrite !length_replicate in E.
Qed.

Definition purse (n : nat) : URef := uref_new (replicate n x01) READ_ADD_WRITE.

Definition host_empty : HostState := mk_host_state ∅ ∅ ∅ SYSTEM_ACCOUNT 0.

(** A host with one purse, at address 1, and with two, the second at address 3. *)
Definition host_one : HostState :=
  mk_host_state {[ replicate 0 x01 := Cell_U512 100; replicate 1 x01 := Cell_Unit ]}
    {[ replicate 1 x01 := Key_URef (purse 0) ]} ∅ SYSTEM_ACCOUNT 2.

Definition host_two : HostState :=
  mk_host_state
    {[ replicate 0 x01 := Cell_U512 100; replicate 1 x01 := Cell_Unit;
       replicate 2 x01 := Cell_U512 20; replicate 3 x01 := Cell_Unit ]}
    {[ replicate 1 x01 := Key_URef (purse 0); replicate 3 x01 := Key_URef (purse 2) ]}
    ∅ SYSTEM_ACCOUNT 4.

Lemma host_empty_inv : mint_inv host_empty.
Proof. by split. Qed.

(** A decidable goal on closed maps and sets. *)
#[local] Ltac by_decide :=
  match goal with |- ?P => apply (bool_decide_unpack P); vm_compute; exact I end.

Lemma host_one_inv : mint_inv host_one.
Proof.
  apply (mint_inv_new host_empty host_one (purse 0) (purse 1) 100 host_empty_inv);
    [reflexivity | lia | by vm_compute | by_decide ..].
Qed.

Lemma host_two_inv : mint_inv host_two.
Proof.
  apply (mint_inv_new host_one host_two (purse 2) (purse 3) 20 host_one_inv);
    [reflexivity | lia | by vm_compute | by_decide ..].
Qed.

Lemma mint_transfer_witness :
  exists s', transfer (purse 1) (purse 3) 30 host_two = (Ok tt, s')
    /\ purse_balance s' (uref_addr (purse 1)) = Some 70
    /\ purse_balance s' (uref_addr (purse 3)) = Some 50
    /\ total_supply s' = total_supply host_two.
Proof.
  destruct (mint_transfer_spec host_two (purse 1) (purse 3) 30 host_two_inv ltac:(lia))
    as (s' & E & Hinv & Ht & Hb & _).
  exists s'. split; [exact E|].
  rewrite (Hb _ 100), (Hb _ 20) by by_decide.
  split; [by_decide|]. split; [by_decide|]. exact Ht.
Defined.

Lemma mint_creates_witness :
  exists p s', mint hex_encode 5 host_two = (Ok p, s') /\ total_supply s' = 125
    /\ purse_balance s' (uref_addr p) = Some 5.
Proof.
  destruct (mint_creates hex_encode host_two 5 host_two_inv ltac:(lia) ltac:(by vm_compute))
    as (p & s' & E & _ & _ & Ht & _ & Hb & _).
  exists p, s'. split; [exact E|]. split; [rewrite Ht; by_decide | exact Hb].
Defined.

Lemma mint_balance_witness :
  balance (purse 3) host_two = (Ok (Some 20), host_two)
  /\ balance (purse 7) host_two = (Ok None, host_two).
Proof.
  rewrite (mint_balance_spec host_two (purse 3) host_two_inv).
  rewrite (mint_balance_spec host_two (purse 7) host_two_inv).
  split; f_equal; f_equal; by_decide.
Defined.
End MintWitness.

(** * Proof of stake *)

Module PosWitness.

(** A host that keeps a ledger of purses. *)
Record Ledger := mk_ledger {
  l_balances : gmap bytes Z;
  l_main_purses : gmap PublicKey bytes;
  l_bonding : Queue;
  l_unbonding : Queue;
  l_stakes : Stakes;
  l_keys : gmap bytes Key;
  l_phase : Phase;
  l_time : BlockTime;
  l_caller : PublicKey;
}.

Definition set_balances (l : Ledger) (b : gmap bytes Z) : Ledger :=
  mk_ledger b (l_main_purses l) (l_bonding l) (l_unbonding l) (l_stakes l) (l_keys l)
    (l_phase l) (l_time l) (l_caller l).

Definition set_book (l : Ledger) (b u : Queue) (st : Stakes) : Ledger :=
  mk_ledger (l_balances l) (l_main_purses l) b u st (l_keys l) (l_phase l) (l_time l) (l_caller l).

Definition set_keys (l : Ledger) (k : gmap bytes Key) : Ledger :=
  mk_ledger (l_balances l) (l_main_purses l) (l_bonding l) (l_unbonding l) (l_stakes l) k
    (l_phase l) (l_time l) (l_caller l).

Definition ledger_move (src dst : bytes) (amount : Z) : eff Ledger unit unit :=
  fun l =>
    match l_balances l !! src, l_balances l !! dst with
    | Some x, Some y =>
        if x <? amount then (Err tt, l)
        else if bool_decide (src = dst) then (Ok tt, l)
        else (Ok tt, set_balances l (<[ dst := y + amount ]> (<[ src := x - amount ]> (l_balances l))))
    | _, _ => (Err tt, l)
    end.

#[export] Instance ledger_providers : PosProviders Ledger := {
  transfer_from_purse_to_account src target amount l :=
    match l_main_purses l !! target with
    | Some dst => if bool_decide (dst = uref_addr src) then (Err tt, l)
                  else ledger_move (uref_addr src) dst amount l
    | None => (Err tt, l)
    end;
  transfer_from_purse_to_purse src dst amount l := ledger_move (uref_addr src) (uref_addr dst) amount l;
  get_balance p l := (Ok (l_balances l !! uref_addr p), l);
  read_bonding l := (Ok (l_bonding l), l);
  read_unbonding l := (Ok (l_unbonding l), l);
  write_bonding q l := (Ok tt, set_book l q (l_unbonding l) (l_stakes l));
  write_unbonding q l := (Ok tt, set_book l (l_bonding l) q (l_stakes l));
  stakes_read l := (match l_stakes l with [] => Err StakesNotFound | m => Ok m end, l);
  stakes_write m l := (Ok tt, set_book l (l_bonding l) (l_unbonding l) m);
  get_key n l := (Ok (l_keys l !! n), l);
  put_key n k l := (Ok tt, set_keys l (<[ n := k ]> (l_keys l)));
  remove_key n l := (Ok tt, set_keys l (delete n (l_keys l)));
  get_phase l := (Ok (l_phase l), l);
  get_block_time l := (Ok (l_time l), l);
  get_caller l := (Ok (l_caller l), l);
}.

#[export] Instance ledger_view : PosView Ledger := {
  v_bonding := l_bonding;
  v_unbonding := l_unbonding;
  v_stakes := l_stakes;
  v_keys := l_keys;
  v_balance l p := l_balances l !! p;
  v_phase := l_phase;
  v_time := l_time;
  v_caller := l_caller;
}.

Lemma ledger_move_spec src dst amount l r l' :
  ledger_move src dst amount l = (r, l') ->
  same_env l l' /\ same_book l l' /\ v_keys l' = v_keys l
  /\ match r with
     | Ok _ => exists x y, l_balances l !! src = Some x /\ l_balances l !! dst = Some y /\ amount <= x
         /\ l_balances l' = if bool_decide (src = dst) then l_balances l
                             else <[ dst := y + amount ]> (<[ src := x - amount ]> (l_balances l))
     | _ => l' = l
     end.
Proof.
  unfold ledger_move. destruct (l_balances l !! src) as [x|]; [|by intros [= <- <-]].
  destruct (l_balances l !! dst) as [y|]; [|by intros [= <- <-]].
  destruct (Z.ltb_spec x amount); [by intros [= <- <-]|].
  destruct (bool_decide (src = dst)); intros [= <- <-]; do 3 (split; [done|]); by exists x, y.
Qed.

#[export] Instance ledger_laws : PosLaws Ledger.
Proof.
  split; try (intros; by eexists); try done.
  - intros src dst amount s r s' E _. destruct (ledger_move_spec _ _ _ _ _ _ E) as (? & ? & ? & Hr).
    do 3 (split; [done|]). destruct r as [[]|[]|]; [|by subst s'..].
    destruct Hr as (x & y & Hx & Hy & Hle & Hl). exists x, y. unfold same_money. cbn. rewrite Hl.
    do 3 (split; [done|]). split.
    + intros Eq p. by rewrite bool_decide_eq_true_2.
    + intros Hne. rewrite bool_decide_eq_false_2 by done. split; [|split].
      * rewrite lookup_insert_ne, lookup_insert_eq by done. done.
      * by rewrite lookup_insert_eq.
      * intros p Hp1 Hp2. by rewrite !lookup_insert_ne by done.
  - intros src target amount s r s' E Hr. cbn in E.
    destruct (l_main_purses s !! target) as [dst|].
    2: { injection E as <- <-. done. }
    destruct (bool_decide_reflect (dst = uref_addr src)) as [|Hne]; [by injection E as <- <-|].
    destruct (ledger_move_spec _ _ _ _ _ _ E) as (? & ? & ? & Hm).
    do 3 (split; [done|]). destruct r as [[]|[]|]; [|by subst s'..].
    destruct Hm as (x & y & Hx & Hy & Hle & Hl). exists x. cbn. rewrite Hl, bool_decide_eq_false_2 by done.
    do 2 (split; [done|]). split; [by rewrite lookup_insert_ne, lookup_insert_eq by done|].
    intros Ha p z Hp Hz. destruct (decide (p = dst)) as [->|Hd].
    + rewrite lookup_insert_eq. exists (y + amount). split; [done|]. assert (z = y) by congruence. lia.
    + exists z. rewrite !lookup_insert_ne by done. done.
Qed.

Definition purse (b : byte) : URef := uref_new [b] READ_ADD_WRITE.

(** The contract holds 100 motes in purse 1, which are the stakes of [alice] and
    [bob]; purse 2 is [bob]'s; purse 3 takes payments and purse 4 rewards. The
    payment purse is its own refund purse. *)
Definition ledger0 : Ledger :=
  mk_ledger {[ [x01] := 100; [x02] := 50; [x03] := 30; [x04] := 0 ]} {[ bob := [x02] ]} [] []
    [(alice, 60); (bob, 40)]
    {[ BONDING_PURSE_KEY := Key_URef (purse x01); PAYMENT_PURSE_KEY := Key_URef (purse x03);
       REWARDS_PURSE_KEY := Key_URef (purse x04); REFUND_PURSE_KEY := Key_URef (purse x03) ]}
    Phase_FinalizePayment 10 SYSTEM_ACCOUNT.

Lemma ledger0_inv : book_inv ledger0.
Proof. split; repeat constructor; by vm_compute. Qed.

Lemma ledger0_holds : holds ledger0 (purse x01) 100.
Proof. by split; vm_compute. Qed.

Lemma pos_surplus_witness :
  (exists s', pos_bond bob 5 (purse x02) ledger0 = (Ok tt, s')
     /\ exists b, holds s' (purse x01) b /\ b - obligations s' = 100 - obligations ledger0)
  /\ exists s', pos_bond bob 5 (purse x01) ledger0 = (Ok tt, s')
     /\ exists b, holds s' (purse x01) b /\ b - obligations s' = 100 - obligations ledger0 - 5.
Proof.
  destruct (pos_surplus ledger0 (purse x01) 100 ledger0_inv ledger0_holds) as (Hbond & _ & _). split.
  - assert (fst (pos_bond bob 5 (purse x02) ledger0) = Ok tt) as Hr by (vm_compute; reflexivity).
    destruct (pos_bond bob 5 (purse x02) ledger0) as [r s'] eqn:E. cbn [fst] in Hr. subst r.
    exists s'. split; [reflexivity|].
    destruct (Hbond bob 5 (purse x02) s' ltac:(lia) E) as (_ & b & Hb & Hs). exists b. split; [exact Hb|].
    rewrite decide_False in Hs by discriminate. lia.
  - assert (fst (pos_bond bob 5 (purse x01) ledger0) = Ok tt) as Hr by (vm_compute; reflexivity).
    destruct (pos_bond bob 5 (purse x01) ledger0) as [r s'] eqn:E. cbn [fst] in Hr. subst r.
    exists s'. split; [reflexivity|].
    destruct (Hbond bob 5 (purse x01) s' ltac:(lia) E) as (_ & b & Hb & Hs). exists b. split; [exact Hb|].
    rewrite decide_True in Hs by reflexivity. exact Hs.
Defined.

Lemma pos_finalize_witness :
  exists s', pos_finalize_payment 10 alice ledger0 = (Ok tt, s')
    /\ v_balance s' (uref_addr (purse x04)) = Some 10
    /\ v_balance s' (uref_addr (purse x03)) = Some 20
    /\ v_keys s' = delete REFUND_PURSE_KEY (v_keys ledger0).
Proof.
  assert (payment_purses ledger0 (purse x03) (purse x04) 30) as Hp.
  { split; [by vm_compute|]. split; [by vm_compute|]. split; [by vm_compute|]. by vm_compute. }
  destruct (pos_finalize_spec ledger0 (purse x03) (purse x04) 30 0 10 alice Hp)
    as (_ & _ & Hok); [by vm_compute | lia |].
  assert (fst (pos_finalize_payment 10 alice ledger0) = Ok tt) as Hr by (vm_compute; reflexivity).
  assert (let s' := snd (pos_finalize_payment 10 alice ledger0) in
    v_balance s' (uref_addr (purse x04)) = Some 10 /\ v_balance s' (uref_addr (purse x03)) = Some 20)
    as Hb by (split; vm_compute; reflexivity).
  destruct (pos_finalize_payment 10 alice ledger0) as [r s'] eqn:E. cbn [fst snd] in Hr, Hb. subst r.
  destruct (Hok s' eq_refl) as (_ & _ & Hk & _ & _ & _).
  exists s'. split; [reflexivity|]. split; [exact (proj1 Hb)|]. split; [exact (proj2 Hb) | exact Hk].
Defined.

Lemma pos_purses_witness :
  pos_set_refund_purse (purse x02) ledger0 = (Err SetRefundPurseCalledOutsidePayment, ledger0)
  /\ forall payment s', pos_get_payment_purse ledger0 = (Ok payment, s') ->
       uref_is_writeable payment = false.
Proof.
  destruct (pos_purses_spec ledger0 (purse x02)) as [Hs Hp]. split; [exact Hs|].
  intros payment s' E. destruct (Hp payment s' E) as (_ & _ & Hw & _). exact Hw.
Defined.
(** A request to bond that is due and one to unbond that is not. *)
Definition ledger1 : Ledger :=
  set_book ledger0 [mk_queue_entry bob 5 10] [mk_queue_entry alice 7 11] (l_stakes ledger0).

Lemma ledger1_fits : books_fit ledger1.
Proof.
  split; [|split; [discriminate | vm_compute; reflexivity]]. destruct ledger0_inv as [Hs _ _ _ _].
  split; [exact Hs | split | split | |]; repeat constructor; try by vm_compute.
Qed.

Lemma ledger_transfers u : transfers_return (S := Ledger) u.
Proof.
  intros target amount s. cbn. unfold ledger_move. repeat case_match; done.
Qed.

Lemma requests_served_witness :
  exists s', pos_step ledger1 = (Ok tt, s') /\ stake_of bob (v_stakes s') = 45
    /\ In (mk_queue_entry alice 7 11) (v_unbonding s').
Proof.
  destruct (requests_served ledger1 (purse x01) 100 ledger1_fits) as (s' & E & _ & Hu & Hs);
    [by split; vm_compute | apply ledger_transfers |].
  exists s'. split; [exact E|]. split; [exact (Hs bob)|]. apply Hu. split; [by left | by vm_compute].
Defined.
End PosWitness.

(** * Stakes *)

Lemma queue_witness :
  let q := [mk_queue_entry alice 5 1; mk_queue_entry bob 7 2] in
  queue_push q alice 1 3 = Err MultipleRequests
  /\ queue_pop_due q 1 = ([mk_queue_entry alice 5 1], [mk_queue_entry bob 7 2]).
Proof.
  destruct (queue_spec [mk_queue_entry alice 5 1; mk_queue_entry bob 7 2] alice 1 3) as (_ & Hp & _).
  { split; repeat constructor; try by vm_compute. by intros [E|[]]. }
  split; [|by vm_compute]. apply Hp. by left.
Defined.

Lemma stakes_unbond_witness :
  exists m', stakes_unbond [(alice, 60); (bob, 40)] bob (Some 10) = Ok (10, m')
    /\ total_stakes m' = 90.
Proof.
  destruct (stakes_unbond [(alice, 60); (bob, 40)] bob (Some 10)) as [[payout m']|?|] eqn:E;
    [|vm_compute in E; discriminate E ..].
  destruct (stakes_unbond_spec [(alice, 60); (bob, 40)] bob (Some 10) payout m')
    as (_ & _ & Ht & -> & _); [| by vm_compute | exact E |].
  { split; repeat constructor; by vm_compute. }
  exists m'. split; [reflexivity | exact Ht].
Defined.
