(* ===== verification/EngineWitnesses.v ===== *)
(** A concrete platform (a generator of addresses, a memory, modules, a provider of
    states) and, for the theorems on the runtime and the engine, inputs at which
    their hypotheses hold. *)

From stdpp Require Import gmap.
From S2P Require Import Prelude BTreeMap Bytesrepr Uint Types CLValues Account StoredValue Transform.
From S2P Require Import Trie TrieStore TrieSpec TrieWrite GlobalState TrackingCopy Execution Mint Stakes ApiError.
From S2P Require Import ProtocolData ExecutionError RuntimeContext ContextSafety Confinement ExtractURefs Runtime.
From S2P Require Import HostFunctions RuntimeSafety ExecutionResult TrackingCopyExt Executor PosContract.
From S2P Require Import EngineState InMemoryState EngineSafety Witnesses.
Import ExecutionWitness.

(** * A platform *)

#[export] Instance demo_errors : ForeignErrors := {
  WasmiOther := bytes;
  ParityError := bytes;
  ParitySerializationError := bytes;
  StorageError := bytes;
  RandError := bytes;
}.

#[export] Instance demo_mismatch_text : MismatchText := fun _ => [].

(** A generator that counts. *)
#[export] Instance demo_rng : Rng Z := {
  rng_from_seed seed := from_le_bytes seed;
  fill_bytes n g := (to_le_bytes n g, g + 1);
}.

#[export] Instance demo_alloc : Allocator := fun _ => true.

#[export] Instance demo_layout : Layout := fun _ => 1.

(** A memory of bytes; a module is its code, which exports [call]. *)
Definition write_at (ptr : nat) (bs m : bytes) : bytes := take ptr m ++ bs ++ drop (ptr + length bs) m.

#[export] Instance demo_platform : Platform bytes bytes := {
  mem_get ptr size m :=
    if ptr + size <=? zlen m then Ok (take (Z.to_nat size) (drop (Z.to_nat ptr) m)) else Err (str "memory");
  mem_set ptr bs m :=
    if ptr + zlen bs <=? zlen m then Ok (write_at (Z.to_nat ptr) bs m) else Err (str "memory");
  export_fields _ := [str "call"];
  set_export_field _ _ m := m;
  pwasm_optimize m _ := Some m;
  module_serialize m := Ok m;
  module_deserialize bs := Ok bs;
  WasmiModule := bytes;
  from_parity_wasm_module m := Ok m;
  module_instance m := Ok (Some m);
}.

#[export] Instance demo_prep : WasmPrep bytes := {
  externalize_mem m _ _ := m;
  inject_gas_counter m _ := Some m;
  inject_limiter m _ := Some m;
  parity_error_text e := e;
}.

#[export] Instance demo_values : WasmValues := {
  RuntimeValue := Z;
  rv_I32 z := z;
  nth_checked_u32 args i :=
    match args !! i with Some z => Ok (wrap_unsigned 32 z) | None => Err (str "argument") end;
  nth_checked_u8 args i :=
    match args !! i with Some z => Ok (wrap_unsigned 8 z) | None => Err (str "argument") end;
  wasmi_Function e := e;
  wasmi_Instantiation e := e;
}.

#[export] Instance demo_values_laws : WasmValuesLaws.
Proof.
  split; cbn.
  - by intros args i z ->.
  - intros args i z -> Hz. by rewrite wrap_unsigned_small.
  - intros args i z. case_match; [|done]. intros [= <-]. apply wrap_unsigned_range. lia.
  - intros args i ->. eauto.
  - intros args i ->. eauto.
Qed.

(** * The context *)

Definition cell (b : byte) (r : AccessRights) : URef := uref_new (replicate 32 b) r.

(** A session of alice that may write to one cell. *)
Definition context0 : RuntimeContext (list (Key * StoredValue)) Z :=
  mk_context tracking_copy_new [] {[ replicate 32 x05 := {[ READ_WRITE ]} ]} alice_account [] [alice]
    (Key_Account alice) 0 (replicate 32 x09) 1000 0 0 7 (mk_semver 1 0 0) Phase_Session protocol_data_default.

Definition to_storage (e : StoreError InMemoryError) : ExecError := EE_Storage [].

#[local] Abbreviation demo_step := (context_step base to_storage true).

(** It writes to its cell and creates a reference. *)
Definition context1 : RuntimeContext (list (Key * StoredValue)) Z :=
  after base to_storage true (Call_write_gs (Key_URef (cell x05 READ_WRITE)) (u64_value 9)) context0.
Definition context2 : RuntimeContext (list (Key * StoredValue)) Z :=
  after base to_storage true (Call_new_uref (u64_value 1)) context1.

Lemma after_step call c : call_wf call -> demo_step c (after base to_storage true call c).
Proof. intros Hc. exists call. done. Qed.

Lemma context2_steps : rtc demo_step context0 context2.
Proof. apply (rtc_l _ _ context1); [|apply rtc_once]; by apply after_step. Qed.

Lemma context_authority_witness :
  validate_uref (uref_new (to_le_bytes 32 7) READ_ADD_WRITE) context2 = Ok tt
  /\ (validate_uref (uref_new (to_le_bytes 32 7) READ_ADD_WRITE) context0 = Ok tt
      \/ upcoming context0 (to_le_bytes 32 7))
  /\ validate_uref (cell x05 WRITE) context2 = Ok tt.
Proof.
  destruct (context_authority base to_storage true context0 context2 (to_le_bytes 32 7) READ_ADD_WRITE context2_steps)
    as [Hnew _].
  destruct (context_authority base to_storage true context0 context2 (replicate 32 x05) WRITE context2_steps)
    as [_ Hkept].
  assert (validate_uref (uref_new (to_le_bytes 32 7) READ_ADD_WRITE) context2 = Ok tt) as Hv
    by (vm_compute; reflexivity).
  split; [exact Hv|]. split; [exact (Hnew Hv)|]. apply Hkept. vm_compute. reflexivity.
Defined.

(** * References in values *)

Lemma access_rights_extracted_witness :
  extract_access_rights_from_urefs [cell x05 READ; cell x06 READ; cell x05 WRITE] !! replicate 32 x05
    = Some (collect_rights [Some WRITE]).
Proof.
  destruct (access_rights_extracted [cell x05 READ; cell x06 READ; cell x05 WRITE] (replicate 32 x05)) as [_ Hlast].
  apply (Hlast [cell x05 READ; cell x06 READ] [Some WRITE] []); [reflexivity | discriminate | intros [] |].
  intros u [= <-]. discriminate.
Defined.

(** A map from names to references hands over the references. *)
Lemma extract_urefs_witness :
  exists v, from_t (clt_map clt_string clt_uref) [(str "a", cell x05 READ); (str "b", cell x06 ADD)] = Ok v
    /\ extract_urefs v = Ok [cell x05 READ; cell x06 ADD].
Proof.
  destruct (from_t (clt_map clt_string clt_uref) [(str "a", cell x05 READ); (str "b", cell x06 ADD)])
    as [v|e|] eqn:E; [|vm_compute in E; discriminate E ..].
  exists v. split; [reflexivity|].
  apply (extract_urefs_exact (Shape_map leaf_string leaf_uref) [(str "a", cell x05 READ); (str "b", cell x06 ADD)] v).
  - reflexivity.
  - split; repeat constructor; by vm_compute.
  - exact E.
Defined.

(** * Host calls *)

(** Running a module spends five units of gas through the host function. *)
Definition gas_index : nat := function_index_into GasFuncIndex.

Definition spend {E} (reader : Key -> outcome E (option StoredValue)) (into_error : E -> ExecError) (module : bytes)
    : eff (Runtime (list (Key * StoredValue)) Z bytes bytes) InterpreterError unit :=
  let! _ := invoke_index reader into_error true (fun _ => eret tt) gas_index [rv_I32 5] in eret tt.

Definition runtime0 : Runtime (list (Key * StoredValue)) Z bytes bytes :=
  mk_runtime ∅ (replicate 256 x00) [] None context0.

Lemma spend_steps {E} (reader : Key -> outcome E (option StoredValue)) into_error module rt o rt' :
  spend reader into_error module rt = (o, rt') ->
  rtc (host_step reader into_error true (spend reader into_error)) rt rt'.
Proof.
  unfold spend at 1, ebind at 1. destruct (invoke_index _ _ _ _ _ _ rt) as [r rt1] eqn:E1. intros H.
  assert (rt1 = rt') as <- by (by destruct r; injection H). apply rtc_once.
  apply (step_call _ _ _ _ rt gas_index [rv_I32 5] r). exact E1.
Qed.

Lemma host_calls_typed_witness :
  exists f call, function_index_try_from 2 = Ok f /\ parse_call f (map rv_I32 [0; 33; 200]) = Ok call
    /\ result_typed true (invoke_index base to_storage true (spend base to_storage) 2 (map rv_I32 [0; 33; 200])).
Proof.
  destruct (host_calls_typed base to_storage true (spend base to_storage) (str "read_value")
    (mk_signature 3 true) 2 eq_refl) as (f & Hf & Hp & _ & Ht).
  destruct (Hp [0; 33; 200] eq_refl) as (call & Hc); [repeat constructor; by vm_compute|].
  exists f, call. split; [exact Hf|]. split; [exact Hc | apply Ht].
Defined.

Lemma gas_metered_witness :
  exists rt, spend base to_storage [] runtime0 = (Ok tt, rt) /\ gas_used rt = 5
    /\ gas_used runtime0 <= gas_used rt <= gas_bound runtime0.
Proof.
  destruct (spend base to_storage [] runtime0) as [o rt] eqn:E. exists rt.
  destruct (gas_metered base to_storage true (spend base to_storage) runtime0 rt (spend_steps _ _ _ _ _ _ E))
    as [Hb _]; [vm_compute; discriminate|].
  vm_compute in E. injection E as <- <-. split; [reflexivity|]. split; [reflexivity | exact Hb].
Defined.

(** A memory that holds some bytes at its start. *)
Definition memory_with (bs : bytes) : bytes := bs ++ replicate (256 - length bs) x00.

(** A contract writes nine to its cell: the key and the value are in its memory. *)
Definition serialized {A} (c : Codec A) (a : A) : bytes := match to_bytes c a with Ok bs => bs | _ => [] end.

Definition write_memory : bytes :=
  memory_with (serialized key_codec (Key_URef (cell x05 READ_WRITE))
    ++ serialized cl_value_codec (mk_cl_value CL_U64 (to_le_bytes 8 9))).

Definition writer0 : Runtime (list (Key * StoredValue)) Z bytes bytes := mk_runtime ∅ write_memory [] None context0.

Definition writer1 : Runtime (list (Key * StoredValue)) Z bytes bytes :=
  (invoke_index base to_storage true (spend base to_storage) (function_index_into WriteFuncIndex)
    (map rv_I32 [0; 35; 35; 13]) writer0).2.

Lemma writer_steps : rtc (host_step base to_storage true (spend base to_storage)) writer0 writer1.
Proof. apply rtc_once. eapply step_call. apply surjective_pairing. Qed.

Lemma writer_effects :
  execution_effects (rc_state (rt_context writer1)) = [(Key_URef (mk_uref (replicate 32 x05) None), Write (u64_value 9))].
Proof. vm_compute. reflexivity. Qed.

Lemma writer_success :
  exists data' root', commit None state1.1 state1.2 (execution_effects (rc_state (rt_context writer1)))
    = Ok (data', CR_Success root' []).
Proof.
  assert (match after_commit (commit None state1.1 state1.2 (execution_effects (rc_state (rt_context writer1)))) with
          | Some _ => true | None => false end = true) as Hs by (vm_compute; reflexivity).
  destruct (after_commit _) as [[data root]|] eqn:E; [|discriminate Hs].
  exists data, root. by apply after_commit_inv.
Qed.

Lemma context_confined_witness :
  exists data' root' t, commit None state1.1 state1.2 (execution_effects (rc_state (rt_context writer1)))
      = Ok (data', CR_Success root' [])
    /\ (touched context0 t (key_of x01 x02)
        \/ view_read None data' root' (key_of x01 x02) = view_read None state1.1 state1.2 (key_of x01 x02)).
Proof.
  destruct writer_success as (data' & root' & E). exists data', root'.
  destruct (context_confined None to_storage true (spend base to_storage) state1.1 state1.2 writer0 writer1 data' root' [])
    as (t & _ & Hk & _).
  - exact state1_wf.
  - reflexivity.
  - exact writer_steps.
  - rewrite writer_effects. repeat constructor; by vm_compute.
  - vm_compute. reflexivity.
  - exact E.
  - exists t. split; [exact E|]. by apply Hk.
Defined.

Definition key_memory : bytes :=
  memory_with match key_to_bytes (key_of x01 x02) with Ok bs => bs | _ => [] end.

Definition runtime1 : Runtime (list (Key * StoredValue)) Z bytes bytes :=
  mk_runtime ∅ key_memory [] None context0.

Lemma host_buffer_witness :
  exists rt, host_read base to_storage 0 33 200 runtime1 = (Ok (inl tt), rt)
    /\ forall kp ks sp, host_read base to_storage kp ks sp rt = (Ok (inr Api_HostBufferFull), rt).
Proof.
  destruct (host_read base to_storage 0 33 200 runtime1) as [o rt] eqn:E. exists rt.
  assert (match (host_read base to_storage 0 33 200 runtime1).1 with Ok (inl tt) => true | _ => false end = true)
    as Hc by (vm_compute; reflexivity).
  rewrite E in Hc. destruct o as [[[]|?]|?|]; try discriminate Hc.
  destruct (host_buffer_spec base to_storage 0 33 200 runtime1 rt E) as (key & v & c & m & _ & _ & _ & _ & Hf & _).
  split; [reflexivity | exact Hf].
Defined.

(** * A contract that returns a reference it was not given *)

Definition forged : URef := cell x06 READ_ADD_WRITE.

Definition forged_value : CLValue := match from_t clt_uref forged with Ok v => v | _ => mk_cl_value CL_Any [] end.

Definition forged_bytes : bytes := match to_bytes cl_value_codec forged_value with Ok bs => bs | _ => [] end.

(** Its code is the memory of its instance. *)
Definition forger : bytes := memory_with forged_bytes.

Definition return_forged (module : bytes)
    : eff (Runtime (list (Key * StoredValue)) Z bytes bytes) InterpreterError unit :=
  ret 0 (zlen forged_bytes).

Lemma returned_references_witness :
  exists rt', sub_call return_forged forger [] [] (Key_Hash (replicate 32 x00)) [] (mk_semver 1 0 0) runtime0
      = (Ok forged_value, rt')
    /\ validate_uref forged (rt_context runtime0) <> Ok tt
    /\ validate_uref forged (rt_context rt') = Ok tt.
Proof.
  destruct (returned_references_trusted return_forged forger forger 0 (zlen forged_bytes) (replicate 32 x06)
    READ_ADD_WRITE forged_value forged_bytes [] [] (Key_Hash (replicate 32 x00)) [] (mk_semver 1 0 0) runtime0)
    as (rt' & Hs & Hv).
  - by vm_compute.
  - vm_compute. reflexivity.
  - vm_compute. reflexivity.
  - reflexivity.
  - vm_compute. reflexivity.
  - intros callee. reflexivity.
  - exists rt'. split; [exact Hs|]. split; [vm_compute; discriminate | exact Hv].
Defined.

(** * Results *)

Definition effect_of (k : Key) (t : Transform) : ExecutionEffect := mk_effect {[ k := Op_Write ]} {[ k := t ]}.

Definition payment_done : ExecutionResult := Success (effect_of key3 (AddUInt64 1)) 10.
Definition session_done : ExecutionResult := Success (effect_of key3 (Write (u64_value 2))) 20.
Definition finalize_done : ExecutionResult := Success (effect_of (key_of x01 x02) (Write (u64_value 2))) 0.

Lemma build_witness :
  exists r, build base (mk_builder (Some payment_done) (Some session_done) (Some finalize_done)) = Ok r
    /\ result_cost r = 30.
Proof.
  destruct (build_spec base payment_done session_done finalize_done) as (r & E & _ & _ & Hr & _);
    [vm_compute; reflexivity|].
  exists r. split; [exact E|]. exact (proj1 (Hr eq_refl eq_refl)).
Defined.

Definition motes_value (z : Z) : StoredValue :=
  match from_t clt_u512 z with Ok v => SV_CLValue v | _ => u64_value 0 end.

Lemma motes_value_holds z cl : is_unsigned 512 z -> from_t clt_u512 z = Ok cl -> holds_motes (motes_value z) z.
Proof. intros Hz Hf. unfold motes_value. rewrite Hf. by apply packed_motes. Qed.

Lemma forced_payment_witness :
  exists effect, new_payment_code_error (E := unit) ES_InsufficientPaymentError MAX_PAYMENT 50000000
      (Key_URef (cell x05 READ)) (Key_URef (cell x06 READ))
    = Ok (Failure ES_InsufficientPaymentError effect 1000000).
Proof.
  destruct (from_t clt_u512 50000000) as [c1|?|] eqn:E1; [|vm_compute in E1; discriminate E1 ..].
  destruct (from_t clt_u512 7) as [c2|?|] eqn:E2; [|vm_compute in E2; discriminate E2 ..].
  destruct (forced_payment_spec ES_InsufficientPaymentError MAX_PAYMENT 50000000 (Key_URef (cell x05 READ))
    (Key_URef (cell x06 READ)) (motes_value 50000000) (motes_value 7) 7) as (effect & E & _).
  - apply (motes_value_holds _ c1); [by vm_compute | exact E1].
  - apply (motes_value_holds _ c2); [by vm_compute | exact E2].
  - by vm_compute.
  - by vm_compute.
  - by vm_compute.
  - by vm_compute.
  - exists effect. exact E.
Defined.

(** * Stakes as names *)

(** Decimal digits, the first one last in time. *)
Fixpoint dec_digits (fuel : nat) (z : Z) (acc : bytes) : bytes :=
  match fuel with
  | O => acc
  | S fuel' =>
      let acc' := byte_of_Z (48 + z mod 10) :: acc in
      if z <? 10 then acc' else dec_digits fuel' (z / 10) acc'
  end.

Definition dec_value (s : bytes) (start : Z) : Z := fold_left (fun a b => 10 * a + (byte_to_Z b - 48)) s start.

#[export] Instance demo_stake_text : StakeText := {
  base16_decode := hex_decode;
  u512_display z := dec_digits 155 z [];
  u512_from_dec_str s :=
    if forallb (fun b => (48 <=? byte_to_Z b) && (byte_to_Z b <=? 57)) s then Some (dec_value s 0) else None;
}.

Lemma digit_value z : byte_to_Z (byte_of_Z (48 + z mod 10)) = 48 + z mod 10.
Proof. rewrite byte_to_of_Z, Z.mod_small; [done|]. pose proof (Z.mod_pos_bound z 10). lia. Qed.

Lemma dec_digits_value fuel : forall z acc,
  0 <= z < 10 ^ Z.of_nat fuel -> (0 < fuel)%nat -> dec_value (dec_digits fuel z acc) 0 = dec_value acc z.
Proof.
  induction fuel as [|fuel IH]; intros z acc Hz Hf; [lia|]. cbn [dec_digits].
  pose proof (Z.div_mod z 10). pose proof (Z.mod_pos_bound z 10).
  destruct (Z.ltb_spec z 10).
  - unfold dec_value. cbn [fold_left]. rewrite digit_value, Z.mod_small by lia. f_equal. lia.
  - assert (0 < fuel)%nat as Hf'. { destruct fuel; [cbn in Hz; lia | lia]. }
    rewrite IH; [| |done].
    + unfold dec_value. cbn [fold_left]. rewrite digit_value. f_equal. lia.
    + rewrite Nat2Z.inj_succ, Z.pow_succ_r in Hz by lia. lia.
Qed.

Lemma dec_digits_shape fuel : forall z acc,
  Forall (fun b => 48 <= byte_to_Z b <= 57) acc -> (0 < fuel)%nat ->
  dec_digits fuel z acc <> [] /\ Forall (fun b => 48 <= byte_to_Z b <= 57) (dec_digits fuel z acc).
Proof.
  induction fuel as [|fuel IH]; intros z acc Ha Hf; [lia|]. cbn [dec_digits].
  assert (Forall (fun b => 48 <= byte_to_Z b <= 57) (byte_of_Z (48 + z mod 10) :: acc)) as Hc.
  { constructor; [|done]. rewrite digit_value. pose proof (Z.mod_pos_bound z 10). lia. }
  destruct (z <? 10); [done|]. destruct fuel as [|fuel]; [done|]. apply IH; [done|lia].
Qed.

#[export] Instance demo_stake_text_laws : StakeTextLaws.
Proof.
  split; cbn [base16_decode u512_display u512_from_dec_str demo_stake_text].
  - exact (hex_decode_encode (HexLaws := hex_laws)).
  - intros z _. apply dec_digits_shape; [constructor | lia].
  - intros z [H0 H1]. destruct (dec_digits_shape 155 z []) as [_ Hs]; [constructor | lia |].
    replace (forallb _ _) with true; cycle 1.
    { symmetry. apply forallb_forall. intros b Hb. rewrite List.Forall_forall in Hs. specialize (Hs b Hb).
      apply andb_true_iff. lia. }
    rewrite dec_digits_value; [done | | lia].
    assert (2 ^ 512 < 10 ^ Z.of_nat 155) by (vm_compute; reflexivity). lia.
Qed.

Lemma contract_stakes_witness :
  contract_stakes_read (contract_stakes_write [(alice, 60); (bob, 40)] [(str "pos_bonding_purse", key3)])
    = Ok [(alice, 60); (bob, 40)].
Proof.
  apply (contract_stakes_roundtrip [(alice, 60); (bob, 40)] [(str "pos_bonding_purse", key3)]).
  - repeat constructor; by vm_compute.
  - repeat constructor; by vm_compute.
  - discriminate.
  - repeat constructor; by vm_compute.
  - reflexivity.
Defined.

(** * A small chain *)

Definition chain_data : ProtocolData := mk_protocol_data wasm_costs_default (cell x01 READ) (cell x02 READ).

(** The cell of a purse's balance, and what the mint keeps under the purse. *)
Definition balance_cell (purse : byte) : URef := cell (byte_of_Z (byte_to_Z purse + 100)) READ_ADD_WRITE.

Definition mapping_key (purse : byte) : Key :=
  key_local blake2b_hash_new (uref_addr (pd_mint chain_data)) (replicate 32 purse).

Definition key_value (k : Key) : StoredValue :=
  match from_t clt_key k with Ok v => SV_CLValue v | _ => u64_value 0 end.

(** The purses: alice's, that of payments and that of rewards. *)
Definition chain_state : list (Key * StoredValue) :=
  [(Key_Account alice, SV_Account alice_account);
   (Key_URef (mk_uref (replicate 32 x01) None), SV_Contract (mk_contract [] [] (mk_semver 1 0 0)));
   (Key_URef (mk_uref (replicate 32 x02) None), SV_Contract (mk_contract []
      [(POS_PAYMENT_PURSE, Key_URef (cell x03 READ_ADD_WRITE)); (POS_REWARDS_PURSE, Key_URef (cell x04 READ_ADD_WRITE))]
      (mk_semver 1 0 0)));
   (mapping_key x07, key_value (Key_URef (balance_cell x07)));
   (mapping_key x03, key_value (Key_URef (balance_cell x03)));
   (mapping_key x04, key_value (Key_URef (balance_cell x04)));
   (normalize (Key_URef (balance_cell x07)), motes_value 50000000);
   (normalize (Key_URef (balance_cell x03)), motes_value 1000);
   (normalize (Key_URef (balance_cell x04)), motes_value 0)].

Definition chain_reader (k : Key) : outcome unit (option StoredValue) := Ok (entries_get k chain_state).

(** A provider with this one state. *)
#[local] Instance chain_provider : StateProvider unit unit := {
  sp_checkout _ _ := Ok (Some chain_reader);
  sp_commit _ _ s := (Err tt, s);
  sp_put_protocol_data _ _ s := (Err tt, s);
  sp_get_protocol_data _ _ := Ok (Some chain_data);
  sp_empty_root _ := [];
}.

Definition chain_error (e : unit) : ExecError := EE_Storage [].

Definition chain_spend (reader : Key -> outcome unit (option StoredValue)) := spend reader chain_error.

Definition chain_item : DeployItem :=
  mk_deploy_item alice (ModuleBytes [] []) (ModuleBytes [] []) 1 [alice] (replicate 32 x09).

Definition chain_engine : EngineState unit bytes := mk_engine_state ∅ tt.

(** The deploy of alice costs what its payment and session code spend. *)
Definition chain_deploy (item : DeployItem) : outcome Blake2bHash ExecutionResult * EngineState unit bytes :=
  deploy chain_error chain_spend wasm_costs_default (mk_semver 1 0 0) [] 0 item chain_engine.

Lemma deploy_authorized_witness :
  exists r self', chain_deploy chain_item = (Ok r, self') /\ is_success r = true /\ result_cost r = 10
    /\ exists reader account, sp_checkout [] (es_state chain_engine) = Ok (Some reader)
         /\ entitled_to_deploy reader (sp_get_protocol_data (mk_semver 1 0 0) (es_state chain_engine)) chain_item account.
Proof.
  destruct (chain_deploy chain_item) as [o self'] eqn:E.
  assert (match (chain_deploy chain_item).1 with
          | Ok r => is_success r && (result_cost r =? 10) && negb (has_precondition_failure r)
          | _ => false end = true) as Hc by (vm_compute; reflexivity).
  rewrite E in Hc. destruct o as [r|?|]; try discriminate Hc. cbn [fst] in Hc. exists r, self'.
  apply andb_true_iff in Hc as [Hc Hp]. apply andb_true_iff in Hc as [Hs Hg]. apply Z.eqb_eq in Hg.
  destruct (deploy_authorized chain_error chain_spend wasm_costs_default (mk_semver 1 0 0) [] 0 chain_item
    chain_engine r self' E) as [_ [Hf|He]]; [rewrite Hf in Hp; discriminate Hp|].
  split; [reflexivity|]. split; [exact Hs|]. split; [exact Hg | exact He].
Defined.

Lemma chain_sandboxed : sandboxed chain_error true chain_spend.
Proof. intros reader module rt o rt' E. exact (spend_steps reader chain_error module rt o rt' E). Qed.

Definition chain_details : DeployDetails :=
  mk_deploy_details alice_account (@nil byte) chain_data (mk_contract [] [] (mk_semver 1 0 0)) key3 key3 50000000.

Lemma session_affordable_witness :
  exists r tc, run_session chain_spend chain_reader (mk_semver 1 0 0) 0 chain_item chain_details 5 1000 ∅ = Ok (r, tc)
    /\ result_cost r = 5 /\ (5 + result_cost r) * CONV_RATE <= 1000.
Proof.
  destruct (session_affordable chain_error true chain_spend (Success effect_default 5) 1000 chain_reader
    (mk_semver 1 0 0) 0 chain_item chain_details ∅ chain_sandboxed) as [_ Hr];
    [reflexivity | cbn; lia | by vm_compute |].
  destruct (run_session chain_spend chain_reader (mk_semver 1 0 0) 0 chain_item chain_details 5 1000 ∅)
    as [[r tc]|?|] eqn:E; [|vm_compute in E; discriminate E ..].
  exists r, tc. split; [reflexivity|]. destruct (Hr r tc E) as [Hle|[Hbad _]].
  - split; [|exact Hle].
    assert (match run_session chain_spend chain_reader (mk_semver 1 0 0) 0 chain_item chain_details 5 1000 ∅ with
            | Ok (r, _) => result_cost r =? 5 | _ => false end = true) as Hc by (vm_compute; reflexivity).
    rewrite E in Hc. by apply Z.eqb_eq in Hc.
  - exfalso. by apply (Hbad []).
Defined.

(** * Upgrades of an in-memory state *)

Definition memory_state : InMemoryGlobalState :=
  match in_memory_state_empty with
  | Ok s =>
      match ms_put_protocol_data (mk_semver 1 0 0) chain_data s with
      | (Ok _, s') => s'
      | _ => s
      end
  | _ => mk_in_memory_global_state ∅ []
  end.

Definition memory_engine : EngineState InMemoryGlobalState bytes := mk_engine_state ∅ memory_state.

Definition memory_spend (reader : Key -> outcome (StoreError InMemoryError) (option StoredValue)) :=
  spend reader to_storage.

(** A major upgrade that brings no installer. *)
Definition major_upgrade : UpgradeConfig :=
  mk_upgrade_config (ms_empty_root_hash memory_state) (mk_semver 1 0 0) (mk_semver 2 0 0) None None None None.

Lemma major_upgrade_root :
  exists reader, sp_checkout (uc_pre_state_hash major_upgrade) (es_state memory_engine) = Ok (Some reader).
Proof.
  assert (match sp_checkout (uc_pre_state_hash major_upgrade) (es_state memory_engine) with
          | Ok (Some _) => true | _ => false end = true) as Hc by (vm_compute; reflexivity).
  destruct (sp_checkout _ _) as [[reader|]|?|]; [by exists reader | discriminate Hc ..].
Qed.

Lemma major_upgrade_stored :
  exists s1, sp_put_protocol_data (uc_new_protocol_version major_upgrade) (upgraded major_upgrade chain_data)
    (es_state memory_engine) = (Ok tt, s1).
Proof.
  assert (match (sp_put_protocol_data (uc_new_protocol_version major_upgrade) (upgraded major_upgrade chain_data)
    (es_state memory_engine)).1 with Ok tt => true | _ => false end = true) as Hc by (vm_compute; reflexivity).
  destruct (sp_put_protocol_data _ _ _) as [[[]|?|] s1]; [by exists s1 | discriminate Hc ..].
Qed.

Lemma major_upgrade_valid :
  semver_valid (uc_new_protocol_version major_upgrade) /\ protocol_data_valid (upgraded major_upgrade chain_data).
Proof. split; repeat split; (reflexivity || (vm_compute; discriminate)). Qed.

Lemma upgrade_witness :
  exists self', commit_upgrade to_storage true memory_spend major_upgrade memory_engine
      = (Err ES_InvalidUpgradeConfig, self')
    /\ get_protocol_data to_storage (mk_semver 2 0 0) memory_engine = Ok None
    /\ get_protocol_data to_storage (mk_semver 2 0 0) self' = Ok (Some chain_data).
Proof.
  destruct major_upgrade_root as (reader & Er). destruct major_upgrade_stored as (s1 & Ep).
  assert (sp_get_protocol_data (uc_current_protocol_version major_upgrade) (es_state memory_engine)
    = Ok (Some chain_data)) as Hd by (vm_compute; reflexivity).
  assert (get_protocol_data to_storage (mk_semver 2 0 0) memory_engine = Ok None) as Hn by (vm_compute; reflexivity).
  destruct major_upgrade_valid as [Hv Hp].
  revert Er Ep Hd Hn. generalize memory_engine as engine. intros engine Er Ep Hd Hn.
  destruct (upgrade_without_installer to_storage true memory_spend major_upgrade engine reader chain_data
    CodeIsRequired s1 eq_refl Er Hd eq_refl Ep Hv Hp) as [Hg Hc].
  eexists. split; [exact Hc|]. split; [exact Hn|]. rewrite Hg; [reflexivity | exact Hv].
Defined.
