(* ===== verification/ContractWitnesses.v ===== *)
(** A machine for contracts (an allocator over a memory of bytes) that has the
    documented behaviour, and a stored value at which the theorem on local storage
    applies. *)

From stdpp Require Import gmap.
From S2P Require Import Prelude BTreeMap Bytesrepr Uint Types CLValues Account StoredValue Transform.
From S2P Require Import Trie TrackingCopy ApiError ProtocolData ExecutionError RuntimeContext ContextSafety.
From S2P Require Import ExtractURefs Runtime HostFunctions RuntimeSafety EngineState ContractApi ContractRuns LocalCells.
From S2P Require Import Witnesses EngineWitnesses.
Import ExecutionWitness.

(** * An allocator *)

(** The first four bytes hold the end of what was handed out. *)
Definition brk (m : bytes) : Z := from_le_bytes (take 4 m).

Definition good (m : bytes) : bool := (4 <=? brk m) && (brk m <=? zlen m) && (zlen m <? 2 ^ 32).

#[export] Instance demo_heap : Heap bytes := fun n m =>
  if good m && (brk m + n <=? zlen m) then Some (brk m, write_at 0 (to_le_bytes 4 (brk m + n)) m) else None.

#[export] Instance demo_heap_view : HeapView bytes := {|
  in_use m p n := good m = true /\ 4 <= p /\ 0 <= n /\ p + n <= brk m;
  room m := if good m then zlen m - brk m else 0;
|}.

Lemma good_spec m : good m = true <-> 4 <= brk m <= zlen m /\ zlen m < 2 ^ 32.
Proof. unfold good. rewrite !andb_true_iff, !Z.leb_le, Z.ltb_lt. tauto. Qed.

Lemma write_at_zlen p bs m : (p + length bs <= length m)%nat -> zlen (write_at p bs m) = zlen m.
Proof. intros Hl. unfold write_at, zlen. rewrite !length_app, length_take, length_drop. lia. Qed.

Lemma write_at_before p bs m q k :
  (q + k <= p)%nat -> (p + length bs <= length m)%nat -> take k (drop q (write_at p bs m)) = take k (drop q m).
Proof.
  intros Hq Hl. unfold write_at. rewrite drop_app_le, take_app_le by (rewrite ?length_drop, ?length_take; lia).
  rewrite <- (take_drop p m) at 2. rewrite drop_app_le, take_app_le by (rewrite ?length_drop, ?length_take; lia). done.
Qed.

Lemma write_at_after p bs m q k :
  (p + length bs <= q)%nat -> (p + length bs <= length m)%nat -> take k (drop q (write_at p bs m)) = take k (drop q m).
Proof.
  intros Hq Hl. unfold write_at. f_equal.
  rewrite drop_app_ge, drop_app_ge, drop_drop by (rewrite ?length_take; lia). f_equal. rewrite length_take. lia.
Qed.

Lemma write_at_here p bs m n :
  (length bs <= n)%nat -> (p + n <= length m)%nat ->
  take n (drop p (write_at p bs m)) = bs ++ drop (length bs) (take n (drop p m)).
Proof.
  intros Hb Hl. unfold write_at. rewrite drop_app_ge by (rewrite length_take; lia).
  rewrite length_take, Nat.min_l, Nat.sub_diag, drop_0 by lia.
  rewrite take_app_ge by lia. f_equal. rewrite skipn_firstn_comm, drop_drop. done.
Qed.

Lemma brk_write p bs m :
  (4 <= p)%nat -> (p + length bs <= length m)%nat -> brk (write_at p bs m) = brk m.
Proof. intros Hp Hl. unfold brk. pose proof (write_at_before p bs m 0 4 ltac:(lia) Hl) as E. rewrite !drop_0 in E. by rewrite E. Qed.

Lemma brk_set z m : is_unsigned 32 z -> (4 <= length m)%nat -> brk (write_at 0 (to_le_bytes 4 z) m) = z.
Proof.
  intros Hz Hl. unfold brk, write_at. rewrite take_0, app_nil_l, take_app_le by (rewrite to_le_bytes_length; lia).
  rewrite take_ge by (rewrite to_le_bytes_length; lia). by apply from_to_le_bytes_small.
Qed.

Lemma good_same m m' : zlen m' = zlen m -> brk m' = brk m -> good m' = good m.
Proof. unfold good. by intros -> ->. Qed.

Lemma mem_get_unfold p n (m : bytes) :
  mem_get p n m = if p + n <=? zlen m then Ok (take (Z.to_nat n) (drop (Z.to_nat p) m)) else Err (str "memory").
Proof. done. Qed.

#[export] Instance demo_heap_laws : HeapLaws bytes bytes.
Proof.
  split.
  - intros n m. unfold room, demo_heap_view. destruct (good m) eqn:Hg; [|lia]. intros Hn.
    pose proof (proj1 (good_spec m) Hg) as [Hb Hz]. set (m' := write_at 0 (to_le_bytes 4 (brk m + n)) m).
    assert (4 <= length m)%nat as Hl4 by (unfold zlen in *; lia).
    assert (zlen m' = zlen m) as Hzm by (apply write_at_zlen; rewrite to_le_bytes_length; lia).
    assert (brk m' = brk m + n) as Hbm by (apply brk_set; [unfold is_unsigned; lia | done]).
    assert (good m' = true) as Hg' by (apply good_spec; rewrite Hzm, Hbm; lia).
    exists (brk m), m', (take (Z.to_nat n) (drop (Z.to_nat (brk m)) m')).
    split; [unfold heap_alloc, demo_heap; rewrite Hg; cbn [andb]; by rewrite (proj2 (Z.leb_le _ _)) by lia|].
    split; [lia|]. split; [lia|]. cbn [in_use]. rewrite Hg', Hzm, Hbm. split; [lia|].
    rewrite mem_get_unfold, Hzm, (proj2 (Z.leb_le _ _)) by lia. split; [done|].
    split; [unfold zlen in *; rewrite length_take, length_drop; lia|]. split; [lia|].
    intros q k (_ & Hq & Hk & Hqk). split; [split; [done|lia]|]. split; [unfold apart; lia|].
    rewrite !mem_get_unfold, Hzm. destruct (_ <=? _); [|done]. f_equal. apply write_at_after;
      rewrite to_le_bytes_length; lia.
  - intros p n old bs m (Hg & Hp & Hn & Hpn) Hget Hbs Hold. pose proof (proj1 (good_spec m) Hg) as [Hb Hz].
    rewrite mem_get_unfold in Hget. rewrite (proj2 (Z.leb_le _ _)) in Hget by lia. apply Ok_inj in Hget as <-.
    set (m' := write_at (Z.to_nat p) bs m). assert (Z.to_nat p + length bs <= length m)%nat as Hl by (unfold zlen in *; lia).
    assert (zlen m' = zlen m) as Hzm by by apply write_at_zlen.
    assert (brk m' = brk m) as Hbm by (apply brk_write; [lia | done]).
    assert (good m' = true) as Hg' by by rewrite (good_same m m').
    exists m'. split; [unfold mem_set, demo_platform; by rewrite (proj2 (Z.leb_le _ _)) by lia|].
    split; [unfold room, demo_heap_view; by rewrite Hg, Hg', Hzm, Hbm|].
    split; [rewrite mem_get_unfold, Hzm, (proj2 (Z.leb_le _ _)) by lia; f_equal; apply write_at_here; unfold zlen in *; lia|].
    intros q k (_ & Hq & Hk & Hqk). split; [unfold in_use, demo_heap_view; rewrite Hg', Hbm; lia|]. intros Hap.
    rewrite !mem_get_unfold, Hzm. destruct (_ <=? _); [|done]. f_equal.
    destruct (Z.le_gt_cases (q + k) p); [apply write_at_before; lia|].
    destruct Hap as [Hap|Hap]; [|lia]. apply write_at_after; [|done]. unfold zlen in *. lia.
Qed.

#[export] Instance demo_results : WasmResults := fun z => Some z.

#[export] Instance demo_results_laws : WasmResultsLaws.
Proof. done. Qed.

(** * A contract and its storage *)

Definition contract_hash : bytes := replicate 32 x0c.

(** Alice calls the contract at some time with some arguments. *)
Definition contract_context (t : Z) (args : list CLValue) : RuntimeContext (list (Key * StoredValue)) Z :=
  mk_context tracking_copy_new [] ∅ alice_account args [alice] (Key_Hash contract_hash) t (replicate 32 x09) 1000 0 0 7
    (mk_semver 1 0 0) Phase_Session protocol_data_default.

Definition fresh_memory : bytes := to_le_bytes 4 4 ++ replicate 8188 x00.

Definition contract_runtime (t : Z) (args : list CLValue) : Runtime (list (Key * StoredValue)) Z bytes bytes :=
  mk_runtime ∅ fresh_memory [] None (contract_context t args).

(** A stored value of the contract. *)
Definition stored {A} (t : CLTyped A) (kb : bytes) (a : A) : Key * StoredValue :=
  (key_local blake2b_hash_new contract_hash kb,
   match from_t t a with Ok v => SV_CLValue v | _ => u64_value 0 end).

Definition stored_reader (entries : list (Key * StoredValue)) (k : Key) : outcome unit (option StoredValue) :=
  Ok (entries_get k entries).

Lemma contract_ready entries t args : ready (stored_reader entries) (contract_runtime t args).
Proof. split; [done|]. apply tracking_copy_new_inv. Qed.

(** Decides that no two of some cells share an address. *)
Lemma apart_by_computation rt cells :
  forallb (fun '(kb, kb') => bool_decide (kb = kb') || negb (bool_decide (local_key rt kb = local_key rt kb')))
    (list_prod cells cells) = true ->
  forall kb kb', In kb cells -> In kb' cells ->
    local_key (L := list (Key * StoredValue)) (G := Z) (Mem := bytes) (Module := bytes) rt kb = local_key rt kb' -> kb = kb'.
Proof.
  rewrite forallb_forall. intros Hf kb kb' Hin Hin' He. specialize (Hf (kb, kb') (in_prod _ _ _ _ Hin Hin')). cbn in Hf.
  rewrite (bool_decide_eq_true_2 _ He), orb_false_r in Hf. by apply bool_decide_eq_true_1 in Hf.
Qed.

(** A named number. *)
Definition named_entries : list (Key * StoredValue) := [stored clt_u512 (wire_vec (str "a")) 7].

(** A text of two hundred bytes under a name, read back, and a number under another
    name as before. *)
Definition long_text : bytes := replicate 200 x61.

Lemma contract_local_storage_witness :
  exists rt1 rt2 rt3,
    @storage.write_local _ _ _ _ _ _ _ _ _ (host_imports (stored_reader named_entries) chain_error true (chain_spend (stored_reader named_entries)))
      _ _ string_codec clt_string (str "b") long_text (contract_runtime 5 []) = (Ok tt, rt1)
    /\ @storage.read_local _ _ _ _ _ _ _ _ _ (host_imports (stored_reader named_entries) chain_error true (chain_spend (stored_reader named_entries)))
      _ _ string_codec string_codec (str "b") rt1 = (Ok (inl (Some long_text)), rt2)
    /\ @storage.read_local _ _ _ _ _ _ _ _ _ (host_imports (stored_reader named_entries) chain_error true (chain_spend (stored_reader named_entries)))
      _ _ string_codec u512_codec (str "a") rt1 = (Ok (inl (Some 7)), rt3).
Proof.
  destruct (contract_local_storage (stored_reader named_entries) chain_error true (chain_spend (stored_reader named_entries))
    string_codec clt_string (fun s => utf8_valid s = true) (str "b") (wire_vec (str "b")) long_text
    (mk_cl_value CL_String (wire_vec long_text))
    (match cl_value_to_bytes (mk_cl_value CL_String (wire_vec long_text)) with Ok bs => bs | _ => [] end)
    (contract_runtime 5 [])) as (rt1 & Hw & _ & Hr & Ho).
  1: apply contract_ready.
  1: exact I.
  1-7: vm_compute; (reflexivity || discriminate).
  destruct Hr as (rt2 & Hr & _); [by vm_compute|].
  destruct (Ho Z u512_codec (str "a") (wire_vec (str "a")) (Some (mk_cl_value CL_U512 [x01; x07])) (Some 7)) as (rt3 & Hr' & _).
  - by vm_compute.
  - by vm_compute.
  - intros He. apply (f_equal (fun k => match k with Key_Local a => a | _ => [] end)) in He. vm_compute in He. discriminate He.
  - split; [by vm_compute|]. split_and!; by vm_compute.
  - by vm_compute.
  - exists rt1, rt2, rt3. split; [exact Hw|]. split; [exact Hr | exact Hr'].
Defined.
