(* ===== verification/Erc20Witnesses.v ===== *)
(** The example token deployed on the machine of [ContractWitnesses], with two
    holders: inputs at which the hypotheses of the theorems on it hold. *)

From stdpp Require Import gmap.
From S2P Require Import Prelude BTreeMap Bytesrepr Uint Types CLValues Account StoredValue Transform.
From S2P Require Import Trie TrackingCopy ApiError ProtocolData ExecutionError RuntimeContext ContextSafety.
From S2P Require Import Witnesses EngineWitnesses ContractWitnesses.
From S2P Require Import ExtractURefs Runtime HostFunctions RuntimeSafety EngineState ContractApi ContractRuns LocalCells.
From S2P Require Import Erc20 Erc20Contract Erc20Runs.
Import ExecutionWitness.

Definition two_holders : list PublicKey := [alice; bob].

Lemma two_holders_keys : Forall (is_bytes 32) two_holders.
Proof. repeat constructor. Qed.

Lemma two_holders_nodup : NoDup two_holders.
Proof. apply (bool_decide_eq_true_1 (NoDup two_holders)). vm_compute. reflexivity. Qed.

(** Alice holds all of ten tokens. *)
Definition token_entries : list (Key * StoredValue) :=
  [stored clt_u512 TOTAL_SUPPLY_KEY 10; stored clt_u512 (balance_cell alice) 10; stored clt_i32 INIT_FLAG_KEY 1].

Definition token_reader := stored_reader token_entries.
Definition blank_reader := stored_reader [].

#[local] Abbreviation RT := (Runtime (list (Key * StoredValue)) Z bytes bytes).

Definition packed (api : Api) : list CLValue := match try_collect id (api_args api) with Ok vs => vs | _ => [] end.

(** Alice calls the contract with a command. *)
Definition token_runtime (api : Api) : RT := contract_runtime 5 (packed api).

#[local] Instance witness_imports : Imports (list (Key * StoredValue)) Z bytes bytes :=
  erc20_imports token_reader chain_error true (chain_spend token_reader).

#[local] Instance witness_view : TokenView RT PublicKey := token_view token_reader two_holders (Some 1).

#[local] Instance witness_laws : TokenLaws RT InterpreterError PublicKey :=
  token_laws token_reader chain_error true (chain_spend token_reader) two_holders two_holders_keys two_holders_nodup (Some 1).

Lemma cells_served entries flag cells n rt :
  flag = cell (stored_reader entries) clt_i32 rt INIT_FLAG_KEY ->
  ready (stored_reader entries) rt -> Z.of_nat n * 256 <= room (rt_memory rt) ->
  (forall kb, In kb cells -> 0 < zlen kb <= 100) ->
  cells = token_cells two_holders ->
  (forall kb, In kb cells -> cell_ok (stored_reader entries) clt_u512 (is_unsigned 512) rt kb) ->
  cell_ok (stored_reader entries) clt_i32 (is_signed 32) rt INIT_FLAG_KEY ->
  (forall kb kb', In kb (INIT_FLAG_KEY :: cells) -> In kb' (INIT_FLAG_KEY :: cells) -> local_key rt kb = local_key rt kb' -> kb = kb') ->
  ~ In INIT_FLAG_KEY cells ->
  token_serves (L := list (Key * StoredValue)) (G := Z) (Module := bytes) (stored_reader entries) two_holders flag n rt.
Proof.
  intros -> Hr Hm Hl -> Hc Hf Ha Hn. split; [split; [done | done | by intros; split; auto |]
    | split; [done | done | by intros kb [<-|[]] | by intros kb kb' [<-|[]] [<-|[]]] | done |].
  - intros kb kb' Hin Hin'. apply Ha; by right.
  - intros kb Hin He. apply Hn. rewrite (Ha INIT_FLAG_KEY kb); [done | by left | by right | done].
Qed.

Ltac token_cell :=
  first [ left; vm_compute; reflexivity
        | right; eexists 10, _; split; [by vm_compute|]; split; [by vm_compute|]; vm_compute; reflexivity
        | right; eexists 1, _; split; [by vm_compute|]; split; [by vm_compute|]; vm_compute; reflexivity ].

Ltac each_cell := intros kb Hin; vm_compute in Hin; repeat (destruct Hin as [<-|Hin]; [token_cell || by vm_compute|]); destruct Hin.

Lemma token_served api n : (n <= 30)%nat -> token_serves token_reader two_holders (Some 1) n (token_runtime api).
Proof.
  intros Hn. eapply cells_served; [vm_compute; reflexivity | apply contract_ready | | | reflexivity | | | |].
  - assert (room (rt_memory (token_runtime api)) = 8188) as -> by (vm_compute; reflexivity). lia.
  - intros kb Hin. vm_compute in Hin. repeat (destruct Hin as [<-|Hin]; [by vm_compute|]). destruct Hin.
  - each_cell.
  - token_cell.
  - apply apart_by_computation. vm_compute. reflexivity.
  - intros Hin. vm_compute in Hin. repeat (destruct Hin as [Hin|Hin]; [discriminate Hin|]). destruct Hin.
Qed.

Lemma token_ledger_ok api : ledger_ok (ledger (token_runtime api)).
Proof.
  split.
  - intros a [<-|[<-|[]]]; vm_compute; discriminate.
  - vm_compute. reflexivity.
  - vm_compute. discriminate.
  - intros a b [<-|[<-|[]]] [<-|[<-|[]]]; (split; vm_compute; discriminate).
Qed.

(** * The logic *)

(** Alice sends four tokens to bob. *)
Definition sends : TokenCall PublicKey := Call_transfer alice bob 4.

Lemma sends_ok : call_ok sends.
Proof. split; [by left|]. split; [by right; left|]. split; [split; vm_compute; discriminate | discriminate]. Qed.

Lemma sends_spec api :
  spec_call sends (ledger (token_runtime api)) = inl (move alice bob 4 (ledger (token_runtime api))).
Proof.
  unfold spec_call, sends. replace (lg_balance (ledger (token_runtime api)) alice <? 4) with false; [done|].
  symmetry. vm_compute. reflexivity.
Qed.

Lemma erc20_refines_witness :
  exists s', run_call sends (token_runtime TotalSupply) = (Ok (inl tt), s')
    /\ lg_balance (ledger s') alice = 6 /\ lg_balance (ledger s') bob = 4 /\ lg_supply (ledger s') = 10.
Proof.
  destruct (erc20_refines sends 2 (token_runtime TotalSupply) sends_ok I (token_served _ 8 ltac:(lia)) (token_ledger_ok _))
    as (r & s' & Hr & _ & _ & Hspec).
  rewrite sends_spec in Hspec. destruct Hspec as [-> (Hb & Hs & _)]. exists s'. split; [exact Hr|].
  split; [rewrite (Hb alice) by (by left); vm_compute; reflexivity|].
  split; [rewrite (Hb bob) by (by right; left); vm_compute; reflexivity|].
  rewrite Hs. vm_compute. reflexivity.
Defined.

Lemma erc20_supply_witness :
  exists s', token_step (token_runtime TotalSupply) s'
    /\ sum_over (lg_balance (ledger s')) two_holders = lg_supply (ledger s').
Proof.
  destruct (run_call sends (token_runtime TotalSupply)) as [r s'] eqn:Er.
  assert (exists x, r = Ok x) as [x ->].
  { pose proof (run_call_spec sends 0 (token_runtime TotalSupply) sends_ok I (token_served _ 6 ltac:(lia)) (token_ledger_ok _))
      as Hr. rewrite sends_spec in Hr. destruct Hr as (s2 & Hr & _). rewrite Er in Hr. injection Hr as -> _. by eexists. }
  assert (token_step (token_runtime TotalSupply) s') as Hs by (by eapply token_call; [exact sends_ok | exact Er]).
  exists s'. split; [exact Hs|].
  destruct (erc20_supply 1 (token_runtime TotalSupply) s') as [Hsum _];
    [by apply nsteps_once | apply token_served; lia | apply token_ledger_ok | exact Hsum].
Defined.

(** Alice sends three tokens to herself. *)
Lemma erc20_self_transfer_witness :
  exists s', transfer alice alice 3 (token_runtime TotalSupply) = (Ok (inl tt), s')
    /\ lg_balance (ledger s') alice = 13 /\ lg_supply (ledger s') = 10.
Proof.
  destruct (erc20_self_transfer alice 3 (token_runtime TotalSupply)) as (s' & Hr & Hb & Hs & _);
    [apply token_served; lia | apply token_ledger_ok | by left | split; vm_compute; discriminate | vm_compute; discriminate |].
  exists s'. split; [exact Hr|]. rewrite Hb, Hs. split; vm_compute; reflexivity.
Defined.

(** * The contract *)

Lemma token_invoked api n :
  (n <= 30)%nat -> api_valid api -> try_collect id (api_args api) = Ok (packed api) ->
  invoked token_reader two_holders (Some 1) n api (token_runtime api).
Proof. intros Hn Hv Ha. split; [by apply token_served | exact Ha | exact Hv | by left]. Qed.

(** Alice has ten tokens. *)
Lemma alice_balance api : lg_balance (ledger (token_runtime api)) alice = 10.
Proof. vm_compute. reflexivity. Qed.

Lemma four_fit api a :
  a = alice \/ a = bob -> overflows (Call_transfer alice a 4) (ledger (token_runtime api)) = false.
Proof. intros [-> | ->]; vm_compute; reflexivity. Qed.

(** She sends four to bob, four to herself, and cannot send eleven. *)
Lemma erc20_contract_refines_witness :
  (exists rt', erc20 (token_runtime (Transfer bob 4)) = (Ok tt, rt')
     /\ lg_balance (ledger rt') alice = 6 /\ lg_balance (ledger rt') bob = 4)
  /\ (exists rt', erc20 (token_runtime (Transfer alice 4)) = (Ok tt, rt') /\ lg_balance (ledger rt') alice = 14)
  /\ exists rt', erc20 (token_runtime (Transfer bob 11))
       = (Err (IE_Host (EE_Revert (api_error_to_u32 (failure_code (TransferFailed Transfer_NotEnoughBalance))))), rt').
Proof.
  split; [|split].
  - pose proof (erc20_contract_refines token_reader chain_error true (chain_spend token_reader) two_holders two_holders_keys
      two_holders_nodup 1 (Transfer bob 4) (Call_transfer alice bob 4) 0 (token_runtime (Transfer bob 4))) as Hr.
    unfold spec_call in Hr. fold witness_view in Hr. rewrite alice_balance, four_fit in Hr by auto.
    cbn [Z.ltb Z.compare] in Hr.
    destruct Hr as (rt' & Hr & _ & Hb & _).
    + apply token_invoked; [lia | by vm_compute | vm_compute; reflexivity].
    + reflexivity.
    + split; [by left|]. split; [by right; left|]. split; vm_compute; discriminate.
    + exists rt'. split; [exact Hr|].
      split; [refine (eq_trans (Hb alice _) _); [by left|] | refine (eq_trans (Hb bob _) _); [by right; left|]];
        vm_compute; reflexivity.
  - pose proof (erc20_contract_refines token_reader chain_error true (chain_spend token_reader) two_holders two_holders_keys
      two_holders_nodup 1 (Transfer alice 4) (Call_transfer alice alice 4) 0 (token_runtime (Transfer alice 4))) as Hr.
    unfold spec_call in Hr. fold witness_view in Hr. rewrite alice_balance, four_fit in Hr by auto.
    cbn [Z.ltb Z.compare] in Hr.
    destruct Hr as (rt' & Hr & _ & Hb & _).
    + apply token_invoked; [lia | by vm_compute | vm_compute; reflexivity].
    + reflexivity.
    + split; [by left|]. split; [by left|]. split; vm_compute; discriminate.
    + exists rt'. split; [exact Hr|]. refine (eq_trans (Hb alice _) _); [by left|]. vm_compute. reflexivity.
  - pose proof (erc20_contract_refines token_reader chain_error true (chain_spend token_reader) two_holders two_holders_keys
      two_holders_nodup 1 (Transfer bob 11) (Call_transfer alice bob 11) 0 (token_runtime (Transfer bob 11))) as Hr.
    unfold spec_call in Hr. fold witness_view in Hr. rewrite alice_balance in Hr. cbn [Z.ltb Z.compare] in Hr.
    destruct Hr as (rt' & Hr & _).
    + apply token_invoked; [lia | by vm_compute | vm_compute; reflexivity].
    + reflexivity.
    + split; [by left|]. split; [by right; left|]. split; vm_compute; discriminate.
    + exists rt'. exact Hr.
Defined.

(** The first call of a new contract. *)
Lemma blank_served api n : (n <= 30)%nat -> token_serves blank_reader two_holders None n (token_runtime api).
Proof.
  intros Hn. eapply cells_served; [vm_compute; reflexivity | apply contract_ready | | | reflexivity | | | |].
  - assert (room (rt_memory (token_runtime api)) = 8188) as -> by (vm_compute; reflexivity). lia.
  - intros kb Hin. vm_compute in Hin. repeat (destruct Hin as [<-|Hin]; [by vm_compute|]). destruct Hin.
  - each_cell.
  - token_cell.
  - apply apart_by_computation. vm_compute. reflexivity.
  - intros Hin. vm_compute in Hin. repeat (destruct Hin as [Hin|Hin]; [discriminate Hin|]). destruct Hin.
Qed.

Lemma erc20_contract_init_witness :
  exists rt', @erc20 _ _ _ _ _ _ _ _ _ (erc20_imports blank_reader chain_error true (chain_spend blank_reader))
      (token_runtime (InitErc20 25)) = (Ok tt, rt')
    /\ lg_supply (ledger (H0 := token_view blank_reader two_holders None) rt') = 25.
Proof.
  destruct (erc20_contract_init blank_reader chain_error true (chain_spend blank_reader) two_holders two_holders_keys
    two_holders_nodup None 25 0 (token_runtime (InitErc20 25))) as (r & rt' & Hr & _ & -> & (_ & Hs & _) & _).
  - split; [apply blank_served; lia | vm_compute; reflexivity | by vm_compute | by left].
  - intros _ kb Hin. vm_compute in Hin. repeat (destruct Hin as [<-|Hin]; [by vm_compute|]). destruct Hin.
  - exists rt'. split; [exact Hr|]. exact Hs.
Defined.
