(* ===== verification/VestingWitnesses.v ===== *)
(** The example vesting contract deployed on the machine of [ContractWitnesses],
    with alice as its administrator and bob as its recipient: inputs at which the
    hypotheses of the theorems on it hold. *)

From stdpp Require Import gmap.
From S2P Require Import Prelude BTreeMap Bytesrepr Uint Types CLValues Account StoredValue Transform.
From S2P Require Import Trie TrackingCopy ApiError ProtocolData ExecutionError RuntimeContext ContextSafety.
From S2P Require Import Witnesses EngineWitnesses ContractWitnesses.
From S2P Require Import ExtractURefs Runtime HostFunctions RuntimeSafety EngineState ContractApi ContractRuns LocalCells.
From S2P Require Import Vesting VestingContract VestingRuns.
Import ExecutionWitness.

(** Arrays are read with the most significant byte first. *)
#[export] Instance big_endian : U256Bytes := {|
  u256_from_array bs := from_le_bytes (rev bs);
  u256_into_array z := rev (to_le_bytes 32 z);
|}.

#[export] Instance big_endian_laws : U256BytesLaws.
Proof.
  split; intros a Ha; unfold is_bytes in Ha; cbn [u256_from_array u256_into_array big_endian].
  - pose proof (from_le_bytes_range (rev a)) as Hr. unfold zlen in Hr. rewrite length_rev, Ha in Hr. exact Hr.
  - rewrite <- (rev_involutive a) at 2. f_equal. rewrite <- Ha, <- length_rev. apply to_from_le_bytes.
Qed.

#[local] Abbreviation RT := (Runtime (list (Key * StoredValue)) Z bytes bytes).

(** What the contract stores for a vault and its two accounts. *)
Definition vault_entries (admin recipient : PublicKey) (v : Vault) : list (Key * StoredValue) :=
  map (fun '(name, z) => stored clt_u512 (wire_vec name) z) (vault_fields v)
  ++ [stored clt_u256 (wire_vec ADMIN_KEY) (u256_from_array admin);
      stored clt_u256 (wire_vec RECIPIENT_KEY) (u256_from_array recipient); stored clt_i32 INIT_FLAG_KEY 1].

Definition vault_reader (v : Vault) := stored_reader (vault_entries alice bob v).

(** A vault that bob administers for alice. *)
Definition alices_reader (v : Vault) := stored_reader (vault_entries bob alice v).

Definition packed (api : Api) : list CLValue := match try_collect id (api_args api) with Ok vs => vs | _ => [] end.

(** Alice calls the contract at the time 20 with a command. *)
Definition vault_runtime (api : Api) : RT := contract_runtime 20 (packed api).

(** Two tokens at the time 10 and seven more every three units of time; nothing
    is released. *)
Definition vault_new : Vault := mk_vault 10 2 3 7 1000 0 4 false 0 0.

(** The same with a total of ten, which is released. *)
Definition vault_spent : Vault := mk_vault 10 2 3 7 10 10 4 false 0 0.

(** The first one, paused since the time 15. *)
Definition vault_paused : Vault := mk_vault 10 2 3 7 1000 0 4 true 0 15.

(** The first one after the administrator has taken back the rest. *)
Definition vault_taken : Vault := mk_vault 10 2 3 7 1000 1000 4 false 0 0.

Definition alice_bob : Setup := set_up 1 alice bob.
Definition bob_alice : Setup := set_up 1 bob alice.

Ltac find_cell zs :=
  lazymatch zs with
  | ?z :: ?zs' =>
      first [ right; eexists z, _; split; [by vm_compute|]; split; [by vm_compute|]; vm_compute; reflexivity | find_cell zs' ]
  end.

Ltac vault_cells zs :=
  intros kb Hin; vm_compute in Hin;
  repeat (destruct Hin as [<-|Hin]; [split; [by vm_compute | find_cell zs]|]); destruct Hin.

Ltac serve n zs :=
  assert (forall api, room (rt_memory (vault_runtime api)) = 8188) as Hroom by (intros; vm_compute; reflexivity);
  split;
  [ split; [apply contract_ready | rewrite Hroom; lia | vault_cells zs | apply apart_by_computation; vm_compute; reflexivity]
  | split; [apply contract_ready | rewrite Hroom; lia
           | let a := eval vm_compute in (u256_from_array alice) in
             let b := eval vm_compute in (u256_from_array bob) in vault_cells [a; b]
           | apply apart_by_computation; vm_compute; reflexivity]
  | split; [apply contract_ready | rewrite Hroom; lia | vault_cells [1] | by intros kb kb' [<-|[]] [<-|[]]]
  | vm_compute; reflexivity
  | apply apart_by_computation; vm_compute; reflexivity
  | by vm_compute ].

Lemma new_served api n : (n <= 30)%nat -> vault_serves (vault_reader vault_new) alice_bob n (vault_runtime api).
Proof. intros Hn. serve n [10; 2; 3; 7; 1000; 0; 4]. Qed.

Lemma spent_served api n : (n <= 30)%nat -> vault_serves (vault_reader vault_spent) alice_bob n (vault_runtime api).
Proof. intros Hn. serve n [10; 2; 3; 7; 0; 4]. Qed.

Lemma paused_served api n : (n <= 30)%nat -> vault_serves (vault_reader vault_paused) alice_bob n (vault_runtime api).
Proof. intros Hn. serve n [10; 2; 3; 7; 1000; 0; 4; 1; 15]. Qed.

Lemma alices_new_served api n : (n <= 30)%nat -> vault_serves (alices_reader vault_new) bob_alice n (vault_runtime api).
Proof. intros Hn. serve n [10; 2; 3; 7; 1000; 0; 4]. Qed.

Lemma taken_served api n : (n <= 30)%nat -> vault_serves (alices_reader vault_taken) bob_alice n (vault_runtime api).
Proof. intros Hn. serve n [10; 2; 3; 7; 1000; 0; 4]. Qed.

#[local] Abbreviation imports_of v := (vesting_imports (vault_reader v) chain_error true (chain_spend (vault_reader v))).
#[local] Abbreviation view_of v := (vault_view (vault_reader v) alice_bob).
#[local] Abbreviation laws_of v := (vault_laws (vault_reader v) chain_error true (chain_spend (vault_reader v)) alice_bob).

Ltac vault_numbers := repeat (apply List.Forall_cons; [split; vm_compute; discriminate|]); apply List.Forall_nil.
Ltac vault_holds := repeat (apply List.Forall_cons; [vm_compute; reflexivity|]); apply List.Forall_nil.

(** * The logic *)

Section new_vault.
#[local] Instance new_imports : Imports (list (Key * StoredValue)) Z bytes bytes := imports_of vault_new.
#[local] Instance new_view : VestingView RT := view_of vault_new.
#[local] Instance new_laws : VestingLaws RT InterpreterError := laws_of vault_new.

Lemma new_holds api : holds (vault_runtime api) vault_new.
Proof. vault_holds. Qed.

Lemma new_ok : vault_ok vault_new.
Proof. vault_numbers. Qed.

Lemma new_timely api : timely vault_new (now (vault_runtime api)).
Proof. split; vm_compute; discriminate. Qed.

Lemma new_fits api : fits vault_new (now (vault_runtime api)).
Proof. split; vm_compute; discriminate. Qed.

Lemma new_covered api : covered (Call_withdraw 5) (now (vault_runtime api)) vault_new.
Proof. split; [split; vm_compute; discriminate|]. split; [right|]; vm_compute; discriminate. Qed.

Lemma new_spec api :
  spec_call (Call_withdraw 5) (now (vault_runtime api)) vault_new = inl (5, mk_vault 10 2 3 7 1000 5 4 false 0 0).
Proof. vm_compute. reflexivity. Qed.

(** At the time 20 five of the vested 23 tokens are withdrawn. *)
Lemma vesting_refines_witness :
  gives 1 (run_call (Call_withdraw 5)) (vault_runtime Pause) (inl 5) (mk_vault 10 2 3 7 1000 5 4 false 0 0).
Proof.
  pose proof (vesting_refines (Call_withdraw 5) 1 (vault_runtime Pause) vault_new (new_served Pause 14 ltac:(lia))
    (new_holds _) new_ok (new_timely _) (new_fits _) (new_covered _)) as Hg.
  rewrite new_spec in Hg. exact Hg.
Defined.

Lemma new_sound api : sound 100 (vault_runtime api) vault_new.
Proof.
  split; [apply new_holds | apply new_ok | apply new_timely | vm_compute; discriminate | | vm_compute; discriminate].
  split; [split; vm_compute; discriminate|]. split; vm_compute; discriminate.
Qed.

Lemma vesting_never_early_witness :
  exists s' v', run_call (Call_withdraw 5) (vault_runtime Pause) = (Ok (inl 5), s') /\ holds s' v'
    /\ 0 <= v_released v' <= vested v' (now s').
Proof.
  pose proof (vesting_refines_at (Call_withdraw 5) 0 (vault_runtime Pause) vault_new (new_served Pause 13 ltac:(lia))
    (new_holds _) new_ok (new_timely _) (new_fits _) (new_covered _)) as Hg.
  rewrite new_spec in Hg. destruct Hg as (s' & Hr & _).
  destruct (vesting_never_early 100 (vault_runtime Pause) s' vault_new) as (v' & Hh & _ & Hb); [|apply new_sound|].
  - apply rtc_once. eapply (step_call 100 _ (Call_withdraw 5)); [discriminate | apply new_served; lia | | exact Hr].
    split; vm_compute; discriminate.
  - exists s', v'. split; [exact Hr|]. split; [exact Hh | exact Hb].
Defined.
End new_vault.

Section spent_vault.
#[local] Instance spent_imports : Imports (list (Key * StoredValue)) Z bytes bytes := imports_of vault_spent.
#[local] Instance spent_view : VestingView RT := view_of vault_spent.
#[local] Instance spent_laws : VestingLaws RT InterpreterError := laws_of vault_spent.

(** Ten of ten tokens are released, and five more are withdrawn. *)
Lemma vesting_exceeds_total_witness :
  exists s', withdraw 5 (vault_runtime Pause) = (Ok (inl tt), s') /\ holds s' (mk_vault 10 2 3 7 10 15 4 false 0 0).
Proof.
  destruct (vesting_exceeds_total 5 (vault_runtime Pause) vault_spent) as (s' & Hw & Hh & _).
  - apply spent_served. lia.
  - vault_holds.
  - vault_numbers.
  - split; vm_compute; discriminate.
  - split; vm_compute; discriminate.
  - reflexivity.
  - vm_compute. discriminate.
  - split; vm_compute; (reflexivity || discriminate).
  - vm_compute. discriminate.
  - exists s'. split; [exact Hw | exact Hh].
Defined.
End spent_vault.

Section paused_vault.
#[local] Instance paused_imports : Imports (list (Key * StoredValue)) Z bytes bytes := imports_of vault_paused.
#[local] Instance paused_view : VestingView RT := view_of vault_paused.
#[local] Instance paused_laws : VestingLaws RT InterpreterError := laws_of vault_paused.

(** After a pause of five alice takes back everything, and bob's withdrawals
    abort. *)
Lemma vesting_admin_release_aborts_witness :
  exists s', admin_release (vault_runtime Pause) = (Ok (inl 1000), s') /\ stops (withdraw 0) s'.
Proof.
  destruct (vesting_admin_release_aborts (vault_runtime Pause) vault_paused) as (s' & Ha & Hw).
  - apply paused_served. lia.
  - vault_holds.
  - vault_numbers.
  - split; [|split]; vm_compute; discriminate.
  - split; vm_compute; discriminate.
  - reflexivity.
  - vm_compute. discriminate.
  - vm_compute. discriminate.
  - split; vm_compute; (reflexivity || discriminate).
  - exists s'. split; [exact Ha | apply Hw].
Defined.

(** * The contract *)

Lemma paused_invoked api n :
  (n <= 30)%nat -> api_valid api -> try_collect id (api_args api) = Ok (packed api) ->
  invoked (vault_reader vault_paused) alice_bob n api (vault_runtime api).
Proof. intros Hn Hv Ha. split; [by apply paused_served | exact Ha | exact Hv | reflexivity]. Qed.

Definition bob_purse : PurseId := uref_new (replicate 32 x08) READ_ADD_WRITE.

(** Alice is not the recipient. *)
Lemma vesting_contract_guarded_witness :
  exists rt', vesting (vault_runtime (Withdraw bob_purse 5)) = (Err (IE_Host (EE_Revert 65545)), rt').
Proof.
  destruct (vesting_contract_guarded (vault_reader vault_paused) chain_error true (chain_spend (vault_reader vault_paused))
    1 alice bob eq_refl eq_refl (Withdraw bob_purse 5) (Call_withdraw 5) 0 (vault_runtime (Withdraw bob_purse 5)))
    as (rt' & Hr & _).
  - apply paused_invoked; [lia | by vm_compute | vm_compute; reflexivity].
  - reflexivity.
  - discriminate.
  - exists rt'. exact Hr.
Defined.

End paused_vault.

(** Alice withdraws into bob's purse. *)
Lemma withdrawal_invoked v a n :
  vault_serves (alices_reader v) bob_alice n (vault_runtime (Withdraw bob_purse a)) -> is_unsigned 512 a ->
  try_collect id (api_args (Withdraw bob_purse a)) = Ok (packed (Withdraw bob_purse a)) ->
  invoked (alices_reader v) bob_alice n (Withdraw bob_purse a) (vault_runtime (Withdraw bob_purse a)).
Proof. intros Hs Ha He. split; [exact Hs | exact He | split; [by vm_compute | exact Ha] | reflexivity]. Qed.
#[local] Abbreviation alices_machine v :=
  (vesting_imports (alices_reader v) chain_error true (chain_spend (alices_reader v))).
#[local] Abbreviation alices_view v := (vault_view (alices_reader v) bob_alice).

(** Alice resumes a vault she administers, of whose 20 units of time five do not
    count then; and from a vault that bob administers for her she withdraws five of
    the 23 tokens on offer, is refused 25, and gets no answer once bob has taken back the rest. *)
Lemma vesting_contract_refines_witness :
  (exists rt', vesting (imports := imports_of vault_paused) (vault_runtime Unpause) = (Ok tt, rt')
    /\ holds (H0 := view_of vault_paused) rt' (mk_vault 10 2 3 7 1000 0 4 false 5 15))
  /\ (exists rt', vesting (imports := alices_machine vault_new) (vault_runtime (Withdraw bob_purse 5))
        = payout (alices_reader vault_new) chain_error true (chain_spend (alices_reader vault_new)) (Withdraw bob_purse 5) 5 rt'
      /\ holds (H0 := alices_view vault_new) rt' (mk_vault 10 2 3 7 1000 5 4 false 0 0))
  /\ (exists rt', vesting (imports := alices_machine vault_new) (vault_runtime (Withdraw bob_purse 25))
        = (Err (IE_Host (EE_Revert (api_error_to_u32 vesting_error.NotEnoughBalance))), rt'))
  /\ forall u rt', vesting (imports := alices_machine vault_taken) (vault_runtime (Withdraw bob_purse 5)) <> (Ok u, rt').
Proof.
  split; [|split; [|split]].
  - destruct (vesting_contract_refines (vault_reader vault_paused) chain_error true (chain_spend (vault_reader vault_paused))
      1 alice bob eq_refl eq_refl Unpause Call_unpause vault_paused 0 (vault_runtime Unpause)) as (rt' & _ & Hr & Hh).
    + apply paused_invoked; [lia | exact I | vm_compute; reflexivity].
    + reflexivity.
    + reflexivity.
    + vault_holds.
    + vault_numbers.
    + split; [|split]; vm_compute; discriminate.
    + exists rt'. split; [exact Hr | exact Hh].
  - destruct (vesting_contract_refines (alices_reader vault_new) chain_error true (chain_spend (alices_reader vault_new))
      1 bob alice eq_refl eq_refl (Withdraw bob_purse 5) (Call_withdraw 5) vault_new 0
      (vault_runtime (Withdraw bob_purse 5))) as (rt' & _ & Hr & Hh).
    + apply withdrawal_invoked; [apply alices_new_served; lia | by vm_compute | vm_compute; reflexivity].
    + reflexivity.
    + reflexivity.
    + vault_holds.
    + vault_numbers.
    + split; vm_compute; discriminate.
    + exists rt'. split; [exact Hr | exact Hh].
  - destruct (vesting_contract_refines (alices_reader vault_new) chain_error true (chain_spend (alices_reader vault_new))
      1 bob alice eq_refl eq_refl (Withdraw bob_purse 25) (Call_withdraw 25) vault_new 0
      (vault_runtime (Withdraw bob_purse 25))) as (rt' & _ & Hr & Hh).
    + apply withdrawal_invoked; [apply alices_new_served; lia | by vm_compute | vm_compute; reflexivity].
    + reflexivity.
    + reflexivity.
    + vault_holds.
    + vault_numbers.
    + split; vm_compute; discriminate.
    + exists rt'. exact Hr.
  - refine (vesting_contract_refines (alices_reader vault_taken) chain_error true (chain_spend (alices_reader vault_taken))
      1 bob alice eq_refl eq_refl (Withdraw bob_purse 5) (Call_withdraw 5) vault_taken 0
      (vault_runtime (Withdraw bob_purse 5)) _ _ _ _ _ _).
    + apply withdrawal_invoked; [apply taken_served; lia | by vm_compute | vm_compute; reflexivity].
    + reflexivity.
    + reflexivity.
    + vault_holds.
    + vault_numbers.
    + split; vm_compute; discriminate.
Defined.
