(* ===== verification/ServerWitnesses.v ===== *)
(** Concrete texts and requests at which the hypotheses of the theorems on the
    service hold. *)

From stdpp Require Import gmap.
From S2P Require Import Prelude BTreeMap Bytesrepr Uint Types CLValues Account StoredValue Transform.
From S2P Require Import Trie TrieStore TrieSpec GlobalState TrackingCopy ApiError ProtocolData ExecutionError RuntimeContext Runtime ExecutionResult.
From S2P Require Import Executor PosContract EngineState InMemoryState Witnesses EngineWitnesses Ipc StateMappings IpcMappings EngineServer.
Import ExecutionWitness.

(** * Texts *)

#[export] Instance demo_uint_text : UintText := {
  uint_display z := dec_digits 155 z [];
  uint_from_dec_str w s :=
    if forallb (fun b => (48 <=? byte_to_Z b) && (byte_to_Z b <=? 57)) s
    then if dec_value s 0 <? 2 ^ w then inl (dec_value s 0) else inr (str "InvalidLength")
    else inr (str "InvalidCharacter");
}.

#[export] Instance demo_uint_text_laws : UintTextLaws.
Proof.
  intros w z Hw [H0 H1]. cbn [uint_display uint_from_dec_str demo_uint_text].
  assert (2 ^ w <= 2 ^ 512) as Hle by (apply Z.pow_le_mono_r; lia).
  destruct (dec_digits_shape 155 z []) as [_ Hs]; [constructor | lia |].
  assert (forallb (fun b => (48 <=? byte_to_Z b) && (byte_to_Z b <=? 57)) (dec_digits 155 z []) = true) as ->.
  { apply forallb_forall. intros b Hb. rewrite List.Forall_forall in Hs. specialize (Hs b Hb).
    apply andb_true_iff. split; apply Z.leb_le; lia. }
  assert (dec_value (dec_digits 155 z []) 0 = z) as ->.
  { rewrite dec_digits_value; [done | | lia]. split; [done|]. apply (Z.lt_le_trans _ (2 ^ w)); [lia|].
    apply (Z.le_trans _ (2 ^ 512)); [done | by vm_compute]. }
  by rewrite (proj2 (Z.ltb_lt z (2 ^ w))) by lia.
Qed.

#[local] Existing Instance chain_provider.
#[local] Instance plain_debug {A} : Debug A := fun _ => [].
#[local] Instance plain_display {A} : Display A := fun _ => [].

(** * A request with a deploy that runs and one that does not parse *)

Definition demo_request : ipc.ExecuteRequest :=
  ipc.mk_ExecuteRequest (replicate 32 x00) 0
    [deploy_item_into chain_item; ipc.mk_DeployItem [] None None 0 [] []] (Some (state.mk_ProtocolVersion 1 0 0)).

Definition parsed_request : ExecuteRequest :=
  mk_execute_request (replicate 32 x00) 0 [inl chain_item; inr (precondition_failure ES_DeployError)] (mk_semver 1 0 0).

(** The account crosses; a refused deploy is read back as one that does not parse. *)
Lemma messages_roundtrip_witness :
  stored_value_try_from (stored_value_into (SV_Account alice_account)) = Ok (SV_Account alice_account)
  /\ let request deploys := mk_execute_request (replicate 32 x00) 0 deploys (mk_semver 1 0 0) in
     execute_request_try_from (execute_request_into
         (request [inl chain_item; inr (precondition_failure ES_AuthorizationError)]))
       = Ok (request [inl chain_item; inr (precondition_failure ES_DeployError)]).
Proof.
  destruct messages_roundtrip as (Hv & _ & _ & Hr & _). split.
  - apply Hv. cbn [stored_value_portable].
    split; [reflexivity|]. split; [split; repeat constructor|]. split; [split; [split; [reflexivity | split; by vm_compute] | discriminate]|].
    split; [split; [split; [repeat constructor | split; [repeat constructor; by vm_compute | by vm_compute]] | by vm_compute]|].
    split; [split; cbn; unfold is_unsigned; lia | cbn; lia].
  - apply Hr. split; [reflexivity|]. repeat constructor; vm_compute; reflexivity.
Defined.

(** Neither the fee nor the empty result contains a value that was not serialized. *)
Definition serialized (r : ExecutionResult) : bool :=
  forallb (fun e => match e.2 with Transform.Failure (TE_Serialization _) => false | _ => true end)
    (map_to_list (effect_transforms (result_effect r))).

Lemma serialized_reportable r : serialized r = true -> ~ unreportable r.
Proof.
  intros Hs (_ & k & e & Hk). unfold serialized in Hs. rewrite forallb_forall in Hs.
  apply elem_of_map_to_list, list_elem_of_In, Hs in Hk. discriminate Hk.
Qed.

(** A deploy runs, the other one does not parse; both are answered. *)
Lemma executed_effects_commit_witness :
  exists results pb pb' self', execute chain_error chain_spend demo_request chain_engine
      = (Ok (ipc.execute_success [pb; pb']), self')
    /\ Forall2 reported results [pb; pb']
    /\ nth 1 results (Success effect_default 0) = precondition_failure ES_DeployError.
Proof.
  destruct (run_execute chain_error chain_spend parsed_request chain_engine) as [o self'] eqn:Er.
  assert (match (run_execute chain_error chain_spend parsed_request chain_engine).1 with
          | Ok [r; r'] => serialized r && serialized r' | _ => false end = true) as Hc by (vm_compute; reflexivity).
  rewrite Er in Hc. destruct o as [results|?|]; try discriminate Hc. cbn [fst] in Hc.
  destruct results as [|r [|r' [|]]]; try discriminate Hc. apply andb_true_iff in Hc as [Hr Hr'].
  destruct (executed_effects_commit chain_error (fun _ => ES_DeployError) chain_spend demo_request parsed_request
    [r; r'] chain_engine self') as ((costs & _ & Hdeploys) & _ & Hsent); [vm_compute; reflexivity | exact Er|].
  destruct Hsent as (pbs & He & Hf).
  { repeat constructor; by apply serialized_reportable. }
  apply Forall2_cons_inv_l in Hf as (pb & l & [Hpb _] & Hf & ->). apply Forall2_cons_inv_l in Hf as (pb' & l' & [Hpb' _] & Hf & ->).
  apply Forall2_nil_inv_l in Hf as ->. exists [r; r'], pb, pb', self'. split; [exact He|]. split; [by repeat constructor|].
  apply Forall2_cons_inv_l in Hdeploys as (x & l & _ & Hd & El). apply Forall2_cons_inv_l in Hd as (x' & l' & Hx & _ & El').
  rewrite El' in El. injection El as _ ->. exact Hx.
Defined.

(** * A query on an in-memory state with an account and a value it names *)

Definition queried_effects : list (Key * Transform) :=
  [(Key_Account alice, Write (SV_Account named_account)); (key3, Write (u64_value 3))].

Definition queried_empty : InMemoryData * Blake2bHash :=
  match global_state_empty trie_store with Ok x => x | _ => (∅, []) end.

Definition queried_state : InMemoryData * Blake2bHash :=
  default queried_empty (after_commit (GlobalState.commit trie_store queried_empty.1 queried_empty.2 queried_effects)).

Definition queried_engine : EngineState InMemoryGlobalState bytes :=
  mk_engine_state ∅ (mk_in_memory_global_state queried_state.1 queried_empty.2).

Lemma queried_state_wf :
  root_wf key_codec stored_value_codec trie_store key_valid stored_value_valid queried_state.1 queried_state.2.
Proof.
  assert (root_wf key_codec stored_value_codec trie_store key_valid stored_value_valid queried_empty.1 queried_empty.2) as H0.
  { destruct (global_state_empty_spec trie_store) as (data & root & E & Hwf & _). unfold queried_empty. rewrite E. exact Hwf. }
  refine (proj1 (commit_success trie_store queried_empty.1 queried_empty.2 queried_effects queried_state.1 queried_state.2 []
    H0 _ _ _ _)).
  - repeat constructor; by vm_compute.
  - repeat constructor; [by intros [[=]|[]] | by intros []].
  - vm_compute. reflexivity.
  - apply after_commit_inv. unfold queried_state.
    assert (match after_commit (GlobalState.commit trie_store queried_empty.1 queried_empty.2 queried_effects) with
            | Some _ => true | None => false end = true) as Hs by (vm_compute; reflexivity).
    by destruct (after_commit _) as [[data root]|].
Qed.

Definition alice_query (path : list bytes) : ipc.QueryRequest :=
  ipc.mk_QueryRequest queried_state.2 (Some (key_into (Key_Account alice))) path None.

(** The name leads to the value, and another one nowhere. *)
Lemma query_answered_witness :
  (exists bs, query (L := list (Key * StoredValue)) to_storage (alice_query [str "total"]) queried_engine
       = (Ok (ipc.query_success bs), queried_engine)
     /\ deserialize stored_value_codec bs = Ok (u64_value 3))
  /\ exists msg, query (L := list (Key * StoredValue)) to_storage (alice_query [str "absent"]) queried_engine
       = (Ok (ipc.query_failure msg), queried_engine).
Proof.
  split.
  - destruct (query_answered (L := list (Key * StoredValue)) to_storage (Key_Account alice) [str "total"] queried_state.2 None
      queried_engine) as [_ Hq]; [reflexivity | vm_compute; reflexivity|].
    destruct (Hq queried_state_wf) as [Hv _]. destruct (Hv (u64_value 3)) as [Hb|(e & He & _)]; [|exact Hb | vm_compute in He; discriminate He].
    apply (resolve_leads (L := list (Key * StoredValue))); [exact queried_state_wf | reflexivity | vm_compute; reflexivity].
  - destruct (query_answered (L := list (Key * StoredValue)) to_storage (Key_Account alice) [str "absent"] queried_state.2 None
      queried_engine) as [_ Hq]; [reflexivity | vm_compute; reflexivity|].
    destruct (Hq queried_state_wf) as [_ Hn]. destruct Hn as [full_path Hf]; [|eexists; exact Hf].
    intros v Hl. apply (resolve_leads (L := list (Key * StoredValue))) in Hl; [|exact queried_state_wf | reflexivity].
    vm_compute in Hl. discriminate Hl.
Defined.
