(* ===== verification/MintWitnesses.v ===== *)
(** The mint deployed on the machine of [ContractWitnesses], with two purses: an
    input at which the theorem on its transfers applies. *)

From stdpp Require Import gmap.
From S2P Require Import Prelude BTreeMap Bytesrepr Uint Types CLValues Account StoredValue Transform.
From S2P Require Import Trie TrackingCopy ApiError ProtocolData ExecutionError RuntimeContext ContextSafety.
From S2P Require Import Witnesses EngineWitnesses ContractWitnesses.
From S2P Require Import ExtractURefs Runtime HostFunctions RuntimeSafety EngineState ContractApi ContractRuns LocalCells.
From S2P Require Import URefCells SystemContracts MintRuns.
Import ExecutionWitness.

#[local] Abbreviation RT := (Runtime (list (Key * StoredValue)) Z bytes bytes).

(** A purse, and the reference to its balance. *)
Definition demo_purse (b : byte) : URef := uref_new (replicate 32 b) READ_ADD_WRITE.

Definition balance_entry (u : URef) (z : Z) : Key * StoredValue :=
  (cell_key (uref_addr u), match from_t clt_u512 z with Ok v => SV_CLValue v | _ => u64_value 0 end).

(** One purse holds ten, another three. *)
Definition purse_entries : list (Key * StoredValue) :=
  [stored clt_key (replicate 32 x21) (Key_URef (demo_purse x31)); balance_entry (demo_purse x31) 10;
   stored clt_key (replicate 32 x22) (Key_URef (demo_purse x32)); balance_entry (demo_purse x32) 3].

Definition purse_reader := stored_reader purse_entries.

(** The mint has the rights to both balances. *)
Definition mint_runtime (args : list CLValue) : RT :=
  mk_runtime ∅ fresh_memory [] None
    (mk_context tracking_copy_new []
      {[ replicate 32 x31 := {[ READ_ADD_WRITE ]}; replicate 32 x32 := {[ READ_ADD_WRITE ]} ]} alice_account args [alice]
      (Key_Hash contract_hash) 5 (replicate 32 x09) 1000 0 0 7 (mk_semver 1 0 0) Phase_Session protocol_data_default).

Definition transfer_args (amount : Z) : list CLValue :=
  match try_collect id [from_t clt_string METHOD_TRANSFER; from_t clt_uref (demo_purse x21);
                        from_t clt_uref (demo_purse x22); from_t clt_u512 amount] with Ok vs => vs | _ => [] end.

Lemma mint_runtime_called args : mint_called purse_reader (mint_runtime args) args.
Proof. split; [split; [done | apply tracking_copy_new_inv] | vm_compute; discriminate | done]. Qed.

Lemma demo_purse_ok args b b' x :
  In (b, b', x) [(x21, x31, 10); (x22, x32, 3)] -> purse_ok purse_reader (mint_runtime args) (replicate 32 b).
Proof.
  intros Hin. split; [done|]. right. exists (demo_purse b'), 
    (match from_t clt_key (Key_URef (demo_purse b')) with Ok v => v | _ => mk_cl_value CL_Unit [] end), x,
    (match from_t clt_u512 x with Ok v => v | _ => mk_cl_value CL_Unit [] end).
  destruct Hin as [[= <- <- <-]|[[= <- <- <-]|[]]]; repeat split; vm_compute; first [reflexivity | discriminate].
Qed.

(** Four are moved. *)
Lemma mint_contract_transfers_witness :
  exists rt', mint_delegate (imports := host_imports purse_reader chain_error true (chain_spend purse_reader))
      hex_encode (mint_runtime (transfer_args 4)) = (Err (IE_Host (EE_Ret [])), rt')
    /\ balance_in purse_reader rt' (replicate 32 x21) = Some 6 /\ balance_in purse_reader rt' (replicate 32 x22) = Some 7.
Proof.
  destruct (mint_contract_transfers purse_reader chain_error true (chain_spend purse_reader) hex_encode (demo_purse x21)
    (demo_purse x22) 4 _ _ _ _ (mint_runtime (transfer_args 4)) (mint_runtime_called _)) as (rt' & v & Hr & _ & _ & Ht).
  - by vm_compute.
  - by vm_compute.
  - by vm_compute.
  - by vm_compute.
  - by vm_compute.
  - by vm_compute.
  - by vm_compute.
  - eapply demo_purse_ok. by left.
  - eapply demo_purse_ok. right. by left.
  - exists rt'. split; [exact Hr|].
    assert (transfer_result purse_reader (mint_runtime (transfer_args 4)) (demo_purse x21) (demo_purse x22) 4 = inl tt)
      as Er by (vm_compute; reflexivity).
    rewrite Er in Ht. destruct Ht as (from & to & x & y & Ef & Et & Hp & _). unfold balance_in.
    rewrite (proj2 (Hp _ (demo_purse_ok _ x21 x31 10 (or_introl eq_refl)))).
    rewrite (proj2 (Hp _ (demo_purse_ok _ x22 x32 3 (or_intror (or_introl eq_refl))))).
    vm_compute in Ef, Et. injection Ef as <- _. injection Et as <- _. split; vm_compute; reflexivity.
Defined.
