(* ===== verification/MetricsWitnesses.v ===== *)
(** Concrete runs of the log and of the metrics scraper, on which the hypotheses of
    their theorems hold. *)

From stdpp Require Import list.
From S2P Require Import Prelude BTreeMap Types StoredValue Logging Metrics.

#[local] Instance log_level_eq_dec : EqDecision LogLevel.
Proof. solve_decision. Defined.

#[local] Instance log_message_eq_dec : EqDecision LogMessage.
Proof. solve_decision. Defined.

(** * Settings *)

Definition node_settings (name : bytes) : LogSettingsProvider :=
  settings_provider (settings_new 42 (Some (str "host")) name (from_input (Some (str "metric")))).

(** References to the silent provider and to two others. *)
Definition nop_ref : Settings.ProviderRef := Settings.mk_provider_ref 100 200.
Definition ref_a : Settings.ProviderRef := Settings.mk_provider_ref 110 210.
Definition ref_b : Settings.ProviderRef := Settings.mk_provider_ref 120 210.

(** Two threads set the provider and three read it: one is done when the settings
    are in place, one comes to its first read during the assignment, one comes later. *)
Definition settings_threads : list Settings.Thread :=
  [Settings.SetExchange ref_a; Settings.SetExchange ref_b; Settings.GetLoad; Settings.GetLoad; Settings.GetLoad].

Definition settings_placed : Settings.Process :=
  Settings.schedule Settings.Data Settings.Vtable [2; 2; 2; 3; 0; 1; 0; 3; 4; 0; 1; 0]%nat
    (Settings.initial nop_ref settings_threads).

Definition settings_later : Settings.Process :=
  Settings.schedule Settings.Data Settings.Vtable [1; 1; 3; 4; 4; 4]%nat settings_placed.

Lemma settings_set_once_witness :
  Settings.statics settings_placed = Settings.mk_statics 2 ref_a
  /\ Settings.statics settings_later = Settings.statics settings_placed
  /\ Settings.threads settings_later !! 4%nat = Some (Settings.GetDone ref_a)
  /\ Settings.threads settings_later !! 3%nat = Some (Settings.GetDone (Settings.mk_provider_ref 110 200))
  /\ forall q, Settings.threads settings_later !! 4%nat = Some (Settings.GetDone q) -> q = ref_a.
Proof.
  split; [reflexivity|].
  destruct (Settings.settings_set_once Settings.Data Settings.Vtable nop_ref settings_threads
    [2; 2; 2; 3; 0; 1; 0; 3; 4; 0; 1; 0]%nat [1; 1; 3; 4; 4; 4]%nat) as (_ & Hst & Hlate & _).
  - repeat constructor.
  - reflexivity.
  - split; [exact Hst|]. split; [reflexivity|]. split; [reflexivity|]. intros q. by apply (Hlate 4%nat q).
Defined.

(** * The accumulator *)

(** A push during a drain, and one that finds the time up. *)
Definition accumulator_events : list (Accumulator.Event Z) :=
  [Accumulator.Push 1 10; Accumulator.Push 2 11; Accumulator.DrainLock 0; Accumulator.Push 3 12; Accumulator.DrainTake 0 4;
   Accumulator.Push 5 13; Accumulator.Push 20 14].

Lemma accumulator_order_witness :
  let r := Accumulator.run accumulator_events (Accumulator.start 5 0) in
  Accumulator.drained r = [10; 11] /\ Accumulator.content (Accumulator.acc r) = [13; 14] /\ Accumulator.late r = 1%nat
  /\ Accumulator.drained r ++ Accumulator.main (Accumulator.acc r) ++ Accumulator.alt (Accumulator.acc r) `sublist_of` Accumulator.pushed r.
Proof.
  intros r. split_and!; [vm_compute; reflexivity..|].
  exact (proj1 (Accumulator.accumulator_order 5 0 accumulator_events)).
Defined.

(** * The scraper *)

Definition witness_system (ms : Z) : LogSystem :=
  {| now_rfc3339 := str "2020-05-28T10:00:00.000Z"; millis_since_epoch := Some ms;
     default_hash := fun _ _ _ _ _ _ _ _ _ => ms |}.

Definition witness_call (ms : Z) (metric : bytes) : MetricCall :=
  mk_call (witness_system ms) ms (str "38b81cd8") metric (str "write") (str "duration_in_seconds")
    (mk_f64 (str "0.5") (str "0.5")).

Definition witness_calls : list MetricCall := [witness_call 1000 (str "commit"); witness_call 1007 (str "exec")].

Definition witness_message (i : nat) : LogMessage :=
  call_message (node_settings (str "engine")) (witness_call (match i with O => 1000 | _ => 1007 end) (match i with O => str "commit" | _ => str "exec" end)).

(** A text for each of the two messages. *)
#[local] Instance witness_json : Json := {
  json_to_string m :=
    if decide (m = witness_message 0) then Some (str "0") else if decide (m = witness_message 1) then Some (str "1") else None;
  json_from_str text :=
    if decide (text = str "0") then Some (line_item_of (witness_message 0))
    else if decide (text = str "1") then Some (line_item_of (witness_message 1)) else None;
}.

#[local] Instance witness_json_laws : JsonLaws.
Proof.
  split; cbn [json_to_string json_from_str witness_json]; intros m text;
    (destruct (decide (m = witness_message 0)) as [->|]; [|destruct (decide (m = witness_message 1)) as [->|]; [|done]]);
    injection 1 as <-; vm_compute; intuition congruence.
Qed.

Definition witness_log : LogState := mk_log_state None get_buffered_logger [] (node_settings (str "engine")).

Lemma witness_plain ms : plain_names (sys := witness_system ms) (node_settings (str "engine")).
Proof. split_and!; apply List.Forall_forall; vm_compute; intuition congruence. Qed.

Lemma metrics_served_witness :
  exists s' a a',
    log_calls witness_calls witness_log = (Ok tt, s')
    /\ start_sink (zip [3; 4] (map Some (lines [] (printed (stdout s'))))) (Accumulator.new 5 0) = (Ok tt, a)
    /\ handler (str "/metrics") (mk_request (str "GET") (str "/metrics")) 5 a
         = Some (mk_response 200 (str "commit{tag=" ++ [x22] ++ str "write" ++ [x22] ++ str "} 0.5 1000" ++ [x0a]
             ++ str "exec{tag=" ++ [x22] ++ str "write" ++ [x22] ++ str "} 0.5 1007"), a')
    /\ Accumulator.content a' = [].
Proof.
  refine (metrics_served witness_calls witness_log 5 0 [3; 4] 5 (str "/metrics") _ _ _ _ _ _).
  - discriminate.
  - reflexivity.
  - reflexivity.
  - constructor; [|constructor; [|constructor]].
    all: split; [reflexivity | apply witness_plain | discriminate | vm_compute; eauto].
  - reflexivity.
  - repeat constructor; discriminate.
Defined.
