(* ===== verification/LmdbWitnesses.v ===== *)
(** A database in the manner of LMDB, kept in a finite map, on which the hypotheses
    of the theorem on the backends hold, and a run of requests on it. *)

From stdpp Require Import gmap.
From S2P Require Import Prelude BTreeMap Bytesrepr Uint Types CLValues Account StoredValue Transform.
From S2P Require Import Trie TrieStore GlobalState StoreSim ProtocolData EngineState InMemoryState LmdbState Witnesses.

Abbreviation Pages := (gmap (bytes * bytes) bytes).

(** Only a key that is not there is an error. *)
Inductive PagesError := PagesNotFound.

#[local] Instance pages : Lmdb Pages Pages bytes PagesError := {
  is_not_found _ := true;
  begin_ro_txn env := Ok env;
  begin_rw_txn env := Ok env;
  mdb_get t db k := match t !! (db, k) with Some v => Ok v | None => Err PagesNotFound end;
  mdb_put t db k v := Ok (<[ (db, k) := v ]> t);
  mdb_commit_ro _ := Ok tt;
  mdb_commit_rw _ t := Ok t;
  create_db env name _ := Ok (env, default [] name);
  open_db _ name := Ok (default [] name);
}.

#[local] Instance pages_laws : LmdbLaws Pages Pages bytes PagesError.
Proof.
  assert (forall (env t : Pages), opens env t -> t = env) as Ho by (intros env t [[= ->]|[= ->]]; done).
  split; cbn; try done.
  - intros t t' db k v [= <-]. by rewrite lookup_insert_eq.
  - intros t t' db k v db' k' [= <-] Hne. by rewrite lookup_insert_ne.
  - by intros env t t' db k ->%Ho ->%Ho.
  - by intros env env' t t' db k [= ->] ->%Ho.
  - intros t db k. by destruct (t !! (db, k)).
Qed.

Definition pages_trie : bytes := match lmdb_trie_store_new (∅ : Pages) None 0 with Ok (_, db) => db | _ => [] end.
Definition pages_data : bytes := match lmdb_protocol_data_store_new (∅ : Pages) None 0 with Ok (_, db) => db | _ => [] end.

Definition pages_state : LmdbGlobalState Pages bytes :=
  match lmdb_state_empty (∅ : Pages) pages_trie pages_data with
  | Ok ls => ls
  | _ => mk_lmdb_global_state ∅ [] [] []
  end.

Definition pages_root : Blake2bHash := ls_empty_root_hash pages_state.

(** The root after a first commit. *)
Definition pages_effects : gmap Key Transform :=
  {[ Key_Hash (replicate 32 x01) := Write (SV_CLValue (mk_cl_value CL_U64 (to_le_bytes 8 7))) ]}.

Definition pages_next : Blake2bHash :=
  match (ls_commit pages_root pages_effects pages_state).1 with Ok (CR_Success root _) => root | _ => [] end.

Definition pages_requests : list Request :=
  [AskEmptyRoot; AskCommit pages_root pages_effects; AskRead pages_next (Key_Hash (replicate 32 x01));
   AskRead pages_root (Key_Hash (replicate 32 x01)); AskGet (mk_semver 1 0 0)].

Lemma pages_created : lmdb_state_empty (∅ : Pages) pages_trie pages_data = Ok pages_state.
Proof.
  assert (match lmdb_state_empty (∅ : Pages) pages_trie pages_data with Ok _ => true | _ => false end = true) as E
    by (vm_compute; reflexivity).
  unfold pages_state. by destruct (lmdb_state_empty (∅ : Pages) pages_trie pages_data).
Qed.

Definition pages_answers : list Answer :=
  [EmptyRoot pages_root; Committed (CR_Success pages_next []);
   ReadAs (Some (Some (SV_CLValue (mk_cl_value CL_U64 (to_le_bytes 8 7))))); ReadAs (Some None); Data None].

Lemma pages_answered : (ask_all pages_requests pages_state).1 = Ok pages_answers.
Proof. vm_compute. exact eq_refl. Qed.

Lemma lmdb_indistinguishable_witness :
  exists ms, in_memory_state_empty = Ok ms /\ (ask_all pages_requests ms).1 = Ok pages_answers.
Proof.
  destruct (lmdb_indistinguishable pages_trie pages_data ltac:(by vm_compute) (∅ : Pages) pages_state pages_requests) as (ms & Em & Ha).
  - intros t k [[= <-]|[= <-]]; by vm_compute.
  - exact pages_created.
  - exists ms. split; [exact Em|]. rewrite pages_answered in Ha. exact Ha.
Defined.
